(* ===== verification/_CoqProject ===== *)
-Q . S2P
Prelude.v
Wire.v
HashPair.v
Store.v
LogTable.v
Metadata.v
Merge.v
MetadataInv.v
ChainInv.v
MetadataSpec.v
RehashInv.v
MergeSpec.v
PruneSpec.v
Teardown.v
LookupSpec.v
Scan.v
ScanSpec.v
ErrorHandling.v
PreHash.v
Handoff.v
Conn.v
Server.v
Growable.v
Shadow.v
Scatter.v
Advisor.v
AdvisorProps.v
HostMem.v
HostTree.v
HostTreeInv.v
HostMerge.v
HostApply.v
HostScan.v
HostLocal.v
HostDaemon.v
LocalScan.v
HostSafe.v
HostMergeSafe.v
HostApplySafe.v
HostTrack.v
HostTrackInsert.v
HostTrackLink.v
HostStays.v
HostTrackMerge.v
HostTrackApply.v
HostAgree.v
HostItems.v
HostScanInv.v
HostLocalSafe.v
HostLocalTrack.v
HostScanWalk.v
HostScanMm.v
HostScanRound.v
HostScanIter.v
HostScanQuiet.v
HostUnmerge.v
LocalScanInv.v
LocalScanPass.v
HostReturns.v
HostScanReturns.v
HostReturnsMerge.v
HostNamed.v
HostReturnsApply.v
LocalReturns.v
HostRoundReturns.v
HostSteps.v
Examples.v
HostExact.v
HostExamples.v
DaemonExamples.v
Client.v
RoundProps.v
MetadataProps.v
FaultProps.v
ThreadProps.v
ConnProps.v
HostProps.v
ClientProps.v
KsmProps.v
DaemonProps.v
