(* ===== verification/Prelude.v ===== *)
(** * BASK: kernel same-page merging offloaded to a SmartNIC

    The host kernel (codes/mm) lists the pages of the processes that allow
    merging; a server on a SmartNIC (codes/bask/server.c, server.h) reads them
    over RDMA, hashes them, decides which are equal and sends back a log of
    merges; the host applies the log to its page tables and returns the
    merges it could not apply.  A second mode offloads single page comparisons
    and hashes.

    ** Parts and files

    - [Prelude]: outcomes ([Ok], [Halt] for [debug_stop], [Fault] for an invalid
      access), the state monad [M] with its rules, C integers, and the tactics
      [wp_step] and [pwp_step].  [wp m s Q]: [m] returns, in [Q].  [pwp]: if it
      returns, then in [Q]; used beside a proof that it returns, and for
      what depends on the machine around.  [returns]: it returns.  [ewp E], [ends E]:
      it returns, or stops with a message of [E]; it never faults.

    The server (codes/bask/server.c, server.h, rdma_common.h):

    - [Wire]: the structures on the wire.  [HashPair]: page hashes, smart-scan
      back-off.
    - [Store]: the server's heap (items, stable nodes), its GLib containers and
      counters; [LogTable]: the event log; [Metadata]: every operation of
      server.h on them; [Merge]: [lookup_rmap_item] and [cmp_and_merge_one]
      (and [_old]) of server.c.
    - [MetadataInv], [ChainInv]: the representation invariant [metadata_ok]: the
      rmap tree indexes the items, every stable node holds exactly the stable
      items pointing to it and at most 256 of them, the nodes of a hash form one
      doubly linked chain headed in the hash table, the unstable table holds the
      unstable items.  [MetadataSpec], [RehashInv], [MergeSpec], [PruneSpec],
      [Teardown], [LookupSpec]: the specifications of the operations against
      it; the abstract state is [sharing_view], which page shares which frame,
      and the contract of the log is [replay], what a reader of the log does to
      that map.
    - [Scan], [ScanSpec]: [do_ksm_v3] and [ksm_page_worker]; [ErrorHandling]:
      [do_handle_error]; [Server]: a round of [on_established] and a request of
      [on_established_ops_offload_mode].
    - [PreHash], [Handoff]: the two inter-thread protocols, as step relations
      with one transition per critical section.
    - [Conn]: connection resources, clean-up, event loop and options.

    The host's tables and its client (codes/mm/ksm_shadow.c, ksm_rdma.c;
    codes/bask/client_stub.c, client_stub.h):

    - [Growable], [Shadow]: shadow page tables and the error table, on one growable
      array of arrays; [Scatter]: the registration loops; [Client]: the
      connection, the requests, the log received.

    The host's daemon (codes/mm/ksm.c):

    - [HostMem]: frames, page tables and areas; items, stable nodes, counters
      and settings; what the processes do meanwhile.  [HostTree]: the stable
      tree.  [HostMerge]: replacing a page by a shared one.  [HostApply]:
      [apply_result].  [HostScan]: [prepare_metadata], [destroy_metadata] and the
      offload branch of [ksm_do_scan].  [HostDaemon]: [ksm_madvise],
      [__ksm_enter], [__ksm_exit], [run_store].  [HostSteps]: all of them as
      steps of one machine.
    - Without a server: [HostLocal], [cmp_and_merge_page] with its searches of
      the stable and unstable trees and the smart scan; [LocalScan],
      [scan_get_next_rmap_item] and the batches of [ksm_do_scan]; [Advisor], how
      many pages make a batch, with [AdvisorProps].  What they keep:
      [HostLocalSafe] (memory), [HostLocalTrack] (the trees), [LocalScanInv] and
      [LocalScanPass] (the scan: [paused], between two batches); that a batch
      comes to an end: [LocalReturns].
    - Memory, whatever the log: [HostSafe] (the relation [from]: what the
      daemon may change since a given state, and the references and locks it
      holds more), followed through the operations in [HostMergeSafe],
      [HostApplySafe].
    - The stable tree: [HostTreeInv] ([ksm_ok], and [sharing], the node and
      frame of every item), [HostTrack] (the relation [track]), followed through
      [HostTrackInsert], [HostTrackLink], [HostTrackMerge], [HostTrackApply];
      [HostAgree] compares it with the server's prediction.  [HostStays],
      [HostItems]: what calls need, and what they leave alone.
    - The scan: [HostScanInv] ([scan_inv], on top of [from] and [track]: every
      process's list holds exactly its items, in order of address), then, from
      the inside out, [HostScanWalk], [HostScanMm],
      [HostScanRound], [HostScanIter] ([ready], the daemon at rest);
      [HostScanQuiet]: the scan when nothing else runs; [HostUnmerge]: the
      other operations keep [ready].
    - That it comes to an end: [HostReturns] (unmerging), [HostScanReturns] (the scan),
      [HostReturnsMerge], [HostNamed], [HostReturnsApply] (the log),
      [HostRoundReturns] (an iteration).  [HostExact]: a stable merge on a quiet
      machine, step by step.

    [Examples], [HostExamples], [DaemonExamples]: a concrete hash, server, host
    and daemon used by the witnesses.  [RoundProps], [MetadataProps],
    [FaultProps], [ThreadProps], [ConnProps], [HostProps], [ClientProps],
    [KsmProps], [DaemonProps]: the properties of the program.

    ** What the theorems show

    - The server: one page (C1), a pass (C2), a round (C3): it returns, keeps
      its invariant, never lets two different pages share a frame, and its log
      replays to exactly the change of the sharing.  C15, C16: undoing failed
      merges.
    - The daemon: C4, the state is well formed whatever the processes and the
      server do.
    - The log: C5, whatever it says no process reads anything but what it
      stored; C6, the sharing changes as the log and its outcomes say, failures
      are reported, and merges of listed pages end; C7, server and host
      agree again; C13, the structures are kept; C14, when exactly a merge
      happens; C18, the entry that stops the host; C19, the search ends.
    - The scan: C8, what the server reads is what was listed; C9, what is
      listed is what is there; C11, the references of an iteration, and its end;
      C12, without a server the scan keeps memory and the structures too, and
      every batch ends.
    - Unmerging: C10, everything is undone; C20, the tree is dissolved.
    - The server's metadata, log and back-off, operation by operation: C17, C21
      to C26.  The advisor of the local scan: C27.
    - The threads, C28 to C32: pre-computed hashes are right, stop requests are
      answered, page buffers are live while scanned, every table with a page is
      finished in every schedule.
    - Connections and single requests of the server, C33 to C35; the host's
      tables round trip, C36 and C37; the client, C38 to C40: connection
      attempts, the log received whole, the single operations end to end.

    ** Bounds and fuel

    Walks along [chain.next] and [chain.prev] carry the number of live nodes as
    fuel; under the invariant a chain has no repetition, so it suffices, and the
    [wp] theorems prove it does.  [cmp_and_merge_one] goes back to [again] at
    most once, so two rounds suffice.  On the host, a search that starts again has
    removed a node, so one round more than there are nodes suffices
    ([search_place], [remove_all_stable_nodes]), and a fault that unshares a page
    backs out at most [back_outs] times ([break_ksm]); the same holds of
    [search_stable]; C10, C12, C19 and C20 are total.
    The connection loop of the client has no bound in the code;
    [connection_loop] takes the number of attempts.  The log is assumed below
    2^30 entries where a doubling must fit an [int].  A round of the host is
    assumed within [MAX_MM_DESCS] (32) processes and 2^23 pages, which the code
    does not enforce; items are counted below 2^31.

    ** Interfaces

    The hash functions are the class [XXHash], [memcmp] the class [Memcmp], RDMA
    reads the classes [RdmaReads] and [ErrorReads], verbs and allocations lists
    of answers ([slab] for items).  Nothing is assumed of the hashes; C1 to
    C3 assume that a page's content does not change while it is scanned and that
    frames hold what their hash says ([served], [frames_ok]).  On the host,
    red-black rebalancing is the class [RbTree] (the order of the nodes is kept),
    the fault that unshares a page the class [MmFault]; the processes and the
    rest of the kernel are environment steps ([env]) under a rely condition
    ([rely]), at every point where the daemon sleeps or holds no page-table lock.
    [Calm] is what a proof assumes of them in addition: nothing, or that they
    are idle.

    ** Not modelled

    Merging with the zero page is modelled but left out of C5, C6, C7 and C12,
    which assume it is off; the list of processes changes between two local
    passes only.  The prctl entry points, the sysfs files that only print or set a setting,
    memory hotplug, page migration and NUMA trees;
    prune_stable_tree and try_mms_cleanup are never called.  The rest of the
    Linux 6.8 mm directory is third-party code.  codes/bask/rdma_common.c and
    rdma_stub.c are an earlier client and pass-through wrappers, function_cost.c
    and time_util.h measurements.  DMA mappings, timers, prints, and the symbol
    lookups of ksm_rdma.c are left out. *)
From Stdlib Require Export ZArith Lia.
From stdpp Require Export base tactics option gmap sets strings sorting countable.
From stdpp Require Export list.

#[export] Set Default Proof Using "Type".

(** ** Outcomes

    A C function of the program either returns ([Ok]), reaches [debug_stop]
    through [ERR_LOG_AND_STOP] / [DEBUG_ERR] and never returns ([Halt]), or
    dereferences a NULL or freed pointer ([Fault]). *)
Inductive outcome (A : Type) : Type :=
| Ok (a : A)
| Halt (why : string)
| Fault (why : string).

Arguments Ok {A} a.
Arguments Halt {A} why.
Arguments Fault {A} why.

(** State-passing computations over a state [S]. *)
Definition M (S A : Type) : Type := S → outcome (A * S).

#[export] Instance M_ret S : MRet (M S) := λ A a s, Ok (a, s).

#[export] Instance M_bind S : MBind (M S) := λ A B f m s,
  match m s with
  | Ok (a, s') => f a s'
  | Halt w => Halt w
  | Fault w => Fault w
  end.

Definition get {S} : M S S := λ s, Ok (s, s).
Definition gets {S A} (f : S → A) : M S A := λ s, Ok (f s, s).
Definition modify {S} (f : S → S) : M S unit := λ s, Ok (tt, f s).
Definition halt {S A} (why : string) : M S A := λ _, Halt why.
Definition fault {S A} (why : string) : M S A := λ _, Fault why.
Definition whenM {S} (b : bool) (m : M S unit) : M S unit :=
  if b then m else mret tt.

(** [halt_if b w] is the code's [if (b) ERR_LOG_AND_STOP(w)]. *)
Definition halt_if {S} (b : bool) (why : string) : M S unit :=
  if b then halt why else mret tt.

(** [deref o w] is a pointer dereference: NULL (or freed) is a fault. *)
Definition deref {S A} (o : option A) (why : string) : M S A :=
  match o with Some a => mret a | None => fault why end.

(** A loop over a list, in order. *)
Fixpoint for_each {S A} (f : A → M S unit) (l : list A) : M S unit :=
  match l with
  | [] => mret tt
  | x :: l' => f x ;; for_each f l'
  end.

(** Weakest precondition for total correctness: the computation returns,
    without stopping or faulting, in a state satisfying [Q]. *)
Definition wp {S A} (m : M S A) (s : S) (Q : A → S → Prop) : Prop :=
  match m s with
  | Ok (a, s') => Q a s'
  | _ => False
  end.

(** ** Machine integers

    The program is compiled for a 64-bit host and a 64-bit ARM: [int] is 32
    bits, [short] 16, [unsigned long] and [uint64_t] 64.  A value converted to
    a [w]-bit type wraps as gcc documents it. *)
Definition wrap_u (w z : Z) : Z := (z mod 2 ^ w)%Z.
Definition wrap_s (w z : Z) : Z := ((z + 2 ^ (w - 1)) mod 2 ^ w - 2 ^ (w - 1))%Z.

Abbreviation u16 := (wrap_u 16).
Abbreviation u32 := (wrap_u 32).
Abbreviation u64 := (wrap_u 64).
Abbreviation s16 := (wrap_s 16).
Abbreviation s32 := (wrap_s 32).

(** [DIV_ROUND_UP(n, d)] of server.h. *)
Definition div_round_up (n d : Z) : Z := ((n + d - 1) / d)%Z.

(** ** Rules for [wp] *)
Section wp_rules.
Context {S : Type}.
Implicit Types (s : S).

Lemma wp_ret {A} (a : A) s (Q : A → S → Prop) : Q a s → wp (mret a) s Q.
Proof. done. Qed.

Lemma wp_bind {A B} (m : M S A) (f : A → M S B) s (Q : B → S → Prop) :
  wp m s (λ a s', wp (f a) s' Q) → wp (m ≫= f) s Q.
Proof. unfold wp, mbind, M_bind. destruct (m s) as [[a s']| |]; auto. Qed.

Lemma wp_bind_assoc {A B C} (m : M S A) (g : A → M S B) (f : B → M S C) s (Q : C → S → Prop) :
  wp (m ≫= λ a, g a ≫= f) s Q → wp ((m ≫= g) ≫= f) s Q.
Proof. unfold wp, mbind, M_bind. by destruct (m s) as [[a s']| |]. Qed.

Lemma wp_bind_inv {A B} (m : M S A) (f : A → M S B) s (Q : B → S → Prop) :
  wp (m ≫= f) s Q → wp m s (λ a s', wp (f a) s' Q).
Proof. unfold wp, mbind, M_bind. destruct (m s) as [[a s']| |]; auto. Qed.

Lemma wp_mono {A} (m : M S A) s (P Q : A → S → Prop) :
  wp m s P → (∀ a s', P a s' → Q a s') → wp m s Q.
Proof. unfold wp. destruct (m s) as [[a s']| |]; auto. Qed.

(** Two computations that agree at [s]. *)
Lemma wp_eq {A} (m m' : M S A) s (Q : A → S → Prop) : m s = m' s → wp m' s Q → wp m s Q.
Proof. unfold wp. by intros ->. Qed.

Lemma wp_get s (Q : S → S → Prop) : Q s s → wp get s Q.
Proof. done. Qed.

Lemma wp_gets {A} (f : S → A) s (Q : A → S → Prop) : Q (f s) s → wp (gets f) s Q.
Proof. done. Qed.

Lemma wp_modify (f : S → S) s (Q : unit → S → Prop) : Q tt (f s) → wp (modify f) s Q.
Proof. done. Qed.

Lemma wp_halt_if (b : bool) why s (Q : unit → S → Prop) :
  b = false → Q tt s → wp (halt_if b why) s Q.
Proof. by intros ->. Qed.

Lemma wp_whenM (b : bool) (m : M S unit) s (Q : unit → S → Prop) :
  (b = true → wp m s Q) → (b = false → Q tt s) → wp (whenM b m) s Q.
Proof. destruct b; intros H1 H2; [by apply H1 | by apply H2]. Qed.

Lemma wp_deref {A} (o : option A) a why s (Q : A → S → Prop) :
  o = Some a → Q a s → wp (deref o why) s Q.
Proof. by intros ->. Qed.

Lemma wp_for_each {A} (f : A → M S unit) (P : list A → list A → S → Prop) (l : list A) s :
  P [] l s →
  (∀ l1 x l2 s', l = l1 ++ x :: l2 → P l1 (x :: l2) s' →
     wp (f x) s' (λ _ s'', P (l1 ++ [x]) l2 s'')) →
  wp (for_each f l) s (λ _ s', P l [] s').
Proof.
  intros HP Hstep.
  assert (∀ l2 l1 s', l = l1 ++ l2 → P l1 l2 s' → wp (for_each f l2) s' (λ _ s'', P l [] s'')) as H.
  { induction l2 as [|x l2 IH]; intros l1 s' Hl HP'; simpl.
    - apply wp_ret. by rewrite Hl, app_nil_r.
    - apply wp_bind. eapply wp_mono; [by eapply Hstep|].
      intros [] s'' H. apply (IH (l1 ++ [x])); [by rewrite <- app_assoc|done]. }
  by apply (H l []).
Qed.

(** Partial correctness: what holds when the computation returns.  It is used
    for inputs that may stop the program. *)
Definition pwp {A} (m : M S A) (s : S) (Q : A → S → Prop) : Prop :=
  match m s with Ok (a, s') => Q a s' | _ => True end.

Lemma pwp_ret {A} (a : A) s (Q : A → S → Prop) : Q a s → pwp (mret a) s Q.
Proof. done. Qed.
Lemma pwp_bind {A B} (m : M S A) (f : A → M S B) s (Q : B → S → Prop) :
  pwp m s (λ a s', pwp (f a) s' Q) → pwp (m ≫= f) s Q.
Proof. unfold pwp, mbind, M_bind. destruct (m s) as [[a s']| |]; auto. Qed.
Lemma pwp_mono {A} (m : M S A) s (P Q : A → S → Prop) :
  pwp m s P → (∀ a s', P a s' → Q a s') → pwp m s Q.
Proof. unfold pwp. destruct (m s) as [[a s']| |]; auto. Qed.
Lemma pwp_and {A} (m : M S A) s (P Q : A → S → Prop) :
  pwp m s P → pwp m s Q → pwp m s (λ a s', P a s' ∧ Q a s').
Proof. unfold pwp. destruct (m s) as [[a s']| |]; auto. Qed.
Lemma pwp_forall {A B} (m : M S A) s (P : B → A → S → Prop) :
  (∀ b, pwp m s (P b)) → pwp m s (λ a s', ∀ b, P b a s').
Proof. unfold pwp. destruct (m s) as [[a s']| |]; auto. Qed.
Lemma pwp_get s (Q : S → S → Prop) : Q s s → pwp get s Q.
Proof. done. Qed.
Lemma pwp_gets {A} (f : S → A) s (Q : A → S → Prop) : Q (f s) s → pwp (gets f) s Q.
Proof. done. Qed.
Lemma pwp_modify (f : S → S) s (Q : unit → S → Prop) : Q tt (f s) → pwp (modify f) s Q.
Proof. done. Qed.
Lemma pwp_halt {A} why s (Q : A → S → Prop) : pwp (halt why) s Q.
Proof. done. Qed.
Lemma pwp_halt_if (b : bool) why s (Q : unit → S → Prop) :
  (b = false → Q tt s) → pwp (halt_if b why) s Q.
Proof. destruct b; [done|]. intros H. by apply H. Qed.
Lemma pwp_whenM (b : bool) (m : M S unit) s (Q : unit → S → Prop) :
  (b = true → pwp m s Q) → (b = false → Q tt s) → pwp (whenM b m) s Q.
Proof. destruct b; intros H1 H2; [by apply H1 | by apply H2]. Qed.
Lemma pwp_deref {A} (o : option A) why s (Q : A → S → Prop) :
  (∀ a, o = Some a → Q a s) → pwp (deref o why) s Q.
Proof. destruct o; [|done]. intros H. by apply H. Qed.
Lemma pwp_true {A} (m : M S A) s : pwp m s (λ _ _, True).
Proof. unfold pwp. by destruct (m s) as [[? ?]| |]. Qed.
Lemma pwp_seq {A B C} (m : M S A) (g : M S B) (f : M S C) s (Q : C → S → Prop) :
  pwp ((m ;; g) ;; f) s Q → pwp (m ;; g ;; f) s Q.
Proof. unfold pwp, mbind, M_bind. by destruct (m s) as [[? ?]| |]. Qed.
Lemma wp_pwp {A} (m : M S A) s (Q : A → S → Prop) : wp m s Q → pwp m s Q.
Proof. unfold wp, pwp. destruct (m s) as [[a s']| |]; done. Qed.

(** The computation returns: it neither stops nor faults.  What holds then is
    a matter of [pwp]. *)
Definition returns {A} (m : M S A) (s : S) : Prop := wp m s (λ _ _, True).

Lemma wp_returns {A} (m : M S A) s (Q : A → S → Prop) : returns m s → pwp m s Q → wp m s Q.
Proof. unfold returns, wp, pwp. by destruct (m s) as [[a s']| |]. Qed.
Lemma returns_wp {A} (m : M S A) s (Q : A → S → Prop) : wp m s Q → returns m s.
Proof. unfold returns, wp. by destruct (m s) as [[a s']| |]. Qed.
Lemma wp_call {A B} (m : M S A) (f : A → M S B) s (P : A → S → Prop) (Q : B → S → Prop) :
  returns m s → pwp m s P → (∀ a s', P a s' → wp (f a) s' Q) → wp (m ≫= f) s Q.
Proof. unfold returns, wp, pwp, mbind, M_bind. destruct (m s) as [[a s']| |]; [|done..]. intros _ HP HQ. exact (HQ a s' HP). Qed.
Lemma wp_seq {A B C} (m : M S A) (g : M S B) (f : M S C) s (Q : C → S → Prop) :
  wp ((m ;; g) ;; f) s Q → wp (m ;; g ;; f) s Q.
Proof. unfold wp, mbind, M_bind. by destruct (m s) as [[? ?]| |]. Qed.

(** What holds when a computation either returns or stops with a message of
    [E]: it reaches no invalid access. *)
Definition ewp {A} (E : string → Prop) (m : M S A) (s : S) (Q : A → S → Prop) : Prop :=
  match m s with
  | Ok (a, s') => Q a s'
  | Halt w => E w
  | Fault _ => False
  end.
Definition ends {A} (E : string → Prop) (m : M S A) (s : S) : Prop := ewp E m s (λ _ _, True).

Lemma ewp_ends {A} E (m : M S A) s (Q : A → S → Prop) : ends E m s → pwp m s Q → ewp E m s Q.
Proof. unfold ends, ewp, pwp. by destruct (m s) as [[a s']| |]. Qed.
Lemma ewp_none {A} (m : M S A) s (Q : A → S → Prop) : ewp (λ _, False) m s Q → wp m s Q.
Proof. unfold ewp, wp. by destruct (m s) as [[a s']| |]. Qed.
Lemma ends_returns {A} E (m : M S A) s : returns m s → ends E m s.
Proof. unfold returns, wp, ends, ewp. by destruct (m s) as [[a s']| |]. Qed.
Lemma ends_mono {A} (E E' : string → Prop) (m : M S A) s : ends E m s → (∀ w, E w → E' w) → ends E' m s.
Proof. unfold ends, ewp. destruct (m s) as [[a s']| |]; auto. Qed.
Lemma ends_ret {A} E (a : A) s : ends E (mret a) s.
Proof. done. Qed.
Lemma ends_halt {A} (E : string → Prop) why s : E why → ends E (halt (A := A) why) s.
Proof. done. Qed.
(** A call whose result the rest relies on. *)
Lemma ends_bind {A B} E (m : M S A) (f : A → M S B) s :
  wp m s (λ a s', ends E (f a) s') → ends E (m ≫= f) s.
Proof. unfold wp, ends, ewp, mbind, M_bind. by destruct (m s) as [[a s']| |]. Qed.
Lemma ends_call {A B} E (m : M S A) (f : A → M S B) s (P : A → S → Prop) :
  ends E m s → pwp m s P → (∀ a s', P a s' → ends E (f a) s') → ends E (m ≫= f) s.
Proof. unfold ends, ewp, pwp, mbind, M_bind. destruct (m s) as [[a s']| |]; [|done..]. intros _ HP HQ. exact (HQ a s' HP). Qed.
Lemma ends_halt_if {B} (E : string → Prop) (b : bool) why (f : unit → M S B) s :
  (b = true → E why) → (b = false → ends E (f tt) s) → ends E (halt_if b why ≫= f) s.
Proof. destruct b; intros H1 H2; [by apply H1|by apply H2]. Qed.

(** From a [wp] fact to the run itself. *)
Lemma wp_run {A} (m : M S A) s (Q : A → S → Prop) :
  wp m s Q ↔ ∃ a s', m s = Ok (a, s') ∧ Q a s'.
Proof.
  unfold wp. destruct (m s) as [[a s']| |] eqn:E; split; try naive_solver.
Qed.

Lemma wp_and {A} (m : M S A) s (P Q : A → S → Prop) :
  wp m s P → wp m s Q → wp m s (λ a s', P a s' ∧ Q a s').
Proof. unfold wp. destruct (m s) as [[a s']| |]; auto. Qed.

Lemma for_each_app {A} (f : A → M S unit) (l1 l2 : list A) s :
  for_each f (l1 ++ l2) s = (for_each f l1 ;; for_each f l2) s.
Proof.
  revert s. induction l1 as [|x l1 IH]; intros s; [done|].
  simpl. unfold mbind, M_bind in *. destruct (f x s) as [[[] s']| |]; auto.
Qed.

End wp_rules.

(** ** Lemmas on machine integers *)
Lemma wrap_u_small w z : (0 ≤ z < 2 ^ w)%Z → wrap_u w z = z.
Proof. intros. unfold wrap_u. by apply Z.mod_small. Qed.

Lemma wrap_s_small w z : (0 < w)%Z → (- 2 ^ (w - 1) ≤ z < 2 ^ (w - 1))%Z → wrap_s w z = z.
Proof.
  intros Hw H. unfold wrap_s.
  assert (2 ^ w = 2 * 2 ^ (w - 1))%Z as E.
  { rewrite <- Z.pow_succ_r by lia. f_equal. lia. }
  rewrite Z.mod_small; lia.
Qed.

Lemma wrap_u_range w z : (0 ≤ w)%Z → (0 ≤ wrap_u w z < 2 ^ w)%Z.
Proof. intros. unfold wrap_u. apply Z.mod_pos_bound. by apply Z.pow_pos_nonneg. Qed.

Lemma wrap_s_range w z : (0 < w)%Z → (- 2 ^ (w - 1) ≤ wrap_s w z < 2 ^ (w - 1))%Z.
Proof.
  intros Hw. unfold wrap_s.
  assert (2 ^ w = 2 * 2 ^ (w - 1))%Z as E.
  { rewrite <- Z.pow_succ_r by lia. f_equal. lia. }
  assert (0 < 2 ^ w)%Z by (apply Z.pow_pos_nonneg; lia).
  pose proof (Z.mod_pos_bound (z + 2 ^ (w - 1)) (2 ^ w)). lia.
Qed.

(** ** Sorted lists *)
Lemma StronglySorted_impl {A} (R R' : A → A → Prop) l :
  (∀ x y, x ∈ l → y ∈ l → R x y → R' x y) → StronglySorted R l → StronglySorted R' l.
Proof.
  induction l as [|x l IH]; intros HR Hs; [constructor|]. apply StronglySorted_inv in Hs as [Hs Hx].
  constructor; [apply IH; [|done]; intros; apply HR; set_solver|].
  rewrite Forall_forall in Hx |- *. intros y Hy. apply HR; [set_solver..|by apply Hx].
Qed.

(** ** Sums over finite maps *)
Section msum.
Context `{Countable K} {A : Type} (f : A → Z).
Local Open Scope Z_scope.
Implicit Types (m : gmap K A).

Definition msum m : Z := map_fold (λ _ v acc, f v + acc) 0 m.

Lemma msum_empty : msum ∅ = 0.
Proof. apply map_fold_empty. Qed.

Lemma msum_insert m k v : m !! k = None → msum (<[k := v]> m) = f v + msum m.
Proof. intros Hk. unfold msum. rewrite map_fold_insert_L; [done|intros; lia|done]. Qed.

Lemma msum_delete m k v : m !! k = Some v → msum (delete k m) = msum m - f v.
Proof. intros Hk. rewrite <- (insert_delete_id m k v Hk) at 2. rewrite msum_insert by apply lookup_delete_eq. lia. Qed.

Lemma msum_update m k v v' : m !! k = Some v → msum (<[k := v']> m) = msum m - f v + f v'.
Proof.
  intros Hk. rewrite <- insert_delete_eq, msum_insert by apply lookup_delete_eq. rewrite (msum_delete _ _ _ Hk). lia.
Qed.

Lemma msum_nonneg m : (∀ k v, m !! k = Some v → 0 ≤ f v) → 0 ≤ msum m.
Proof.
  induction m as [|k v m Hk _ IH] using map_first_key_ind; intros Hf; [by rewrite msum_empty|].
  rewrite msum_insert by done. specialize (Hf k v ltac:(by rewrite lookup_insert_eq)) as Hv.
  enough (0 ≤ msum m) by lia. apply IH. intros k' v' Hk'. apply (Hf k'). rewrite lookup_insert_ne; congruence.
Qed.

Lemma msum_le m k v : (∀ k v, m !! k = Some v → 0 ≤ f v) → m !! k = Some v → f v ≤ msum m.
Proof.
  intros Hf Hk. enough (0 ≤ msum (delete k m)) by (rewrite (msum_delete _ _ _ Hk) in *; lia).
  apply msum_nonneg. intros k' v' [_ Hk']%lookup_delete_Some. by eapply Hf.
Qed.
End msum.

(** ** Automation *)

(** Runs the structural [wp] rules; leaves the calls of named operations. *)
Ltac wp_step :=
  match goal with
  | |- wp (mret _) _ _ => apply wp_ret
  | |- wp (mbind _ _) _ _ => apply wp_bind
  | |- wp get _ _ => apply wp_get
  | |- wp (gets _) _ _ => apply wp_gets
  | |- wp (modify _) _ _ => apply wp_modify
  end; cbv beta.
Ltac wp_steps := repeat wp_step.

(** The same for [pwp], with the tests the code makes. *)
Ltac pwp_step :=
  match goal with
  | |- pwp (mret _) _ _ => apply pwp_ret
  | |- pwp (mbind _ _) _ _ => apply pwp_bind
  | |- pwp get _ _ => apply pwp_get
  | |- pwp (gets _) _ _ => apply pwp_gets
  | |- pwp (modify _) _ _ => apply pwp_modify
  | |- pwp (halt _) _ _ => apply pwp_halt
  | |- pwp (halt_if _ _) _ _ => apply pwp_halt_if; intros ?
  | |- pwp (deref _ _) _ _ => apply pwp_deref; intros ? ?
  end; cbv beta.
Ltac pwp_steps := repeat pwp_step.

(** Lookups in a map updated at known places. *)
Ltac look := repeat first [rewrite lookup_insert_eq|rewrite lookup_insert_ne by done].

Create HintDb bask.
#[export] Hint Resolve wp_ret wp_modify wp_gets : bask.
