(* ===== verification/Wire.v ===== *)
(** * Wire: the data exchanged between the host kernel and the SmartNIC

    The structures of [codes/bask/rdma_common.h], whose kernel-side copies are
    in [codes/mm/ksm_rdma.h].  The event log entry is a C union whose three
    variants overlay the same words; it is kept as the overlaid words, with
    one view per variant, because the host re-tags an entry it received
    ([DPU_STABLE_MERGE] becomes [HOST_MERGE_ONE_FAILED]) without rewriting the
    payload. *)
From S2P Require Import Prelude.
Open Scope Z_scope.

Definition MAX_SEND_WR : Z := 128.
Definition MAX_RECV_WR : Z := 128.
Definition MAX_MM_DESCS : Z := 32.
Definition MAX_PAGES_DESCS : Z := 512.
Definition MAX_PAGES_IN_SGL : Z := 65536.
Definition PAGE_SIZE : Z := 4096.

(** ** Shadow page tables *)
Record shadow_pte := ShadowPte { pte_va : Z; pte_kpfn : Z }.

Record desc_entry := DescEntry { pages_rkey : Z; pages_base_addr : Z }.

Record shadow_pt_descriptor := ShadowPtDescriptor {
  ptd_mm_id : Z;
  ptd_map_rkey : Z;
  ptd_pt_base_addr : Z;
  ptd_desc_entries : list desc_entry;
  ptd_entry_cnt : Z }.

Record error_table_desc_entry := ErrorTableDescEntry { et_rkey : Z; et_base_addr : Z }.

Record error_table_descriptor := ErrorTableDescriptor {
  et_total_cnt : Z;
  et_desc_cnt : Z;
  et_entries : list error_table_desc_entry }.

Record metadata_descriptor := MetadataDescriptor {
  md_pt_cnt : Z;
  md_pt_descs : list shadow_pt_descriptor;
  md_et_descs : error_table_descriptor }.

(** ** Work request tags and the client's connection states *)
Inductive ksm_wr_tag :=
| WR_SEND_METADATA | WR_RECV_METADATA | WR_SEND_RESULT | WR_RECV_RESULT
| WR_REG_MR | WR_READ_MAP | WR_READ_PAGE | WR_READ_RESULT
| WR_SEND_SINGLE_OP | WR_RECV_SINGLE_OP | WR_SEND_SINGLE_RESULT
| WR_RECV_SINGLE_RESULT | WR_INVALIDATE_MR.

Definition ksm_wr_tag_str (tag : ksm_wr_tag) : string :=
  match tag with
  | WR_SEND_METADATA => "WR_SEND_METADATA"
  | WR_RECV_METADATA => "WR_RECV_METADATA"
  | WR_SEND_RESULT => "WR_SEND_RESULT"
  | WR_RECV_RESULT => "WR_RECV_RESULT"
  | WR_REG_MR => "WR_REG_MR"
  | WR_READ_MAP => "WR_READ_MAP"
  | WR_READ_PAGE => "WR_READ_PAGE"
  | WR_READ_RESULT => "WR_READ_RESULT"
  | WR_SEND_SINGLE_OP => "WR_SEND_SINGLE_OP"
  | WR_RECV_SINGLE_OP => "WR_RECV_SINGLE_OP"
  | WR_SEND_SINGLE_RESULT => "WR_SEND_SINGLE_RESULT"
  | WR_RECV_SINGLE_RESULT => "WR_RECV_SINGLE_RESULT"
  | _ => "WR_UNKNOWN"
  end%string.

Inductive ksm_rdma_state :=
| KSM_IDLE | KSM_CONNECT_REQUEST | KSM_ADDR_RESOLVED | KSM_ROUTE_RESOLVED
| KSM_CONNECTED | KSM_MEM_REG_WAIT | KSM_MEM_REG_COMPLETE
| KSM_RDMA_READ_WAIT | KSM_RDMA_READ_COMPLETE | KSM_RDMA_WRITE_COMPLETE
| KSM_RDMA_SEND_COMPLETE | KSM_RDMA_RECV_COMPLETE
| KSM_MR_INVALIDATE_WAIT | KSM_MR_INVALIDATE_COMPLETE | KSM_ERROR.

(** The waits compare states by their enum value ([cb->state >= ...]). *)
Definition ksm_rdma_state_val (s : ksm_rdma_state) : Z :=
  match s with
  | KSM_IDLE => 1 | KSM_CONNECT_REQUEST => 2 | KSM_ADDR_RESOLVED => 3
  | KSM_ROUTE_RESOLVED => 4 | KSM_CONNECTED => 5 | KSM_MEM_REG_WAIT => 6
  | KSM_MEM_REG_COMPLETE => 7 | KSM_RDMA_READ_WAIT => 8
  | KSM_RDMA_READ_COMPLETE => 9 | KSM_RDMA_WRITE_COMPLETE => 10
  | KSM_RDMA_SEND_COMPLETE => 11 | KSM_RDMA_RECV_COMPLETE => 12
  | KSM_MR_INVALIDATE_WAIT => 13 | KSM_MR_INVALIDATE_COMPLETE => 14
  | KSM_ERROR => 15
  end.

(** ** Event log *)
Inductive event_tag :=
| DPU_STABLE_MERGE | DPU_UNSTABLE_MERGE | DPU_STALE_STABLE_NODE
| DPU_ITEM_STATE_CHANGE | HOST_STALE_STABLE_NODE | HOST_NO_STABLE_NODE
| HOST_MERGE_ONE_FAILED | HOST_MERGE_TWO_FAILED
| OTHER_TAG (z : Z).   (* any other value of the [int] the enum is stored in *)

(** Offsets 8, 16, 24 and 28 of the 32-byte entry. *)
Record ksm_event_log := KsmEventLog {
  log_type : event_tag;
  log_w0 : Z;    (* from_va / from_va / last_va *)
  log_w1 : Z;    (* to_va / kpfn / kpfn *)
  log_i0 : Z;    (* from_mm_id / from_mm_id / last_mm_id *)
  log_i1 : Z }.  (* to_mm_id / shared_cnt / padding *)

(** Views of the union. *)
Definition um_from_va := log_w0.
Definition um_to_va := log_w1.
Definition um_from_mm_id := log_i0.
Definition um_to_mm_id := log_i1.
Definition sm_from_va := log_w0.
Definition sm_kpfn := log_w1.
Definition sm_from_mm_id := log_i0.
Definition sm_shared_cnt := log_i1.
Definition st_last_va := log_w0.
Definition st_kpfn := log_w1.
Definition st_last_mm_id := log_i0.

Definition SIZEOF_KSM_EVENT_LOG : Z := 32.
Definition SIZEOF_SHADOW_PTE : Z := 16.

(** An entry of zeroed memory ([memset], [calloc]): tag 0 is not a constant of
    the enum. *)
Definition zero_log : ksm_event_log := KsmEventLog (OTHER_TAG 0) 0 0 0 0.

(** [entry.type = tag] on an existing entry. *)
Definition retag (tag : event_tag) (e : ksm_event_log) : ksm_event_log :=
  KsmEventLog tag (log_w0 e) (log_w1 e) (log_i0 e) (log_i1 e).

Record result_desc := ResultDesc {
  rd_total_scanned_cnt : Z;
  rd_log_cnt : Z;
  rd_rkey : Z;
  rd_result_table_addr : Z }.

(** ** Single-operation offload *)
Inductive operation_cmd := PAGE_COMPARE | PAGE_HASH | OTHER_CMD (z : Z).

Record operation_descriptor := OperationDescriptor {
  od_cmd : operation_cmd;
  od_id : Z;
  od_rkey : Z;
  od_iova : Z;
  od_page_num : Z }.

(** The result's union is kept as its 64-bit word; [value] is its low 32 bits
    (little endian), read as a signed [int]. *)
Record operation_result := OperationResult {
  or_cmd : operation_cmd;
  or_id : Z;
  or_xxhash : Z }.

Definition or_value (r : operation_result) : Z := s32 (or_xxhash r).

Inductive offload_mode := NO_OFFLOAD | SINGLE_OPERATION_OFFLOAD | KSM_OFFLOAD.

#[export] Instance ksm_rdma_state_eq_dec : EqDecision ksm_rdma_state.
Proof. solve_decision. Defined.
#[export] Instance ksm_wr_tag_eq_dec : EqDecision ksm_wr_tag.
Proof. solve_decision. Defined.
#[export] Instance event_tag_eq_dec : EqDecision event_tag.
Proof. solve_decision. Defined.
#[export] Instance ksm_event_log_eq_dec : EqDecision ksm_event_log.
Proof. solve_decision. Defined.
#[export] Instance operation_cmd_eq_dec : EqDecision operation_cmd.
Proof. solve_decision. Defined.
#[export] Instance offload_mode_eq_dec : EqDecision offload_mode.
Proof. solve_decision. Defined.

(** Re-tagging keeps every view of the payload. *)
Lemma retag_payload tag e :
  um_from_va (retag tag e) = um_from_va e ∧ um_to_va (retag tag e) = um_to_va e ∧
  um_from_mm_id (retag tag e) = um_from_mm_id e ∧ um_to_mm_id (retag tag e) = um_to_mm_id e ∧
  log_type (retag tag e) = tag.
Proof. repeat split. Qed.

Lemma ksm_rdma_state_val_inj s1 s2 : ksm_rdma_state_val s1 = ksm_rdma_state_val s2 → s1 = s2.
Proof. destruct s1, s2; simpl; intros; first [reflexivity | lia]. Qed.
