(* ===== verification/HashPair.v ===== *)
(** * HashPair: page hashes and the smart-scan backoff of the server

    [codes/bask/server.h]: [hash_pair], [compare_hash_pair_equal],
    [calculate_hash_pair], [skip_volatile], [should_skip_item] and the data of
    [rmap_item].  XXH3 is a library: it is the interface [XXHash]. *)
From S2P Require Import Prelude Wire.
Open Scope Z_scope.

Record XXH128_hash_t := XXH128 { low64 : Z; high64 : Z }.
Record hash_pair := HashPair { first_hash : XXH128_hash_t; second_hash : XXH128_hash_t }.

#[export] Instance XXH128_hash_t_eq_dec : EqDecision XXH128_hash_t.
Proof. solve_decision. Defined.
#[export] Instance hash_pair_eq_dec : EqDecision hash_pair.
Proof. solve_decision. Defined.

#[export] Instance XXH128_hash_t_countable : Countable XXH128_hash_t :=
  inj_countable' (λ h, (low64 h, high64 h)) (λ p, XXH128 p.1 p.2)
    (λ h, match h with XXH128 _ _ => eq_refl end).
#[export] Instance hash_pair_countable : Countable hash_pair :=
  inj_countable' (λ h, (first_hash h, second_hash h)) (λ p, HashPair p.1 p.2)
    (λ h, match h with HashPair _ _ => eq_refl end).

(** The bytes of a page, each in [0, 256). *)
Abbreviation page := (list Z).

(** What the program uses of xxHash. *)
Class XXHash := {
  XXH3_128bits_withSeed : list Z → Z → XXH128_hash_t;
  XXH64 : list Z → Z → Z
}.

Definition null_hash : hash_pair := HashPair (XXH128 0 0) (XXH128 0 0).

(** The hash of the two halves of a page, as both [pre_hash_worker] and
    [calculate_hash_pair] compute it. *)
Definition page_hash_pair `{XXHash} (page_buf : page) : hash_pair :=
  HashPair (XXH3_128bits_withSeed (take 2048 page_buf) 0)
           (XXH3_128bits_withSeed (take 2048 (drop 2048 page_buf)) 0).

(** [pre] is what [lookup_pre_hash_pair] returned (NULL is [None]). *)
Definition calculate_hash_pair `{XXHash} (pre : option hash_pair) (page_buf : page) : hash_pair :=
  match pre with
  | Some h => h
  | None => page_hash_pair page_buf
  end.

Definition compare_hash_pair_equal (hash1 hash2 : hash_pair) : bool :=
  (high64 (first_hash hash1) =? high64 (first_hash hash2)) &&
  (low64 (first_hash hash1) =? low64 (first_hash hash2)) &&
  (high64 (second_hash hash1) =? high64 (second_hash hash2)) &&
  (low64 (second_hash hash1) =? low64 (second_hash hash2)).

(** [stable_node_hash] / [unstable_node_hash]: the XOR of the four words,
    truncated to GLib's [guint]. *)
Definition hash_pair_fold (h : hash_pair) : Z :=
  u32 (Z.lxor (Z.lxor (Z.lxor (high64 (first_hash h)) (low64 (first_hash h)))
                      (high64 (second_hash h))) (low64 (second_hash h))).

(** ** Items *)
Abbreviation loc := positive.

Inductive item_state := INone | Volatile | Unstable | Stable.

#[export] Instance item_state_eq_dec : EqDecision item_state.
Proof. solve_decision. Defined.

Record rmap_item := RmapItem {
  mm_id : Z;                  (* int *)
  last_access : Z;            (* short *)
  age : Z;                    (* short *)
  va : Z;                     (* uint64_t *)
  pfn : Z;                    (* unsigned long *)
  old_pfn : Z;                (* unsigned long *)
  old_hash : hash_pair;
  state : item_state;
  volatility_score : Z;       (* unsigned short *)
  skip_cnt : Z;               (* unsigned short *)
  stable_node_of : option loc (* struct stable_node*, NULL is None *)
}.

(** [if (volatility_score > 0) ... grace_score ...]; the C parameters are
    [short], the caller's score is [unsigned short]. *)
Definition skip_volatile (volatility age : Z) : Z :=
  if 0 <? s16 volatility then
    let grace_score := s16 volatility + s16 age in
    if grace_score <? 3 then 1
    else if grace_score =? 3 then 2
    else if grace_score =? 4 then 4
    else 8
  else 0.

Definition set_skip_cnt (it : rmap_item) (v : Z) : rmap_item :=
  RmapItem (mm_id it) (last_access it) (age it) (va it) (pfn it) (old_pfn it)
    (old_hash it) (state it) (volatility_score it) v (stable_node_of it).

Definition should_skip_item (smart_scan : bool) (item : rmap_item) : bool * rmap_item :=
  if negb smart_scan then (false, item)
  else match state item with
  | INone | Stable => (false, item)
  | Volatile | Unstable =>
    if 0 <? skip_cnt item then (true, set_skip_cnt item (skip_cnt item - 1))
    else (false, set_skip_cnt item (u16 (skip_volatile (volatility_score item) (age item))))
  end.

(** Consecutive scans of an item whose score and age do not change otherwise:
    the decisions [should_skip_item] makes, newest last. *)
Fixpoint skip_run (n : nat) (smart_scan : bool) (item : rmap_item) : list bool * rmap_item :=
  match n with
  | O => ([], item)
  | S n' =>
    let '(b, item') := should_skip_item smart_scan item in
    let '(bs, item'') := skip_run n' smart_scan item' in
    (b :: bs, item'')
  end.

(** ** Lemmas *)
Lemma compare_hash_pair_equal_spec h1 h2 : compare_hash_pair_equal h1 h2 = bool_decide (h1 = h2).
Proof.
  destruct h1 as [[l1 g1] [l2 g2]], h2 as [[l3 g3] [l4 g4]].
  unfold compare_hash_pair_equal; simpl.
  destruct (Z.eqb_spec g1 g3), (Z.eqb_spec l1 l3), (Z.eqb_spec g2 g4), (Z.eqb_spec l2 l4);
    simpl; symmetry; first [apply bool_decide_eq_true_2; congruence
                           | apply bool_decide_eq_false_2; congruence].
Qed.

Lemma compare_hash_pair_equal_true h1 h2 : compare_hash_pair_equal h1 h2 = true ↔ h1 = h2.
Proof. rewrite compare_hash_pair_equal_spec. apply bool_decide_eq_true. Qed.

Lemma compare_hash_pair_equal_false h1 h2 : compare_hash_pair_equal h1 h2 = false ↔ h1 ≠ h2.
Proof. rewrite compare_hash_pair_equal_spec. apply bool_decide_eq_false. Qed.

Lemma hash_pair_fold_eq h1 h2 :
  compare_hash_pair_equal h1 h2 = true → hash_pair_fold h1 = hash_pair_fold h2.
Proof. by intros ->%compare_hash_pair_equal_true. Qed.

Lemma skip_volatile_values v a : skip_volatile v a ∈ [0; 1; 2; 4; 8].
Proof. unfold skip_volatile. repeat case_match; set_solver. Qed.

Lemma skip_volatile_bound v a : 0 ≤ skip_volatile v a ≤ 8.
Proof. unfold skip_volatile. repeat case_match; lia. Qed.

Lemma should_skip_item_frame b item :
  let item' := (should_skip_item b item).2 in
  item' = set_skip_cnt item (skip_cnt item').
Proof. unfold should_skip_item. destruct item; repeat case_match; done. Qed.

Lemma skip_run_app n m b item :
  skip_run (n + m) b item =
  ((skip_run n b item).1 ++ (skip_run m b (skip_run n b item).2).1,
   (skip_run m b (skip_run n b item).2).2).
Proof.
  revert item. induction n as [|n IH]; intros item; simpl.
  - by destruct (skip_run m b item).
  - destruct (should_skip_item b item) as [d it]. rewrite IH.
    by destruct (skip_run n b it).
Qed.

(** While the counter is positive every scan is skipped and decrements it. *)
Lemma skip_run_drain item (n : nat) :
  state item = Volatile → skip_cnt item = Z.of_nat n →
  skip_run n true item = (replicate n true, set_skip_cnt item 0).
Proof.
  revert item. induction n as [|n IH]; intros item Hst Hn.
  - destruct item; simpl in *. by subst.
  - simpl. unfold should_skip_item at 1. rewrite Hst. simpl.
    destruct (Z.ltb_spec 0 (skip_cnt item)); [|lia].
    rewrite IH; [done | by destruct item | simpl; lia].
Qed.
