(* ===== verification/Store.v ===== *)
(** * Store: the memory of the SmartNIC server

    The heap objects the server allocates ([rmap_item], [struct stable_node]),
    the containers of [struct ksm_metadata] (GLib trees and hash tables, kept
    as finite maps), the log table, the statistics counters and the outcomes of
    future allocations; and the primitive accesses the operations are made of.

    - An address is a [loc]; [items] and [nodes] are the live objects, so an
      access to an absent address is a use after free or a wild pointer and
      faults.
    - [rmap_tree] and [sharing_item_tree] are GTrees ordered by
      [rmap_item_compare], keyed by (mm_id, va): [gtree_list] lists one in the
      order [g_tree_foreach] visits it.
    - [stable_hash_table] and [unstable_hash_table] are keyed by content, that
      is by the hash pair of the key object.
    - [answers] is what the next allocations return. *)
From S2P Require Import Prelude Wire HashPair.
Open Scope Z_scope.

(** (mm_id, va) *)
Abbreviation item_key := (Z * Z)%type.

Inductive node_chain_type := HEAD | CHAIN.

#[export] Instance node_chain_type_eq_dec : EqDecision node_chain_type.
Proof. solve_decision. Defined.

Record stable_node := StableNode {
  page_hash : hash_pair;
  shared_cnt : Z;                        (* int *)
  node_pfn : Z;                          (* unsigned long *)
  sharing_item_tree : gmap item_key loc;
  chain_type : node_chain_type;
  chain_next : option loc;
  chain_prev : option loc }.

Record ksm_metadata := KsmMetadata {
  items : gmap loc rmap_item;
  nodes : gmap loc stable_node;
  rmap_tree : gmap item_key loc;
  stable_hash_table : gmap hash_pair loc;
  unstable_hash_table : gmap hash_pair loc }.

(** [entries] has [capacity] slots; a slot that was never written (the tail
    [realloc] adds) is [None]. *)
Record ksm_log_table := KsmLogTable {
  entries : list (option ksm_event_log);
  cnt : Z;
  capacity : Z }.

Record server_stats := ServerStats {
  skipped_cnt : Z;
  volatile_items_cnt : Z;
  highly_volatile_but_stable_merged_cnt : Z;
  highly_volatile_but_unstable_merged_cnt : Z;
  broken_merges : Z }.

(** What one allocation returns: NULL, or memory whose previous contents, read
    as an item, are [junk]. *)
Inductive answer := NoMem | Fresh (junk : rmap_item).

Record server_st := ServerSt {
  metadata : ksm_metadata;
  log_table : ksm_log_table;
  stats : server_stats;
  iteration : Z;                (* int *)
  total_accessed_cnt : Z;       (* unsigned long *)
  smart_scan_opt : bool;
  answers : list answer }.

(** ** Field updates *)
Definition with_metadata (f : ksm_metadata → ksm_metadata) (s : server_st) : server_st :=
  ServerSt (f (metadata s)) (log_table s) (stats s) (iteration s)
    (total_accessed_cnt s) (smart_scan_opt s) (answers s).
Definition with_log (f : ksm_log_table → ksm_log_table) (s : server_st) : server_st :=
  ServerSt (metadata s) (f (log_table s)) (stats s) (iteration s)
    (total_accessed_cnt s) (smart_scan_opt s) (answers s).
Definition with_stats (f : server_stats → server_stats) (s : server_st) : server_st :=
  ServerSt (metadata s) (log_table s) (f (stats s)) (iteration s)
    (total_accessed_cnt s) (smart_scan_opt s) (answers s).
Definition with_accessed (f : Z → Z) (s : server_st) : server_st :=
  ServerSt (metadata s) (log_table s) (stats s) (iteration s)
    (f (total_accessed_cnt s)) (smart_scan_opt s) (answers s).
Definition with_iteration (f : Z → Z) (s : server_st) : server_st :=
  ServerSt (metadata s) (log_table s) (stats s) (f (iteration s))
    (total_accessed_cnt s) (smart_scan_opt s) (answers s).
Definition with_answers (f : list answer → list answer) (s : server_st) : server_st :=
  ServerSt (metadata s) (log_table s) (stats s) (iteration s)
    (total_accessed_cnt s) (smart_scan_opt s) (f (answers s)).

Definition upd_items (f : gmap loc rmap_item → gmap loc rmap_item) (m : ksm_metadata) :=
  KsmMetadata (f (items m)) (nodes m) (rmap_tree m) (stable_hash_table m) (unstable_hash_table m).
Definition upd_nodes (f : gmap loc stable_node → gmap loc stable_node) (m : ksm_metadata) :=
  KsmMetadata (items m) (f (nodes m)) (rmap_tree m) (stable_hash_table m) (unstable_hash_table m).
Definition upd_rmap (f : gmap item_key loc → gmap item_key loc) (m : ksm_metadata) :=
  KsmMetadata (items m) (nodes m) (f (rmap_tree m)) (stable_hash_table m) (unstable_hash_table m).
Definition upd_stable (f : gmap hash_pair loc → gmap hash_pair loc) (m : ksm_metadata) :=
  KsmMetadata (items m) (nodes m) (rmap_tree m) (f (stable_hash_table m)) (unstable_hash_table m).
Definition upd_unstable (f : gmap hash_pair loc → gmap hash_pair loc) (m : ksm_metadata) :=
  KsmMetadata (items m) (nodes m) (rmap_tree m) (stable_hash_table m) (f (unstable_hash_table m)).

(** Item fields the operations assign. *)
Definition set_state (v : item_state) (it : rmap_item) : rmap_item :=
  RmapItem (mm_id it) (last_access it) (age it) (va it) (pfn it) (old_pfn it)
    (old_hash it) v (volatility_score it) (skip_cnt it) (stable_node_of it).
Definition set_old_hash (v : hash_pair) (it : rmap_item) : rmap_item :=
  RmapItem (mm_id it) (last_access it) (age it) (va it) (pfn it) (old_pfn it)
    v (state it) (volatility_score it) (skip_cnt it) (stable_node_of it).
Definition set_age (v : Z) (it : rmap_item) : rmap_item :=
  RmapItem (mm_id it) (last_access it) v (va it) (pfn it) (old_pfn it)
    (old_hash it) (state it) (volatility_score it) (skip_cnt it) (stable_node_of it).
Definition set_volatility (v : Z) (it : rmap_item) : rmap_item :=
  RmapItem (mm_id it) (last_access it) (age it) (va it) (pfn it) (old_pfn it)
    (old_hash it) (state it) v (skip_cnt it) (stable_node_of it).
Definition set_access (v p : Z) (it : rmap_item) : rmap_item :=
  RmapItem (mm_id it) v (age it) (va it) p (old_pfn it)
    (old_hash it) (state it) (volatility_score it) (skip_cnt it) (stable_node_of it).

(** [item->volatility_score += 1] on an [unsigned short]. *)
Definition bump_volatility (it : rmap_item) : rmap_item :=
  set_volatility (u16 (volatility_score it + 1)) it.
(** [if (score > 0) score -= 1] *)
Definition decay_volatility (it : rmap_item) : rmap_item :=
  if 0 <? volatility_score it then set_volatility (volatility_score it - 1) it else it.

Definition key_of (it : rmap_item) : item_key := (mm_id it, va it).

Definition set_page_hash (h : hash_pair) (n : stable_node) : stable_node :=
  StableNode h (shared_cnt n) (node_pfn n) (sharing_item_tree n)
    (chain_type n) (chain_next n) (chain_prev n).
Definition set_links (t : node_chain_type) (nx pv : option loc) (n : stable_node) : stable_node :=
  StableNode (page_hash n) (shared_cnt n) (node_pfn n) (sharing_item_tree n) t nx pv.
Definition set_next (nx : option loc) (n : stable_node) : stable_node :=
  set_links (chain_type n) nx (chain_prev n) n.
Definition set_prev (pv : option loc) (n : stable_node) : stable_node :=
  set_links (chain_type n) (chain_next n) pv n.
Definition set_sharing (c : Z) (t : gmap item_key loc) (n : stable_node) : stable_node :=
  StableNode (page_hash n) c (node_pfn n) t (chain_type n) (chain_next n) (chain_prev n).

(** ** Heap accesses *)
Definition get_item (l : loc) : M server_st rmap_item :=
  s ← get; deref (items (metadata s) !! l) "item".
Definition get_node (l : loc) : M server_st stable_node :=
  s ← get; deref (nodes (metadata s) !! l) "stable_node".
Definition upd_item (l : loc) (f : rmap_item → rmap_item) : M server_st unit :=
  it ← get_item l; modify (with_metadata (upd_items (<[l := f it]>))).
Definition upd_node (l : loc) (f : stable_node → stable_node) : M server_st unit :=
  n ← get_node l; modify (with_metadata (upd_nodes (<[l := f n]>))).
Definition free_item (l : loc) : M server_st unit :=
  _ ← get_item l; modify (with_metadata (upd_items (delete l))).
Definition free_node (l : loc) : M server_st unit :=
  _ ← get_node l; modify (with_metadata (upd_nodes (delete l))).

(** One allocation; with no recorded answer left it succeeds. *)
Definition next_answer : M server_st (option rmap_item) := λ s,
  match answers s with
  | [] => Ok (Some (RmapItem 0 0 0 0 0 0 null_hash INone 0 0 None), s)
  | NoMem :: l => Ok (None, with_answers (λ _, l) s)
  | Fresh j :: l => Ok (Some j, with_answers (λ _, l) s)
  end.

Definition malloc_item : M server_st (option (loc * rmap_item)) :=
  a ← next_answer;
  match a with
  | None => mret None
  | Some j =>
    s ← get;
    let l := fresh (dom (items (metadata s))) in
    modify (with_metadata (upd_items (<[l := j]>))) ;;
    mret (Some (l, j))
  end.

Definition malloc_node (n : stable_node) : M server_st (option loc) :=
  a ← next_answer;
  match a with
  | None => mret None
  | Some _ =>
    s ← get;
    let l := fresh (dom (nodes (metadata s))) in
    modify (with_metadata (upd_nodes (<[l := n]>))) ;;
    mret (Some l)
  end.

(** ** GTree order: [rmap_item_compare] *)
Definition rmap_item_compare (a b : rmap_item) : Z :=
  if mm_id a <? mm_id b then -1
  else if mm_id b <? mm_id a then 1
  else if va a <? va b then -1
  else if va b <? va a then 1
  else 0.

Definition key_le (a b : item_key * loc) : Prop :=
  a.1.1 < b.1.1 ∨ (a.1.1 = b.1.1 ∧ a.1.2 ≤ b.1.2).

#[export] Instance key_le_dec a b : Decision (key_le a b).
Proof. unfold key_le. apply _. Defined.

Definition gtree_list (t : gmap item_key loc) : list (item_key * loc) :=
  merge_sort key_le (map_to_list t).

(** No allocation fails from here on. *)
Definition no_oom (s : server_st) : Prop := NoMem ∉ answers s.

(** ** Lemmas *)
#[export] Instance key_le_total : Total key_le.
Proof. intros [[a1 a2] a3] [[b1 b2] b3]. unfold key_le; simpl. lia. Qed.

#[export] Instance key_le_trans : Transitive key_le.
Proof. intros [[a1 a2] a3] [[b1 b2] b3] [[c1 c2] c3]. unfold key_le; simpl. lia. Qed.

Lemma gtree_list_perm t : gtree_list t ≡ₚ map_to_list t.
Proof. apply merge_sort_Permutation. Qed.

Lemma gtree_list_sorted t : StronglySorted key_le (gtree_list t).
Proof. apply StronglySorted_merge_sort; apply _. Qed.

Lemma elem_of_gtree_list t k l : (k, l) ∈ gtree_list t ↔ t !! k = Some l.
Proof. rewrite gtree_list_perm. apply elem_of_map_to_list. Qed.

Lemma gtree_list_NoDup_keys t : NoDup (gtree_list t).*1.
Proof. rewrite gtree_list_perm. apply NoDup_fst_map_to_list. Qed.

Lemma rmap_item_compare_eq a b : rmap_item_compare a b = 0 ↔ key_of a = key_of b.
Proof.
  unfold rmap_item_compare, key_of.
  repeat case_match; split; intros E; try discriminate; try (injection E); intros;
    try f_equal; try lia.
Qed.

Lemma rmap_item_compare_antisym a b : rmap_item_compare b a = - rmap_item_compare a b.
Proof. unfold rmap_item_compare. repeat case_match; lia. Qed.

Lemma rmap_item_compare_trans a b c :
  rmap_item_compare a b ≤ 0 → rmap_item_compare b c ≤ 0 → rmap_item_compare a c ≤ 0.
Proof. unfold rmap_item_compare. repeat case_match; lia. Qed.

Lemma key_of_set_state v it : key_of (set_state v it) = key_of it.
Proof. done. Qed.
Lemma key_of_set_old_hash v it : key_of (set_old_hash v it) = key_of it.
Proof. done. Qed.
Lemma key_of_set_skip_cnt v it : key_of (set_skip_cnt it v) = key_of it.
Proof. done. Qed.

(** [wp] rules of the heap accesses *)
Lemma wp_get_item l it (Q : rmap_item → server_st → Prop) s :
  items (metadata s) !! l = Some it → Q it s → wp (get_item l) s Q.
Proof. intros H HQ. unfold get_item. wp_steps. by eapply wp_deref. Qed.

Lemma wp_get_node l n (Q : stable_node → server_st → Prop) s :
  nodes (metadata s) !! l = Some n → Q n s → wp (get_node l) s Q.
Proof. intros H HQ. unfold get_node. wp_steps. by eapply wp_deref. Qed.

Lemma wp_upd_item l it f (Q : unit → server_st → Prop) s :
  items (metadata s) !! l = Some it →
  Q tt (with_metadata (upd_items (<[l := f it]>)) s) → wp (upd_item l f) s Q.
Proof. intros H HQ. unfold upd_item. wp_steps. eapply wp_get_item; [done|]. by wp_steps. Qed.

Lemma wp_upd_node l n f (Q : unit → server_st → Prop) s :
  nodes (metadata s) !! l = Some n →
  Q tt (with_metadata (upd_nodes (<[l := f n]>)) s) → wp (upd_node l f) s Q.
Proof. intros H HQ. unfold upd_node. wp_steps. eapply wp_get_node; [done|]. by wp_steps. Qed.

Lemma wp_free_item l it (Q : unit → server_st → Prop) s :
  items (metadata s) !! l = Some it →
  Q tt (with_metadata (upd_items (delete l)) s) → wp (free_item l) s Q.
Proof. intros H HQ. unfold free_item. wp_steps. eapply wp_get_item; [done|]. by wp_steps. Qed.

Lemma wp_free_node l n (Q : unit → server_st → Prop) s :
  nodes (metadata s) !! l = Some n →
  Q tt (with_metadata (upd_nodes (delete l)) s) → wp (free_node l) s Q.
Proof. intros H HQ. unfold free_node. wp_steps. eapply wp_get_node; [done|]. by wp_steps. Qed.

Lemma wp_next_answer (Q : option rmap_item → server_st → Prop) s :
  no_oom s →
  (∀ j l, NoMem ∉ l → Q (Some j) (with_answers (λ _, l) s)) → wp next_answer s Q.
Proof.
  unfold no_oom. intros Hs HQ. unfold wp, next_answer.
  destruct (answers s) as [|[|j] l] eqn:E.
  - specialize (HQ (RmapItem 0 0 0 0 0 0 null_hash INone 0 0 None) [] ltac:(set_solver)).
    destruct s; simpl in *; subst; done.
  - set_solver.
  - apply HQ. set_solver.
Qed.
