(* ===== verification/LogTable.v ===== *)
(** * LogTable: the event log the server sends back to the host

    [codes/bask/server.h]: [insert_ksm_log], [clear_log_table] and the three
    logging helpers.  The table is an array that doubles when it is full; an
    entry that cannot be stored because [realloc] failed is dropped. *)
From S2P Require Import Prelude Wire HashPair Store.
Open Scope Z_scope.

Definition GROW_FACTOR : Z := 2.

(** The table after the growth step: [None] when [realloc] failed. *)
Definition grow_log_table (t : ksm_log_table) : M server_st (option ksm_log_table) :=
  if capacity t <=? cnt t then
    let new_capacity := s32 (capacity t * GROW_FACTOR) in
    a ← next_answer;
    match a with
    | None => mret None
    | Some _ =>
      mret (Some (KsmLogTable (resize (Z.to_nat new_capacity) None (entries t)) (cnt t) new_capacity))
    end
  else mret (Some t).

Definition insert_ksm_log (entry : ksm_event_log) : M server_st unit :=
  s ← get;
  grown ← grow_log_table (log_table s);
  match grown with
  | None => mret tt
  | Some t =>
    modify (with_log (λ _, t)) ;;
    if (0 <=? cnt t) && (cnt t <? Z.of_nat (length (entries t))) then
      modify (with_log (λ t, KsmLogTable (<[Z.to_nat (cnt t) := Some entry]> (entries t))
                                (cnt t) (capacity t))) ;;
      match log_type entry with
      | DPU_STABLE_MERGE | DPU_UNSTABLE_MERGE | DPU_STALE_STABLE_NODE
      | DPU_ITEM_STATE_CHANGE => mret tt
      | _ => halt "Invalid log type"
      end ;;
      modify (with_log (λ t, KsmLogTable (entries t) (cnt t + 1) (capacity t)))
    else fault "entries[cnt] out of bounds"
  end.

Definition clear_log_table : M server_st unit :=
  modify (with_log (λ t, KsmLogTable (replicate (Z.to_nat (capacity t)) (Some zero_log)) 0 (capacity t))).

Definition log_stable_merge (item : rmap_item) (node : stable_node) : M server_st unit :=
  insert_ksm_log (KsmEventLog DPU_STABLE_MERGE (va item) (node_pfn node) (mm_id item) (shared_cnt node)).

Definition log_item_state_change (item : rmap_item) (prelinked : stable_node) : M server_st unit :=
  insert_ksm_log (KsmEventLog DPU_ITEM_STATE_CHANGE (va item) (node_pfn prelinked)
    (mm_id item) (shared_cnt prelinked)).

Definition log_unstable_merge (from_item to_item : rmap_item) : M server_st unit :=
  insert_ksm_log (KsmEventLog DPU_UNSTABLE_MERGE (va from_item) (va to_item)
    (mm_id from_item) (mm_id to_item)).

(** The record [remove_stale_node_and_log] fills. *)
Definition stale_entry (last_item : rmap_item) (node : stable_node) : ksm_event_log :=
  KsmEventLog DPU_STALE_STABLE_NODE (va last_item) (node_pfn node) (mm_id last_item) 0.

(** The table holds exactly the log [L]. *)
Record log_repr (t : ksm_log_table) (L : list ksm_event_log) : Prop := LogRepr {
  lr_capacity : capacity t = Z.of_nat (length (entries t));
  lr_positive : 0 < capacity t < 2 ^ 31;
  lr_cnt : cnt t = Z.of_nat (length L);
  lr_entries : take (length L) (entries t) = Some <$> L }.

(** What the host reads back: the first [cnt] entries. *)
Definition log_list (t : ksm_log_table) : list ksm_event_log :=
  omap id (take (Z.to_nat (cnt t)) (entries t)).

Definition dpu_tag (t : event_tag) : bool :=
  match t with
  | DPU_STABLE_MERGE | DPU_UNSTABLE_MERGE | DPU_STALE_STABLE_NODE | DPU_ITEM_STATE_CHANGE => true
  | _ => false
  end.

Definition replace_log (t : ksm_log_table) (a : list answer) (s : server_st) : server_st :=
  with_answers (λ _, a) (with_log (λ _, t) s).

(** ** Lemmas *)
Lemma log_repr_list t L : log_repr t L → log_list t = L.
Proof.
  intros []. unfold log_list. rewrite lr_cnt0, Nat2Z.id, lr_entries0.
  clear. induction L; simpl; [done|]. by f_equal.
Qed.

Lemma log_repr_le t L : log_repr t L → (length L ≤ length (entries t))%nat.
Proof.
  intros []. apply (f_equal length) in lr_entries0.
  rewrite length_fmap, length_take in lr_entries0. lia.
Qed.

Lemma take_insert_snoc {A} (l : list A) n x :
  (n < length l)%nat → take (S n) (<[n := x]> l) = take n l ++ [x].
Proof.
  intros H. rewrite (take_S_r _ _ x) by (by apply list_lookup_insert_eq).
  by rewrite take_insert_ge.
Qed.

Lemma log_repr_resize t L n :
  log_repr t L → (capacity t ≤ Z.of_nat n < 2 ^ 31) →
  log_repr (KsmLogTable (resize n None (entries t)) (cnt t) (Z.of_nat n)) L.
Proof.
  intros H Hn. pose proof (log_repr_le _ _ H). destruct H. split; simpl.
  - by rewrite length_resize.
  - lia.
  - done.
  - rewrite take_resize_le by lia. by rewrite resize_le by lia.
Qed.

Lemma log_repr_snoc t L e :
  log_repr t L → (length L < length (entries t))%nat →
  log_repr (KsmLogTable (<[length L := Some e]> (entries t)) (cnt t + 1) (capacity t)) (L ++ [e]).
Proof.
  intros [] Hlt. split; simpl.
  - by rewrite length_insert.
  - done.
  - rewrite length_app; simpl. lia.
  - rewrite length_app; simpl. rewrite Nat.add_1_r, take_insert_snoc by done.
    by rewrite fmap_app, lr_entries0.
Qed.

Lemma wp_grow_log_table t L s (Q : option ksm_log_table → server_st → Prop) :
  log_repr t L → no_oom s → Z.of_nat (length L) < 2 ^ 30 →
  (∀ t' a, log_repr t' L → (length L < length (entries t'))%nat → NoMem ∉ a →
     Q (Some t') (with_answers (λ _, a) s)) →
  wp (grow_log_table t) s Q.
Proof.
  intros Ht Hs Hl HQ. pose proof (log_repr_le _ _ Ht) as Hle.
  unfold grow_log_table. destruct (Z.leb_spec (capacity t) (cnt t)) as [Hc|Hc].
  - destruct Ht as [H1 H2 H3 H4] eqn:E. clear E.
    unfold GROW_FACTOR. rewrite wrap_s_small by lia.
    wp_step. eapply wp_next_answer; [done|]. intros j l Hj. wp_step.
    assert (capacity t * 2 = Z.of_nat (Z.to_nat (capacity t * 2))) as Hcap by lia.
    apply HQ; [| |done].
    + rewrite Hcap at 2. apply (log_repr_resize t L); [done|lia].
    + simpl. rewrite length_resize. lia.
  - wp_step. destruct Ht as [H1 H2 H3 H4] eqn:E. clear E.
    specialize (HQ t (answers s)). destruct s; simpl in *. apply HQ; [done|lia|done].
Qed.

(** A valid entry is appended, the table growing when it must. *)
Lemma wp_insert_ksm_log e L s (Q : unit → server_st → Prop) :
  log_repr (log_table s) L → no_oom s → Z.of_nat (length L) < 2 ^ 30 → dpu_tag (log_type e) = true →
  (∀ t' a, log_repr t' (L ++ [e]) → NoMem ∉ a → Q tt (replace_log t' a s)) →
  wp (insert_ksm_log e) s Q.
Proof.
  intros Ht Hs Hl Htag HQ. unfold insert_ksm_log. wp_steps.
  eapply wp_grow_log_table; [done..|]. intros t' a Ht' Hlt Ha. wp_steps.
  assert (cnt t' = Z.of_nat (length L)) as Hcnt by apply Ht'.
  destruct (Z.leb_spec 0 (cnt t')); [|lia].
  destruct (Z.ltb_spec (cnt t') (Z.of_nat (length (entries t')))); [|lia]. simpl.
  wp_steps.
  specialize (HQ (KsmLogTable (<[length L := Some e]> (entries t')) (cnt t' + 1) (capacity t')) a).
  destruct (log_type e); try discriminate; wp_steps.
  all: unfold replace_log, with_log, with_answers in *; simpl in *; rewrite Hcnt, Nat2Z.id in *.
  all: apply HQ; [rewrite <- Hcnt; by apply log_repr_snoc | done].
Qed.
