(* ===== verification/Metadata.v ===== *)
(** * Metadata: operations on items, stable nodes and their containers

    [codes/bask/server.h] from [insert_item_to_node] to [prune_metadata],
    translated function by function over the store.  A pointer chase along
    [chain.next] carries as fuel the number of live nodes: a longer walk
    revisits a node, that is, it never ends ([Halt]). *)
From S2P Require Import Prelude Wire HashPair Store LogTable.
Open Scope Z_scope.

Definition MAX_PAGE_SHARING : Z := 256.
Definition RMAP_PRUNE_MARGIN : Z := 1000.

(** ** Item state *)
Definition insert_item_to_node (node item : loc) : M server_st unit :=
  it ← get_item item;
  match state it with
  | INone | Stable => halt "Cannot insert to stable node: Invalid item state"
  | _ => mret tt
  end ;;
  nd ← get_node node;
  upd_item item (λ it,
    RmapItem (mm_id it) (last_access it) (age it) (va it) (node_pfn nd) (pfn it)
      (page_hash nd) Stable (volatility_score it) (skip_cnt it) (Some node)) ;;
  upd_node node (λ nd, set_sharing (s32 (shared_cnt nd + 1))
                         (<[key_of it := item]> (sharing_item_tree nd)) nd).

Definition remove_item_from_node (node item : loc) : M server_st unit :=
  it ← get_item item;
  upd_node node (λ nd, set_sharing (s32 (shared_cnt nd - 1))
                         (delete (key_of it) (sharing_item_tree nd)) nd).

Definition reset_item (it : rmap_item) : rmap_item :=
  RmapItem (mm_id it) (last_access it) (age it) (va it) (old_pfn it) 0
    null_hash Volatile (volatility_score it) (skip_cnt it) None.

Definition reset_item_state (item : loc) : M server_st unit := upd_item item reset_item.

(** ** GTree traversal callbacks *)

(** Returns whether the traversal stops (a non-zero return value). *)
Definition reset_each_item_state (item : loc) : M server_st bool :=
  it ← get_item item;
  if decide (state it ≠ Stable) then mret true
  else reset_item_state item ;; upd_item item bump_volatility ;; mret false.

Fixpoint reset_items (l : list (item_key * loc)) : M server_st unit :=
  match l with
  | [] => mret tt
  | (_, i) :: l' => stop ← reset_each_item_state i; if (stop : bool) then mret tt else reset_items l'
  end.

Definition update_item_checksum (hash : hash_pair) (item : loc) : M server_st unit :=
  it ← get_item item;
  halt_if (bool_decide (state it ≠ Stable)) "Invalid item state during checksum update" ;;
  upd_item item (set_old_hash hash).

(** [g_tree_foreach(tree, update_item_checksum, &hash)] *)
Definition update_checksums (hash : hash_pair) (tree : gmap item_key loc) : M server_st unit :=
  for_each (λ kl, update_item_checksum hash kl.2) (gtree_list tree).

(** ** Stable hash table *)

(** The [while (node_dup)] loop of [cmp_with_stable]. *)
Fixpoint find_unsaturated (fuel : nat) (dup : option loc) : M server_st (option loc) :=
  match dup with
  | None => mret None
  | Some d =>
    match fuel with
    | O => halt "chain does not end"
    | S fuel' =>
      nd ← get_node d;
      if shared_cnt nd <? MAX_PAGE_SHARING then mret (Some d)
      else find_unsaturated fuel' (chain_next nd)
    end
  end.

Definition cmp_with_stable (hash : hash_pair) : M server_st (option loc) :=
  s ← get;
  match stable_hash_table (metadata s) !! hash with
  | Some n =>
    nd ← get_node n;
    if shared_cnt nd <? MAX_PAGE_SHARING then mret (Some n)
    else find_unsaturated (size (nodes (metadata s))) (chain_next nd)
  | None => mret None
  end.

(** The [while (existing_node->chain.next)] loop of [insert_stable_node]. *)
Fixpoint last_of_chain (fuel : nat) (n : loc) : M server_st loc :=
  nd ← get_node n;
  match chain_next nd with
  | None => mret n
  | Some n' =>
    match fuel with
    | O => halt "chain does not end"
    | S fuel' => last_of_chain fuel' n'
    end
  end.

Definition insert_stable_node (new_node : loc) : M server_st unit :=
  s ← get;
  nd ← get_node new_node;
  match stable_hash_table (metadata s) !! page_hash nd with
  | Some e =>
    tail ← last_of_chain (size (nodes (metadata s))) e;
    upd_node tail (set_next (Some new_node)) ;;
    upd_node new_node (set_links CHAIN None (Some tail))
  | None =>
    upd_node new_node (set_links HEAD None None) ;;
    modify (with_metadata (upd_stable (<[page_hash nd := new_node]>)))
  end.

Definition remove_stable_node_no_item (node : loc) : M server_st unit :=
  nd ← get_node node;
  match chain_type nd with
  | HEAD =>
    match chain_next nd with
    | Some next_node =>
      halt_if (bool_decide (chain_prev nd ≠ None)) "Invalid chain type for stable node." ;;
      upd_node next_node (λ n, set_links HEAD (chain_next n) None n) ;;
      modify (with_metadata (upd_stable (delete (page_hash nd)))) ;;
      nn ← get_node next_node;
      modify (with_metadata (upd_stable (<[page_hash nn := next_node]>)))
    | None => modify (with_metadata (upd_stable (delete (page_hash nd))))
    end
  | CHAIN =>
    match chain_prev nd with
    | Some prev_node =>
      upd_node prev_node (set_next (chain_next nd)) ;;
      match chain_next nd with
      | Some next_node => upd_node next_node (set_prev (Some prev_node))
      | None => mret tt
      end
    | None => halt "Invalid chain type for stable node."
    end
  end ;;
  free_node node.

Definition remove_stale_node_and_log (node last_item : loc) : M server_st unit :=
  it ← get_item last_item;
  nd ← get_node node;
  insert_ksm_log (stale_entry it nd) ;;
  remove_stable_node_no_item node.

(** ** Unstable hash table *)
Definition cmp_with_unstable (item : loc) : M server_st (option loc) :=
  it ← get_item item;
  s ← get;
  match unstable_hash_table (metadata s) !! old_hash it with
  | Some node =>
    nd ← get_item node;
    modify (with_metadata (upd_unstable (delete (old_hash nd)))) ;;
    mret (Some node)
  | None => mret None
  end.

Definition insert_unstable_node (item : loc) : M server_st unit :=
  it ← get_item item;
  s ← get;
  halt_if (bool_decide (unstable_hash_table (metadata s) !! old_hash it ≠ None))
    "Collision occured Unstable node already exists." ;;
  modify (with_metadata (upd_unstable (<[old_hash it := item]>))).

Definition update_item_state (item : loc) : M server_st unit :=
  upd_item item (set_state Volatile).

Definition clean_up_unstable_tree : M server_st unit :=
  s ← get;
  for_each (λ hl, update_item_state hl.2) (map_to_list (unstable_hash_table (metadata s))) ;;
  modify (with_metadata (upd_unstable (λ _, ∅))).

(** ** Rmap tree *)
Definition rmap_hash (it : rmap_item) : option Z :=
  if Z.land (va it) 0xFFF =? 0 then Some (u32 (Z.lor (va it) (Z.land (mm_id it) 0xFFF)))
  else None (* ERR_LOG_AND_STOP *).

Definition rmap_equal (a b : rmap_item) : bool := (va a =? va b) && (mm_id a =? mm_id b).

(** [collect_keys_to_remove] over the whole tree: the list is built by
    prepending. *)
Fixpoint collect_keys (l : list (item_key * loc)) (acc : list loc) : M server_st (list loc) :=
  match l with
  | [] => mret acc
  | (_, i) :: l' =>
    it ← get_item i;
    s ← get;
    if last_access it <? iteration s - 1 then
      match state it with
      | INone | Unstable => halt "Invalid state for item"
      | Volatile => mret tt
      | Stable => halt_if (bool_decide (stable_node_of it = None)) "Invalid stable node for item"
      end ;;
      collect_keys l' (i :: acc)
    else collect_keys l' acc
  end.

Definition prune_one (item : loc) : M server_st unit :=
  it ← get_item item;
  match state it, stable_node_of it with
  | Stable, Some node =>
    remove_item_from_node node item ;;
    nd ← get_node node;
    whenM (shared_cnt nd =? 0) (remove_stale_node_and_log node item)
  | _, _ => mret tt
  end ;;
  modify (with_metadata (upd_rmap (delete (key_of it)))) ;;
  free_item item.

Definition prune_rmap_tree : M server_st unit :=
  s ← get;
  keys ← collect_keys (gtree_list (rmap_tree (metadata s))) [];
  for_each prune_one keys.

Definition prune_metadata : M server_st unit :=
  clean_up_unstable_tree ;;
  s ← get;
  whenM (RMAP_PRUNE_MARGIN <? u64 (Z.of_nat (size (rmap_tree (metadata s))) - total_accessed_cnt s))
    prune_rmap_tree.

(** ** Teardown: the metadata part of [cleanup_rdma_cb] *)

(** [free_stable_node]: frees a whole chain from its head. *)
Fixpoint free_stable_node (fuel : nat) (node : option loc) : M server_st unit :=
  match node with
  | None => mret tt
  | Some n =>
    match fuel with
    | O => halt "chain does not end"
    | S fuel' =>
      nd ← get_node n;
      free_node n ;;
      free_stable_node fuel' (chain_next nd)
    end
  end.

Definition free_rmap_item (item : loc) : M server_st unit := free_item item.

Definition cleanup_metadata : M server_st unit :=
  s ← get;
  for_each (λ hl, free_stable_node (size (nodes (metadata s))) (Some hl.2))
    (map_to_list (stable_hash_table (metadata s))) ;;
  modify (with_metadata (upd_stable (λ _, ∅))) ;;
  modify (with_metadata (upd_unstable (λ _, ∅))) ;;
  for_each (λ kl, free_rmap_item kl.2) (gtree_list (rmap_tree (metadata s))) ;;
  modify (with_metadata (upd_rmap (λ _, ∅))).
