(* ===== verification/Merge.v ===== *)
(** * Merge: looking up an item and deciding what happens to its page

    [codes/bask/server.c]: [lookup_rmap_item], [cmp_and_merge_one] and the
    older variant [cmp_and_merge_one_old] selected by the [old] argument. *)
From S2P Require Import Prelude Wire HashPair Store LogTable Metadata.
Open Scope Z_scope.

(** The item [malloc] returns is not zeroed: [volatility_score], [skip_cnt],
    [old_pfn] and the node pointer keep the memory's previous contents. *)
Definition init_item (mm v : Z) (junk : rmap_item) : rmap_item :=
  RmapItem mm (last_access junk) 0 v (pfn junk) (old_pfn junk) null_hash Volatile
    (volatility_score junk) (skip_cnt junk) (stable_node_of junk).

Definition lookup_rmap_item (mm : Z) (pte : shadow_pte) : M server_st (option loc) :=
  s ← get;
  found ←
    match rmap_tree (metadata s) !! (mm, pte_va pte) with
    | Some l => mret (Some l)
    | None =>
      r ← malloc_item;
      match r with
      | None => mret None
      | Some (l, junk) =>
        upd_item l (λ _, init_item mm (pte_va pte) junk) ;;
        modify (with_metadata (upd_rmap (<[(mm, pte_va pte) := l]>))) ;;
        mret (Some l)
      end
    end;
  match found with
  | None => mret None
  | Some l =>
    modify (with_accessed (λ n, u64 (n + 1))) ;;
    upd_item l (set_access (s16 (iteration s)) (pte_kpfn pte)) ;;
    mret (Some l)
  end.

(** A new [struct stable_node]: zeroed, then the four assignments. *)
Definition new_stable_node (hash : hash_pair) (p : Z) : stable_node :=
  StableNode hash 0 p ∅ HEAD None None.

Definition count_volatile (st : server_stats) : server_stats :=
  ServerStats (skipped_cnt st) (u64 (volatile_items_cnt st + 1))
    (highly_volatile_but_stable_merged_cnt st) (highly_volatile_but_unstable_merged_cnt st)
    (broken_merges st).
Definition count_skipped (st : server_stats) : server_stats :=
  ServerStats (u64 (skipped_cnt st + 1)) (volatile_items_cnt st)
    (highly_volatile_but_stable_merged_cnt st) (highly_volatile_but_unstable_merged_cnt st)
    (broken_merges st).
Definition count_hv_stable (st : server_stats) : server_stats :=
  ServerStats (skipped_cnt st) (volatile_items_cnt st)
    (u64 (highly_volatile_but_stable_merged_cnt st + 1))
    (highly_volatile_but_unstable_merged_cnt st) (broken_merges st).
Definition count_hv_unstable (st : server_stats) : server_stats :=
  ServerStats (skipped_cnt st) (volatile_items_cnt st)
    (highly_volatile_but_stable_merged_cnt st)
    (u64 (highly_volatile_but_unstable_merged_cnt st + 1)) (broken_merges st).
Definition count_broken (st : server_stats) : server_stats :=
  ServerStats (skipped_cnt st) (volatile_items_cnt st)
    (highly_volatile_but_stable_merged_cnt st) (highly_volatile_but_unstable_merged_cnt st)
    (u64 (broken_merges st + 1)).

(** The chain nodes after the head, each given the new hash. *)
Fixpoint rehash_rest (fuel : nat) (hash : hash_pair) (chain_node : option loc) : M server_st unit :=
  match chain_node with
  | None => mret tt
  | Some n =>
    match fuel with
    | O => halt "chain does not end"
    | S fuel' =>
      upd_node n (set_page_hash hash) ;;
      nd ← get_node n;
      update_checksums hash (sharing_item_tree nd) ;;
      rehash_rest fuel' hash (chain_next nd)
    end
  end.

(** From the head: out of the table, rehash, back into the table. *)
Definition rehash_from_head (head : loc) (hash : hash_pair) : M server_st unit :=
  nd ← get_node head;
  modify (with_metadata (upd_stable (delete (page_hash nd)))) ;;
  upd_node head (set_page_hash hash) ;;
  update_checksums hash (sharing_item_tree nd) ;;
  s ← get;
  rehash_rest (size (nodes (metadata s))) hash (chain_next nd) ;;
  modify (with_metadata (upd_stable (<[hash := head]>))).

(** The [while (curr_node->chain.prev)] loop. *)
Fixpoint first_of_chain (fuel : nat) (n : loc) : M server_st loc :=
  nd ← get_node n;
  match chain_prev nd with
  | None => mret n
  | Some n' =>
    match fuel with
    | O => halt "chain does not end"
    | S fuel' => first_of_chain fuel' n'
    end
  end.

(** The branch taken when a stable page's content no longer has the recorded
    hash although its frame did not change. *)
Definition rehash_chain (curr_node : loc) (curr_item_hash curr_hash : hash_pair) : M server_st unit :=
  nd ← get_node curr_node;
  halt_if (negb (compare_hash_pair_equal curr_item_hash (page_hash nd)))
    "Checksum mismatch in Stable item" ;;
  match chain_type nd with
  | HEAD => rehash_from_head curr_node curr_hash
  | CHAIN =>
    halt_if (bool_decide (chain_prev nd = None)) "Invalid stable node type" ;;
    s ← get;
    head ← first_of_chain (size (nodes (metadata s))) curr_node;
    hd ← get_node head;
    halt_if (bool_decide (chain_type hd ≠ HEAD)) "Invalid stable node type" ;;
    rehash_from_head head curr_hash
  end.

(** The shared frame is no longer the item's: the item leaves the node, which
    is dropped with its last item. *)
Definition leave_node (curr_node curr_item : loc) : M server_st unit :=
  remove_item_from_node curr_node curr_item ;;
  reset_item_state curr_item ;;
  nd ← get_node curr_node;
  if shared_cnt nd =? 0 then remove_stale_node_and_log curr_node curr_item
  else it ← get_item curr_item; log_item_state_change it nd.

Section merge.
Context `{XXHash}.

(** Case [Stable]; the result says whether the code goes to [again]. *)
Definition merge_stable (pre : option hash_pair) (pg : page) (curr_item : loc) : M server_st bool :=
  it ← get_item curr_item;
  curr_node ← deref (stable_node_of it) "curr_node is NULL";
  nd ← get_node curr_node;
  if negb (node_pfn nd =? pfn it) then
    leave_node curr_node curr_item ;;
    upd_item curr_item bump_volatility ;;
    modify (with_stats count_broken) ;;
    mret true
  else
    let curr_hash := calculate_hash_pair pre pg in
    (if negb (compare_hash_pair_equal curr_hash (old_hash it))
     then rehash_chain curr_node (old_hash it) curr_hash else mret tt) ;;
    upd_item curr_item decay_volatility ;;
    mret false.

(** Joining an existing stable node. *)
Definition merge_with_stable (node curr_item : loc) : M server_st Z :=
  nd ← get_node node;
  halt_if (MAX_PAGE_SHARING <=? shared_cnt nd) "Invalid shared count for stable node" ;;
  it ← get_item curr_item;
  whenM (0 <? volatility_score it) (modify (with_stats count_hv_stable)) ;;
  insert_item_to_node node curr_item ;;
  it ← get_item curr_item;
  nd ← get_node node;
  log_stable_merge it nd ;;
  mret 0.

(** Promoting an unstable partner and the current item to a new stable node. *)
Definition merge_with_unstable (curr_hash : hash_pair) (unstable_node curr_item : loc) : M server_st Z :=
  it ← get_item curr_item;
  r ← malloc_node (new_stable_node curr_hash (pfn it));
  match r with
  | None => mret (-1)
  | Some node =>
    insert_stable_node node ;;
    insert_item_to_node node unstable_node ;;
    insert_item_to_node node curr_item ;;
    it ← get_item curr_item;
    un ← get_item unstable_node;
    log_unstable_merge it un ;;
    whenM ((0 <? volatility_score it) || (0 <? volatility_score un))
      (modify (with_stats count_hv_unstable)) ;;
    mret 0
  end.

(** No stable node takes the page: look among the unstable items. *)
Definition try_unstable (curr_hash : hash_pair) (curr_item : loc) : M server_st Z :=
  upd_item curr_item (set_old_hash curr_hash) ;;
  u ← cmp_with_unstable curr_item;
  match u with
  | Some un => merge_with_unstable curr_hash un curr_item
  | None =>
    upd_item curr_item (set_old_hash curr_hash) ;;
    upd_item curr_item (set_state Unstable) ;;
    insert_unstable_node curr_item ;;
    mret 0
  end.

(** Case [Volatile]. *)
Definition merge_volatile (pre : option hash_pair) (pg : page) (curr_item : loc) : M server_st Z :=
  modify (with_stats count_volatile) ;;
  upd_item curr_item (λ it, set_age (s16 (age it + 1)) it) ;;
  it ← get_item curr_item;
  s ← get;
  let '(skip, it') := should_skip_item (smart_scan_opt s) it in
  upd_item curr_item (λ _, it') ;;
  if (skip : bool) then modify (with_stats count_skipped) ;; mret 0
  else
    let curr_hash := calculate_hash_pair pre pg in
    it ← get_item curr_item;
    if compare_hash_pair_equal (old_hash it) curr_hash then
      upd_item curr_item decay_volatility ;;
      node ← cmp_with_stable curr_hash;
      match node with
      | Some n => merge_with_stable n curr_item
      | None => try_unstable curr_hash curr_item
      end
    else
      whenM (negb (compare_hash_pair_equal (old_hash it) null_hash))
        (upd_item curr_item bump_volatility) ;;
      upd_item curr_item (set_old_hash curr_hash) ;;
      mret 0.

(** The [again:] loop: the stable case that resets the item comes back with a
    volatile item, so two rounds are enough. *)
Fixpoint merge_again (fuel : nat) (pre : option hash_pair) (pg : page) (curr_item : loc)
  : M server_st Z :=
  match fuel with
  | O => fault "again: out of fuel"
  | S fuel' =>
    it ← get_item curr_item;
    match state it with
    | INone | Unstable => halt "Invalid state for item"
    | Stable =>
      again ← merge_stable pre pg curr_item;
      if (again : bool) then merge_again fuel' pre pg curr_item else mret 0
    | Volatile => merge_volatile pre pg curr_item
    end
  end.

Definition cmp_and_merge_one (pre : option hash_pair) (pg : page) (curr_item : loc) : M server_st Z :=
  merge_again 2 pre pg curr_item.

(** ** [cmp_and_merge_one_old] *)
Definition merge_stable_old (pre : option hash_pair) (pg : page) (curr_item : loc) : M server_st bool :=
  it ← get_item curr_item;
  curr_node ← deref (stable_node_of it) "curr_node is NULL";
  nd ← get_node curr_node;
  if negb (node_pfn nd =? pfn it) then
    leave_node curr_node curr_item ;;
    mret true
  else
    let curr_hash := calculate_hash_pair pre pg in
    (if negb (compare_hash_pair_equal curr_hash (old_hash it))
     then rehash_chain curr_node (old_hash it) curr_hash else mret tt) ;;
    mret false.

Definition merge_volatile_old (pre : option hash_pair) (pg : page) (curr_item : loc) : M server_st Z :=
  let curr_hash := calculate_hash_pair pre pg in
  node ← cmp_with_stable curr_hash;
  match node with
  | Some n =>
    nd ← get_node n;
    halt_if (MAX_PAGE_SHARING <=? shared_cnt nd) "Invalid shared count for stable node" ;;
    insert_item_to_node n curr_item ;;
    it ← get_item curr_item;
    nd ← get_node n;
    log_stable_merge it nd ;;
    mret 0
  | None =>
    it ← get_item curr_item;
    if compare_hash_pair_equal (old_hash it) curr_hash then
      upd_item curr_item (set_old_hash curr_hash) ;;
      u ← cmp_with_unstable curr_item;
      match u with
      | Some un =>
        uit ← get_item un;
        halt_if (negb (compare_hash_pair_equal (old_hash uit) curr_hash)) "Checksum mismatch" ;;
        it ← get_item curr_item;
        r ← malloc_node (new_stable_node curr_hash (pfn it));
        match r with
        | None => mret (-1)
        | Some n =>
          insert_stable_node n ;;
          insert_item_to_node n un ;;
          insert_item_to_node n curr_item ;;
          it ← get_item curr_item;
          uit ← get_item un;
          log_unstable_merge it uit ;;
          mret 0
        end
      | None =>
        upd_item curr_item (set_old_hash curr_hash) ;;
        upd_item curr_item (set_state Unstable) ;;
        insert_unstable_node curr_item ;;
        mret 0
      end
    else upd_item curr_item (set_old_hash curr_hash) ;; mret 0
  end.

Fixpoint merge_again_old (fuel : nat) (pre : option hash_pair) (pg : page) (curr_item : loc)
  : M server_st Z :=
  match fuel with
  | O => fault "again: out of fuel"
  | S fuel' =>
    it ← get_item curr_item;
    match state it with
    | INone | Unstable => halt "Invalid state for item"
    | Stable =>
      again ← merge_stable_old pre pg curr_item;
      if (again : bool) then merge_again_old fuel' pre pg curr_item else mret 0
    | Volatile => merge_volatile_old pre pg curr_item
    end
  end.

Definition cmp_and_merge_one_old (pre : option hash_pair) (pg : page) (curr_item : loc) : M server_st Z :=
  merge_again_old 2 pre pg curr_item.

End merge.
