(* ===== verification/MetadataInv.v ===== *)
(** * MetadataInv: the representation invariant of the server's metadata

    [wf C x y m] holds of the metadata [m] when
    - [rmap_tree] indexes exactly the live items by (mm_id, va);
    - every [Stable] item is in the sharing tree of the node it points to and
      carries that node's hash, and every sharing tree lists only such items;
    - [shared_cnt] is the size of the sharing tree, at most
      [MAX_PAGE_SHARING], and positive;
    - the live nodes are partitioned into the chains [C], doubly linked,
      headed by the entry of [stable_hash_table] under their common hash;
    - [unstable_hash_table] indexes exactly the [Unstable] items by hash.
    [x] is an item in transit between two of these roles and [y] a node in
    transit, exempt from positivity, while an operation is under way; between
    operations both are [None]. *)
From S2P Require Import Prelude Wire HashPair Store LogTable Metadata.
Open Scope Z_scope.

Abbreviation chains := (gmap hash_pair (list loc)).

Definition next_or (l : list loc) (nxt : option loc) : option loc :=
  match l with [] => nxt | m :: _ => Some m end.

(** A doubly linked segment of nodes with hash [h]. *)
Fixpoint chain_seg (N : gmap loc stable_node) (h : hash_pair)
    (prev : option loc) (l : list loc) (nxt : option loc) : Prop :=
  match l with
  | [] => True
  | n :: l' =>
    (∃ nd, N !! n = Some nd ∧ page_hash nd = h ∧
       chain_type nd = (match prev with None => HEAD | Some _ => CHAIN end) ∧
       chain_prev nd = prev ∧ chain_next nd = next_or l' nxt) ∧
    chain_seg N h (Some n) l' nxt
  end.

Definition inv_rmap (R : gmap item_key loc) (I : gmap loc rmap_item) : Prop :=
  ∀ k l, R !! k = Some l ↔ ∃ it, I !! l = Some it ∧ key_of it = k.

Definition item_ok (N : gmap loc stable_node) (l : loc) (it : rmap_item) : Prop :=
  match state it with
  | INone => False
  | Volatile | Unstable => True
  | Stable => ∃ n nd, stable_node_of it = Some n ∧ N !! n = Some nd ∧
                sharing_item_tree nd !! key_of it = Some l ∧ old_hash it = page_hash nd
  end.

Definition shares (x : option loc) (I : gmap loc rmap_item) (n : loc) (nd : stable_node) : Prop :=
  ∀ k l, sharing_item_tree nd !! k = Some l →
    Some l ≠ x ∧ ∃ it, I !! l = Some it ∧ key_of it = k ∧ state it = Stable ∧ stable_node_of it = Some n.

Definition counted (y : option loc) (n : loc) (nd : stable_node) : Prop :=
  shared_cnt nd = Z.of_nat (size (sharing_item_tree nd)) ∧ shared_cnt nd ≤ MAX_PAGE_SHARING ∧
  (Some n ≠ y → 0 < shared_cnt nd).

Record inv_share (x y : option loc) (I : gmap loc rmap_item) (N : gmap loc stable_node) : Prop := {
  is_items : ∀ l it, I !! l = Some it → Some l ≠ x → item_ok N l it;
  is_nodes : ∀ n nd, N !! n = Some nd → shares x I n nd;
  is_count : ∀ n nd, N !! n = Some nd → counted y n nd }.

Record inv_chain (C : chains) (N : gmap loc stable_node) (T : gmap hash_pair loc) : Prop := {
  ic_seg : ∀ h l, C !! h = Some l → l ≠ [] ∧ NoDup l ∧ chain_seg N h None l None;
  ic_table : ∀ h, T !! h = C !! h ≫= head;
  ic_member : ∀ n nd, N !! n = Some nd → ∃ l, C !! page_hash nd = Some l ∧ n ∈ l }.

Definition inv_unst (x : option loc) (I : gmap loc rmap_item) (U : gmap hash_pair loc) : Prop :=
  ∀ h l, U !! h = Some l ↔
    Some l ≠ x ∧ ∃ it, I !! l = Some it ∧ state it = Unstable ∧ old_hash it = h.

Record wf (C : chains) (x y : option loc) (m : ksm_metadata) : Prop := Wf {
  wf_rmap : inv_rmap (rmap_tree m) (items m);
  wf_share : inv_share x y (items m) (nodes m);
  wf_chain : inv_chain C (nodes m) (stable_hash_table m);
  wf_unst : inv_unst x (items m) (unstable_hash_table m) }.

(** The invariant between operations. *)
Definition metadata_ok (m : ksm_metadata) : Prop := ∃ C, wf C None None m.

Definition empty_metadata : ksm_metadata := KsmMetadata ∅ ∅ ∅ ∅ ∅.

(** ** Item maps *)
Lemma inv_rmap_upd R I l it it' :
  inv_rmap R I → I !! l = Some it → key_of it' = key_of it → inv_rmap R (<[l := it']> I).
Proof.
  intros H Hl Hk k l'. rewrite (H k l'). destruct (decide (l = l')) as [<-|Hne].
  - rewrite lookup_insert_eq, Hl.
    split; intros (i & [= <-] & E); eexists; (split; [done|congruence]).
  - by rewrite lookup_insert_ne.
Qed.

Lemma inv_rmap_inj R I l1 l2 it1 it2 :
  inv_rmap R I → I !! l1 = Some it1 → I !! l2 = Some it2 → key_of it1 = key_of it2 → l1 = l2.
Proof.
  intros H H1 H2 Hk.
  assert (R !! key_of it1 = Some l1) as E1 by (apply H; eauto).
  assert (R !! key_of it1 = Some l2) as E2 by (apply H; eauto). congruence.
Qed.

Lemma inv_rmap_delete R I l it :
  inv_rmap R I → I !! l = Some it → inv_rmap (delete (key_of it) R) (delete l I).
Proof.
  intros H Hl k l'. rewrite lookup_delete_Some. split.
  - intros [Hk Hr]. apply H in Hr as (it' & Hit' & <-). exists it'. split; [|done].
    rewrite lookup_delete_ne; [done|]. intros <-. congruence.
  - intros (it' & [Hne Hit']%lookup_delete_Some & <-). split; [|apply H; eauto].
    intros Hk. apply Hne. eapply inv_rmap_inj; eauto.
Qed.

Lemma inv_rmap_insert R I l it :
  inv_rmap R I → I !! l = None → R !! key_of it = None → inv_rmap (<[key_of it := l]> R) (<[l := it]> I).
Proof.
  intros H Hl Hk k l'. destruct (decide (key_of it = k)) as [<-|Hne].
  - rewrite lookup_insert_eq. split.
    + intros [= <-]. exists it. by rewrite lookup_insert_eq.
    + intros (it' & Hit' & Hk'). destruct (decide (l = l')) as [<-|Hl']; [done|].
      rewrite lookup_insert_ne in Hit' by done. exfalso.
      assert (R !! key_of it = Some l') by (apply H; eauto). congruence.
  - rewrite lookup_insert_ne by done. rewrite (H k l'). destruct (decide (l = l')) as [<-|Hl'].
    + rewrite lookup_insert_eq, Hl. naive_solver.
    + by rewrite lookup_insert_ne.
Qed.

Lemma inv_unst_upd_transit I U l it' :
  inv_unst (Some l) I U → inv_unst (Some l) (<[l := it']> I) U.
Proof.
  intros H h l'. rewrite (H h l'). destruct (decide (l = l')) as [<-|Hne]; [naive_solver|].
  by rewrite lookup_insert_ne.
Qed.

Lemma shares_upd_other x I n nd l it' :
  shares x I n nd → (∀ k, sharing_item_tree nd !! k ≠ Some l) → shares x (<[l := it']> I) n nd.
Proof.
  intros H Hl k l' Hk. destruct (H k l' Hk) as [Hx H']. split; [done|].
  rewrite lookup_insert_ne; [done|]. intros <-. by eapply Hl.
Qed.

Lemma inv_share_upd_transit y I N l it' :
  inv_share (Some l) y I N → inv_share (Some l) y (<[l := it']> I) N.
Proof.
  intros [H1 H2 H3]. split; [..|done].
  - intros l' it0. destruct (decide (l = l')) as [<-|Hne]; [naive_solver|].
    rewrite lookup_insert_ne by done. apply H1.
  - intros n nd Hn. apply shares_upd_other; [by apply H2|].
    intros k Hk. by destruct (H2 n nd Hn k l Hk).
Qed.

(** ** Chains *)
Lemma chain_seg_app N h p l1 l2 q :
  chain_seg N h p (l1 ++ l2) q ↔
  chain_seg N h p l1 (next_or l2 q) ∧ chain_seg N h (from_option Some p (last l1)) l2 q.
Proof.
  revert p. induction l1 as [|n l1 IH]; intros p; simpl; [tauto|].
  rewrite IH. rewrite last_cons.
  assert (next_or (l1 ++ l2) q = next_or l1 (next_or l2 q)) as -> by (by destruct l1).
  destruct (last l1); simpl; tauto.
Qed.

Lemma chain_seg_frame N N' h p l q :
  (∀ n, n ∈ l → ∀ nd, N !! n = Some nd → ∃ nd', N' !! n = Some nd' ∧ page_hash nd' = page_hash nd ∧
     chain_type nd' = chain_type nd ∧ chain_prev nd' = chain_prev nd ∧ chain_next nd' = chain_next nd) →
  chain_seg N h p l q → chain_seg N' h p l q.
Proof.
  revert p. induction l as [|n l IH]; intros p HN; simpl; [done|].
  intros [(nd & Hn & H) Hl]. split; [|apply IH; [set_solver|done]].
  destruct (HN n ltac:(set_solver) nd Hn) as (nd' & Hn' & E1 & E2 & E3 & E4).
  exists nd'. rewrite E1, E2, E3, E4. tauto.
Qed.

Lemma chain_seg_lookup N h p l q n :
  chain_seg N h p l q → n ∈ l → ∃ nd, N !! n = Some nd ∧ page_hash nd = h.
Proof.
  revert p. induction l as [|m l IH]; intros p; simpl; [set_solver|].
  intros [(nd & Hn & Hh & _) Hl] [->|Hin]%elem_of_cons; eauto.
Qed.

Definition same_links (a b : stable_node) : Prop :=
  page_hash a = page_hash b ∧ chain_type a = chain_type b ∧
  chain_prev a = chain_prev b ∧ chain_next a = chain_next b.

Lemma inv_chain_upd C N T n nd nd' :
  inv_chain C N T → N !! n = Some nd → same_links nd' nd → inv_chain C (<[n := nd']> N) T.
Proof.
  intros [H1 H2 H3] Hn (E1 & E2 & E3 & E4). split; [|done|].
  - intros h l Hl. destruct (H1 h l Hl) as (? & ? & Hs). do 2 (split; [done|]).
    revert Hs. apply chain_seg_frame. intros m Hm md Hmd.
    destruct (decide (n = m)) as [<-|Hne].
    + rewrite lookup_insert_eq. exists nd'. rewrite Hn in Hmd. injection Hmd as ->. done.
    + rewrite lookup_insert_ne by done. by exists md.
  - intros m md. destruct (decide (n = m)) as [<-|Hne].
    + rewrite lookup_insert_eq. intros [= <-]. rewrite E1. by apply H3.
    + rewrite lookup_insert_ne by done. apply H3.
Qed.

Lemma chain_in_list C N T h l n nd :
  inv_chain C N T → C !! h = Some l → N !! n = Some nd → page_hash nd = h → n ∈ l.
Proof. intros [_ _ H] Hl Hn <-. destruct (H n nd Hn) as (l' & Hl' & ?). congruence. Qed.

Lemma chain_list_node C N T h l n :
  inv_chain C N T → C !! h = Some l → n ∈ l → ∃ nd, N !! n = Some nd ∧ page_hash nd = h.
Proof. intros [H _ _] Hl Hn. destruct (H h l Hl) as (_ & _ & Hs). by eapply chain_seg_lookup. Qed.

(** ** Transitions of the invariant *)
Section transitions.
Context (C : chains) (y : option loc) (m : ksm_metadata).

Lemma wf_open_volatile l it :
  wf C None y m → items m !! l = Some it → state it = Volatile → wf C (Some l) y m.
Proof.
  intros [Hr [Hs1 Hs2 Hs3] Hc Hu] Hl Hst. split; [done| |done|].
  - split; [naive_solver| |done]. intros n nd Hn k l' Hk.
    destruct (Hs2 n nd Hn k l' Hk) as (_ & it' & Hit' & ? & Hst' & ?).
    split; [|eauto]. intros [= ->]. congruence.
  - intros h l'. rewrite (Hu h l'). split; [|naive_solver].
    intros (_ & it' & Hit' & Hst' & Hh). split; [|eauto]. intros [= ->]. congruence.
Qed.

Lemma wf_upd_transit l it it' :
  wf C (Some l) y m → items m !! l = Some it → key_of it' = key_of it →
  wf C (Some l) y (upd_items (<[l := it']>) m).
Proof.
  intros [Hr Hs Hc Hu] Hl Hk. split; simpl; [by eapply inv_rmap_upd| |done|].
  - by apply inv_share_upd_transit.
  - by apply inv_unst_upd_transit.
Qed.

Lemma wf_close_volatile l it :
  wf C (Some l) y m → items m !! l = Some it → state it = Volatile → wf C None y m.
Proof.
  intros [Hr [Hs1 Hs2 Hs3] Hc Hu] Hl Hst. split; [done| |done|].
  - split; [| |done].
    + intros l' it' Hl' _. destruct (decide (l = l')) as [<-|Hne]; [|apply Hs1; congruence].
      unfold item_ok. by replace it' with it by congruence; rewrite Hst.
    + intros n nd Hn k l' Hk. destruct (Hs2 n nd Hn k l' Hk) as (_ & ?). done.
  - intros h l'. rewrite (Hu h l'). split; [naive_solver|].
    intros (_ & it' & Hit' & Hst' & Hh). split; [|eauto]. intros [= ->]. congruence.
Qed.

Lemma wf_upd_volatile l it it' :
  wf C None y m → items m !! l = Some it → state it = Volatile → key_of it' = key_of it →
  state it' = Volatile → wf C None y (upd_items (<[l := it']>) m).
Proof.
  intros Hwf Hl Hst Hk Hst'.
  assert (wf C (Some l) y m) as H1 by (by eapply wf_open_volatile).
  pose proof (wf_upd_transit l it it' H1 Hl Hk) as H2.
  destruct H2 as [Hr [Hs1 Hs2 Hs3] Hc Hu]. simpl in *.
  split; simpl; [done| |done|].
  - split; [| |done].
    + intros l' i' Hl' _. destruct (decide (l = l')) as [<-|Hne]; [|apply Hs1; congruence].
      rewrite lookup_insert_eq in Hl'. injection Hl' as <-. unfold item_ok. by rewrite Hst'.
    + intros n nd Hn k l' Hk'. destruct (Hs2 n nd Hn k l' Hk') as (_ & ?). done.
  - intros h l'. rewrite (Hu h l'). split; [naive_solver|].
    intros (_ & i' & Hi' & Hsi & Hh). split; [|eauto]. intros [= ->].
    rewrite lookup_insert_eq in Hi'. congruence.
Qed.

(** An item update that keeps its role. *)
Lemma wf_touch x l it it' :
  wf C x y m → items m !! l = Some it → key_of it' = key_of it → state it' = state it →
  old_hash it' = old_hash it → stable_node_of it' = stable_node_of it →
  wf C x y (upd_items (<[l := it']>) m).
Proof.
  intros [Hr [Hs1 Hs2 Hs3] Hc Hu] Hl Hk Hst Hh Hn. split; simpl; [by eapply inv_rmap_upd| |done|].
  - split; [| |done].
    + intros l' i' Hl' Hx. destruct (decide (l = l')) as [<-|Hne].
      * rewrite lookup_insert_eq in Hl'. injection Hl' as <-.
        specialize (Hs1 l it Hl Hx). unfold item_ok in *. by rewrite Hst, Hk, Hh, Hn.
      * rewrite lookup_insert_ne in Hl' by done. by apply Hs1.
    + intros n nd Hn' k l' Hk'. destruct (Hs2 n nd Hn' k l' Hk') as (Hx & i & Hi & E1 & E2 & E3).
      split; [done|]. destruct (decide (l = l')) as [<-|Hne].
      * rewrite lookup_insert_eq. exists it'. replace i with it in * by congruence.
        rewrite Hk, Hst, Hn. done.
      * rewrite lookup_insert_ne by done. eauto.
  - intros h l'. rewrite (Hu h l'). destruct (decide (l = l')) as [<-|Hne].
    + rewrite lookup_insert_eq, Hl. split; intros (Hx & i & [= <-] & E1 & E2); (split; [done|]).
      * exists it'. by rewrite Hst, Hh.
      * exists it. by rewrite <- Hst, <- Hh.
    + by rewrite lookup_insert_ne.
Qed.

(** [insert_item_to_node]: the item in transit joins node [n]. *)
Lemma wf_join l it it' n nd :
  wf C (Some l) y m → items m !! l = Some it → nodes m !! n = Some nd → (y = None ∨ y = Some n) →
  shared_cnt nd < MAX_PAGE_SHARING → key_of it' = key_of it → state it' = Stable →
  stable_node_of it' = Some n → old_hash it' = page_hash nd →
  wf C None None (upd_items (<[l := it']>) (upd_nodes (<[n :=
    set_sharing (s32 (shared_cnt nd + 1)) (<[key_of it := l]> (sharing_item_tree nd)) nd]>) m)).
Proof.
  intros [Hr [Hs1 Hs2 Hs3] Hc Hu] Hl Hn Hy Hlt Hk Hst Hsn Hh.
  assert (sharing_item_tree nd !! key_of it = None) as Hfresh.
  { destruct (sharing_item_tree nd !! key_of it) as [l'|] eqn:E; [exfalso|done].
    destruct (Hs2 n nd Hn _ _ E) as (Hne & i & Hi & Hki & _).
    apply Hne. f_equal. symmetry. by eapply inv_rmap_inj. }
  destruct (Hs3 n nd Hn) as (Hcnt & Hmax & _). unfold MAX_PAGE_SHARING in *.
  split; simpl; [by eapply inv_rmap_upd| | |].
  - split.
    + intros l' i Hi _. destruct (decide (l = l')) as [<-|Hne].
      * rewrite lookup_insert_eq in Hi. injection Hi as <-. unfold item_ok. rewrite Hst.
        eexists n, _. rewrite lookup_insert_eq. split_and!; [done..| |done].
        simpl. rewrite Hk. by rewrite lookup_insert_eq.
      * rewrite lookup_insert_ne in Hi by done.
        assert (item_ok (nodes m) l' i) as Hok by (apply Hs1; congruence).
        unfold item_ok in *. destruct (state i); try done.
        destruct Hok as (n' & nd' & E1 & E2 & E3 & E4). exists n'.
        destruct (decide (n = n')) as [<-|Hnn].
        -- rewrite lookup_insert_eq. eexists; split_and!; [done..| |]; simpl; [|congruence].
           replace nd' with nd in * by congruence. rewrite lookup_insert_ne by congruence. done.
        -- rewrite lookup_insert_ne by done. eauto.
    + intros n' nd' Hn' k l' Hk'. split; [done|]. destruct (decide (n = n')) as [<-|Hnn].
      * rewrite lookup_insert_eq in Hn'. injection Hn' as <-. simpl in Hk'.
        apply lookup_insert_Some in Hk' as [[<- <-]|[Hkne Hk']].
        -- exists it'. by rewrite lookup_insert_eq.
        -- destruct (Hs2 n nd Hn k l' Hk') as (Hne & i & Hi & E).
           exists i. rewrite lookup_insert_ne by congruence. done.
      * rewrite lookup_insert_ne in Hn' by done.
        destruct (Hs2 n' nd' Hn' k l' Hk') as (Hne & i & Hi & E).
        exists i. rewrite lookup_insert_ne by congruence. done.
    + intros n' nd' Hn'. destruct (decide (n = n')) as [<-|Hnn].
      * rewrite lookup_insert_eq in Hn'. injection Hn' as <-. unfold counted; simpl.
        rewrite map_size_insert_None by done. rewrite wrap_s_small by lia. unfold MAX_PAGE_SHARING. lia.
      * rewrite lookup_insert_ne in Hn' by done. destruct (Hs3 n' nd' Hn') as (?&?&?).
        split_and!; [done..|]. intros _. naive_solver congruence.
  - eapply inv_chain_upd; [done..|]. done.
  - intros h l'. rewrite (Hu h l'). destruct (decide (l = l')) as [<-|Hne].
    + rewrite lookup_insert_eq. naive_solver congruence.
    + rewrite lookup_insert_ne by done. naive_solver congruence.
Qed.

(** [remove_item_from_node]: a stable item leaves its node. *)
Lemma wf_leave l it n nd :
  wf C None None m → items m !! l = Some it → state it = Stable → stable_node_of it = Some n →
  nodes m !! n = Some nd →
  wf C (Some l) (Some n) (upd_nodes (<[n :=
    set_sharing (s32 (shared_cnt nd - 1)) (delete (key_of it) (sharing_item_tree nd)) nd]>) m) ∧
  0 ≤ shared_cnt nd - 1 ∧ s32 (shared_cnt nd - 1) = shared_cnt nd - 1.
Proof.
  intros [Hr [Hs1 Hs2 Hs3] Hc Hu] Hl Hst Hsn Hn.
  assert (sharing_item_tree nd !! key_of it = Some l) as Hin.
  { specialize (Hs1 l it Hl ltac:(done)). unfold item_ok in Hs1. rewrite Hst in Hs1.
    destruct Hs1 as (n' & nd' & E1 & E2 & E3 & _). congruence. }
  destruct (Hs3 n nd Hn) as (Hcnt & Hmax & Hpos). specialize (Hpos ltac:(done)).
  pose proof (map_size_delete_Some _ _ (mk_is_Some _ _ Hin)) as Hsz.
  unfold MAX_PAGE_SHARING in *.
  assert (s32 (shared_cnt nd - 1) = shared_cnt nd - 1) as Hw by (apply wrap_s_small; lia).
  split; [|lia]. rewrite Hw.
  split; simpl; [done| | |].
  - split.
    + intros l' i Hi Hne. specialize (Hs1 l' i Hi ltac:(done)). unfold item_ok in *.
      destruct (state i); try done. destruct Hs1 as (n' & nd' & E1 & E2 & E3 & E4). exists n'.
      destruct (decide (n = n')) as [<-|Hnn].
      * rewrite lookup_insert_eq. replace nd' with nd in * by congruence.
        eexists; split_and!; [done..| |done]; simpl.
        rewrite lookup_delete_ne; [done|]. intros Hk. apply Hne. f_equal.
        symmetry. by eapply inv_rmap_inj.
      * rewrite lookup_insert_ne by done. eauto.
    + intros n' nd' Hn' k l' Hk'. destruct (decide (n = n')) as [<-|Hnn].
      * rewrite lookup_insert_eq in Hn'. injection Hn' as <-. simpl in Hk'.
        apply lookup_delete_Some in Hk' as [Hkne Hk'].
        destruct (Hs2 n nd Hn k l' Hk') as (_ & i & Hi & E). split; [|eauto].
        intros [= ->]. apply Hkne. destruct E as [<- _]. congruence.
      * rewrite lookup_insert_ne in Hn' by done.
        destruct (Hs2 n' nd' Hn' k l' Hk') as (_ & i & Hi & E). split; [|eauto].
        intros [= ->]. destruct E as (_ & _ & E). congruence.
    + intros n' nd' Hn'. destruct (decide (n = n')) as [<-|Hnn].
      * rewrite lookup_insert_eq in Hn'. injection Hn' as <-. unfold counted, MAX_PAGE_SHARING; simpl.
        rewrite Hsz. split_and!; [lia..|done].
      * rewrite lookup_insert_ne in Hn' by done. destruct (Hs3 n' nd' Hn') as (?&?&?).
        split_and!; [done..|]. naive_solver.
  - eapply inv_chain_upd; [done..|]. done.
  - intros h l'. rewrite (Hu h l'). split; [|naive_solver].
    intros (_ & i & Hi & E). split; [|eauto]. intros [= ->]. destruct E. congruence.
Qed.

(** A node in transit that turns out to be shared. *)
Lemma wf_close_node x n nd :
  wf C x (Some n) m → nodes m !! n = Some nd → 0 < shared_cnt nd → wf C x None m.
Proof.
  intros [Hr [Hs1 Hs2 Hs3] Hc Hu] Hn Hpos. split; [done| |done|done].
  split; [done..|]. intros n' nd' Hn'. destruct (Hs3 n' nd' Hn') as (?&?&?).
  split_and!; [done..|]. intros _. destruct (decide (n = n')) as [<-|]; [|naive_solver congruence].
  by replace nd' with nd by congruence.
Qed.

(** The item in transit is freed. *)
Lemma wf_free l it :
  wf C (Some l) y m → items m !! l = Some it →
  wf C None y (upd_items (delete l) (upd_rmap (delete (key_of it)) m)).
Proof.
  intros [Hr [Hs1 Hs2 Hs3] Hc Hu] Hl. split; simpl; [by apply inv_rmap_delete| |done|].
  - split; [| |done].
    + intros l' i [Hne Hi]%lookup_delete_Some _. apply Hs1; congruence.
    + intros n nd Hn k l' Hk. destruct (Hs2 n nd Hn k l' Hk) as (Hne & i & Hi & E).
      split; [done|]. exists i. rewrite lookup_delete_ne by congruence. done.
  - intros h l'. rewrite (Hu h l'). split.
    + intros (Hne & i & Hi & E). split; [done|]. exists i. by rewrite lookup_delete_ne by congruence.
    + intros (_ & i & [Hne Hi]%lookup_delete_Some & E). split; [congruence|eauto].
Qed.

(** A new volatile item under a fresh key. *)
Lemma wf_alloc l it :
  wf C None y m → items m !! l = None → rmap_tree m !! key_of it = None → state it = Volatile →
  wf C None y (upd_rmap (<[key_of it := l]>) (upd_items (<[l := it]>) m)).
Proof.
  intros [Hr [Hs1 Hs2 Hs3] Hc Hu] Hl Hk Hst. split; simpl; [by apply inv_rmap_insert| |done|].
  - split; [| |done].
    + intros l' i Hi _. apply lookup_insert_Some in Hi as [[<- <-]|[Hne Hi]].
      * unfold item_ok. by rewrite Hst.
      * by apply Hs1.
    + intros n nd Hn k l' Hk'. destruct (Hs2 n nd Hn k l' Hk') as (_ & i & Hi & E).
      split; [done|]. exists i. rewrite lookup_insert_ne by congruence. done.
  - intros h l'. rewrite (Hu h l'). split.
    + intros (_ & i & Hi & E). split; [done|]. exists i. by rewrite lookup_insert_ne by congruence.
    + intros (_ & i & Hi & Hsi & E). split; [done|].
      apply lookup_insert_Some in Hi as [[<- <-]|[Hne Hi]]; [congruence|eauto].
Qed.

(** An unstable item is taken out of, or put into, the unstable table. *)
Lemma wf_take_unstable h l :
  wf C None y m → unstable_hash_table m !! h = Some l →
  wf C (Some l) y (upd_unstable (delete h) m).
Proof.
  intros [Hr [Hs1 Hs2 Hs3] Hc Hu] Hl.
  destruct (proj1 (Hu h l) Hl) as (_ & it & Hit & Hst & Hh).
  split; simpl; [done| |done|].
  - split; [naive_solver| |done]. intros n nd Hn k l' Hk.
    destruct (Hs2 n nd Hn k l' Hk) as (_ & i & Hi & E). split; [|eauto].
    intros [= ->]. destruct E as (_ & E & _). congruence.
  - intros h' l'. rewrite lookup_delete_Some, (Hu h' l'). split.
    + intros (Hne & _ & i & Hi & E1 & E2). split; [|eauto]. intros [= ->]. congruence.
    + intros (Hne & i & Hi & E1 & E2). split; [|eauto]. intros ->.
      assert (unstable_hash_table m !! old_hash i = Some l') by (apply Hu; eauto). congruence.
Qed.

Lemma wf_put_unstable l it :
  wf C (Some l) y m → items m !! l = Some it → state it = Unstable →
  unstable_hash_table m !! old_hash it = None →
  wf C None y (upd_unstable (<[old_hash it := l]>) m).
Proof.
  intros [Hr [Hs1 Hs2 Hs3] Hc Hu] Hl Hst Hf. split; simpl; [done| |done|].
  - split; [| |done].
    + intros l' i Hi _. destruct (decide (l = l')) as [<-|Hne]; [|apply Hs1; congruence].
      unfold item_ok. by replace i with it by congruence; rewrite Hst.
    + intros n nd Hn k l' Hk. by destruct (Hs2 n nd Hn k l' Hk) as (_ & ?).
  - intros h l'. destruct (decide (old_hash it = h)) as [<-|Hne].
    + rewrite lookup_insert_eq. split; [naive_solver|].
      intros (_ & i & Hi & E1 & E2). destruct (decide (l = l')) as [<-|Hl']; [done|]. exfalso.
      assert (unstable_hash_table m !! old_hash it = Some l') by (apply Hu; naive_solver congruence).
      congruence.
    + rewrite lookup_insert_ne by done. rewrite (Hu h l'). split; [naive_solver|].
      intros (_ & i & Hi & E1 & E2). split; [|eauto]. intros [= ->]. congruence.
Qed.

End transitions.

(** ** The initial metadata *)
Lemma metadata_ok_empty : metadata_ok empty_metadata.
Proof.
  exists ∅. split; simpl.
  - intros k l. rewrite !lookup_empty. split; [done|]. by intros (? & ? & ?).
  - split; intros *; by rewrite lookup_empty.
  - split; intros *; by rewrite ?lookup_empty.
  - intros h l. rewrite lookup_empty. split; [done|]. intros (_ & it & Hit & _). by rewrite lookup_empty in Hit.
Qed.
