(* ===== verification/ChainInv.v ===== *)
(** * ChainInv: linking, unlinking and walking the chains of stable nodes

    The pointer manipulations of [insert_stable_node] and
    [remove_stable_node_no_item] preserve the representation invariant, and
    the walks along [chain.next] / [chain.prev] end within the fuel. *)
From S2P Require Import Prelude Wire HashPair Store LogTable Metadata Merge MetadataInv.
Open Scope Z_scope.

(** What happens to the chains when the chain of [h] becomes [l]. *)
Definition put_chain (h : hash_pair) (l : list loc) (C : chains) : chains :=
  match l with [] => delete h C | _ => <[h := l]> C end.

(** ** Segments *)
Lemma chain_seg_insert_notin N h p l q n nd :
  n ∉ l → chain_seg N h p l q → chain_seg (<[n := nd]> N) h p l q.
Proof.
  intros Hn. apply chain_seg_frame. intros m Hm md Hmd. exists md.
  rewrite lookup_insert_ne by set_solver. done.
Qed.

Lemma chain_seg_delete_notin N h p l q n :
  n ∉ l → chain_seg N h p l q → chain_seg (delete n N) h p l q.
Proof.
  intros Hn. apply chain_seg_frame. intros m Hm md Hmd. exists md.
  rewrite lookup_delete_ne by set_solver. done.
Qed.

Lemma chain_seg_set_next N h p l t td q q' :
  chain_seg N h p (l ++ [t]) q → t ∉ l → N !! t = Some td →
  chain_seg (<[t := set_next q' td]> N) h p (l ++ [t]) q'.
Proof.
  rewrite !chain_seg_app. simpl. intros [Hl [(nd & Hn & E1 & E2 & E3 & E4) _]] Ht Htd.
  split; [by apply chain_seg_insert_notin|]. split; [|done].
  rewrite lookup_insert_eq. replace nd with td in * by congruence. by exists (set_next q' td).
Qed.

Lemma chain_seg_set_head N h p p' n l nd q :
  chain_seg N h p (n :: l) q → n ∉ l → N !! n = Some nd →
  chain_seg (<[n := set_links (match p' with None => HEAD | Some _ => CHAIN end)
                     (chain_next nd) p' nd]> N) h p' (n :: l) q.
Proof.
  simpl. intros [(nd' & Hn & E1 & E2 & E3 & E4) Hl] Hni Hnd.
  replace nd' with nd in * by congruence. split.
  - rewrite lookup_insert_eq. eexists. split; [done|]. done.
  - by apply chain_seg_insert_notin.
Qed.

Lemma chain_length (N : gmap loc stable_node) (l : list loc) :
  NoDup l → (∀ n, n ∈ l → is_Some (N !! n)) → (length l ≤ size N)%nat.
Proof.
  intros Hnd Hl. rewrite <- (size_dom N), <- (size_list_to_set (C:=gset loc) l) by done.
  apply subseteq_size. intros n. rewrite elem_of_list_to_set, elem_of_dom. apply Hl.
Qed.

Lemma inv_chain_length C N T h l : inv_chain C N T → C !! h = Some l → (length l ≤ size N)%nat.
Proof.
  intros Hc Hl. destruct (ic_seg _ _ _ Hc h l Hl) as (_ & Hnd & Hs).
  apply chain_length; [done|]. intros n Hn.
  destruct (chain_seg_lookup _ _ _ _ _ _ Hs Hn) as (nd & ? & _). eauto.
Qed.

(** ** Walks *)
Lemma wp_last_of_chain fuel n l h p s (Q : loc → server_st → Prop) :
  chain_seg (nodes (metadata s)) h p (n :: l) None → (length l ≤ fuel)%nat →
  Q (default n (last l)) s → wp (last_of_chain fuel n) s Q.
Proof.
  revert fuel n p. induction l as [|n' l IH]; intros fuel n p Hs Hf HQ;
    destruct Hs as [(nd & Hn & _ & _ & _ & Hnx) Hs].
  - destruct fuel; simpl; wp_step; (eapply wp_get_node; [done|]);
      rewrite Hnx; simpl; by wp_steps.
  - destruct fuel as [|fuel]; simpl in *; [lia|]. wp_step. eapply wp_get_node; [done|].
    rewrite Hnx. apply (IH fuel n' (Some n)); [done|lia|].
    rewrite last_cons in HQ. by destruct (last l).
Qed.

Lemma wp_find_unsaturated fuel h p l s (Q : option loc → server_st → Prop) :
  chain_seg (nodes (metadata s)) h p l None → (length l ≤ fuel)%nat →
  (∀ r, (∀ n, r = Some n → n ∈ l ∧ ∃ nd, nodes (metadata s) !! n = Some nd ∧ shared_cnt nd < MAX_PAGE_SHARING) →
        (r = None → ∀ n nd, n ∈ l → nodes (metadata s) !! n = Some nd → MAX_PAGE_SHARING ≤ shared_cnt nd) →
        Q r s) →
  wp (find_unsaturated fuel (next_or l None)) s Q.
Proof.
  revert fuel p. induction l as [|n l IH]; intros fuel p Hs Hf HQ; simpl.
  - destruct fuel; simpl; wp_step; apply HQ; set_solver.
  - destruct Hs as [(nd & Hn & _ & _ & _ & Hnx) Hs]. destruct fuel as [|fuel]; simpl in *; [lia|].
    wp_step. eapply wp_get_node; [done|]. destruct (Z.ltb_spec (shared_cnt nd) MAX_PAGE_SHARING).
    + wp_step. apply HQ; [|done]. intros ? [= <-]. split; [set_solver|eauto].
    + rewrite Hnx. eapply IH; [done|lia|]. intros r Hr1 Hr2. apply HQ.
      * intros m ->. destruct (Hr1 m eq_refl) as [? ?]. split; [set_solver|done].
      * intros -> m md [->|Hm]%elem_of_cons Hmd; [congruence|by eapply Hr2].
Qed.

Lemma wp_first_of_chain fuel l n h nxt s (Q : loc → server_st → Prop) :
  chain_seg (nodes (metadata s)) h None (l ++ [n]) nxt → (length l ≤ fuel)%nat →
  Q (default n (head l)) s → wp (first_of_chain fuel n) s Q.
Proof.
  revert fuel n nxt. induction l as [|m l IH] using rev_ind; intros fuel n nxt Hs Hf HQ;
    rewrite chain_seg_app in Hs; destruct Hs as [Hs1 [(nd & Hn & _ & _ & Hpv & _) _]].
  - destruct fuel; simpl in *; wp_step; (eapply wp_get_node; [done|]);
      rewrite Hpv; simpl; by wp_steps.
  - rewrite last_snoc in Hpv. rewrite length_app in Hf. simpl in *.
    destruct fuel as [|fuel]; simpl in *; [lia|]. wp_step. eapply wp_get_node; [done|].
    rewrite Hpv. eapply IH; [done|lia|]. by destruct l.
Qed.

(** ** Replacing one chain *)
Lemma inv_chain_replace C N T N' T' h l' :
  inv_chain C N T →
  (∀ n nd, N !! n = Some nd → page_hash nd ≠ h → N' !! n = Some nd) →
  (∀ n nd', N' !! n = Some nd' → page_hash nd' ≠ h → N !! n = Some nd') →
  (∀ n nd', N' !! n = Some nd' → page_hash nd' = h → n ∈ l') →
  NoDup l' → chain_seg N' h None l' None →
  (∀ h', T' !! h' = if decide (h' = h) then head l' else T !! h') →
  inv_chain (put_chain h l' C) N' T'.
Proof.
  intros [Hs Ht Hm] HN1 HN2 Hin Hnd Hseg HT.
  assert (∀ h', put_chain h l' C !! h' =
                if decide (h' = h) then (match l' with [] => None | _ => Some l' end) else C !! h') as Hput.
  { intros h'. unfold put_chain. destruct l'; case_decide; subst;
      by rewrite ?lookup_delete_eq, ?lookup_delete_ne, ?lookup_insert_eq, ?lookup_insert_ne. }
  split.
  - intros h' l. rewrite Hput. case_decide as Hh.
    + subst h'. destruct l'; [done|]. by intros [= <-].
    + intros Hl. destruct (Hs h' l Hl) as (? & ? & Hseg'). do 2 (split; [done|]).
      revert Hseg'. apply chain_seg_frame. intros n Hn nd Hnd'. exists nd.
      destruct (chain_seg_lookup _ _ _ _ _ _ (proj2 (proj2 (Hs h' l Hl))) Hn) as (nd2 & E & Hph).
      split; [|done]. apply HN1; congruence.
  - intros h'. rewrite HT, Hput, Ht. case_decide; [|done]. by destruct l'.
  - intros n nd' Hn. rewrite Hput. case_decide as Hh.
    + pose proof (Hin n nd' Hn Hh). exists l'. split; [|done]. destruct l'; [set_solver|done].
    + apply Hm. by apply HN2.
Qed.

(** ** Node maps and the sharing invariant *)
Lemma inv_share_node_upd x y I N n nd nd' :
  inv_share x y I N → N !! n = Some nd → page_hash nd' = page_hash nd →
  sharing_item_tree nd' = sharing_item_tree nd → shared_cnt nd' = shared_cnt nd →
  inv_share x y I (<[n := nd']> N).
Proof.
  intros [H1 H2 H3] Hn Eh Es Ec. split.
  - intros l it Hl Hx. specialize (H1 l it Hl Hx). unfold item_ok in *. destruct (state it); try done.
    destruct H1 as (m & md & E1 & E2 & E3 & E4). exists m.
    destruct (decide (n = m)) as [<-|Hne].
    + rewrite lookup_insert_eq. exists nd'. replace md with nd in * by congruence.
      rewrite Es, Eh. done.
    + rewrite lookup_insert_ne by done. eauto.
  - intros m md [[<- <-]|[Hne Hm]]%lookup_insert_Some; [|by apply H2].
    unfold shares. rewrite Es. by apply (H2 n nd).
  - intros m md [[<- <-]|[Hne Hm]]%lookup_insert_Some; [|by apply H3].
    unfold counted. rewrite Es, Ec. by apply (H3 n nd).
Qed.

Lemma inv_share_node_new x I N n nd :
  inv_share x None I N → N !! n = None → sharing_item_tree nd = ∅ → shared_cnt nd = 0 →
  inv_share x (Some n) I (<[n := nd]> N).
Proof.
  intros [H1 H2 H3] Hn Es Ec. split.
  - intros l it Hl Hx. specialize (H1 l it Hl Hx). unfold item_ok in *. destruct (state it); try done.
    destruct H1 as (m & md & E1 & E2 & E3 & E4). exists m, md.
    rewrite lookup_insert_ne by congruence. done.
  - intros m md [[<- <-]|[Hne Hm]]%lookup_insert_Some; [|by apply H2].
    intros k l. rewrite Es, lookup_empty. done.
  - intros m md [[<- <-]|[Hne Hm]]%lookup_insert_Some.
    + unfold counted. rewrite Es, Ec, map_size_empty. unfold MAX_PAGE_SHARING. split_and!; [lia..|done].
    + destruct (H3 m md Hm) as (? & ? & ?). split_and!; [done..|]. intros _. auto.
Qed.

Lemma inv_share_node_del x I N n nd :
  inv_share x (Some n) I N → N !! n = Some nd → sharing_item_tree nd = ∅ →
  inv_share x None I (delete n N).
Proof.
  intros [H1 H2 H3] Hn Es. split.
  - intros l it Hl Hx. specialize (H1 l it Hl Hx). unfold item_ok in *. destruct (state it); try done.
    destruct H1 as (m & md & E1 & E2 & E3 & E4). exists m, md.
    rewrite lookup_delete_ne; [done|]. intros <-. replace md with nd in * by congruence.
    rewrite Es, lookup_empty in E3. done.
  - intros m md [Hne Hm]%lookup_delete_Some. by apply H2.
  - intros m md [Hne Hm]%lookup_delete_Some. destruct (H3 m md Hm) as (? & ? & ?).
    split_and!; [done..|]. intros _. naive_solver congruence.
Qed.

Lemma counted_zero x y I N n nd :
  inv_share x y I N → N !! n = Some nd → shared_cnt nd = 0 → sharing_item_tree nd = ∅.
Proof.
  intros [_ _ H3] Hn Hz. destruct (H3 n nd Hn) as (Hc & _). apply map_size_empty_iff. lia.
Qed.
