(* ===== verification/MetadataSpec.v ===== *)
(** * MetadataSpec: specifications of the metadata operations

    For each operation of Metadata: that it returns (no [Halt], no [Fault])
    from a well-formed state, the state it leaves, that the representation
    invariant is kept, and its effect on [sharing_view], the abstract state of
    the server: which (mm_id, va) is merged onto which frame. *)
From S2P Require Import Prelude Wire HashPair Store LogTable Metadata Merge MetadataInv ChainInv.
Open Scope Z_scope.

(** ** The abstract state *)
Definition node_pfn_of (N : gmap loc stable_node) (it : rmap_item) : option Z :=
  match state it with
  | Stable => stable_node_of it ≫= (λ n, node_pfn <$> N !! n)
  | _ => None
  end.

Definition sharing_view (m : ksm_metadata) : gmap item_key Z :=
  omap (λ l, items m !! l ≫= node_pfn_of (nodes m)) (rmap_tree m).

(** What relinking chains leaves alone. *)
Definition content (nd : stable_node) : hash_pair * Z * Z * gmap item_key loc :=
  (page_hash nd, shared_cnt nd, node_pfn nd, sharing_item_tree nd).

Definition joined_item (nd : stable_node) (n : loc) (it : rmap_item) : rmap_item :=
  RmapItem (mm_id it) (last_access it) (age it) (va it) (node_pfn nd) (pfn it)
    (page_hash nd) Stable (volatility_score it) (skip_cnt it) (Some n).
Definition joined_node (l : loc) (it : rmap_item) (nd : stable_node) : stable_node :=
  set_sharing (s32 (shared_cnt nd + 1)) (<[key_of it := l]> (sharing_item_tree nd)) nd.
Definition left_node (it : rmap_item) (nd : stable_node) : stable_node :=
  set_sharing (s32 (shared_cnt nd - 1)) (delete (key_of it) (sharing_item_tree nd)) nd.

(** ** Lemmas on the view *)
Lemma sharing_view_lookup m k :
  sharing_view m !! k = rmap_tree m !! k ≫= λ l, items m !! l ≫= node_pfn_of (nodes m).
Proof. apply lookup_omap. Qed.

Lemma sharing_view_item m l it :
  inv_rmap (rmap_tree m) (items m) → items m !! l = Some it →
  sharing_view m !! key_of it = node_pfn_of (nodes m) it.
Proof.
  intros H Hl. rewrite sharing_view_lookup.
  assert (rmap_tree m !! key_of it = Some l) as -> by (apply H; eauto). simpl. by rewrite Hl.
Qed.

Lemma sharing_view_upd_item m l it it' :
  inv_rmap (rmap_tree m) (items m) → items m !! l = Some it → key_of it' = key_of it →
  sharing_view (upd_items (<[l := it']>) m) =
  match node_pfn_of (nodes m) it' with
  | Some p => <[key_of it := p]> (sharing_view m)
  | None => delete (key_of it) (sharing_view m)
  end.
Proof.
  intros H Hl Hk. assert (rmap_tree m !! key_of it = Some l) as Hr by (apply H; eauto).
  apply map_eq. intros k. rewrite sharing_view_lookup. simpl.
  destruct (decide (k = key_of it)) as [->|Hne].
  - rewrite Hr. simpl. rewrite lookup_insert_eq. simpl.
    destruct (node_pfn_of (nodes m) it'); by rewrite ?lookup_insert_eq, ?lookup_delete_eq.
  - assert (sharing_view m !! k =
            rmap_tree m !! k ≫= λ l0, <[l:=it']> (items m) !! l0 ≫= node_pfn_of (nodes m)) as E.
    { rewrite sharing_view_lookup. destruct (rmap_tree m !! k) as [l'|] eqn:E; [|done]. simpl.
      rewrite lookup_insert_ne; [done|]. intros <-. apply H in E as (i & Hi & Hki). congruence. }
    rewrite <- E. destruct (node_pfn_of (nodes m) it'); by rewrite ?lookup_insert_ne, ?lookup_delete_ne.
Qed.

Lemma sharing_view_same m l it it' :
  inv_rmap (rmap_tree m) (items m) → items m !! l = Some it → key_of it' = key_of it →
  node_pfn_of (nodes m) it' = node_pfn_of (nodes m) it →
  sharing_view (upd_items (<[l := it']>) m) = sharing_view m.
Proof.
  intros H Hl Hk E. rewrite (sharing_view_upd_item m l it) by done. rewrite E.
  pose proof (sharing_view_item m l it H Hl) as Hv.
  destruct (node_pfn_of (nodes m) it); [by apply insert_id | by apply delete_id].
Qed.

Lemma sharing_view_nodes m f :
  (∀ l it, items m !! l = Some it → node_pfn_of (f (nodes m)) it = node_pfn_of (nodes m) it) →
  sharing_view (upd_nodes f m) = sharing_view m.
Proof.
  intros H. apply map_eq. intros k. rewrite !sharing_view_lookup. simpl.
  destruct (rmap_tree m !! k) as [l|]; [|done]. simpl.
  destruct (items m !! l) as [it|] eqn:E; [|done]. simpl. by apply (H l).
Qed.

Lemma node_pfn_of_insert N n nd nd' it :
  N !! n = Some nd → node_pfn nd' = node_pfn nd → node_pfn_of (<[n := nd']> N) it = node_pfn_of N it.
Proof.
  intros Hn Hp. unfold node_pfn_of. destruct (state it); try done.
  destruct (stable_node_of it) as [m|]; [|done]. simpl. destruct (decide (n = m)) as [<-|Hne].
  - rewrite lookup_insert_eq, Hn. simpl. by rewrite Hp.
  - by rewrite lookup_insert_ne.
Qed.

(** Relinking nodes, adding one and removing an unshared one. *)
Lemma node_pfn_of_content N N' it :
  (∀ n, stable_node_of it = Some n → state it = Stable → content <$> N' !! n = content <$> N !! n) →
  node_pfn_of N' it = node_pfn_of N it.
Proof.
  intros H. unfold node_pfn_of. destruct (state it); try done.
  destruct (stable_node_of it) as [n|]; [|done]. simpl. specialize (H n eq_refl eq_refl).
  destruct (N' !! n), (N !! n); simpl in *; try done. unfold content in H. congruence.
Qed.

(** ** Item operations *)
Lemma wp_insert_item_to_node n l it nd s (Q : unit → server_st → Prop) :
  items (metadata s) !! l = Some it → (state it = Volatile ∨ state it = Unstable) →
  nodes (metadata s) !! n = Some nd →
  Q tt (with_metadata (λ m, upd_items (<[l := joined_item nd n it]>)
                              (upd_nodes (<[n := joined_node l it nd]>) m)) s) →
  wp (insert_item_to_node n l) s Q.
Proof.
  intros Hl Hst Hn HQ. unfold insert_item_to_node.
  wp_step. eapply wp_get_item; [done|]. wp_step.
  assert (∀ Q', Q' tt s → wp (S:=server_st) match state it with
    | INone | Stable => halt "Cannot insert to stable node: Invalid item state"
    | _ => mret tt end s Q') as Hg by (intros; destruct Hst as [-> | ->]; by apply wp_ret).
  apply Hg. wp_step. eapply wp_get_node; [done|]. wp_step. eapply wp_upd_item; [done|].
  eapply wp_upd_node; [done|]. done.
Qed.

Lemma wp_remove_item_from_node n l it nd s (Q : unit → server_st → Prop) :
  items (metadata s) !! l = Some it → nodes (metadata s) !! n = Some nd →
  Q tt (with_metadata (upd_nodes (<[n := left_node it nd]>)) s) →
  wp (remove_item_from_node n l) s Q.
Proof.
  intros Hl Hn HQ. unfold remove_item_from_node. wp_step. eapply wp_get_item; [done|].
  by eapply wp_upd_node.
Qed.

(** ** Linking a new node *)
Definition relinked (N N' : gmap loc stable_node) (n : loc) : Prop :=
  ∀ m, m ≠ n → content <$> N' !! m = content <$> N !! m.

(** The state between [malloc] and [insert_stable_node]: the node is not yet
    on a chain. *)
Lemma wp_insert_stable_node C x s new nd L (Q : unit → server_st → Prop) :
  let N := nodes (metadata s) in
  inv_chain C (delete new N) (stable_hash_table (metadata s)) → N !! new = Some nd →
  L = default [] (C !! page_hash nd) →
  (∀ N' T' nd', inv_chain (put_chain (page_hash nd) (L ++ [new]) C) N' T' →
     relinked N N' new → N' !! new = Some nd' → content nd' = content nd →
     (∀ I y, inv_share x y I N → inv_share x y I N') →
     Q tt (with_metadata (λ m, upd_nodes (λ _, N') (upd_stable (λ _, T') m)) s)) →
  wp (insert_stable_node new) s Q.
Proof.
  intros N Hc Hnew HL HQ. pose proof (ic_table _ _ _ Hc (page_hash nd)) as HT.
  unfold insert_stable_node. do 3 wp_step. eapply wp_get_node; [done|].
  destruct (C !! page_hash nd) as [l|] eqn:HC; simpl in *; subst L.
  - destruct (ic_seg _ _ _ Hc _ _ HC) as (Hne & Hnd & Hseg).
    destruct l as [|e l]; [done|]. rewrite HT. simpl.
    assert (Hnotin : new ∉ e :: l).
    { intros Hin. destruct (chain_seg_lookup _ _ _ _ _ _ Hseg Hin) as (? & E & _).
      by rewrite lookup_delete_eq in E. }
    assert (Hseg' : chain_seg N (page_hash nd) None (e :: l) None).
    { revert Hseg. apply chain_seg_frame. intros m Hm md Hmd. exists md.
      apply lookup_delete_Some in Hmd as [? ?]. done. }
    wp_step. eapply wp_last_of_chain; [done| |].
    { pose proof (inv_chain_length _ _ _ _ _ Hc HC) as Hlen. simpl in Hlen.
      assert (size (delete new N) ≤ size N)%nat.
      { apply map_subseteq_size, delete_subseteq. }
      unfold N in *. lia. }
    set (t := default e (last l)). assert (∃ l0, e :: l = l0 ++ [t]) as [l0 Hl0].
    { unfold t. destruct l as [|? l _] using rev_ind; [by exists []|].
      rewrite last_snoc. simpl. by exists (e :: l). }
    rewrite Hl0 in *.
    assert ((t ∉ l0) ∧ t ≠ new) as [Htl0 Htn].
    { apply NoDup_app in Hnd as (_ & Hd & _). split; [intros Hin; by eapply Hd; set_solver|].
      intros ->. apply Hnotin. set_solver. }
    destruct (chain_seg_lookup _ _ _ _ _ t Hseg' ltac:(set_solver)) as (td & Htd & Htph).
    wp_step. eapply wp_upd_node; [exact Htd|]. eapply wp_upd_node.
    { simpl. rewrite lookup_insert_ne by done. exact Hnew. }
    set (nd' := set_links CHAIN None (Some t) nd). set (td' := set_next (Some new) td).
    apply (HQ (<[new := nd']> (<[t := td']> N)) (stable_hash_table (metadata s)) nd').
    + eapply inv_chain_replace; [exact Hc|..].
      * intros m md [Hm Hmd]%lookup_delete_Some Hph. rewrite !lookup_insert_ne; [done|congruence..].
      * intros m md Hmd Hph. apply lookup_insert_Some in Hmd as [[<- <-]|[Hm Hmd]]; [done|].
        apply lookup_insert_Some in Hmd as [[<- <-]|[Hm' Hmd]]; [done|].
        by rewrite lookup_delete_ne.
      * intros m md Hmd Hph. apply lookup_insert_Some in Hmd as [[<- <-]|[Hm Hmd]]; [set_solver|].
        apply lookup_insert_Some in Hmd as [[<- <-]|[Hm' Hmd]]; [set_solver|].
        apply elem_of_app. left. eapply chain_in_list; [exact Hc|exact HC| |exact Hph].
        by rewrite lookup_delete_ne.
      * apply NoDup_app. split_and!; [done| |apply NoDup_singleton].
        intros m Hm ->%list_elem_of_singleton. done.
      * rewrite chain_seg_app. split.
        -- simpl. apply chain_seg_insert_notin; [done|]. by eapply chain_seg_set_next.
        -- simpl. split; [|done]. rewrite last_snoc. simpl. exists nd'.
           rewrite lookup_insert_eq. done.
      * intros h'. case_decide; [subst|done]. rewrite HT, <- Hl0. done.
    + intros m Hm. rewrite lookup_insert_ne by done.
      destruct (decide (t = m)) as [<-|]; [|by rewrite lookup_insert_ne].
      by rewrite lookup_insert_eq, Htd.
    + by rewrite lookup_insert_eq.
    + done.
    + intros I y Hs. apply (inv_share_node_upd x y I (<[t := td']> N) new nd nd'); [| |done..].
      * by apply (inv_share_node_upd x y I N t td td').
      * by rewrite lookup_insert_ne.
  - rewrite HT. simpl. wp_step. eapply wp_upd_node; [done|]. wp_step.
    set (nd' := set_links HEAD None None nd).
    refine (HQ (<[new := nd']> N) (<[page_hash nd := new]> (stable_hash_table (metadata s))) nd' _ _ _ _ _).
    + eapply inv_chain_replace; [exact Hc|..].
      * intros m md [Hm Hmd]%lookup_delete_Some Hph. by rewrite lookup_insert_ne.
      * intros m md [[<- <-]|[Hm Hmd]]%lookup_insert_Some Hph; [done|]. by rewrite lookup_delete_ne.
      * intros m md [[<- <-]|[Hm Hmd]]%lookup_insert_Some Hph; [set_solver|]. exfalso.
        destruct (ic_member _ _ _ Hc m md) as (l' & Hl' & _); [by rewrite lookup_delete_ne|congruence].
      * apply NoDup_singleton.
      * simpl. split; [|done]. exists nd'. by rewrite lookup_insert_eq.
      * intros h'. case_decide; [subst; by rewrite lookup_insert_eq|by rewrite lookup_insert_ne].
    + intros m Hm. by rewrite lookup_insert_ne.
    + by rewrite lookup_insert_eq.
    + done.
    + intros I y Hs. by apply (inv_share_node_upd x y I N new nd nd').
Qed.

(** ** Unlinking a node *)
Lemma inv_share_relinked x n I N N' nd :
  inv_share x (Some n) I N → N !! n = Some nd → sharing_item_tree nd = ∅ →
  relinked N N' n → N' !! n = None → inv_share x None I N'.
Proof.
  intros Hs Hn Hsh Hrel Hdel.
  pose proof (inv_share_node_del x I N n nd Hs Hn Hsh) as [H1 H2 H3].
  assert (∀ m md', N' !! m = Some md' → ∃ md, delete n N !! m = Some md ∧ content md' = content md) as Hback.
  { intros m md' Hm. assert (m ≠ n) by congruence. specialize (Hrel m ltac:(done)).
    rewrite Hm in Hrel. rewrite lookup_delete_ne by done. destruct (N !! m) as [md|]; [|done].
    exists md. simpl in Hrel. split; [done|congruence]. }
  split.
  - intros l it Hl Hx. specialize (H1 l it Hl Hx). unfold item_ok in *. destruct (state it); try done.
    destruct H1 as (m & md & E1 & [Hne E2]%lookup_delete_Some & E3 & E4).
    specialize (Hrel m ltac:(done)). rewrite E2 in Hrel.
    destruct (N' !! m) as [md'|] eqn:E; [|done]. simpl in Hrel. unfold content in Hrel.
    exists m, md'. split_and!; [done..| |]; congruence.
  - intros m md' Hm. destruct (Hback m md' Hm) as (md & Hmd & E). unfold content in E.
    specialize (H2 m md Hmd). unfold shares in *. by replace (sharing_item_tree md') with (sharing_item_tree md) by congruence.
  - intros m md' Hm. destruct (Hback m md' Hm) as (md & Hmd & E). unfold content in E.
    specialize (H3 m md Hmd). unfold counted in *. injection E as E1 E2 E3 E4. by rewrite E2, E4.
Qed.

Section unlink.
Context (C : chains) (N : gmap loc stable_node) (T : gmap hash_pair loc) (n : loc) (nd : stable_node).
Context (l1 l2 : list loc).
Hypothesis Hc : inv_chain C N T.
Hypothesis Hn : N !! n = Some nd.
Hypothesis HC : C !! page_hash nd = Some (l1 ++ n :: l2).

Lemma unlink_facts :
  NoDup (l1 ++ l2) ∧ (n ∉ l1 ++ l2) ∧
  chain_seg N (page_hash nd) None l1 (Some n) ∧ chain_seg N (page_hash nd) (Some n) l2 None ∧
  chain_type nd = (match l1 with [] => HEAD | _ => CHAIN end) ∧
  chain_prev nd = last l1 ∧ chain_next nd = next_or l2 None.
Proof using Hc Hn HC.
  destruct (ic_seg _ _ _ Hc _ _ HC) as (_ & Hnd & Hseg).
  rewrite chain_seg_app in Hseg. simpl in Hseg.
  destruct Hseg as [Hs1 [(nd' & Hn' & E1 & E2 & E3 & E4) Hs2]].
  replace nd' with nd in * by congruence.
  rewrite <- Permutation_middle in Hnd. apply NoDup_cons in Hnd as [Hni Hnd].
  split_and!; [done..| | |done].
  - rewrite E2. destruct l1 as [|? l _] using rev_ind; [done|]. rewrite last_snoc. by destruct l.
  - rewrite E3. by destruct (last l1).
Qed.

(** Any node map that relinks the two halves of the chain is well formed. *)
Lemma inv_chain_unlink N' T' :
  N' !! n = None → relinked N N' n → (∀ m, m ∉ n :: l1 ++ l2 → N' !! m = N !! m) →
  chain_seg N' (page_hash nd) None (l1 ++ l2) None →
  (∀ h', T' !! h' = if decide (h' = page_hash nd) then head (l1 ++ l2) else T !! h') →
  inv_chain (put_chain (page_hash nd) (l1 ++ l2) C) N' T'.
Proof using Hc Hn HC.
  intros Hdel Hrel Hout Hseg HT. destruct unlink_facts as (Hnd & Hni & _).
  assert (Hother : ∀ m md, N !! m = Some md → page_hash md ≠ page_hash nd → m ∉ n :: l1 ++ l2).
  { intros m md Hm Hph Hin. apply Hph.
    destruct (chain_list_node _ _ _ _ _ m Hc HC) as (md' & Hm' & <-); [|congruence]. set_solver. }
  eapply inv_chain_replace; [exact Hc|..|done|done|done].
  - intros m md Hm Hph. rewrite Hout; [done|]. by eapply Hother.
  - intros m md' Hm Hph. assert (m ≠ n) by congruence. pose proof (Hrel m ltac:(done)) as E.
    rewrite Hm in E. destruct (N !! m) as [md|] eqn:Hmd; [|done]. simpl in E. unfold content in E.
    rewrite <- Hmd, <- Hout; [done|]. eapply Hother; [done|congruence].
  - intros m md' Hm Hph. assert (m ≠ n) by congruence. pose proof (Hrel m ltac:(done)) as E.
    rewrite Hm in E. destruct (N !! m) as [md|] eqn:Hmd; [|done]. simpl in E. unfold content in E.
    assert (m ∈ l1 ++ n :: l2) as Hin by (eapply chain_in_list; [exact Hc|exact HC|exact Hmd|congruence]).
    set_solver.
Qed.

Lemma content_set_links t nx pv m md :
  (content <$> (<[m := set_links t nx pv md]> N) !! m) = Some (content md).
Proof. by rewrite lookup_insert_eq. Qed.

Lemma next_prev_distinct a b : last l1 = Some a → head l2 = Some b → a ≠ b.
Proof using Hc Hn HC.
  intros Ha Hb ->. destruct unlink_facts as (Hnd & _). apply NoDup_app in Hnd as (_ & Hd & _).
  apply (Hd b); [by apply last_Some_elem_of|by apply head_Some_elem_of].
Qed.

End unlink.

Lemma relinked_insert_links N n m md t nx pv :
  N !! m = Some md → relinked N (<[m := set_links t nx pv md]> N) n.
Proof.
  intros Hm k Hk. destruct (decide (m = k)) as [<-|]; [|by rewrite lookup_insert_ne].
  by rewrite lookup_insert_eq, Hm.
Qed.

Lemma relinked_trans N1 N2 N3 n : relinked N1 N2 n → relinked N2 N3 n → relinked N1 N3 n.
Proof. intros H1 H2 m Hm. by rewrite H2, H1. Qed.

Lemma relinked_delete N n : relinked N (delete n N) n.
Proof. intros m Hm. by rewrite lookup_delete_ne. Qed.

Lemma chain_split C N T n nd :
  inv_chain C N T → N !! n = Some nd →
  ∃ l1 l2, C !! page_hash nd = Some (l1 ++ n :: l2).
Proof.
  intros Hc Hn. destruct (ic_member _ _ _ Hc n nd Hn) as (l & HC & Hin).
  apply list_elem_of_split in Hin as (l1 & l2 & ->). eauto.
Qed.

Lemma relinked_upd N N1 n k f :
  relinked N N1 n → (∀ kd, content (f kd) = content kd) →
  ∀ kd, N1 !! k = Some kd → relinked N (<[k := f kd]> N1) n.
Proof.
  intros H Hf kd Hk m Hm. rewrite <- (H m Hm). destruct (decide (k = m)) as [<-|].
  - rewrite lookup_insert_eq, Hk. simpl. by rewrite Hf.
  - by rewrite lookup_insert_ne.
Qed.

Lemma wp_unlink_head C s n nd l2 (Q : unit → server_st → Prop) :
  let N := nodes (metadata s) in
  inv_chain C N (stable_hash_table (metadata s)) → N !! n = Some nd →
  C !! page_hash nd = Some (n :: l2) →
  (∀ N' T', inv_chain (put_chain (page_hash nd) l2 C) N' T' → relinked N N' n → N' !! n = None →
     Q tt (with_metadata (λ m, upd_nodes (λ _, N') (upd_stable (λ _, T') m)) s)) →
  wp (remove_stable_node_no_item n) s Q.
Proof.
  intros N Hc Hn HC HQ.
  destruct (unlink_facts C N _ n nd [] l2 Hc Hn HC) as (Hnd & Hni & _ & Hs2 & E1 & E2 & E3).
  simpl in *. set (h := page_hash nd) in *.
  unfold remove_stable_node_no_item. wp_step. eapply wp_get_node; [done|].
  rewrite E1, E2, E3. destruct l2 as [|m l2]; simpl.
  - do 2 wp_step. eapply wp_free_node; [done|].
    apply (HQ (delete n N : gmap loc stable_node) (delete h (stable_hash_table (metadata s)) : gmap hash_pair loc)).
    + apply (inv_chain_unlink C N (stable_hash_table (metadata s)) n nd [] []);
        [done..|apply lookup_delete_eq|apply relinked_delete| |done|].
      * intros k Hk. rewrite lookup_delete_ne by set_solver. done.
      * intros h'. fold h. case_decide; [subst; apply lookup_delete_eq|by rewrite lookup_delete_ne].
    + apply relinked_delete.
    + apply lookup_delete_eq.
  - destruct Hs2 as [(md & Hm & F1 & F2 & F3 & F4) Hs2].
    assert (n ≠ m) by set_solver. apply NoDup_cons in Hnd as [Hml2 Hnd].
    wp_steps. eapply wp_upd_node; [exact Hm|]. wp_steps. eapply wp_get_node; [simpl; apply lookup_insert_eq|]. simpl. wp_step.
    eapply wp_free_node; [simpl; rewrite lookup_insert_ne by done; exact Hn|].
    set (md' := set_links HEAD (chain_next md) None md).
    apply (HQ (delete n (<[m := md']> N) : gmap loc stable_node) (<[page_hash md := m]> (delete h (stable_hash_table (metadata s))) : gmap hash_pair loc)).
    + apply (inv_chain_unlink C N (stable_hash_table (metadata s)) n nd [] (m :: l2));
        [done..|apply lookup_delete_eq| | | |].
      * eapply relinked_trans; [by apply (relinked_insert_links N n m md)|apply relinked_delete].
      * intros k Hk. rewrite lookup_delete_ne, lookup_insert_ne by set_solver. done.
      * simpl. apply (chain_seg_delete_notin (<[m := md']> N) _ None (m :: l2)); [done|].
        apply (chain_seg_set_head N (page_hash nd) (Some n) None m l2 md None); [|done..].
        simpl. split; [|done]. by exists md.
      * intros h'. fold h. rewrite F1. fold h. case_decide; [subst; simpl; by rewrite lookup_insert_eq|].
        by rewrite lookup_insert_ne, lookup_delete_ne.
    + eapply relinked_trans; [by apply (relinked_insert_links N n m md)|apply relinked_delete].
    + apply lookup_delete_eq.
Qed.

Lemma wp_unlink_chain C s n nd l1 p l2 (Q : unit → server_st → Prop) :
  let N := nodes (metadata s) in
  inv_chain C N (stable_hash_table (metadata s)) → N !! n = Some nd →
  C !! page_hash nd = Some ((l1 ++ [p]) ++ n :: l2) →
  (∀ N', inv_chain (put_chain (page_hash nd) ((l1 ++ [p]) ++ l2) C) N' (stable_hash_table (metadata s)) →
     relinked N N' n → N' !! n = None →
     Q tt (with_metadata (λ m, upd_nodes (λ _, N') (upd_stable (λ _, stable_hash_table (metadata s)) m)) s)) →
  wp (remove_stable_node_no_item n) s Q.
Proof.
  intros N Hc Hn HC HQ.
  pose proof (next_prev_distinct C N _ n nd (l1 ++ [p]) l2 Hc Hn HC p) as Hpm.
  destruct (unlink_facts C N _ n nd (l1 ++ [p]) l2 Hc Hn HC) as (Hnd & Hni & Hs1 & Hs2 & E1 & E2 & E3).
  rewrite last_snoc in *. set (h := page_hash nd) in *.
  assert (chain_type nd = CHAIN) as E1' by (by destruct l1).
  destruct (chain_seg_lookup _ _ _ _ _ p Hs1 ltac:(set_solver)) as (pd & Hp & Hph).
  assert (p ≠ n) by set_solver.
  assert (p ∉ l1) as Hpl1.
  { apply NoDup_app in Hnd as (Hnd & _ & _). apply NoDup_app in Hnd as (_ & Hd & _).
    intros Hin. apply (Hd p Hin). set_solver. }
  assert (Hs1' : chain_seg (<[p := set_next (next_or l2 None) pd]> N) h None (l1 ++ [p]) (next_or l2 None))
    by (by eapply chain_seg_set_next).
  assert (HT : ∀ h', stable_hash_table (metadata s) !! h' =
    if decide (h' = h) then head ((l1 ++ [p]) ++ l2) else stable_hash_table (metadata s) !! h').
  { intros h'. case_decide; [subst|done]. rewrite (ic_table _ _ _ Hc), HC. by destruct l1. }
  unfold remove_stable_node_no_item. wp_step. eapply wp_get_node; [done|].
  rewrite E1', E2, E3. do 2 wp_step. eapply wp_upd_node; [exact Hp|].
  set (pd' := set_next (next_or l2 None) pd) in *.
  assert (Hrel1 : relinked N (<[p := pd']> N) n) by (by apply relinked_insert_links).
  destruct l2 as [|m l2].
  - simpl next_or in *. cbv beta iota. wp_steps. eapply wp_free_node; [simpl; rewrite lookup_insert_ne by done; exact Hn|].
    apply (HQ (delete n (<[p := pd']> N) : gmap loc stable_node)).
    + apply (inv_chain_unlink C N (stable_hash_table (metadata s)) n nd (l1 ++ [p]) []);
        [done..|apply lookup_delete_eq| | | |done].
      * eapply relinked_trans; [exact Hrel1|apply relinked_delete].
      * intros k Hk. rewrite lookup_delete_ne, lookup_insert_ne by set_solver. done.
      * rewrite app_nil_r in *. by apply chain_seg_delete_notin.
    + eapply relinked_trans; [exact Hrel1|apply relinked_delete].
    + apply lookup_delete_eq.
  - specialize (Hpm m eq_refl eq_refl). destruct Hs2 as [(md & Hm & F1 & F2 & F3 & F4) Hs2]. simpl next_or in *.
    assert (n ≠ m) by set_solver.
    assert ((m ∉ l2) ∧ (m ∉ l1 ++ [p]) ∧ (p ∉ m :: l2)) as (Hml2 & Hml1 & Hpl2).
    { apply NoDup_app in Hnd as (_ & Hd & Hnd). apply NoDup_cons in Hnd as [? _].
      split_and!; [done|intros Hin; by apply (Hd m Hin), list_elem_of_here|].
      apply Hd. apply elem_of_app. right. apply list_elem_of_here. }
    eapply wp_upd_node; [simpl; rewrite lookup_insert_ne by done; exact Hm|].
    set (md' := set_prev (Some p) md).
    assert (Hrel2 : relinked N (<[m := md']> (<[p := pd']> N)) n).
    { eapply relinked_trans; [exact Hrel1|]. apply relinked_insert_links. by rewrite lookup_insert_ne. }
    eapply wp_free_node; [simpl; rewrite !lookup_insert_ne by done; exact Hn|].
    apply (HQ (delete n (<[m := md']> (<[p := pd']> N)) : gmap loc stable_node)).
    + apply (inv_chain_unlink C N (stable_hash_table (metadata s)) n nd (l1 ++ [p]) (m :: l2));
        [done..|apply lookup_delete_eq| | | |done].
      * eapply relinked_trans; [exact Hrel2|apply relinked_delete].
      * intros k Hk. rewrite lookup_delete_ne, !lookup_insert_ne by set_solver. done.
      * apply chain_seg_delete_notin; [done|]. rewrite chain_seg_app. split.
        -- by apply chain_seg_insert_notin.
        -- rewrite last_snoc. simpl from_option.
           assert (md' = set_links CHAIN (chain_next md) (Some p) md) as ->
             by (unfold md', set_prev; by rewrite F2).
           apply (chain_seg_set_head _ h (Some n) (Some p) m l2 md None); [|done|by rewrite lookup_insert_ne].
           apply chain_seg_insert_notin; [done|]. simpl. split; [|done]. by exists md.
    + eapply relinked_trans; [exact Hrel2|apply relinked_delete].
    + apply lookup_delete_eq.
Qed.

(** Whatever its place on the chain. *)
Lemma wp_remove_stable_node_no_item C s n nd (Q : unit → server_st → Prop) :
  let N := nodes (metadata s) in
  inv_chain C N (stable_hash_table (metadata s)) → N !! n = Some nd →
  (∀ C' N' T', inv_chain C' N' T' → relinked N N' n → N' !! n = None →
     Q tt (with_metadata (λ m, upd_nodes (λ _, N') (upd_stable (λ _, T') m)) s)) →
  wp (remove_stable_node_no_item n) s Q.
Proof.
  intros N Hc Hn HQ. destruct (chain_split _ _ _ _ _ Hc Hn) as (l1 & l2 & HC).
  destruct l1 as [|p l1 _] using rev_ind.
  - eapply wp_unlink_head; [done..|]. intros; by eapply HQ.
  - eapply wp_unlink_chain; [done..|]. intros; by eapply HQ.
Qed.

(** The whole of [remove_stale_node_and_log]. *)
Lemma wp_remove_stale_node_and_log C x s n nd l it L (Q : unit → server_st → Prop) :
  wf C x (Some n) (metadata s) → nodes (metadata s) !! n = Some nd → sharing_item_tree nd = ∅ →
  items (metadata s) !! l = Some it → log_repr (log_table s) L → no_oom s → Z.of_nat (length L) < 2 ^ 30 →
  (∀ C' N' T' t a, let m' := upd_nodes (λ _, N') (upd_stable (λ _, T') (metadata s)) in
     wf C' x None m' → relinked (nodes (metadata s)) N' n → N' !! n = None →
     log_repr t (L ++ [stale_entry it nd]) → NoMem ∉ a →
     Q tt (with_metadata (λ _, m') (replace_log t a s))) →
  wp (remove_stale_node_and_log n l) s Q.
Proof.
  intros [Hr Hs Hc Hu] Hn Hsh Hl HL Ho Hlen HQ. unfold remove_stale_node_and_log.
  wp_step. eapply wp_get_item; [done|]. wp_step. eapply wp_get_node; [done|]. wp_step.
  eapply wp_insert_ksm_log; [done..|]. intros t a Ht Ha.
  eapply wp_remove_stable_node_no_item; [exact Hc|exact Hn|].
  intros C' N' T' Hc' Hrel Hdel. refine (HQ C' N' T' t a _ Hrel Hdel Ht Ha).
  split; simpl; [done| |done|done]. by eapply inv_share_relinked.
Qed.
