(* ===== verification/RehashInv.v ===== *)
(** * RehashInv: re-hashing a chain of stable nodes

    The branch of [cmp_and_merge_one] for a shared frame whose content no
    longer has the recorded hash ([rehash_chain]) gives every node of the
    chain, and every item that shares one of them, the new hash.  Specified
    here with the condition it needs: no other chain already has the new
    hash. *)
From S2P Require Import Prelude Wire HashPair Store LogTable Metadata Merge MetadataInv ChainInv MetadataSpec.
Open Scope Z_scope.

(** ** The maps the branch leaves *)
Definition rehash_items (hash : hash_pair) (D : list loc) (I : gmap loc rmap_item) : gmap loc rmap_item :=
  map_imap (λ l it, Some (if decide (l ∈ D) then set_old_hash hash it else it)) I.

Definition rehash_nodes (hash : hash_pair) (D : list loc) (N : gmap loc stable_node) : gmap loc stable_node :=
  map_imap (λ n nd, Some (if decide (n ∈ D) then set_page_hash hash nd else nd)) N.

Definition tree_items (nd : stable_node) : list loc := (gtree_list (sharing_item_tree nd)).*2.

(** The items sharing some node of [l]. *)
Definition chain_items (N : gmap loc stable_node) (l : list loc) : list loc :=
  mjoin ((λ n, from_option tree_items [] (N !! n)) <$> l).

Lemma lookup_rehash_items hash D I l :
  rehash_items hash D I !! l = (λ it, if decide (l ∈ D) then set_old_hash hash it else it) <$> I !! l.
Proof. unfold rehash_items. rewrite map_lookup_imap. by destruct (I !! l). Qed.

Lemma lookup_rehash_nodes hash D N n :
  rehash_nodes hash D N !! n = (λ nd, if decide (n ∈ D) then set_page_hash hash nd else nd) <$> N !! n.
Proof. unfold rehash_nodes. rewrite map_lookup_imap. by destruct (N !! n). Qed.

Lemma rehash_items_nil hash I : rehash_items hash [] I = I.
Proof. apply map_eq. intros l. rewrite lookup_rehash_items. by destruct (I !! l). Qed.

Lemma rehash_nodes_nil hash N : rehash_nodes hash [] N = N.
Proof. apply map_eq. intros n. rewrite lookup_rehash_nodes. by destruct (N !! n). Qed.

Lemma rehash_items_snoc hash D I l it :
  I !! l = Some it →
  <[l := set_old_hash hash (if decide (l ∈ D) then set_old_hash hash it else it)]> (rehash_items hash D I)
  = rehash_items hash (D ++ [l]) I.
Proof.
  intros Hl. apply map_eq. intros k. rewrite lookup_rehash_items. destruct (decide (l = k)) as [<-|Hne].
  - rewrite lookup_insert_eq, Hl. simpl. rewrite (decide_True (P := l ∈ D ++ [l])) by set_solver.
    by case_decide.
  - rewrite lookup_insert_ne, lookup_rehash_items by done. destruct (I !! k); [simpl|done]. f_equal.
    apply decide_ext. set_solver.
Qed.

Lemma rehash_nodes_snoc hash D N n nd :
  N !! n = Some nd →
  <[n := set_page_hash hash (if decide (n ∈ D) then set_page_hash hash nd else nd)]> (rehash_nodes hash D N)
  = rehash_nodes hash (D ++ [n]) N.
Proof.
  intros Hn. apply map_eq. intros k. rewrite lookup_rehash_nodes. destruct (decide (n = k)) as [<-|Hne].
  - rewrite lookup_insert_eq, Hn. simpl. rewrite (decide_True (P := n ∈ D ++ [n])) by set_solver.
    by case_decide.
  - rewrite lookup_insert_ne, lookup_rehash_nodes by done. destruct (N !! k); [simpl|done]. f_equal.
    apply decide_ext. set_solver.
Qed.

Lemma elem_of_tree_items nd l : l ∈ tree_items nd ↔ ∃ k, sharing_item_tree nd !! k = Some l.
Proof.
  unfold tree_items. rewrite list_elem_of_fmap. split.
  - intros ([k l'] & -> & H). exists k. by apply elem_of_gtree_list.
  - intros [k Hk]. exists (k, l). split; [done|]. by apply elem_of_gtree_list.
Qed.

Lemma elem_of_chain_items N l i :
  i ∈ chain_items N l ↔ ∃ n nd, n ∈ l ∧ N !! n = Some nd ∧ ∃ k, sharing_item_tree nd !! k = Some i.
Proof.
  unfold chain_items. rewrite list_elem_of_join. split.
  - intros (t & Hi & (n & -> & Hn)%list_elem_of_fmap).
    destruct (N !! n) as [nd|] eqn:E; simpl in Hi; [|set_solver].
    exists n, nd. by rewrite <- elem_of_tree_items.
  - intros (n & nd & Hn & E & Hk). exists (tree_items nd). rewrite elem_of_tree_items. split; [done|].
    apply list_elem_of_fmap. exists n. by rewrite E.
Qed.

(** The state with its items and nodes re-hashed. *)
Definition rehash_state (hash : hash_pair) (Dn Di : list loc) (s : server_st) : server_st :=
  with_metadata (λ m, upd_items (rehash_items hash Di) (upd_nodes (rehash_nodes hash Dn) m)) s.

Section rehash.
Context (s : server_st) (hash : hash_pair).

(** Every item a node of [l] lists is live and stable. *)
Definition trees_stable (l : list loc) : Prop :=
  ∀ i, i ∈ chain_items (nodes (metadata s)) l → ∃ it, items (metadata s) !! i = Some it ∧ state it = Stable.

Lemma wp_update_item_checksum Dn Di i it (Q : unit → server_st → Prop) :
  items (metadata s) !! i = Some it → state it = Stable →
  Q tt (rehash_state hash Dn (Di ++ [i]) s) →
  wp (update_item_checksum hash i) (rehash_state hash Dn Di s) Q.
Proof.
  intros Hi Hst HQ. unfold update_item_checksum.
  assert (items (metadata (rehash_state hash Dn Di s)) !! i =
    Some (if decide (i ∈ Di) then set_old_hash hash it else it)) as Hi'.
  { simpl. by rewrite lookup_rehash_items, Hi. }
  wp_step. eapply wp_get_item; [done|]. wp_step. apply wp_halt_if.
  { apply bool_decide_eq_false_2. by case_decide; rewrite ?Hst; simpl; rewrite ?Hst; intros []. }
  eapply wp_upd_item; [done|]. unfold rehash_state, with_metadata, upd_items in *; simpl in *.
  by rewrite (rehash_items_snoc _ _ _ _ _ Hi).
Qed.

Lemma wp_update_checksums Dn Di tree (Q : unit → server_st → Prop) :
  (∀ k i, tree !! k = Some i → ∃ it, items (metadata s) !! i = Some it ∧ state it = Stable) →
  Q tt (rehash_state hash Dn (Di ++ (gtree_list tree).*2) s) →
  wp (update_checksums hash tree) (rehash_state hash Dn Di s) Q.
Proof.
  intros Ht HQ. unfold update_checksums. eapply wp_mono.
  - apply (wp_for_each _ (λ l1 _ s', s' = rehash_state hash Dn (Di ++ l1.*2) s)).
    + simpl. by rewrite app_nil_r.
    + intros l1 [k i] l2 s' Hl ->. destruct (Ht k i) as (it & Hi & Hst).
      { apply elem_of_gtree_list. rewrite Hl. set_solver. }
      eapply wp_update_item_checksum; [done..|]. by rewrite fmap_app, app_assoc.
  - intros [] s' ->. done.
Qed.

Lemma lookup_rehash_state_node Dn Di n nd :
  nodes (metadata s) !! n = Some nd →
  nodes (metadata (rehash_state hash Dn Di s)) !! n = Some (if decide (n ∈ Dn) then set_page_hash hash nd else nd).
Proof. intros Hn. simpl. by rewrite lookup_rehash_nodes, Hn. Qed.

(** One node, then its items. *)
Lemma wp_rehash_node Dn Di n nd (Q : unit → server_st → Prop) :
  nodes (metadata s) !! n = Some nd →
  Q tt (rehash_state hash (Dn ++ [n]) Di s) →
  wp (upd_node n (set_page_hash hash)) (rehash_state hash Dn Di s) Q.
Proof.
  intros Hn HQ. eapply wp_upd_node; [by apply lookup_rehash_state_node|].
  unfold rehash_state, with_metadata, upd_nodes, upd_items in *; simpl in *.
  by rewrite (rehash_nodes_snoc _ _ _ _ _ Hn).
Qed.

Lemma trees_stable_cons n nd l :
  nodes (metadata s) !! n = Some nd → trees_stable (n :: l) →
  (∀ k i, sharing_item_tree nd !! k = Some i → ∃ it, items (metadata s) !! i = Some it ∧ state it = Stable) ∧
  trees_stable l.
Proof.
  intros Hn H. split.
  - intros k i Hk. apply H, elem_of_chain_items. exists n, nd. set_solver.
  - intros i (m & md & Hm & E)%elem_of_chain_items. apply H, elem_of_chain_items. exists m, md. set_solver.
Qed.

Lemma chain_items_cons N n l nd : N !! n = Some nd → chain_items N (n :: l) = tree_items nd ++ chain_items N l.
Proof. intros Hn. unfold chain_items. simpl. by rewrite Hn. Qed.

Lemma wp_rehash_rest fuel l h p Dn Di (Q : unit → server_st → Prop) :
  chain_seg (nodes (metadata s)) h p l None → (length l ≤ fuel)%nat → trees_stable l →
  Q tt (rehash_state hash (Dn ++ l) (Di ++ chain_items (nodes (metadata s)) l) s) →
  wp (rehash_rest fuel hash (next_or l None)) (rehash_state hash Dn Di s) Q.
Proof.
  revert fuel p Dn Di. induction l as [|n l IH]; intros fuel p Dn Di Hs Hf Ht HQ.
  - simpl in *. rewrite !app_nil_r in HQ. by destruct fuel; apply wp_ret.
  - destruct Hs as [(nd & Hn & _ & _ & _ & Hnx) Hs]. destruct fuel as [|fuel]; simpl in *; [lia|].
    destruct (trees_stable_cons n nd l Hn Ht) as [Ht1 Ht2]. wp_step.
    eapply wp_rehash_node; [done|]. wp_step.
    eapply wp_get_node; [by apply lookup_rehash_state_node|]. rewrite decide_True by set_solver. simpl.
    wp_step. eapply wp_update_checksums; [done|]. rewrite Hnx. eapply IH; [done|lia|done|].
    by rewrite (chain_items_cons _ _ _ nd) in HQ by done; rewrite <- !app_assoc.
Qed.

End rehash.

Lemma rehash_state_nil hash s : rehash_state hash [] [] s = s.
Proof.
  unfold rehash_state, with_metadata, upd_items, upd_nodes; simpl.
  rewrite rehash_items_nil, rehash_nodes_nil. by destruct s as [[] ? ? ? ? ? ?].
Qed.

(** The whole branch, from the head of the chain. *)
Definition rehashed (h hash : hash_pair) (n : loc) (l : list loc) (s : server_st) : server_st :=
  with_metadata (upd_stable (λ T, <[hash := n]> (delete h T)))
    (rehash_state hash (n :: l) (chain_items (nodes (metadata s)) (n :: l)) s).

Lemma size_rehash_nodes hash D N : size (rehash_nodes hash D N) = size N.
Proof.
  rewrite <- !size_dom. f_equal. apply set_eq. intros n.
  rewrite !elem_of_dom, lookup_rehash_nodes, fmap_is_Some. done.
Qed.

Lemma wp_rehash_from_head C h n l hash s (Q : unit → server_st → Prop) :
  inv_chain C (nodes (metadata s)) (stable_hash_table (metadata s)) →
  C !! h = Some (n :: l) → trees_stable s (n :: l) →
  Q tt (rehashed h hash n l s) → wp (rehash_from_head n hash) s Q.
Proof.
  intros Hc HC Ht HQ. pose proof (inv_chain_length _ _ _ _ _ Hc HC) as Hlen.
  destruct (ic_seg _ _ _ Hc _ _ HC) as (_ & _ & [(nd & Hn & Hh & _ & _ & Hnx) Hs]).
  unfold rehash_from_head. wp_step. eapply wp_get_node; [done|]. do 2 wp_step. rewrite Hh.
  set (s1 := with_metadata (upd_stable (delete h)) s). wp_step.
  rewrite <- (rehash_state_nil hash s1).
  destruct (trees_stable_cons s1 n nd l Hn Ht) as [Ht1 Ht2].
  eapply wp_rehash_node; [done|]. wp_step. eapply wp_update_checksums; [done|]. do 2 wp_step.
  rewrite Hnx. wp_step. eapply wp_rehash_rest; [done| |done|].
  { simpl. rewrite size_rehash_nodes. simpl in Hlen. lia. }
  wp_steps. by unfold rehashed in HQ; rewrite (chain_items_cons _ _ _ nd) in HQ.
Qed.

(** ** The invariant *)
Section wf_rehash.
Context (C : chains) (s : server_st) (h hash : hash_pair) (n : loc) (l : list loc).
Hypothesis Hwf : wf C None None (metadata s).
Hypothesis HC : C !! h = Some (n :: l).
Hypothesis Hfree : C !! hash = None.

Let I := items (metadata s).
Let N := nodes (metadata s).
Let D := n :: l.
Let Di := chain_items N D.

(** The chain of [h] is exactly the nodes with hash [h]. *)
Lemma in_chain_iff k nd : N !! k = Some nd → k ∈ D ↔ page_hash nd = h.
Proof using Hwf HC.
  intros Hk. destruct Hwf as [_ _ Hc _]. split.
  - intros Hin. destruct (chain_list_node _ _ _ _ _ _ Hc HC Hin) as (nd' & E & <-). unfold N in Hk. congruence.
  - intros Hph. by eapply chain_in_list.
Qed.

(** The re-hashed items are the stable items sharing one of these nodes. *)
Lemma in_items_iff i it :
  I !! i = Some it →
  i ∈ Di ↔ state it = Stable ∧ ∃ k, stable_node_of it = Some k ∧ k ∈ D.
Proof using Hwf HC.
  intros Hi. destruct Hwf as [_ [Hs1 Hs2 _] _ _]. unfold Di. rewrite elem_of_chain_items. split.
  - intros (k & nd & Hk & Hnd & key & Hin). destruct (Hs2 k nd Hnd key i Hin) as (_ & it' & Hi' & _ & Hst & Hsn).
    unfold I in Hi. replace it with it' by congruence. eauto.
  - intros (Hst & k & Hsn & Hk). pose proof (Hs1 i it Hi ltac:(done)) as Hok. unfold item_ok in Hok.
    rewrite Hst in Hok. destruct Hok as (k' & nd & E1 & E2 & E3 & _). exists k', nd.
    split; [congruence|]. eauto.
Qed.

Lemma trees_stable_chain : trees_stable s D.
Proof using Hwf.
  intros i (k & nd & Hk & Hnd & key & Hin)%elem_of_chain_items.
  destruct Hwf as [_ [_ Hs2 _] _ _]. destruct (Hs2 k nd Hnd key i Hin) as (_ & it & Hi & _ & Hst & _). eauto.
Qed.

Lemma rehash_inv_rmap : inv_rmap (rmap_tree (metadata s)) (rehash_items hash Di I).
Proof using Hwf.
  intros k i. destruct Hwf as [Hr _ _ _]. rewrite (Hr k i), lookup_rehash_items. fold I.
  destruct (I !! i) as [it|]; simpl; [|naive_solver].
  split; intros (it' & [= <-] & Hk); eexists; (split; [done|]); revert Hk; by case_decide.
Qed.

Lemma rehash_inv_share : inv_share None None (rehash_items hash Di I) (rehash_nodes hash D N).
Proof using Hwf HC.
  pose proof Hwf as [_ [Hs1 Hs2 Hs3] _ _]. fold I N in Hs1, Hs2, Hs3. split.
  - intros i it'. rewrite lookup_rehash_items. destruct (I !! i) as [it|] eqn:Hi; simpl; [|done].
    intros [= <-] _. specialize (Hs1 i it Hi ltac:(done)). pose proof (in_items_iff i it Hi) as Hin.
    unfold item_ok in *. replace (state (if decide (i ∈ Di) then set_old_hash hash it else it)) with (state it) by (by case_decide).
    destruct (state it) eqn:Hst; try done. destruct Hs1 as (k & nd & E1 & E2 & E3 & E4).
    exists k, (if decide (k ∈ D) then set_page_hash hash nd else nd).
    rewrite lookup_rehash_nodes, E2. simpl.
    destruct (decide (i ∈ Di)) as [Hd|Hd], (decide (k ∈ D)) as [Hk|Hk]; simpl; try done.
    + apply Hin in Hd as (_ & k' & ? & ?). congruence.
    + exfalso. apply Hd, Hin. eauto.
  - intros k nd'. rewrite lookup_rehash_nodes. destruct (N !! k) as [nd|] eqn:Hk; simpl; [|done].
    intros [= <-] key i Hkey. split; [done|].
    assert (sharing_item_tree nd !! key = Some i) as Hkey' by (revert Hkey; by case_decide).
    destruct (Hs2 k nd Hk key i Hkey') as (_ & it & Hi & E). rewrite lookup_rehash_items, Hi. simpl.
    eexists. split; [done|]. by destruct (decide (i ∈ Di)).
  - intros k nd'. rewrite lookup_rehash_nodes. destruct (N !! k) as [nd|] eqn:Hk; simpl; [|done].
    intros [= <-]. specialize (Hs3 k nd Hk). unfold counted in *. by case_decide.
Qed.

Lemma rehash_chain_seg p q l0 :
  (∀ k, k ∈ l0 → k ∈ D) → chain_seg N h p l0 q → chain_seg (rehash_nodes hash D N) hash p l0 q.
Proof.
  clear Hwf HC Hfree. revert p. induction l0 as [|k l0 IH]; intros p Hsub; simpl; [done|].
  intros [(nd & Hk & E & E2) Hs]. split; [|apply IH; [set_solver|done]].
  exists (set_page_hash hash nd). rewrite lookup_rehash_nodes, Hk. simpl.
  rewrite decide_True by set_solver. done.
Qed.

Lemma rehash_inv_chain :
  inv_chain (<[hash := D]> (delete h C)) (rehash_nodes hash D N) (<[hash := n]> (delete h (stable_hash_table (metadata s)))).
Proof using Hwf HC Hfree.
  pose proof Hwf as [_ _ [Hs Ht Hm] _]. fold N in Hs, Hm.
  assert (h ≠ hash) by congruence. split.
  - intros h' l0 [[<- <-]|[Hne [Hne' Hl]%lookup_delete_Some]]%lookup_insert_Some.
    + destruct (Hs _ _ HC) as (? & ? & Hseg). do 2 (split; [done|]). by apply rehash_chain_seg.
    + destruct (Hs _ _ Hl) as (? & ? & Hseg). do 2 (split; [done|]). pose proof Hseg as Hseg'. revert Hseg'.
      apply chain_seg_frame. intros k Hk nd Hnd. exists nd. rewrite lookup_rehash_nodes, Hnd. simpl.
      destruct (chain_seg_lookup _ _ _ _ _ _ Hseg Hk) as (nd' & E1 & E2). rewrite decide_False; [done|].
      rewrite (in_chain_iff k nd) by done. congruence.
  - intros h'. destruct (decide (hash = h')) as [<-|Hne]; [by rewrite !lookup_insert_eq|].
    rewrite !lookup_insert_ne by done. destruct (decide (h = h')) as [<-|Hne'].
    + by rewrite !lookup_delete_eq.
    + by rewrite !lookup_delete_ne.
  - intros k nd'. rewrite lookup_rehash_nodes. destruct (N !! k) as [nd|] eqn:Hk; simpl; [|done].
    intros [= <-]. pose proof (in_chain_iff k nd Hk) as Hin. destruct (decide (k ∈ D)) as [Hd|Hd]; simpl.
    + exists D. by rewrite lookup_insert_eq.
    + destruct (Hm k nd Hk) as (l0 & Hl0 & Hkl). exists l0.
      assert (page_hash nd ≠ h) by tauto. assert (page_hash nd ≠ hash) by congruence.
      by rewrite lookup_insert_ne, lookup_delete_ne.
Qed.

Lemma rehash_inv_unst : inv_unst None (rehash_items hash Di I) (unstable_hash_table (metadata s)).
Proof using Hwf HC.
  intros h' i. pose proof Hwf as [_ _ _ Hu]. rewrite (Hu h' i), lookup_rehash_items. fold I.
  split; intros [_ (it & Hi & Hst & Hh)]; (split; [done|]).
  - rewrite Hi. simpl. exists it. rewrite decide_False; [done|].
    rewrite (in_items_iff i it Hi). intros [? _]. congruence.
  - destruct (I !! i) as [it0|] eqn:Hi0; [|done]. simpl in Hi. injection Hi as <-.
    pose proof (in_items_iff i it0 Hi0) as Hin.
    destruct (decide (i ∈ Di)) as [Hd|Hd]; [|eauto]. apply Hin in Hd as [Hd _]. simpl in Hst. congruence.
Qed.

Lemma wf_rehash : wf (<[hash := D]> (delete h C)) None None (metadata (rehashed h hash n l s)).
Proof using Hwf HC Hfree.
  split; [apply rehash_inv_rmap|apply rehash_inv_share|apply rehash_inv_chain|apply rehash_inv_unst].
Qed.

Lemma rehash_view : sharing_view (metadata (rehashed h hash n l s)) = sharing_view (metadata s).
Proof.
  apply map_eq. intros k. rewrite !sharing_view_lookup. simpl.
  destruct (rmap_tree (metadata s) !! k) as [i|]; simpl; [|done].
  rewrite lookup_rehash_items. destruct (items (metadata s) !! i) as [it|]; simpl; [|done].
  assert (node_pfn_of (rehash_nodes hash D N) it = node_pfn_of N it) as E.
  { unfold node_pfn_of. destruct (state it); try done. destruct (stable_node_of it) as [j|]; [simpl|done].
    rewrite lookup_rehash_nodes. destruct (N !! j); simpl; [|done]. by case_decide. }
  unfold N, D in E. by case_decide.
Qed.

End wf_rehash.
