(* ===== verification/MergeSpec.v ===== *)
(** * MergeSpec: what one call of [cmp_and_merge_one] does

    [progress] relates the server before and after a piece of work on the
    item [l]: the invariant holds again, the event log grew by [new], and the
    abstract state [sharing_view] changed exactly as the host would change it
    by replaying [new]. *)
From S2P Require Import Prelude Wire HashPair Store LogTable Metadata Merge MetadataInv ChainInv MetadataSpec RehashInv.
Open Scope Z_scope.

(** ** The host's reading of an event *)
Definition replay1 (pf : item_key → Z) (V : gmap item_key Z) (e : ksm_event_log) : gmap item_key Z :=
  let from := (log_i0 e, log_w0 e) in
  match log_type e with
  | DPU_STABLE_MERGE => <[from := log_w1 e]> V
  | DPU_UNSTABLE_MERGE => <[from := pf from]> (<[(log_i1 e, log_w1 e) := pf from]> V)
  | DPU_STALE_STABLE_NODE | DPU_ITEM_STATE_CHANGE => delete from V
  | _ => V
  end.

Definition replay (pf : item_key → Z) (V : gmap item_key Z) (L : list ksm_event_log) : gmap item_key Z :=
  foldl (replay1 pf) V L.

(** Each node carries the hash of its frame's content. *)
Definition frames_ok (fh : Z → hash_pair) (m : ksm_metadata) : Prop :=
  ∀ n nd, nodes m !! n = Some nd → page_hash nd = fh (node_pfn nd).

(** The items other than [l]: one that is merged or parked after was so before,
    under the same hash. *)
Definition same_hashes (l : loc) (I I' : gmap loc rmap_item) : Prop :=
  ∀ i it it', i ≠ l → I !! i = Some it → I' !! i = Some it' → state it' ≠ Volatile →
    state it ≠ Volatile ∧ old_hash it' = old_hash it.

Record progress (pf : item_key → Z) (fh : Z → hash_pair) (l : loc) (s : server_st) (L : list ksm_event_log)
    (s' : server_st) (new : list ksm_event_log) : Prop := Progress {
  pg_ok : metadata_ok (metadata s');
  pg_log : log_repr (log_table s') (L ++ new);
  pg_oom : no_oom s';
  pg_rmap : rmap_tree (metadata s') = rmap_tree (metadata s);
  pg_view : sharing_view (metadata s') = replay pf (sharing_view (metadata s)) new;
  pg_ctl : iteration s' = iteration s ∧ total_accessed_cnt s' = total_accessed_cnt s ∧
           smart_scan_opt s' = smart_scan_opt s;
  pg_items : ∀ i it, items (metadata s) !! i = Some it → ∃ it', items (metadata s') !! i = Some it' ∧
     key_of it' = key_of it ∧ last_access it' = last_access it ∧
     (state it' = Unstable → i = l ∨ state it = Unstable);
  pg_frames : frames_ok fh (metadata s) → frames_ok fh (metadata s');
  pg_same : frames_ok fh (metadata s) → same_hashes l (items (metadata s)) (items (metadata s')) }.

Lemma same_hashes_refl l I : same_hashes l I I.
Proof. intros i it it' _ H1 H2 Hst. by replace it' with it in * by congruence. Qed.

Lemma same_hashes_insert l I it : same_hashes l I (<[l := it]> I).
Proof.
  intros i i0 i1 Hne H1 H2 Hst. rewrite lookup_insert_ne in H2 by done. by replace i1 with i0 in * by congruence.
Qed.
#[export] Hint Resolve same_hashes_refl same_hashes_insert : bask.

Lemma frames_ok_upd fh m n nd nd' :
  frames_ok fh m → nodes m !! n = Some nd → page_hash nd' = page_hash nd → node_pfn nd' = node_pfn nd →
  frames_ok fh (upd_nodes (<[n := nd']>) m).
Proof.
  intros H Hn E1 E2 k kd Hk. simpl in Hk. apply lookup_insert_Some in Hk as [[<- <-]|[_ Hk]]; [|by apply (H k)].
  rewrite E1, E2. by apply (H n).
Qed.

(** Relinking keeps it, whatever happens to a node [n] that is right itself. *)
Lemma frames_ok_relinked fh m N' T' n :
  frames_ok fh m → relinked (nodes m) N' n →
  (∀ nd, N' !! n = Some nd → page_hash nd = fh (node_pfn nd)) →
  frames_ok fh (upd_nodes (λ _, N') (upd_stable (λ _, T') m)).
Proof.
  intros H Hrel Hn k kd Hk. simpl in Hk. destruct (decide (k = n)) as [->|Hne]; [by apply Hn|].
  specialize (Hrel k Hne). rewrite Hk in Hrel. destruct (nodes m !! k) as [kd0|] eqn:E; [|done].
  simpl in Hrel. unfold content in Hrel. injection Hrel as -> _ -> _. by apply (H k).
Qed.

Lemma replay_app pf V L1 L2 : replay pf V (L1 ++ L2) = replay pf (replay pf V L1) L2.
Proof. apply foldl_app. Qed.

Lemma progress_refl pf fh l s L :
  metadata_ok (metadata s) → log_repr (log_table s) L → no_oom s → progress pf fh l s L s [].
Proof. split; rewrite ?app_nil_r; eauto 10 with bask. Qed.

Lemma progress_trans pf fh l s L s1 n1 s2 n2 :
  progress pf fh l s L s1 n1 → progress pf fh l s1 (L ++ n1) s2 n2 → progress pf fh l s L s2 (n1 ++ n2).
Proof.
  intros [A1 A2 A3 A4 A5 (A6 & A7 & A8) A9 A10 A11] [B1 B2 B3 B4 B5 (B6 & B7 & B8) B9 B10 B11].
  split; [done|by rewrite app_assoc|done|congruence|by rewrite B5, A5, replay_app|split_and!; congruence| |by auto|].
  2: { intros Hf i it it2 Hne Hi Hi2 Hst. destruct (A9 i it Hi) as (it1 & Hi1 & _).
       destruct (B11 (A10 Hf) i it1 it2 Hne Hi1 Hi2 Hst) as [Hst1 ->]. exact (A11 Hf i it it1 Hne Hi Hi1 Hst1). }
  intros i it Hi. destruct (A9 i it Hi) as (it1 & Hi1 & E1 & E2 & E3).
  destruct (B9 i it1 Hi1) as (it2 & Hi2 & F1 & F2 & F3). exists it2. split_and!; [done|congruence..|].
  intros Hu. destruct (F3 Hu) as [?|Hu1]; [by left|by apply E3].
Qed.

(** What a step does to the items: the one at [l] and others that leave the
    unstable state keep their identity. *)
Definition item_ident (it it' : rmap_item) : Prop :=
  key_of it' = key_of it ∧ last_access it' = last_access it.

Lemma progress_stats pf fh l s L f :
  metadata_ok (metadata s) → log_repr (log_table s) L → no_oom s → progress pf fh l s L (with_stats f s) [].
Proof. split; rewrite ?app_nil_r; simpl; eauto 10 with bask. Qed.

(** An update of the item at [l] that keeps its role, or keeps it volatile. *)
Lemma progress_upd pf fh l s L it it' :
  metadata_ok (metadata s) → log_repr (log_table s) L → no_oom s →
  items (metadata s) !! l = Some it → item_ident it it' →
  (state it = Volatile ∧ state it' = Volatile) ∨
  (state it' = state it ∧ old_hash it' = old_hash it ∧ stable_node_of it' = stable_node_of it) →
  progress pf fh l s L (with_metadata (upd_items (<[l := it']>)) s) [].
Proof.
  intros [C Hwf] HL Ho Hl [Hk Ha] Hcase. split; rewrite ?app_nil_r; [|done|done|done| |done| |done|intros _; apply same_hashes_insert].
  - exists C. destruct Hcase as [[H1 H2]|(H1 & H2 & H3)]; [by eapply wf_upd_volatile|by eapply wf_touch].
  - apply (sharing_view_same _ l it); [by destruct Hwf|done..|].
    destruct Hcase as [[H1 H2]|(H1 & H2 & H3)]; unfold node_pfn_of; [by rewrite H1, H2|by rewrite H1, H3].
  - intros i i0 Hi. destruct (decide (l = i)) as [<-|Hne]; simpl.
    + rewrite lookup_insert_eq. replace i0 with it by congruence. eauto 10.
    + rewrite lookup_insert_ne by done. eauto 10.
Qed.

(** ** Looking for a node to join *)
Lemma wp_cmp_with_stable C x y s hash (Q : option loc → server_st → Prop) :
  wf C x y (metadata s) →
  (∀ r, (∀ n, r = Some n → ∃ nd, nodes (metadata s) !! n = Some nd ∧ page_hash nd = hash ∧
                 shared_cnt nd < MAX_PAGE_SHARING) →
        (r = None → ∀ n nd, nodes (metadata s) !! n = Some nd → page_hash nd = hash →
                 MAX_PAGE_SHARING ≤ shared_cnt nd) → Q r s) →
  wp (cmp_with_stable hash) s Q.
Proof.
  intros [_ _ Hc _] HQ. unfold cmp_with_stable. do 2 wp_step. rewrite (ic_table _ _ _ Hc).
  destruct (C !! hash) as [l|] eqn:HC; simpl.
  - destruct (ic_seg _ _ _ Hc _ _ HC) as (Hne & Hnd & Hseg). destruct l as [|n l]; [done|]. simpl.
    pose proof (inv_chain_length _ _ _ _ _ Hc HC) as Hlen. simpl in Hlen.
    pose proof Hseg as Hseg'. destruct Hseg' as [(nd & Hn & Hh & _ & _ & Hnx) Hs]. wp_step. eapply wp_get_node; [done|].
    destruct (Z.ltb_spec (shared_cnt nd) MAX_PAGE_SHARING).
    + wp_step. apply HQ; [|done]. intros ? [= <-]. eauto.
    + rewrite Hnx. eapply wp_find_unsaturated; [done|lia|]. intros r Hr1 Hr2. apply HQ.
      * intros k ->. destruct (Hr1 k eq_refl) as (Hk & kd & Hkd & ?). exists kd. split; [done|]. split; [|done].
        destruct (chain_seg_lookup _ _ _ _ _ _ Hs Hk) as (kd' & ? & ?). congruence.
      * intros -> k kd Hk Hph. pose proof (chain_in_list _ _ _ _ _ _ _ Hc HC Hk Hph) as Hin.
        apply elem_of_cons in Hin as [->|Hin]; [congruence|by eapply Hr2].
  - wp_step. apply HQ; [done|]. intros _ n nd Hn Hph. exfalso.
    destruct (ic_member _ _ _ Hc n nd Hn) as (l & ? & _). congruence.
Qed.

Lemma wp_cmp_with_unstable C s l it (Q : option loc → server_st → Prop) :
  wf C None None (metadata s) → items (metadata s) !! l = Some it →
  (∀ un ui, items (metadata s) !! un = Some ui → state ui = Unstable → old_hash ui = old_hash it →
     wf C (Some un) None (upd_unstable (delete (old_hash it)) (metadata s)) →
     Q (Some un) (with_metadata (upd_unstable (delete (old_hash it))) s)) →
  (unstable_hash_table (metadata s) !! old_hash it = None → Q None s) →
  wp (cmp_with_unstable l) s Q.
Proof.
  intros Hwf Hl HQ1 HQ2. unfold cmp_with_unstable. wp_step. eapply wp_get_item; [done|]. do 2 wp_step.
  destruct (unstable_hash_table (metadata s) !! old_hash it) as [un|] eqn:Hu; [|wp_step; by apply HQ2].
  destruct (proj1 (wf_unst _ _ _ _ Hwf _ _) Hu) as (_ & ui & Hui & Hst & Hh).
  wp_step. eapply wp_get_item; [done|]. do 3 wp_step. rewrite Hh. eapply HQ1; [done..|]. by apply wf_take_unstable.
Qed.

(** ** The view after a join and after a leave *)
Lemma sharing_view_join m l it n nd t :
  inv_rmap (rmap_tree m) (items m) → items m !! l = Some it → nodes m !! n = Some nd →
  sharing_view (upd_items (<[l := joined_item nd n it]>) (upd_nodes (<[n := joined_node t it nd]>) m)) =
  <[key_of it := node_pfn nd]> (sharing_view m).
Proof.
  intros Hr Hl Hn. rewrite (sharing_view_upd_item _ l it) by done. unfold node_pfn_of at 1. simpl.
  rewrite lookup_insert_eq. simpl. f_equal. apply sharing_view_nodes.
  intros l' it' Hl'. by eapply node_pfn_of_insert.
Qed.

Lemma sharing_view_leave m l it it' n nd nd' :
  inv_rmap (rmap_tree m) (items m) → items m !! l = Some it → nodes m !! n = Some nd →
  node_pfn nd' = node_pfn nd → key_of it' = key_of it → state it' = Volatile →
  sharing_view (upd_items (<[l := it']>) (upd_nodes (<[n := nd']>) m)) =
  delete (key_of it) (sharing_view m).
Proof.
  intros Hr Hl Hn Hp Hk Hst. rewrite (sharing_view_upd_item _ l it) by done. unfold node_pfn_of at 1. rewrite Hst.
  f_equal. apply sharing_view_nodes. intros l' i' Hl'. by eapply node_pfn_of_insert.
Qed.

(** Nodes nobody shares can be relinked or dropped. *)
Lemma sharing_view_relinked C l it y m n nd N' T' :
  wf C (Some l) y m → items m !! l = Some it → state it = Volatile → nodes m !! n = Some nd →
  sharing_item_tree nd = ∅ → relinked (nodes m) N' n →
  sharing_view (upd_nodes (λ _, N') (upd_stable (λ _, T') m)) = sharing_view m.
Proof.
  intros [_ [Hs _ _] _ _] Hl Hst Hn Hsh Hrel.
  rewrite (sharing_view_nodes (upd_stable (λ _, T') m) (λ _, N')); [done|].
  intros i ii Hi. simpl in Hi. apply node_pfn_of_content. intros k Hk Hsi. apply Hrel. intros ->.
  assert (i ≠ l) as Hne by congruence. specialize (Hs i ii Hi ltac:(congruence)).
  unfold item_ok in Hs. rewrite Hsi in Hs. destruct Hs as (n' & nd' & E1 & E2 & E3 & _).
  replace nd' with nd in * by congruence. by rewrite Hsh, lookup_empty in E3.
Qed.

(** ** Joining an existing node *)
Definition stable_merge_entry (it : rmap_item) (nd : stable_node) : ksm_event_log :=
  KsmEventLog DPU_STABLE_MERGE (va it) (node_pfn nd) (mm_id it) (shared_cnt nd).
Definition unstable_merge_entry (from to : rmap_item) : ksm_event_log :=
  KsmEventLog DPU_UNSTABLE_MERGE (va from) (va to) (mm_id from) (mm_id to).
Definition state_change_entry (it : rmap_item) (nd : stable_node) : ksm_event_log :=
  KsmEventLog DPU_ITEM_STATE_CHANGE (va it) (node_pfn nd) (mm_id it) (shared_cnt nd).

Definition joined_state (n l : loc) (it : rmap_item) (nd : stable_node) (s : server_st) : server_st :=
  with_metadata (λ m, upd_items (<[l := joined_item nd n it]>) (upd_nodes (<[n := joined_node l it nd]>) m)) s.

(** A volatile item joins a node: all of [progress] but the log. *)
Lemma joined_wf C s n l it nd :
  wf C None None (metadata s) → items (metadata s) !! l = Some it → state it = Volatile →
  nodes (metadata s) !! n = Some nd → shared_cnt nd < MAX_PAGE_SHARING →
  wf C None None (metadata (joined_state n l it nd s)).
Proof.
  intros Hwf Hl Hst Hn Hlt.
  apply (wf_join C None (metadata s) l it (joined_item nd n it) n nd); [by eapply wf_open_volatile|auto..].
Qed.

Lemma wp_merge_with_stable pf fh C s L n l it nd (Q : Z → server_st → Prop) :
  wf C None None (metadata s) → log_repr (log_table s) L → no_oom s → Z.of_nat (length L) < 2 ^ 30 →
  items (metadata s) !! l = Some it → state it = Volatile →
  nodes (metadata s) !! n = Some nd → shared_cnt nd < MAX_PAGE_SHARING →
  (∀ s' c, progress pf fh l s L s' [KsmEventLog DPU_STABLE_MERGE (va it) (node_pfn nd) (mm_id it) c] →
     items (metadata s') !! l = Some (joined_item nd n it) → Q 0 s') →
  wp (merge_with_stable n l) s Q.
Proof.
  intros Hwf HL Ho Hlen Hl Hst Hn Hlt HQ. unfold merge_with_stable.
  wp_step. eapply wp_get_node; [done|]. wp_step. apply wp_halt_if; [by apply Z.leb_gt|].
  wp_step. eapply wp_get_item; [done|].
  assert (∀ f (s1 := with_stats f s), wp (insert_item_to_node n l ;; it ← get_item l; nd ← get_node n;
    log_stable_merge it nd ;; mret 0) s1 Q) as Hrest.
  { intros f s1. wp_step. eapply wp_insert_item_to_node; [done|by left|done|].
    wp_step. eapply wp_get_item; [apply lookup_insert_eq|].
    wp_step. eapply wp_get_node; [apply lookup_insert_eq|]. wp_step.
    unfold log_stable_merge. simpl. eapply wp_insert_ksm_log; [done..|]. intros t a Ht Ha. wp_step.
    eapply (HQ _ (shared_cnt (joined_node l it nd))); [|apply lookup_insert_eq].
    split; [|done|done|done| |done| | |intros _; apply same_hashes_insert].
    - exists C. by apply joined_wf.
    - simpl. unfold replay1; simpl. by apply sharing_view_join; [destruct Hwf|..].
    - intros i i0 Hi. simpl. destruct (decide (l = i)) as [<-|Hne].
      + rewrite lookup_insert_eq. replace i0 with it by congruence. eexists; split_and!; [done..|]. by left.
      + rewrite lookup_insert_ne by done. eauto 10.
    - intros Hf. by eapply (frames_ok_upd fh (metadata s) n nd). }
  wp_step. apply wp_whenM; intros _.
  - wp_step. apply Hrest.
  - specialize (Hrest id). by destruct s.
Qed.

(** ** A new node for an unstable partner and the current item *)
Lemma wf_new_node C x m n nd :
  wf C x None m → nodes m !! n = None → sharing_item_tree nd = ∅ → shared_cnt nd = 0 →
  inv_share x (Some n) (items m) (<[n := nd]> (nodes m)) ∧
  inv_chain C (delete n (<[n := nd]> (nodes m))) (stable_hash_table m).
Proof.
  intros [_ Hs Hc _] Hn Hsh Hcnt. split; [by apply inv_share_node_new|]. by rewrite delete_insert_id.
Qed.

Lemma wp_malloc_node nd s (Q : option loc → server_st → Prop) :
  no_oom s →
  (∀ n a, nodes (metadata s) !! n = None → NoMem ∉ a →
     Q (Some n) (with_metadata (upd_nodes (<[n := nd]>)) (with_answers (λ _, a) s))) →
  wp (malloc_node nd) s Q.
Proof.
  intros Ho HQ. unfold malloc_node. wp_step. eapply wp_next_answer; [done|]. intros j a Ha. wp_steps.
  apply (HQ _ a); [|done]. apply not_elem_of_dom, is_fresh.
Qed.

Lemma wp_malloc_item s (Q : option (loc * rmap_item) → server_st → Prop) :
  no_oom s →
  (∀ l j a, items (metadata s) !! l = None → NoMem ∉ a →
     Q (Some (l, j)) (with_metadata (upd_items (<[l := j]>)) (with_answers (λ _, a) s))) →
  wp malloc_item s Q.
Proof.
  intros Ho HQ. unfold malloc_item. wp_step. eapply wp_next_answer; [done|]. intros j a Ha. wp_steps.
  apply (HQ _ j a); [|done]. apply not_elem_of_dom, is_fresh.
Qed.

(** Linking a fresh node leaves the view alone. *)
Lemma sharing_view_new_node C x y m n N' T' :
  wf C x y m → (∀ l it, items m !! l = Some it → x = Some l → state it ≠ Stable) →
  nodes m !! n = None → relinked (nodes m) N' n →
  sharing_view (upd_nodes (λ _, N') (upd_stable (λ _, T') m)) = sharing_view m.
Proof.
  intros [_ [Hs _ _] _ _] Hx Hn Hrel.
  rewrite (sharing_view_nodes (upd_stable (λ _, T') m) (λ _, N')); [done|].
  intros i ii Hi. simpl in Hi. apply node_pfn_of_content. intros k Hk Hsi. apply Hrel. intros ->.
  destruct (decide (x = Some i)) as [Hxi|Hxi]; [by destruct (Hx i ii Hi Hxi)|].
  specialize (Hs i ii Hi ltac:(congruence)). unfold item_ok in Hs. rewrite Hsi in Hs.
  destruct Hs as (n' & nd' & E1 & E2 & _). congruence.
Qed.

(** The new node once it is on its chain: ready for its two items. *)
Definition node_ready (C : chains) (un n : loc) (hash : hash_pair) (p : Z) (m m' : ksm_metadata) : Prop :=
  wf C (Some un) (Some n) m' ∧ items m' = items m ∧ rmap_tree m' = rmap_tree m ∧
  sharing_view m' = sharing_view m ∧
  (∀ fh, fh p = hash → frames_ok fh m → frames_ok fh m') ∧
  ∃ nd, nodes m' !! n = Some nd ∧ content nd = content (new_stable_node hash p).

Lemma wp_insert_fresh_node C s m un ui n hash p (Q : unit → server_st → Prop) :
  wf C (Some un) None m → items m !! un = Some ui → state ui = Unstable → nodes m !! n = None →
  metadata s = upd_nodes (<[n := new_stable_node hash p]>) m →
  (∀ C' m', node_ready C' un n hash p m m' → Q tt (with_metadata (λ _, m') s)) →
  wp (insert_stable_node n) s Q.
Proof.
  intros Hwf Hun Hst Hfresh Hm HQ.
  destruct (wf_new_node C _ _ n (new_stable_node hash p) Hwf Hfresh eq_refl eq_refl) as [Hs1 Hc1].
  eapply wp_insert_stable_node; rewrite ?Hm; [exact Hc1|apply lookup_insert_eq|reflexivity|].
  intros N' T' nd' Hc' Hrel Hn' Hcont Hshare.
  replace (with_metadata _ s) with (with_metadata (λ _, upd_nodes (λ _, N') (upd_stable (λ _, T') m)) s)
    by (unfold with_metadata; rewrite Hm; done).
  apply (HQ (put_chain hash (default [] (C !! hash) ++ [n]) C)). destruct Hwf as [Hr Hs Hc Hu] eqn:E. clear E.
  split_and!; [|done|done| | |by exists nd'].
  - split; simpl; [done| |exact Hc'|done]. by apply Hshare.
  - apply (sharing_view_new_node C (Some un) None _ n); [done| |done|].
    + intros l it Hl [= <-]. congruence.
    + intros k Hk. rewrite Hrel by done. simpl. by rewrite lookup_insert_ne.
  - intros fh Hfh Hf. apply (frames_ok_relinked fh m N' T' n); [done| |].
    + intros k Hk. rewrite Hrel by done. simpl. by rewrite lookup_insert_ne.
    + intros nd. rewrite Hn'. intros [= <-]. unfold content in Hcont. by injection Hcont as -> _ -> _.
Qed.

(** Both items join. *)
Lemma join_two C un l n ui it nd m :
  wf C (Some un) (Some n) m → items m !! un = Some ui → state ui = Unstable →
  items m !! l = Some it → state it = Volatile → nodes m !! n = Some nd → shared_cnt nd = 0 →
  let m1 := upd_items (<[un := joined_item nd n ui]>) (upd_nodes (<[n := joined_node un ui nd]>) m) in
  let nd1 := joined_node un ui nd in
  let m2 := upd_items (<[l := joined_item nd1 n it]>) (upd_nodes (<[n := joined_node l it nd1]>) m1) in
  wf C None None m2 ∧
  sharing_view m2 = <[key_of it := node_pfn nd]> (<[key_of ui := node_pfn nd]> (sharing_view m)).
Proof.
  intros Hwf Hun Hus Hl Hst Hn Hz m1 nd1 m2. assert (un ≠ l) as Hne by congruence.
  assert (wf C None None m1) as H1.
  { apply (wf_join C (Some n) m un ui (joined_item nd n ui) n nd); auto. rewrite Hz. unfold MAX_PAGE_SHARING. lia. }
  assert (items m1 !! l = Some it) as Hl1 by (simpl; by rewrite lookup_insert_ne).
  assert (nodes m1 !! n = Some nd1) as Hn1 by apply lookup_insert_eq.
  assert (shared_cnt nd1 < MAX_PAGE_SHARING) as Hc1.
  { unfold nd1, joined_node, MAX_PAGE_SHARING; simpl. rewrite Hz. rewrite wrap_s_small by lia. lia. }
  split.
  - apply (wf_join C None m1 l it (joined_item nd1 n it) n nd1); [by eapply wf_open_volatile|auto..].
  - unfold m2. rewrite (sharing_view_join m1 l it n nd1) by (done || by destruct H1). f_equal.
    apply sharing_view_join; [by destruct Hwf|done..].
Qed.

Lemma wp_merge_with_unstable pf fh C s L hash un ui l it (Q : Z → server_st → Prop) :
  wf C (Some un) None (metadata s) → log_repr (log_table s) L → no_oom s → Z.of_nat (length L) < 2 ^ 30 →
  items (metadata s) !! un = Some ui → state ui = Unstable → old_hash ui = hash →
  items (metadata s) !! l = Some it → state it = Volatile → pf (key_of it) = pfn it → fh (pfn it) = hash →
  (∀ s' it', progress pf fh l s L s' [unstable_merge_entry it ui] →
     items (metadata s') !! l = Some it' → state it' = Stable → old_hash it' = hash → Q 0 s') →
  wp (merge_with_unstable hash un l) s Q.
Proof.
  intros Hwf HL Ho Hlen Hun Hus Huh Hl Hst Hpf Hfh HQ. unfold merge_with_unstable.
  assert (un ≠ l) as Hne by congruence.
  wp_step. eapply wp_get_item; [done|]. wp_step. eapply wp_malloc_node; [done|]. intros n a Hfresh Ha.
  wp_step. eapply (wp_insert_fresh_node _ _ (metadata s)); [done..|].
  intros C' m' (Hwf' & HI & HR & HV & HF & nd & Hn & Hcont). unfold content in Hcont. simpl in Hcont.
  injection Hcont as Hph Hcnt Hpfn Htree. rewrite <- HI in Hun, Hl.
  destruct (join_two C' un l n ui it nd m' Hwf' Hun Hus Hl Hst Hn Hcnt) as [H2 HV2].
  wp_step. eapply wp_insert_item_to_node; [exact Hun|by right|exact Hn|].
  wp_step. eapply wp_insert_item_to_node; [simpl; rewrite lookup_insert_ne by done; exact Hl|by left|apply lookup_insert_eq|].
  wp_step. eapply wp_get_item; [apply lookup_insert_eq|].
  wp_step. eapply wp_get_item; [simpl; rewrite lookup_insert_ne by done; apply lookup_insert_eq|].
  wp_step. eapply wp_insert_ksm_log; [exact HL|done..|]. intros t b Ht Hb.
  match goal with |- wp _ ?s1 _ => set (s2 := s1) end.
  assert (∀ f, Q 0 (with_stats f s2)) as Hfin.
  { intros f. eapply HQ; [|apply lookup_insert_eq|done|by simpl].
    split; [by exists C'|done|done|exact HR| |done| | |].
    - etrans; [exact HV2|]. rewrite HV, Hpfn. unfold replay, replay1; simpl. by rewrite <- Hpf.
    - intros i i0 Hi. rewrite <- HI in Hi. simpl. destruct (decide (l = i)) as [<-|Hli].
      + rewrite lookup_insert_eq. replace i0 with it by congruence. eexists; split_and!; [done..|]. by left.
      + rewrite lookup_insert_ne by done. destruct (decide (un = i)) as [<-|Hui].
        * rewrite lookup_insert_eq. replace i0 with ui by congruence. eexists; split_and!; [done..|]. done.
        * rewrite lookup_insert_ne by done. eauto 10.
    - intros Hf. specialize (HF fh Hfh Hf).
      eapply (frames_ok_upd fh (upd_nodes (<[n := joined_node un ui nd]>) m') n (joined_node un ui nd));
        [by eapply frames_ok_upd|apply lookup_insert_eq|done..].
    - intros _ i i0 i1 Hil Hi Hi1 Hs1. rewrite <- HI in Hi. simpl in Hi1. rewrite lookup_insert_ne in Hi1 by done.
      destruct (decide (un = i)) as [<-|Hui].
      + rewrite lookup_insert_eq in Hi1. injection Hi1 as <-. replace i0 with ui by congruence. simpl. rewrite Hus. by rewrite Hph, Huh.
      + rewrite lookup_insert_ne in Hi1 by done. by replace i1 with i0 in * by congruence. }
  wp_step. apply wp_whenM; intros _; wp_steps; [apply Hfin|]. specialize (Hfin id). by destruct s.
Qed.

(** ** The volatile case *)

(** What a call leaves: at most [b] new events, and an item of which [F]
    holds. *)
Definition merge_post (pf : item_key → Z) (fh : Z → hash_pair) (l : loc) (F : rmap_item → Prop) (s : server_st)
    (L : list ksm_event_log) (b : nat) (r : Z) (s' : server_st) : Prop :=
  r = 0 ∧ ∃ new it', progress pf fh l s L s' new ∧ (length new ≤ b)%nat ∧
    items (metadata s') !! l = Some it' ∧ F it'.

Lemma merge_post_trans pf fh l F s L s1 n1 b r s' :
  progress pf fh l s L s1 n1 → merge_post pf fh l F s1 (L ++ n1) b r s' →
  merge_post pf fh l F s L (length n1 + b) r s'.
Proof.
  intros H1 (-> & n2 & it' & H2 & Hb & H). split; [done|]. exists (n1 ++ n2), it'.
  split_and!; [by eapply progress_trans|rewrite length_app; lia|by destruct H..].
Qed.

Lemma merge_post_weaken pf fh l (F F' : rmap_item → Prop) s L b b' r s' :
  (b ≤ b')%nat → (∀ it', F it' → F' it') → merge_post pf fh l F s L b r s' → merge_post pf fh l F' s L b' r s'.
Proof.
  intros Hb HF (-> & new & it' & ? & ? & ? & ?). split; [done|]. exists new, it'. split_and!; auto. lia.
Qed.

Lemma merge_post_intro pf fh l F s L s' new it' b :
  progress pf fh l s L s' new → (length new ≤ b)%nat → items (metadata s') !! l = Some it' →
  F it' → merge_post pf fh l F s L b 0 s'.
Proof. intros. split; [done|]. exists new, it'. auto. Qed.

(** The state of a step in the middle of a call. *)
Record at_item (s : server_st) (L : list ksm_event_log) (l : loc) (it : rmap_item) : Prop := AtItem {
  ai_ok : metadata_ok (metadata s);
  ai_log : log_repr (log_table s) L;
  ai_oom : no_oom s;
  ai_len : Z.of_nat (length L) < 2 ^ 30;
  ai_item : items (metadata s) !! l = Some it }.

(** An item update, then the rest of the call. *)
Lemma wp_upd_progress pf fh F b s L l it f (m : M server_st Z) :
  at_item s L l it → item_ident it (f it) →
  (state it = Volatile ∧ state (f it) = Volatile) ∨
  (state (f it) = state it ∧ old_hash (f it) = old_hash it ∧ stable_node_of (f it) = stable_node_of it) →
  (∀ s', at_item s' L l (f it) → smart_scan_opt s' = smart_scan_opt s →
     stable_hash_table (metadata s') = stable_hash_table (metadata s) →
     nodes (metadata s') = nodes (metadata s) →
     unstable_hash_table (metadata s') = unstable_hash_table (metadata s) →
     wp m s' (merge_post pf fh l F s' L b)) →
  wp (upd_item l f ;; m) s (merge_post pf fh l F s L b).
Proof.
  intros [H1 H2 H3 H4 H5] Hid Hcase Hm. wp_step. eapply wp_upd_item; [done|].
  pose proof (progress_upd pf fh l s L it (f it) H1 H2 H3 H5 Hid Hcase) as Hp.
  eapply wp_mono; [apply Hm|].
  - pose proof (pg_log _ _ _ _ _ _ _ Hp) as HL. rewrite app_nil_r in HL.
    split; [by destruct Hp|done|done|done|apply lookup_insert_eq].
  - done.
  - done.
  - done.
  - done.
  - intros r s' Hr. eapply (merge_post_trans _ _ _ _ _ _ _ []); [done|by rewrite app_nil_r].
Qed.

Lemma wp_stats_progress pf fh F b s L l it f (m : M server_st Z) :
  at_item s L l it →
  wp m (with_stats f s) (merge_post pf fh l F (with_stats f s) L b) →
  wp (modify (with_stats f) ;; m) s (merge_post pf fh l F s L b).
Proof.
  intros [H1 H2 H3 H4 H5] Hm. do 2 wp_step. eapply wp_mono; [apply Hm|].
  intros r s' Hr. eapply (merge_post_trans _ _ _ _ _ _ _ []); [by apply progress_stats|by rewrite app_nil_r].
Qed.

Lemma at_item_stats s L l it f : at_item s L l it → at_item (with_stats f s) L l it.
Proof. by intros []. Qed.

(** The item becomes unstable. *)
Lemma wp_park pf fh F s L l it hash :
  at_item s L l it → state it = Volatile → old_hash it = hash → F (set_state Unstable it) →
  unstable_hash_table (metadata s) !! hash = None →
  wp (upd_item l (set_state Unstable) ;; insert_unstable_node l ;; mret 0) s (merge_post pf fh l F s L 0).
Proof.
  intros [[C Hwf] HL Ho Hlen Hl] Hst <- HF Hu.
  wp_step. eapply wp_upd_item; [done|]. wp_step. unfold insert_unstable_node.
  wp_step. eapply wp_get_item; [apply lookup_insert_eq|]. do 3 wp_step. apply wp_halt_if.
  { simpl. by rewrite Hu. }
  do 2 wp_step. eapply (merge_post_intro _ _ _ _ _ _ _ [] (set_state Unstable it)); [|done|apply lookup_insert_eq|done].
  set (it' := set_state Unstable it).
  split; rewrite ?app_nil_r; [|done|done|done| |done| |done|intros _; apply same_hashes_insert].
  - exists C. apply (wf_put_unstable C None _ l it'); [|apply lookup_insert_eq|done|done].
    apply (wf_upd_transit C None _ l it it'); [by eapply wf_open_volatile|done|done].
  - apply (sharing_view_same (metadata s) l it it'); [by destruct Hwf|done|done|].
    unfold node_pfn_of. by rewrite Hst.
  - intros i i0 Hi. simpl. destruct (decide (l = i)) as [<-|Hne].
    + rewrite lookup_insert_eq. replace i0 with it by congruence. eexists; split_and!; [done..|]. by left.
    + rewrite lookup_insert_ne by done. eauto 10.
Qed.

Lemma wp_try_unstable pf fh F s L l it hash :
  at_item s L l it → state it = Volatile → pf (key_of it) = pfn it → fh (pfn it) = hash →
  (∀ it', old_hash it' = hash → F it') →
  wp (try_unstable hash l) s (merge_post pf fh l F s L 1).
Proof.
  intros Hat Hst Hpf Hfh HF. unfold try_unstable.
  eapply wp_upd_progress; [exact Hat|done|by left|]. intros s1 Hat1 _ _ _ _. clear s Hat.
  pose proof Hat1 as [[C Hwf] HL Ho Hlen Hl].
  wp_step. eapply wp_cmp_with_unstable; [exact Hwf|exact Hl| |].
  - intros un ui Hun Hus Huh Hwf'. simpl in Huh.
    eapply wp_merge_with_unstable; [exact Hwf'|exact HL|exact Ho|done|exact Hun|done|exact Huh|exact Hl|done|exact Hpf|exact Hfh|].
    intros s' it' Hp Hl' Hst' Hh'. eapply (merge_post_intro _ _ _ _ _ _ _ [unstable_merge_entry _ ui]); [|simpl; lia|exact Hl'|by apply HF].
    destruct Hp as [? ? ? ? HV ? HI HF' HS]. by split.
  - simpl. intros Hu. eapply wp_upd_progress; [exact Hat1|done|by left|]. intros s2 Hat2 _ _ _ Hu2.
    eapply wp_mono; [apply (wp_park pf fh F _ _ _ _ hash Hat2); [done|done|by apply HF|by rewrite Hu2]|].
    intros r s' (-> & new & it' & ? & ? & ? & ?). eapply merge_post_intro; [done|lia|done|done].
Qed.

Lemma wp_upd_const pf fh F b s L l it it' (m : M server_st Z) :
  at_item s L l it → item_ident it it' → state it = Volatile → state it' = Volatile →
  (∀ s', at_item s' L l it' → smart_scan_opt s' = smart_scan_opt s →
     wp m s' (merge_post pf fh l F s' L b)) →
  wp (upd_item l (λ _, it') ;; m) s (merge_post pf fh l F s L b).
Proof.
  intros Hat Hid H1 H2 Hm. eapply wp_upd_progress; [exact Hat|exact Hid|by left|].
  intros s' Hat' Hsm _ _ _. by apply Hm.
Qed.

(** Ending a call with the item in hand. *)
Lemma wp_ret_progress pf fh F b s L l it :
  at_item s L l it → F it →
  wp (mret 0) s (merge_post pf fh l F s L b).
Proof.
  intros [] Hh. wp_step. eapply (merge_post_intro _ _ _ _ _ _ _ []); [by apply progress_refl|simpl; lia|done|done].
Qed.

Lemma decay_frame it :
  item_ident it (decay_volatility it) ∧ state (decay_volatility it) = state it ∧
  old_hash (decay_volatility it) = old_hash it ∧ stable_node_of (decay_volatility it) = stable_node_of it ∧
  pfn (decay_volatility it) = pfn it.
Proof. unfold decay_volatility, item_ident. by case_match. Qed.

Lemma wp_merge_decided `{XXHash} pf fh F s L l it hash :
  at_item s L l it → state it = Volatile → pf (key_of it) = pfn it → fh (pfn it) = hash →
  (∀ it', old_hash it' = hash → F it') →
  wp (node ← cmp_with_stable hash;
      match node with Some n => merge_with_stable n l | None => try_unstable hash l end)
    s (merge_post pf fh l F s L 1).
Proof.
  intros Hat Hst Hpf Hfh HF. pose proof Hat as [[C Hwf] HL Ho Hlen Hl].
  wp_step. eapply wp_cmp_with_stable; [exact Hwf|]. intros r Hr _. destruct r as [n|].
  - destruct (Hr n eq_refl) as (nd & Hn & Hh & Hlt).
    eapply wp_merge_with_stable; [exact Hwf|exact HL|done|done|exact Hl|done|exact Hn|done|].
    intros s' c Hp Hl'. eapply merge_post_intro; [exact Hp|done|exact Hl'|by apply HF].
  - by eapply wp_try_unstable.
Qed.

(** A volatile item is merged or parked only if the hash of the previous scan
    is also the hash of this one. *)
Definition volatile_outcome (hash : hash_pair) (it it' : rmap_item) : Prop :=
  state it' ≠ Volatile → old_hash it' = hash ∧ old_hash it = hash.

Lemma wp_merge_volatile `{XXHash} pf fh b pre pg s L l it :
  at_item s L l it → state it = Volatile →
  (old_hash it = calculate_hash_pair pre pg → (1 ≤ b)%nat) →
  (old_hash it = calculate_hash_pair pre pg → pf (key_of it) = pfn it ∧ fh (pfn it) = calculate_hash_pair pre pg) →
  wp (merge_volatile pre pg l) s
    (merge_post pf fh l (volatile_outcome (calculate_hash_pair pre pg) it) s L b).
Proof.
  intros Hat Hst Hb Hpf. unfold merge_volatile. set (hash := calculate_hash_pair pre pg).
  eapply wp_stats_progress; [exact Hat|]. apply (at_item_stats _ _ _ _ count_volatile) in Hat.
  revert Hat. generalize (with_stats count_volatile s). clear s. intros s Hat.
  eapply wp_upd_progress; [exact Hat|done|by left|]. intros s1 Hat1 _ _ _ _. clear s Hat.
  set (it1 := set_age (s16 (age it + 1)) it) in *.
  wp_step. eapply wp_get_item; [apply Hat1|]. do 2 wp_step.
  pose proof (should_skip_item_frame (smart_scan_opt s1) it1) as Hfr.
  destruct (should_skip_item (smart_scan_opt s1) it1) as [skip it2] eqn:Eskip. simpl in Hfr.
  assert (item_ident it1 it2 ∧ state it2 = Volatile ∧ pfn it2 = pfn it ∧ old_hash it2 = old_hash it)
    as (Hid & Hst2 & Hp2 & Hh2).
  { by rewrite Hfr. }
  eapply wp_upd_const; [exact Hat1|done..|]. intros s2 Hat2 _.
  destruct skip.
  { eapply wp_stats_progress; [exact Hat2|]. eapply wp_ret_progress; [by apply at_item_stats|]. done. }
  wp_step. eapply wp_get_item; [apply Hat2|].
  destruct (compare_hash_pair_equal (old_hash it2) hash) eqn:Ecmp.
  - destruct (decay_frame it2) as (Hid3 & Hst3 & Hh3 & Hn3 & Hp3).
    eapply wp_upd_progress; [exact Hat2|done|by right|]. intros s3 Hat3 _ _ _ _.
    apply compare_hash_pair_equal_true in Ecmp. rewrite Hh2 in Ecmp.
    eapply wp_mono; [|intros r s'; eapply merge_post_weaken; [by apply Hb|intros ? HF; exact HF]].
    destruct (Hpf Ecmp) as [Hpf1 Hpf2].
    apply (wp_merge_decided pf fh _ s3 L l _ hash Hat3); [congruence| |by rewrite Hp3, Hp2|by intros it' ? _].
    destruct Hid3 as [-> _], Hid as [-> _]. by rewrite Hp3, Hp2.
  - apply wp_bind. apply wp_whenM; intros _.
    + assert (wp (upd_item l bump_volatility ;; upd_item l (set_old_hash hash) ;; mret 0) s2
        (merge_post pf fh l (volatile_outcome hash it) s2 L b)) as Hg; [|by apply wp_bind_inv in Hg].
      eapply wp_upd_progress; [exact Hat2|done|by left|]. intros s3 Hat3 _ _ _ _.
      eapply wp_upd_progress; [exact Hat3|done|by left|]. intros s4 Hat4 _ _ _ _.
      eapply wp_ret_progress; [exact Hat4|]. done.
    + eapply wp_upd_progress; [exact Hat2|done|by left|]. intros s4 Hat4 _ _ _ _.
      eapply wp_ret_progress; [exact Hat4|]. done.
Qed.

(** ** The stable case *)
Lemma stable_item_node C m l it :
  wf C None None m → items m !! l = Some it → state it = Stable →
  ∃ n nd, stable_node_of it = Some n ∧ nodes m !! n = Some nd ∧
    sharing_item_tree nd !! key_of it = Some l ∧ old_hash it = page_hash nd.
Proof.
  intros [_ [Hs _ _] _ _] Hl Hst. specialize (Hs l it Hl ltac:(done)). unfold item_ok in Hs. by rewrite Hst in Hs.
Qed.

(** The rehashing branch, wherever the item's node is on its chain. *)
Lemma wp_rehash_chain C s n nd hash (Q : unit → server_st → Prop) :
  wf C None None (metadata s) → nodes (metadata s) !! n = Some nd → C !! hash = None →
  (∀ h t l, C !! page_hash nd = Some (h :: t) → n ∈ h :: t → h :: t = l →
     Q tt (rehashed (page_hash nd) hash h t s)) →
  wp (rehash_chain n (page_hash nd) hash) s Q.
Proof.
  intros Hwf Hn Hfree HQ. pose proof (wf_chain _ _ _ _ Hwf) as Hc.
  destruct (chain_split _ _ _ _ _ Hc Hn) as (l1 & l2 & HC).
  destruct (unlink_facts C _ _ n nd l1 l2 Hc Hn HC) as (_ & _ & Hs1 & _ & Ht & Hp & _).
  assert (∀ h t, l1 ++ n :: l2 = h :: t → wp (rehash_from_head h hash) s Q) as Hrest.
  { intros h t Heq. rewrite Heq in HC. eapply wp_rehash_from_head; [exact Hc|exact HC| |].
    - by eapply trees_stable_chain.
    - eapply HQ; [done| |done]. rewrite <- Heq. set_solver. }
  unfold rehash_chain. wp_step. eapply wp_get_node; [done|]. wp_step. apply wp_halt_if.
  { apply negb_false_iff. by apply compare_hash_pair_equal_true. }
  rewrite Ht. destruct l1 as [|h l1]; [by apply (Hrest n l2)|].
  wp_step. apply wp_halt_if. { rewrite Hp. by rewrite last_cons; destruct (last l1). }
  do 2 wp_step. destruct (ic_seg _ _ _ Hc _ _ HC) as (_ & _ & Hseg).
  pose proof (inv_chain_length _ _ _ _ _ Hc HC) as Hlen. rewrite length_app in Hlen.
  change (n :: l2) with ([n] ++ l2) in Hseg. rewrite app_assoc, chain_seg_app in Hseg.
  wp_step. eapply wp_first_of_chain; [apply Hseg|lia|]. simpl.
  destruct Hs1 as [(hd & Hh & _ & Hty & _) _]. wp_step. eapply wp_get_node; [exact Hh|].
  wp_step. apply wp_halt_if; [by rewrite Hty|]. by apply (Hrest h (l1 ++ n :: l2)).
Qed.

(** After rehashing, everything the caller relies on. *)
Lemma progress_rehash pf fh C s L l it hash h t n nd :
  wf C None None (metadata s) → log_repr (log_table s) L → no_oom s →
  items (metadata s) !! l = Some it → state it = Stable →
  stable_node_of it = Some n → nodes (metadata s) !! n = Some nd →
  C !! page_hash nd = Some (h :: t) → n ∈ h :: t → C !! hash = None →
  fh (node_pfn nd) = hash →
  let s' := rehashed (page_hash nd) hash h t s in
  progress pf fh l s L s' [] ∧ items (metadata s') !! l = Some (set_old_hash hash it).
Proof.
  intros Hwf HL Ho Hl Hst Hsn Hn HC Hin Hfree Hfh s'. split.
  - split; rewrite ?app_nil_r; [|done|done|done| |done| | |].
    + eexists. by eapply wf_rehash.
    + apply rehash_view.
    + intros i i0 Hi. simpl. rewrite lookup_rehash_items, Hi. simpl. eexists. split; [done|].
      case_decide; simpl; eauto.
    + intros Hf. specialize (Hf n nd Hn). congruence.
    + intros Hf. specialize (Hf n nd Hn). congruence.
  - simpl. rewrite lookup_rehash_items, Hl. simpl. rewrite decide_True; [done|].
    eapply (in_items_iff C s (page_hash nd) h t); eauto.
Qed.

(** Frame changed: the item leaves its node and is volatile again. *)
Lemma leave_key C s l it n nd :
  wf C None None (metadata s) → items (metadata s) !! l = Some it → state it = Stable →
  stable_node_of it = Some n → nodes (metadata s) !! n = Some nd →
  let m2 := upd_items (<[l := reset_item it]>) (upd_nodes (<[n := left_node it nd]>) (metadata s)) in
  wf C (Some l) (Some n) m2 ∧ shared_cnt (left_node it nd) = shared_cnt nd - 1 ∧ 0 ≤ shared_cnt nd - 1 ∧
  sharing_view m2 = delete (key_of it) (sharing_view (metadata s)).
Proof.
  intros Hwf Hl Hst Hsn Hn m2. destruct (wf_leave C _ l it n nd Hwf Hl Hst Hsn Hn) as (H1 & H2 & H3).
  split_and!; [by eapply wf_upd_transit|done|done|].
  by eapply sharing_view_leave; [destruct Hwf|..].
Qed.

(** The item, volatile and in transit, settles. *)
Lemma progress_left pf fh C s L s' l it e :
  wf C (Some l) None (metadata s') → items (metadata s) !! l = Some it →
  items (metadata s') = <[l := reset_item it]> (items (metadata s)) →
  rmap_tree (metadata s') = rmap_tree (metadata s) →
  sharing_view (metadata s') = delete (key_of it) (sharing_view (metadata s)) →
  (log_type e = DPU_STALE_STABLE_NODE ∨ log_type e = DPU_ITEM_STATE_CHANGE) →
  (log_i0 e, log_w0 e) = key_of it →
  log_repr (log_table s') (L ++ [e]) → no_oom s' →
  iteration s' = iteration s → total_accessed_cnt s' = total_accessed_cnt s → smart_scan_opt s' = smart_scan_opt s →
  (frames_ok fh (metadata s) → frames_ok fh (metadata s')) →
  progress pf fh l s L s' [e].
Proof.
  intros Hwf Hl HI HR HV Htag Hkey HL Ho ? ? ? HF.
  split; [|done|done|done| |done| |done|intros _; rewrite HI; apply same_hashes_insert].
  - exists C. apply (wf_close_volatile C None _ l (reset_item it)); [done|rewrite HI; apply lookup_insert_eq|done].
  - rewrite HV. unfold replay, replay1; simpl. rewrite Hkey. by destruct Htag as [-> | ->].
  - intros i i0 Hi. rewrite HI. destruct (decide (l = i)) as [<-|Hne].
    + rewrite lookup_insert_eq. replace i0 with it by congruence. eexists; split_and!; [done..|]. by left.
    + rewrite lookup_insert_ne by done. eauto 10.
Qed.

Lemma wp_leave_node pf fh s L l it n nd (Q : unit → server_st → Prop) :
  at_item s L l it → state it = Stable → stable_node_of it = Some n → nodes (metadata s) !! n = Some nd →
  (∀ s' e, progress pf fh l s L s' [e] → items (metadata s') !! l = Some (reset_item it) → Q tt s') →
  wp (leave_node n l) s Q.
Proof.
  intros [[C Hwf] HL Ho Hlen Hl] Hst Hsn Hn HQ.
  destruct (leave_key C s l it n nd Hwf Hl Hst Hsn Hn) as (Hwf2 & Hcnt & Hpos & HV).
  unfold leave_node, reset_item_state.
  wp_step. eapply wp_remove_item_from_node; [done..|]. wp_step. eapply wp_upd_item; [exact Hl|].
  wp_step. eapply wp_get_node; [apply lookup_insert_eq|].
  destruct (Z.eqb_spec (shared_cnt (left_node it nd)) 0) as [Hz|Hz].
  - assert (sharing_item_tree (left_node it nd) = ∅) as Hemp.
    { eapply counted_zero; [exact (wf_share _ _ _ _ Hwf2)|apply lookup_insert_eq|done]. }
    eapply (wp_remove_stale_node_and_log C (Some l));
      [exact Hwf2|apply lookup_insert_eq|done|apply lookup_insert_eq|done..|].
    intros C' N' T' t a m' Hwf' Hrel Hdel Ht Ha.
    apply (HQ _ (stale_entry (reset_item it) (left_node it nd))); [|apply lookup_insert_eq].
    eapply progress_left; [exact Hwf'|exact Hl|done|done| |by left|done|exact Ht|done..|].
    2: { intros Hf. eapply frames_ok_relinked; [|exact Hrel|by rewrite Hdel]. by eapply (frames_ok_upd fh (metadata s) n nd). }
    etrans; [|exact HV].
    eapply (sharing_view_relinked C l (reset_item it)); [exact Hwf2|apply lookup_insert_eq|done|apply lookup_insert_eq|done|done].
  - wp_step. eapply wp_get_item; [apply lookup_insert_eq|].
    unfold log_item_state_change. simpl. eapply wp_insert_ksm_log; [exact HL|done..|]. intros t a Ht Ha.
    apply (HQ _ (state_change_entry (reset_item it) (left_node it nd))); [|apply lookup_insert_eq].
    eapply progress_left; [|exact Hl|done|done|exact HV|by right|done|exact Ht|done..|].
    2: { intros Hf. by eapply (frames_ok_upd fh (metadata s) n nd). }
    eapply wf_close_node; [exact Hwf2|apply lookup_insert_eq|]. lia.
Qed.

(** ** One call *)

(** The condition the rehashing branch needs: a shared frame whose content
    changed in place has a hash no chain of stable nodes has. *)
Definition rehash_free (s : server_st) (it : rmap_item) (hash : hash_pair) : Prop :=
  ∀ n nd, state it = Stable → stable_node_of it = Some n → nodes (metadata s) !! n = Some nd →
    node_pfn nd = pfn it → old_hash it ≠ hash → stable_hash_table (metadata s) !! hash = None.

(** A page that ends up merged or parked carries the hash of its present
    content, and a volatile one only if it had that hash at the previous scan. *)
Definition item_outcome (hash : hash_pair) (it it' : rmap_item) : Prop :=
  state it' ≠ Volatile → old_hash it' = hash ∧ (state it = Volatile → old_hash it = hash).

Lemma at_item_progress pf fh s L l s' new it' :
  progress pf fh l s L s' new → items (metadata s') !! l = Some it' →
  Z.of_nat (length (L ++ new)) < 2 ^ 30 → at_item s' (L ++ new) l it'.
Proof. by intros [] ? ?. Qed.

Section merge_spec.
Context `{XXHash} (pf : item_key → Z) (fh : Z → hash_pair) (pre : option hash_pair) (pg : page).
Let hash := calculate_hash_pair pre pg.

(** Same frame: at most a re-hash of the chain. *)
Lemma wp_same_frame F s L l it n nd (m : M server_st Z) :
  at_item s L l it → state it = Stable → stable_node_of it = Some n → nodes (metadata s) !! n = Some nd →
  node_pfn nd = pfn it → fh (pfn it) = hash → rehash_free s it hash →
  (∀ s' it', at_item s' L l it' → state it' = Stable → old_hash it' = hash → wp m s' (merge_post pf fh l F s' L 1)) →
  wp ((if negb (compare_hash_pair_equal hash (old_hash it)) then rehash_chain n (old_hash it) hash else mret tt) ;; m)
    s (merge_post pf fh l F s L 1).
Proof.
  intros Hat Hst Hsn Hn Hp Hfh Hfree Hm. pose proof Hat as [[C Hwf] HL Ho Hlen Hl].
  destruct (stable_item_node C _ l it Hwf Hl Hst) as (n' & nd' & E1 & E2 & _ & E4).
  assert (n' = n) as -> by congruence. assert (nd' = nd) as -> by congruence.
  destruct (compare_hash_pair_equal hash (old_hash it)) eqn:Ecmp; simpl; wp_step.
  - wp_step. apply compare_hash_pair_equal_true in Ecmp. by apply (Hm s it).
  - apply compare_hash_pair_equal_false in Ecmp.
    assert (C !! hash = None) as HCf.
    { specialize (Hfree n nd Hst Hsn Hn Hp ltac:(congruence)). rewrite (ic_table _ _ _ (wf_chain _ _ _ _ Hwf)) in Hfree.
      destruct (C !! hash) as [l0|] eqn:E; [|done]. 
      destruct (ic_seg _ _ _ (wf_chain _ _ _ _ Hwf) _ _ E) as (? & _). by destruct l0. }
    rewrite E4. eapply wp_rehash_chain; [exact Hwf|exact Hn|exact HCf|]. intros h t l0 HC Hin _.
    destruct (progress_rehash pf fh C s L l it hash h t n nd) as [Hp' Hl']; try done; [by rewrite Hp|].
    pose proof (at_item_progress _ _ _ _ _ _ _ _ Hp' Hl') as Hat'. rewrite app_nil_r in Hat'.
    eapply wp_mono; [apply (Hm _ _ (Hat' Hlen)); done|].
    intros r s' Hr. eapply (merge_post_trans _ _ _ _ _ _ _ []); [done|by rewrite app_nil_r].
Qed.

(** The whole call. *)
Lemma wp_cmp_and_merge_one s L l it :
  at_item s L l it → Z.of_nat (length L) + 1 < 2 ^ 30 →
  state it = Volatile ∨ state it = Stable → hash ≠ null_hash →
  pf (key_of it) = pfn it → fh (pfn it) = hash → rehash_free s it hash →
  wp (cmp_and_merge_one pre pg l) s (merge_post pf fh l (item_outcome hash it) s L 1).
Proof.
  intros Hat Hlen Hst Hnull Hpf Hfh Hfree. unfold cmp_and_merge_one. simpl.
  wp_step. eapply wp_get_item; [apply Hat|]. destruct Hst as [Hst|Hst]; rewrite Hst.
  { eapply wp_mono; [by eapply (wp_merge_volatile pf fh 1)|]. intros r s'. apply merge_post_weaken; [done|].
    unfold volatile_outcome, item_outcome. naive_solver. }
  pose proof Hat as [[C Hwf] HL Ho _ Hl].
  destruct (stable_item_node C _ l it Hwf Hl Hst) as (n & nd & Hsn & Hn & _ & Hoh).
  unfold merge_stable. apply wp_bind_assoc. wp_step. eapply wp_get_item; [exact Hl|].
  apply wp_bind_assoc. wp_step. eapply wp_deref; [exact Hsn|].
  apply wp_bind_assoc. wp_step. eapply wp_get_node; [exact Hn|].
  destruct (Z.eqb_spec (node_pfn nd) (pfn it)) as [Hp|Hp]; simpl; apply wp_bind_assoc.
  - eapply wp_same_frame; [exact Hat|done..|]. intros s1 it1 Hat1 Hst1 Hh1.
    destruct (decay_frame it1) as (Hid2 & Hst2 & Hh2 & Hn2 & _).
    apply wp_bind_assoc. eapply wp_upd_progress; [exact Hat1|done|by right|]. intros s2 Hat2 _ _ _ _.
    wp_steps. eapply wp_ret_progress; [exact Hat2|]. intros _. split; congruence.
  - wp_step. eapply wp_leave_node; [exact Hat|done..|]. intros s1 e Hp1 Hl1.
    pose proof (at_item_progress _ _ _ _ _ _ _ _ Hp1 Hl1 ltac:(rewrite length_app; simpl; lia)) as Hat1.
    eapply wp_mono; [|intros r s'; apply (merge_post_trans _ _ _ _ _ _ _ _ 0 _ _ Hp1)].
    apply wp_bind_assoc. eapply wp_upd_progress; [exact Hat1|done|by left|]. intros s2 Hat2 _ _ _ _.
    apply wp_bind_assoc. eapply wp_stats_progress; [exact Hat2|]. apply (at_item_stats _ _ _ _ count_broken) in Hat2.
    do 3 wp_step. eapply wp_get_item; [apply Hat2|]. simpl state.
    eapply wp_mono; [eapply (wp_merge_volatile pf fh 0); [exact Hat2|done|done|done]|].
    intros r s'. apply merge_post_weaken; [done|]. intros it' Hv Hnv. by destruct (Hv Hnv) as [_ E].
Qed.
End merge_spec.
