(* ===== verification/PruneSpec.v ===== *)
(** * PruneSpec: the end of a pass

    [clean_up_unstable_tree] makes every parked item volatile again and
    [prune_rmap_tree] drops the items not seen for two passes, taking them out
    of the nodes they share. *)
From S2P Require Import Prelude Wire HashPair Store LogTable Metadata Merge MetadataInv ChainInv MetadataSpec RehashInv MergeSpec.
Open Scope Z_scope.

(** ** Parked items *)
Definition unpark (D : list loc) (I : gmap loc rmap_item) : gmap loc rmap_item :=
  map_imap (λ l it, Some (if decide (l ∈ D) then set_state Volatile it else it)) I.

Lemma lookup_unpark D I l :
  unpark D I !! l = (λ it, if decide (l ∈ D) then set_state Volatile it else it) <$> I !! l.
Proof. unfold unpark. rewrite map_lookup_imap. by destruct (I !! l). Qed.

Lemma unpark_snoc D I l it :
  I !! l = Some it →
  <[l := set_state Volatile (if decide (l ∈ D) then set_state Volatile it else it)]> (unpark D I) = unpark (D ++ [l]) I.
Proof.
  intros Hl. apply map_eq. intros k. rewrite lookup_unpark. destruct (decide (l = k)) as [<-|Hne].
  - rewrite lookup_insert_eq, Hl. simpl. rewrite (decide_True (P := l ∈ D ++ [l])) by set_solver. by case_decide.
  - rewrite lookup_insert_ne, lookup_unpark by done. destruct (I !! k); [simpl|done]. f_equal.
    apply decide_ext. set_solver.
Qed.

Definition cleaned (s : server_st) : server_st :=
  with_metadata (λ m, upd_unstable (λ _, ∅) (upd_items (unpark (map_to_list (unstable_hash_table m)).*2) m)) s.

Lemma elem_of_parked (U : gmap hash_pair loc) l : l ∈ (map_to_list U).*2 ↔ ∃ h, U !! h = Some l.
Proof.
  rewrite list_elem_of_fmap. split.
  - intros ([h l'] & -> & H). exists h. by apply elem_of_map_to_list.
  - intros [h Hh]. exists (h, l). split; [done|]. by apply elem_of_map_to_list.
Qed.

Lemma parked_iff C m l it :
  wf C None None m → items m !! l = Some it →
  l ∈ (map_to_list (unstable_hash_table m)).*2 ↔ state it = Unstable.
Proof.
  intros [_ _ _ Hu] Hl. rewrite elem_of_parked. split.
  - intros [h Hh]. apply Hu in Hh as (_ & it' & Hi & Hst & _). congruence.
  - intros Hst. exists (old_hash it). apply Hu. eauto.
Qed.

Lemma wp_clean_up_unstable_tree C s (Q : unit → server_st → Prop) :
  wf C None None (metadata s) → Q tt (cleaned s) → wp clean_up_unstable_tree s Q.
Proof.
  intros Hwf HQ. unfold clean_up_unstable_tree. do 3 wp_step. set (U := unstable_hash_table (metadata s)).
  eapply wp_mono.
  - apply (wp_for_each _ (λ l1 _ s', s' = with_metadata (upd_items (unpark l1.*2)) s)).
    + unfold with_metadata, upd_items. simpl.
      assert (unpark [] (items (metadata s)) = items (metadata s)) as ->.
      { apply map_eq. intros l. rewrite lookup_unpark. by destruct (items (metadata s) !! l). }
      by destruct s as [[] ? ? ? ? ? ?].
    + intros l1 [h l] l2 s' Hl ->.
      assert (U !! h = Some l) as Hh by (apply elem_of_map_to_list; rewrite Hl; set_solver).
      apply (wf_unst _ _ _ _ Hwf) in Hh as (_ & it & Hi & _).
      unfold update_item_state. eapply wp_upd_item; [simpl; by rewrite lookup_unpark, Hi|].
      unfold with_metadata, upd_items; simpl. by rewrite (unpark_snoc _ _ _ _ Hi), fmap_app.
  - intros [] s' ->. wp_step. exact HQ.
Qed.

Lemma wf_cleaned C s : wf C None None (metadata s) → wf C None None (metadata (cleaned s)).
Proof.
  intros Hwf. pose proof Hwf as [Hr [Hs1 Hs2 Hs3] Hc Hu]. split; simpl; [| |done|].
  - intros k l. rewrite (Hr k l), lookup_unpark. destruct (items (metadata s) !! l) as [it|]; simpl; [|naive_solver].
    split; intros (it' & [= <-] & Hk); eexists; (split; [done|]); revert Hk; by case_decide.
  - split; [| |done].
    + intros l it'. rewrite lookup_unpark. destruct (items (metadata s) !! l) as [it|] eqn:Hl; simpl; [|done].
      intros [= <-] _. case_decide; [done|]. by apply Hs1.
    + intros n nd Hn k l Hk. destruct (Hs2 n nd Hn k l Hk) as (_ & it & Hl & E1 & E2 & E3). split; [done|].
      rewrite lookup_unpark, Hl. simpl. exists it. rewrite decide_False; [done|].
      rewrite (parked_iff C (metadata s) l it) by done. congruence.
  - intros h l. rewrite lookup_empty. split; [done|]. intros (_ & it' & Hl & Hst & _).
    rewrite lookup_unpark in Hl. destruct (items (metadata s) !! l) as [it|] eqn:E; [|done].
    simpl in Hl. injection Hl as <-. pose proof (parked_iff C _ l it Hwf E) as Hp.
    case_decide as Hd; [done|]. tauto.
Qed.

Lemma view_cleaned C s : wf C None None (metadata s) → sharing_view (metadata (cleaned s)) = sharing_view (metadata s).
Proof.
  intros Hwf. apply map_eq. intros k. rewrite !sharing_view_lookup. simpl.
  destruct (rmap_tree (metadata s) !! k) as [l|]; simpl; [|done]. rewrite lookup_unpark.
  destruct (items (metadata s) !! l) as [it|] eqn:Hl; simpl; [|done].
  pose proof (parked_iff C _ l it Hwf Hl) as Hp. case_decide; [|done].
  unfold node_pfn_of. simpl. by rewrite (proj1 Hp).
Qed.

(** No item is parked afterwards. *)
Lemma cleaned_not_unstable C s i it :
  wf C None None (metadata s) → items (metadata (cleaned s)) !! i = Some it → state it ≠ Unstable.
Proof.
  intros Hwf Hi Hst. pose proof (wf_unst _ _ _ _ (wf_cleaned C s Hwf)) as Hu. simpl in Hu.
  assert ((∅ : gmap hash_pair loc) !! old_hash it = Some i) as E by (apply Hu; eauto).
  by rewrite lookup_empty in E.
Qed.

(** ** Which items are dropped *)
Definition stale (s : server_st) (it : rmap_item) : Prop := last_access it < iteration s - 1.

#[export] Instance stale_dec s it : Decision (stale s it).
Proof. unfold stale. apply _. Defined.

Definition stale_at (s : server_st) (i : loc) : bool :=
  match items (metadata s) !! i with Some it => bool_decide (stale s it) | None => false end.

Lemma wp_collect_keys C s l acc (Q : list loc → server_st → Prop) :
  wf C None None (metadata s) → (∀ i it, items (metadata s) !! i = Some it → state it ≠ Unstable) →
  (∀ k i, (k, i) ∈ l → is_Some (items (metadata s) !! i)) →
  Q (reverse (filter (λ i, stale_at s i = true) l.*2) ++ acc) s →
  wp (collect_keys l acc) s Q.
Proof.
  intros Hwf Hun. revert acc. induction l as [|[k i] l IH]; intros acc Hl HQ; simpl; [by wp_step|].
  destruct (Hl k i ltac:(set_solver)) as [it Hi].
  assert (∀ acc', Q (reverse (filter (λ i, stale_at s i = true) l.*2) ++ acc') s → wp (collect_keys l acc') s Q) as IH'.
  { intros acc'. apply IH. intros k' i' Hin. apply (Hl k'). set_solver. }
  simpl in HQ. rewrite filter_cons in HQ.
  assert (stale_at s i = bool_decide (last_access it < iteration s - 1)) as Hst by (unfold stale_at; by rewrite Hi).
  wp_step. eapply wp_get_item; [done|]. do 2 wp_step.
  destruct (Z.ltb_spec (last_access it) (iteration s - 1)) as [Hlt|Hge].
  - rewrite bool_decide_eq_true_2 in Hst by done. case_decide; [|done].
    rewrite reverse_cons, <- app_assoc in HQ. specialize (IH' (i :: acc) HQ).
    pose proof (is_items _ _ _ _ (wf_share _ _ _ _ Hwf) i it Hi ltac:(done)) as Hok. unfold item_ok in Hok.
    specialize (Hun i it Hi). wp_step. destruct (state it); try done.
    destruct Hok as (n & nd & Hn & _). apply wp_halt_if; [by rewrite Hn|done].
  - rewrite bool_decide_eq_false_2 in Hst by lia. case_decide; [congruence|by apply IH'].
Qed.

(** ** Dropping one item *)
Record pruned1 (s : server_st) (L : list ksm_event_log) (l : loc) (it : rmap_item)
    (s' : server_st) (new : list ksm_event_log) : Prop := Pruned1 {
  pr_ok : metadata_ok (metadata s');
  pr_log : log_repr (log_table s') (L ++ new);
  pr_oom : no_oom s';
  pr_len : (length new ≤ 1)%nat;
  pr_tags : Forall (λ e, log_type e = DPU_STALE_STABLE_NODE ∧ (log_i0 e, log_w0 e) = key_of it) new;
  pr_items : items (metadata s') = delete l (items (metadata s));
  pr_rmap : rmap_tree (metadata s') = delete (key_of it) (rmap_tree (metadata s));
  pr_view : sharing_view (metadata s') = delete (key_of it) (sharing_view (metadata s));
  pr_ctl : iteration s' = iteration s ∧ total_accessed_cnt s' = total_accessed_cnt s ∧
           smart_scan_opt s' = smart_scan_opt s;
  pr_frames : ∀ fh, frames_ok fh (metadata s) → frames_ok fh (metadata s') }.

Lemma sharing_view_free m l it :
  inv_rmap (rmap_tree m) (items m) → items m !! l = Some it →
  sharing_view (upd_items (delete l) (upd_rmap (delete (key_of it)) m)) = delete (key_of it) (sharing_view m).
Proof.
  intros Hr Hl. apply map_eq. intros k. rewrite sharing_view_lookup. simpl.
  destruct (decide (key_of it = k)) as [<-|Hne]; [by rewrite !lookup_delete_eq|].
  rewrite !lookup_delete_ne, sharing_view_lookup by done.
  destruct (rmap_tree m !! k) as [l'|] eqn:E; [|done]. simpl. rewrite lookup_delete_ne; [done|].
  intros <-. apply Hr in E as (i & Hi & Hk). congruence.
Qed.

(** The last two statements of the loop body, the item being in transit. *)
Lemma wp_drop_item C s L L0 l it new s0 (Q : unit → server_st → Prop) :
  wf C (Some l) None (metadata s) → log_repr (log_table s) (L0 ++ new) → no_oom s → L = L0 →
  items (metadata s) !! l = Some it → items (metadata s) = items (metadata s0) →
  rmap_tree (metadata s) = rmap_tree (metadata s0) →
  delete (key_of it) (sharing_view (metadata s)) = delete (key_of it) (sharing_view (metadata s0)) →
  (length new ≤ 1)%nat →
  Forall (λ e, log_type e = DPU_STALE_STABLE_NODE ∧ (log_i0 e, log_w0 e) = key_of it) new →
  (iteration s = iteration s0 ∧ total_accessed_cnt s = total_accessed_cnt s0 ∧ smart_scan_opt s = smart_scan_opt s0) →
  (∀ fh, frames_ok fh (metadata s0) → frames_ok fh (metadata s)) →
  (∀ s', pruned1 s0 L l it s' new → Q tt s') →
  wp (modify (with_metadata (upd_rmap (delete (key_of it)))) ;; free_item l) s Q.
Proof.
  intros Hwf HL Ho -> Hl HI HR HV Hlen Htag Hctl HF HQ. do 2 wp_step. eapply wp_free_item; [exact Hl|]. apply HQ.
  split; simpl; try done.
  - exists C. by eapply wf_free.
  - by rewrite HI.
  - by rewrite HR.
  - rewrite <- HV. by apply (sharing_view_free (metadata s) l it); [destruct Hwf|].
Qed.

(** Dropping a node nobody shares leaves the other items' frames. *)
Lemma view_others C s l it n nd1 nd N' T' :
  let m1 := upd_nodes (<[n := nd1]>) (metadata s) in
  inv_rmap (rmap_tree (metadata s)) (items (metadata s)) → items (metadata s) !! l = Some it →
  wf C (Some l) (Some n) m1 → sharing_item_tree nd1 = ∅ → nodes (metadata s) !! n = Some nd →
  relinked (nodes m1) N' n →
  delete (key_of it) (sharing_view (upd_nodes (λ _, N') (upd_stable (λ _, T') m1))) =
  delete (key_of it) (sharing_view (metadata s)).
Proof.
  intros m1 Hr Hl Hwf1 Hemp Hn Hrel.
  apply map_eq. intros k. destruct (decide (key_of it = k)) as [<-|Hne]; [by rewrite !lookup_delete_eq|].
  rewrite !lookup_delete_ne, !sharing_view_lookup by done. simpl.
  destruct (rmap_tree (metadata s) !! k) as [i|] eqn:Ek; [simpl|done].
  destruct (items (metadata s) !! i) as [ii|] eqn:Ei; [simpl|done].
  apply node_pfn_of_content. intros j Hj Hsi.
  assert (j ≠ n) as Hjn.
  { intros ->. assert (i ≠ l) as Hil.
    { intros ->. apply Hr in Ek as (? & ? & ?). congruence. }
    pose proof (is_items _ _ _ _ (wf_share _ _ _ _ Hwf1) i ii Ei ltac:(congruence)) as Hok. unfold item_ok in Hok.
    rewrite Hsi in Hok. destruct Hok as (n' & nd' & E1 & E2 & E3 & _). assert (n' = n) as -> by congruence.
    unfold m1 in E2. simpl in E2. rewrite lookup_insert_eq in E2. injection E2 as <-.
    by rewrite Hemp, lookup_empty in E3. }
  rewrite (Hrel j Hjn). unfold m1. simpl. by rewrite lookup_insert_ne.
Qed.

Lemma wp_prune_one s L l it :
  metadata_ok (metadata s) → log_repr (log_table s) L → no_oom s → Z.of_nat (length L) < 2 ^ 30 →
  items (metadata s) !! l = Some it → state it ≠ Unstable →
  wp (prune_one l) s (λ _ s', ∃ new, pruned1 s L l it s' new).
Proof.
  intros [C Hwf] HL Ho Hlen Hl Hst. unfold prune_one. wp_step. eapply wp_get_item; [exact Hl|].
  pose proof (is_items _ _ _ _ (wf_share _ _ _ _ Hwf) l it Hl ltac:(done)) as Hok. unfold item_ok in Hok.
  destruct (state it) eqn:Es; try done.
  - do 2 wp_step. eapply (wp_drop_item C s L L l it [] s); try done.
    + by eapply wf_open_volatile.
    + by rewrite app_nil_r.
    + simpl. lia.
    + eauto.
  - destruct Hok as (n & nd & Hsn & Hn & Htree & _). rewrite Hsn.
    destruct (wf_leave C _ l it n nd Hwf Hl Es Hsn Hn) as (Hwf1 & Hpos & Hcnt).
    do 2 wp_step. eapply wp_remove_item_from_node; [exact Hl|exact Hn|].
    wp_step. eapply wp_get_node; [apply lookup_insert_eq|].
    assert (HV : sharing_view (metadata (with_metadata (upd_nodes (<[n := left_node it nd]>)) s)) = sharing_view (metadata s)).
    { apply sharing_view_nodes. intros. by eapply node_pfn_of_insert. }
    apply wp_whenM; intros Hz.
    + apply Z.eqb_eq in Hz.
      assert (sharing_item_tree (left_node it nd) = ∅) as Hemp.
      { eapply counted_zero; [exact (wf_share _ _ _ _ Hwf1)|apply lookup_insert_eq|done]. }
      eapply (wp_remove_stale_node_and_log C (Some l));
        [exact Hwf1|apply lookup_insert_eq|done|exact Hl|exact HL|done..|].
      intros C' N' T' t a m' Hwf' Hrel Hdel Ht Ha.
      eapply (wp_drop_item C' _ L L l it [stale_entry it (left_node it nd)] s); try done.
      * apply (view_others C s l it n (left_node it nd) nd N' T'); [by destruct Hwf|exact Hl|exact Hwf1|exact Hemp|exact Hn|exact Hrel].
      * by repeat constructor.
      * intros fh Hf. eapply frames_ok_relinked; [|exact Hrel|by rewrite Hdel].
        by eapply (frames_ok_upd fh (metadata s) n nd).
      * eauto.
    + apply Z.eqb_neq in Hz. eapply (wp_drop_item C _ L L l it [] s); try done.
      * eapply wf_close_node; [exact Hwf1|apply lookup_insert_eq|]. unfold left_node in *. simpl in *. lia.
      * by rewrite app_nil_r.
      * by rewrite HV.
      * simpl. lia.
      * intros fh Hf. by eapply (frames_ok_upd fh (metadata s) n nd).
      * eauto.
Qed.

(** ** Dropping all of them *)

(** An event for a node that lost its last item, a stale one. *)
Definition names_stale (s : server_st) (e : ksm_event_log) : Prop :=
  log_type e = DPU_STALE_STABLE_NODE ∧
  ∃ i it, items (metadata s) !! i = Some it ∧ stale s it ∧ (log_i0 e, log_w0 e) = key_of it.

Record pruned (s : server_st) (L : list ksm_event_log) (s' : server_st) (new : list ksm_event_log) : Prop := Pruned {
  pd_ok : metadata_ok (metadata s');
  pd_log : log_repr (log_table s') (L ++ new);
  pd_oom : no_oom s';
  pd_tags : Forall (names_stale s) new;
  pd_items : items (metadata s') = filter (λ li, ¬ stale s li.2) (items (metadata s));
  pd_view : sharing_view (metadata s') =
            filter (λ kp, kp.1 ∈ dom (rmap_tree (metadata s'))) (sharing_view (metadata s));
  pd_ctl : iteration s' = iteration s ∧ total_accessed_cnt s' = total_accessed_cnt s ∧
           smart_scan_opt s' = smart_scan_opt s;
  pd_frames : ∀ fh, frames_ok fh (metadata s) → frames_ok fh (metadata s') }.

Lemma filter_view_id m : filter (λ kp, kp.1 ∈ dom (rmap_tree m)) (sharing_view m) = sharing_view m.
Proof.
  apply map_filter_id. intros k p Hk. simpl. apply elem_of_dom. rewrite sharing_view_lookup in Hk.
  destruct (rmap_tree m !! k); [eauto|done].
Qed.

Lemma filter_view_delete (k : item_key) (V : gmap item_key Z) (R : gmap item_key loc) :
  delete k (filter (λ kp, kp.1 ∈ dom R) V) = filter (λ kp, kp.1 ∈ dom (delete k R)) V.
Proof.
  apply map_eq. intros j. apply option_eq. intros p.
  rewrite lookup_delete_Some, !map_lookup_filter_Some. simpl. rewrite dom_delete_L. set_solver.
Qed.

Lemma filter_items_snoc done l (I : gmap loc rmap_item) :
  delete l (filter (λ li : loc * rmap_item, li.1 ∉ done) I) = filter (λ li : loc * rmap_item, li.1 ∉ done ++ [l]) I.
Proof.
  apply map_eq. intros j. apply option_eq. intros p.
  rewrite lookup_delete_Some, !map_lookup_filter_Some. simpl. set_solver.
Qed.

Lemma rmap_locs_NoDup m : inv_rmap (rmap_tree m) (items m) → NoDup (gtree_list (rmap_tree m)).*2.
Proof.
  intros Hr. apply NoDup_fmap_2_strong.
  - intros [k1 l1] [k2 l2] H1 H2 Heq. simpl in Heq. subst l2.
    apply elem_of_gtree_list, Hr in H1 as (i1 & E1 & <-), H2 as (i2 & E2 & <-). congruence.
  - apply NoDup_fmap_1 with (f := fst). apply gtree_list_NoDup_keys.
Qed.

(** The list [collect_keys_to_remove] builds. *)
Definition stale_list (s : server_st) : list loc :=
  reverse (filter (λ i, stale_at s i = true) (gtree_list (rmap_tree (metadata s))).*2).

Lemma elem_of_stale_list s i :
  inv_rmap (rmap_tree (metadata s)) (items (metadata s)) →
  i ∈ stale_list s ↔ ∃ it, items (metadata s) !! i = Some it ∧ stale s it.
Proof.
  intros Hr. unfold stale_list. rewrite elem_of_reverse, list_elem_of_filter, list_elem_of_fmap. unfold stale_at. split.
  - intros [Hb ([k i'] & -> & Hin)]. simpl in *.
    destruct (items (metadata s) !! i') as [it|]; [|done]. apply bool_decide_eq_true in Hb. eauto.
  - intros (it & Hi & Hst). rewrite Hi. split; [by apply bool_decide_eq_true|].
    exists (key_of it, i). split; [done|]. apply elem_of_gtree_list, Hr. eauto.
Qed.

(** The state after the items [done] are gone. *)
Record prune_inv (s : server_st) (L : list ksm_event_log) (done : list loc) (s' : server_st)
    (new : list ksm_event_log) : Prop := PruneInv {
  pn_ok : metadata_ok (metadata s');
  pn_log : log_repr (log_table s') (L ++ new);
  pn_oom : no_oom s';
  pn_len : (length new ≤ length done)%nat;
  pn_tags : Forall (names_stale s) new;
  pn_items : items (metadata s') = filter (λ li : loc * rmap_item, li.1 ∉ done) (items (metadata s));
  pn_view : sharing_view (metadata s') =
            filter (λ kp, kp.1 ∈ dom (rmap_tree (metadata s'))) (sharing_view (metadata s));
  pn_ctl : iteration s' = iteration s ∧ total_accessed_cnt s' = total_accessed_cnt s ∧
           smart_scan_opt s' = smart_scan_opt s;
  pn_frames : ∀ fh, frames_ok fh (metadata s) → frames_ok fh (metadata s') }.

Lemma prune_inv_start s L :
  metadata_ok (metadata s) → log_repr (log_table s) L → no_oom s → prune_inv s L [] s [].
Proof.
  intros H1 H2 H3. split; rewrite ?app_nil_r; try done; [|by rewrite filter_view_id].
  symmetry. apply map_filter_id. intros i it _. simpl. set_solver.
Qed.

Lemma prune_inv_step s L done l it s1 n1 s2 n2 :
  items (metadata s) !! l = Some it → stale s it →
  prune_inv s L done s1 n1 → pruned1 s1 (L ++ n1) l it s2 n2 → prune_inv s L (done ++ [l]) s2 (n1 ++ n2).
Proof.
  intros Hl Hstale [A1 A2 A3 A4 A5 A6 A7 (A8 & A9 & A10) A11] [B1 B2 B3 B4 B5 B6 B7 B8 (B9 & B10 & B11) B12].
  split; [done|by rewrite app_assoc|done| | | | |split_and!; congruence|by auto].
  - rewrite !length_app. simpl. lia.
  - apply Forall_app. split; [done|]. eapply Forall_impl; [done|]. intros e [? ?]. split; [done|]. by exists l, it.
  - by rewrite B6, A6, filter_items_snoc.
  - rewrite B8, A7, B7. apply filter_view_delete.
Qed.

Lemma stale_list_NoDup s : inv_rmap (rmap_tree (metadata s)) (items (metadata s)) → NoDup (stale_list s).
Proof. intros Hr. unfold stale_list. rewrite reverse_Permutation. by apply NoDup_filter, rmap_locs_NoDup. Qed.

Lemma stale_list_length s :
  inv_rmap (rmap_tree (metadata s)) (items (metadata s)) → (length (stale_list s) ≤ size (items (metadata s)))%nat.
Proof.
  intros Hr. rewrite <- size_dom, <- (size_list_to_set (C:=gset loc) (stale_list s)) by (by apply stale_list_NoDup).
  apply subseteq_size. intros i Hi. apply elem_of_list_to_set, elem_of_stale_list in Hi as (it & Hi & _); [|done].
  by apply elem_of_dom_2 in Hi.
Qed.

Lemma wp_prune_rmap_tree s L (Q : unit → server_st → Prop) :
  metadata_ok (metadata s) → log_repr (log_table s) L → no_oom s →
  Z.of_nat (length L) + Z.of_nat (size (items (metadata s))) < 2 ^ 30 →
  (∀ i it, items (metadata s) !! i = Some it → state it ≠ Unstable) →
  (∀ s' new, pruned s L s' new → (length new ≤ length (stale_list s))%nat → Q tt s') →
  wp prune_rmap_tree s Q.
Proof.
  intros [C Hwf] HL Ho Hlen Hun HQ. pose proof (wf_rmap _ _ _ _ Hwf) as Hr.
  pose proof (λ i, elem_of_stale_list s i Hr) as Hin. pose proof (stale_list_length s Hr) as Hsz.
  pose proof (stale_list_NoDup s Hr) as Hnd.
  unfold prune_rmap_tree. do 3 wp_step. eapply (wp_collect_keys C); [exact Hwf|exact Hun| |].
  { intros k i Hk. apply elem_of_gtree_list, Hr in Hk as (it & Hi & _). eauto. }
  rewrite app_nil_r. change (reverse _) with (stale_list s). eapply wp_mono.
  - apply (wp_for_each _ (λ done _ s', ∃ new, prune_inv s L done s' new)).
    + exists []. apply prune_inv_start; [by exists C|done|done].
    + intros done l todo s' Hsplit (new & Hinv).
      assert (l ∈ stale_list s) as Hl by (rewrite Hsplit; set_solver). apply Hin in Hl as (it & Hi & Hsl).
      assert (length done < length (stale_list s))%nat by (rewrite Hsplit, length_app; simpl; lia).
      rewrite Hsplit in Hnd. apply NoDup_app in Hnd as (_ & Hd & _). pose proof Hinv as [].
      eapply wp_mono; [apply (wp_prune_one s' (L ++ new) l it); try done|].
      * rewrite length_app. lia.
      * rewrite pn_items0. apply map_lookup_filter_Some. split; [done|]. simpl. intros Hin'.
        apply (Hd l Hin'). apply list_elem_of_here.
      * by apply (Hun l it).
      * intros [] s2 (new2 & Hp). exists (new ++ new2). by eapply prune_inv_step.
  - intros [] s' (new & []). apply (HQ s' new); [|done].
    split; try done. rewrite pn_items0. apply map_filter_ext. intros i it Hi. simpl. rewrite Hin. naive_solver congruence.
Qed.

(** ** The whole of [prune_metadata] *)
Definition over_margin (s : server_st) : bool :=
  RMAP_PRUNE_MARGIN <? u64 (Z.of_nat (size (rmap_tree (metadata s))) - total_accessed_cnt s).

(** What a pass leaves: as [pruned], but only above the margin. *)
Record pass_end (s : server_st) (L : list ksm_event_log) (s' : server_st) (new : list ksm_event_log) : Prop := PassEnd {
  pe_ok : metadata_ok (metadata s');
  pe_log : log_repr (log_table s') (L ++ new);
  pe_oom : no_oom s';
  pe_tags : Forall (names_stale s) new;
  pe_unst : unstable_hash_table (metadata s') = ∅ ∧
     ∀ i it, items (metadata s') !! i = Some it → state it ≠ Unstable;
  pe_items : ∀ i, i ∈ dom (items (metadata s')) ↔
     ∃ it, items (metadata s) !! i = Some it ∧ (over_margin s = true → ¬ stale s it);
  pe_view : sharing_view (metadata s') =
            filter (λ kp, kp.1 ∈ dom (rmap_tree (metadata s'))) (sharing_view (metadata s));
  pe_ctl : iteration s' = iteration s ∧ total_accessed_cnt s' = total_accessed_cnt s ∧
           smart_scan_opt s' = smart_scan_opt s;
  pe_frames : ∀ fh, frames_ok fh (metadata s) → frames_ok fh (metadata s') }.

Lemma cleaned_stale C s i it :
  wf C None None (metadata s) → items (metadata s) !! i = Some it →
  ∃ it', items (metadata (cleaned s)) !! i = Some it' ∧ last_access it' = last_access it.
Proof. intros Hwf Hi. simpl. rewrite lookup_unpark, Hi. simpl. eexists. split; [done|]. by case_decide. Qed.

Lemma size_unpark D I : size (unpark D I) = size I.
Proof.
  rewrite <- !size_dom. f_equal. apply set_eq. intros n.
  rewrite !elem_of_dom, lookup_unpark, fmap_is_Some. done.
Qed.

Lemma no_unstable_table m :
  metadata_ok m → (∀ i it, items m !! i = Some it → state it ≠ Unstable) → unstable_hash_table m = ∅.
Proof.
  intros [C Hwf] Hun. apply map_empty. intros h. destruct (unstable_hash_table m !! h) as [i|] eqn:E; [|done].
  apply (wf_unst _ _ _ _ Hwf) in E as (_ & it & Hi & Hst & _). by destruct (Hun i it Hi).
Qed.

(** Above the margin. *)
Lemma pass_end_pruned C s L s' new :
  wf C None None (metadata s) → over_margin s = true → pruned (cleaned s) L s' new → pass_end s L s' new.
Proof.
  intros Hwf Hm [P1 P2 P3 P4 P5 P6 P7 P8].
  assert (Hun : ∀ i it, items (metadata s') !! i = Some it → state it ≠ Unstable).
  { intros i it Hi. rewrite P5 in Hi. apply map_lookup_filter_Some in Hi as [Hi _].
    by eapply cleaned_not_unstable. }
  split; [done..| | | | |done|].
  - eapply Forall_impl; [exact P4|]. intros e (Ht & i & it' & Hi' & Hst & Hk). split; [done|]. simpl in Hi'. rewrite lookup_unpark in Hi'.
    destruct (items (metadata s) !! i) as [it|] eqn:Hi; [|done]. simpl in Hi'. injection Hi' as <-. exists i, it.
    split_and!; [done|revert Hst; unfold stale; by case_decide|by case_decide].
  - split; [by apply no_unstable_table|done].
  - intros i. rewrite P5, elem_of_dom. unfold is_Some. setoid_rewrite map_lookup_filter_Some. simpl. split.
    + intros (it' & Hi' & Hns). rewrite lookup_unpark in Hi'.
      destruct (items (metadata s) !! i) as [it|] eqn:Hi; [|done]. simpl in Hi'. injection Hi' as <-.
      exists it. split; [done|]. intros _. revert Hns. unfold stale. by case_decide.
    + intros (it & Hi & Hns). destruct (cleaned_stale C s i it Hwf Hi) as (it' & Hi' & Hla). exists it'.
      split; [done|]. unfold stale in *. rewrite Hla. by apply Hns.
  - rewrite P6. by rewrite (view_cleaned C).
  - exact P8.
Qed.

(** Below it only the parked items are released. *)
Lemma pass_end_cleaned C s L :
  wf C None None (metadata s) → log_repr (log_table s) L → no_oom s → over_margin s = false →
  pass_end s L (cleaned s) [].
Proof.
  intros Hwf HL Ho Hm. pose proof (wf_cleaned C s Hwf) as Hwf'.
  split; [by exists C|by rewrite app_nil_r|done|done| | | |done|done].
  - split; [done|]. intros i it. by eapply cleaned_not_unstable.
  - intros i. simpl. rewrite elem_of_dom, lookup_unpark, fmap_is_Some, Hm.
    split; [intros [it ?]; by exists it|intros (it & ? & _); eauto].
  - rewrite (view_cleaned C) by done. exact (eq_sym (filter_view_id (metadata s))).
Qed.

Lemma wp_prune_metadata s L (Q : unit → server_st → Prop) :
  metadata_ok (metadata s) → log_repr (log_table s) L → no_oom s →
  Z.of_nat (length L) + Z.of_nat (size (items (metadata s))) < 2 ^ 30 →
  (∀ s' new, pass_end s L s' new → (length new ≤ size (items (metadata s)))%nat → Q tt s') →
  wp prune_metadata s Q.
Proof.
  intros [C Hwf] HL Ho Hlen HQ. unfold prune_metadata. wp_step.
  eapply wp_clean_up_unstable_tree; [exact Hwf|]. pose proof (wf_cleaned C s Hwf) as Hwf'.
  do 2 wp_step. apply wp_whenM; intros Hm.
  - eapply wp_prune_rmap_tree; [by exists C|exact HL|exact Ho|by simpl; rewrite size_unpark| |].
    { intros i it. by eapply cleaned_not_unstable. }
    intros s' new Hp Hl. apply (HQ s' new); [by eapply pass_end_pruned|].
    pose proof (stale_list_length (cleaned s) (wf_rmap _ _ _ _ Hwf')) as Hb. simpl in Hb. rewrite size_unpark in Hb. lia.
  - apply (HQ _ []); [by eapply pass_end_cleaned|simpl; lia].
Qed.
