(* ===== verification/Teardown.v ===== *)
(** * Teardown: what the clean-up frees

    The part of [cleanup_rdma_cb] that destroys the stable table (a chain per
    entry), the unstable table and the rmap tree: from a well-formed state
    every node and every item is freed, each exactly once. *)
From S2P Require Import Prelude Wire HashPair Store LogTable Metadata Merge MetadataInv ChainInv MetadataSpec RehashInv PruneSpec.
Open Scope Z_scope.

Definition with_nodes (N : gmap loc stable_node) (s : server_st) : server_st :=
  with_metadata (upd_nodes (λ _, N)) s.

(** [free_stable_node] takes exactly the nodes of its chain. *)
Lemma wp_free_chain fuel l h p N s (Q : unit → server_st → Prop) :
  chain_seg N h p l None → NoDup l → (length l ≤ fuel)%nat →
  Q tt (with_nodes (filter (λ kn, kn.1 ∉ l) N) s) →
  wp (free_stable_node fuel (head l)) (with_nodes N s) Q.
Proof.
  revert l p N. induction fuel as [|fuel IH]; intros [|n l] p N Hseg Hnd Hlen HQ; simpl in *; try lia.
  1,2: wp_step; rewrite map_filter_id in HQ; [exact HQ|set_solver].
  destruct Hseg as [(nd & Hn & _ & _ & _ & Hnx) Hseg]. apply NoDup_cons in Hnd as [Hni Hnd].
  wp_step. eapply wp_get_node; [exact Hn|]. wp_step. eapply wp_free_node; [exact Hn|].
  rewrite Hnx. replace (next_or l None) with (head l) by (by destruct l).
  change (wp (free_stable_node fuel (head l)) (with_nodes (delete n N) s) Q).
  apply (IH l (Some n)); [|done|lia|].
  - revert Hseg. apply chain_seg_frame. intros m Hm md Hmd. exists md. split; [|done].
    rewrite lookup_delete_ne; [done|]. by intros <-.
  - replace (filter (λ kn, kn.1 ∉ l) (delete n N)) with (filter (λ kn, kn.1 ∉ n :: l) N); [exact HQ|].
    apply map_filter_strong_ext. intros k kd. rewrite lookup_delete_Some. simpl. rewrite not_elem_of_cons. naive_solver.
Qed.

(** One entry of the stable table. *)
Lemma wp_free_entry C N T (done : list hash_pair) h e s (Q : unit → server_st → Prop) :
  inv_chain C N T → T !! h = Some e → h ∉ done →
  Q tt (with_nodes (filter (λ kn, page_hash kn.2 ∉ done ++ [h]) N) s) →
  wp (free_stable_node (size N) (Some e)) (with_nodes (filter (λ kn, page_hash kn.2 ∉ done) N) s) Q.
Proof.
  intros Hc HT Hni HQ. pose proof HT as HT'. rewrite (ic_table _ _ _ Hc) in HT'.
  destruct (C !! h) as [l|] eqn:HC; simpl in HT'; [|done].
  destruct (ic_seg _ _ _ Hc _ _ HC) as (_ & Hnd & Hseg).
  rewrite <- HT'. apply (wp_free_chain _ _ h None); [|done|by eapply inv_chain_length|].
  - revert Hseg. apply chain_seg_frame. intros n Hn nd Hl. exists nd. split; [|done].
    apply map_lookup_filter_Some. split; [done|]. simpl.
    destruct (chain_list_node _ _ _ _ _ n Hc HC Hn) as (nd' & Hl' & Hh). congruence.
  - rewrite map_filter_filter.
    replace (filter _ N) with (filter (λ kn, page_hash kn.2 ∉ done ++ [h]) N); [exact HQ|].
    apply map_filter_ext. intros n nd Hl. simpl.
    assert (n ∈ l ↔ page_hash nd = h).
    { split; [intros Hn; destruct (chain_list_node _ _ _ _ _ n Hc HC Hn) as (? & ? & ?); congruence|].
      intros Hh. by eapply chain_in_list. }
    rewrite not_elem_of_app, not_elem_of_cons. set_solver.
Qed.

Lemma wp_free_tables C N T s0 :
  inv_chain C N T →
  wp (for_each (λ hl, free_stable_node (size N) (Some hl.2)) (map_to_list T)) (with_nodes N s0)
    (λ _ s', s' = with_nodes ∅ s0).
Proof.
  intros Hc. pose (P := λ (l1 l2 : list (hash_pair * loc)) s', s' = with_nodes (filter (λ kn, page_hash kn.2 ∉ l1.*1) N) s0).
  eapply wp_mono; [apply (wp_for_each _ P)|].
  - unfold P. rewrite map_filter_id; [done|]. set_solver.
  - intros l1 [h e] l2 s' Hl ->. eapply (wp_free_entry C N T l1.*1 h e).
    + done.
    + apply elem_of_map_to_list. rewrite Hl. set_solver.
    + pose proof (NoDup_fst_map_to_list T) as Hnd. rewrite Hl, fmap_app in Hnd.
      apply NoDup_app in Hnd as (_ & Hd & _). intros Hin. apply (Hd h Hin). apply list_elem_of_here.
    + unfold P. rewrite fmap_app. done.
  - unfold P. intros [] s' ->. f_equal. apply map_empty. intros n. apply map_lookup_filter_None. right. simpl. intros nd Hn Hni. apply Hni.
    destruct (ic_member _ _ _ Hc n nd Hn) as (l & HC & Hin). destruct (ic_seg _ _ _ Hc _ _ HC) as (Hne & _).
    destruct l as [|e l]; [done|]. apply list_elem_of_fmap. exists (page_hash nd, e). split; [done|].
    apply elem_of_map_to_list. by rewrite (ic_table _ _ _ Hc), HC.
Qed.

(** The rmap tree. *)
Lemma wp_free_items (m : ksm_metadata) s0 :
  inv_rmap (rmap_tree m) (items m) →
  wp (for_each (λ kl, free_rmap_item kl.2) (gtree_list (rmap_tree m))) (with_metadata (upd_items (λ _, items m)) s0)
    (λ _ s', s' = with_metadata (upd_items (λ _, ∅)) s0).
Proof.
  intros Hr. pose (P := λ (l1 l2 : list (item_key * loc)) s',
    s' = with_metadata (upd_items (λ _, filter (λ ki, ki.1 ∉ l1.*2) (items m))) s0).
  eapply wp_mono; [apply (wp_for_each _ P)|].
  - unfold P. rewrite map_filter_id; [done|]. set_solver.
  - intros l1 [k i] l2 s' Hl ->. unfold free_rmap_item. simpl.
    assert (rmap_tree m !! k = Some i) as Hk by (apply elem_of_gtree_list; rewrite Hl; set_solver).
    apply Hr in Hk as (it & Hi & _). eapply (wp_free_item i it).
    + simpl. apply map_lookup_filter_Some. split; [done|]. simpl.
      pose proof (rmap_locs_NoDup m Hr) as Hnd. rewrite Hl, fmap_app in Hnd. apply NoDup_app in Hnd as (_ & Hd & _).
      intros Hin. apply (Hd i Hin). apply list_elem_of_here.
    + unfold P, with_metadata, upd_items; simpl. repeat f_equal. apply map_eq. intros j. apply option_eq. intros jt.
      rewrite lookup_delete_Some, !map_lookup_filter_Some, fmap_app. simpl.
      rewrite not_elem_of_app, list_elem_of_singleton. naive_solver.
  - unfold P. intros [] s' ->. unfold with_metadata, upd_items; simpl. repeat f_equal. apply map_empty. intros i. apply map_lookup_filter_None. right.
    simpl. intros it Hi Hni. apply Hni. apply list_elem_of_fmap. exists (key_of it, i). split; [done|].
    apply elem_of_gtree_list, Hr. eauto.
Qed.

Lemma wp_cleanup_metadata s (Q : unit → server_st → Prop) :
  metadata_ok (metadata s) → Q tt (with_metadata (λ _, empty_metadata) s) → wp cleanup_metadata s Q.
Proof.
  intros [C [Hr _ Hc _]] HQ. unfold cleanup_metadata. do 2 wp_step.
  pose proof (wp_free_tables C (nodes (metadata s)) (stable_hash_table (metadata s)) s Hc) as Hfree.
  replace (with_nodes (nodes (metadata s)) s) with s in Hfree by (by destruct s as [[] ? ? ? ? ? ?]).
  wp_step. eapply wp_mono; [exact Hfree|]. intros [] s' ->. do 4 wp_step.
  match goal with |- wp _ ?st _ => set (st1 := st) end. wp_step.
  assert (st1 = with_metadata (upd_items (λ _, items (metadata s))) st1) as E by (by destruct s as [[] ? ? ? ? ? ?]).
  rewrite E. eapply wp_mono; [apply (wp_free_items (metadata s) st1 Hr)|]. intros [] s' ->. wp_step. exact HQ.
Qed.
