(* ===== verification/LookupSpec.v ===== *)
(** * LookupSpec: [lookup_rmap_item]

    It finds the item of a (mm_id, va) or makes a volatile one, and stamps it
    with the scan number and the frame of the page table entry. *)
From S2P Require Import Prelude Wire HashPair Store LogTable Metadata Merge MetadataInv ChainInv MetadataSpec RehashInv MergeSpec.
Open Scope Z_scope.

Definition stamped (s : server_st) (pte : shadow_pte) (it : rmap_item) : rmap_item :=
  set_access (s16 (iteration s)) (pte_kpfn pte) it.

(** What the caller gets: the item, and everything else as it was. *)
Record looked_up (s : server_st) (mm : Z) (pte : shadow_pte) (L : list ksm_event_log)
    (s' : server_st) (l : loc) (it : rmap_item) : Prop := LookedUp {
  lu_ok : metadata_ok (metadata s');
  lu_log : log_table s' = log_table s;
  lu_oom : no_oom s';
  lu_rmap : rmap_tree (metadata s') = <[(mm, pte_va pte) := l]> (rmap_tree (metadata s));
  lu_view : sharing_view (metadata s') = sharing_view (metadata s);
  lu_ctl : iteration s' = iteration s ∧ smart_scan_opt s' = smart_scan_opt s ∧
           total_accessed_cnt s' = u64 (total_accessed_cnt s + 1);
  lu_item : items (metadata s') !! l = Some it;
  lu_key : key_of it = (mm, pte_va pte);
  lu_stamp : last_access it = s16 (iteration s) ∧ pfn it = pte_kpfn pte;
  lu_others : ∀ i, i ≠ l → items (metadata s') !! i = items (metadata s) !! i;
  lu_old : ∀ it0, items (metadata s) !! l = Some it0 →
     it = stamped s pte it0 ∧ rmap_tree (metadata s) !! (mm, pte_va pte) = Some l;
  lu_new : items (metadata s) !! l = None → state it = Volatile ∧ old_hash it = null_hash;
  lu_nodes : nodes (metadata s') = nodes (metadata s) ∧
             stable_hash_table (metadata s') = stable_hash_table (metadata s) }.

Lemma sharing_view_alloc m l it :
  inv_rmap (rmap_tree m) (items m) → items m !! l = None → rmap_tree m !! key_of it = None → state it ≠ Stable →
  sharing_view (upd_rmap (<[key_of it := l]>) (upd_items (<[l := it]>) m)) = sharing_view m.
Proof.
  intros Hr Hl Hk Hst. apply map_eq. intros k. rewrite !sharing_view_lookup. simpl.
  destruct (decide (key_of it = k)) as [<-|Hne].
  - rewrite lookup_insert_eq, Hk. simpl. rewrite lookup_insert_eq. simpl. unfold node_pfn_of. by destruct (state it).
  - rewrite lookup_insert_ne by done. destruct (rmap_tree m !! k) as [l'|] eqn:E; [|done]. simpl.
    rewrite lookup_insert_ne; [done|]. intros <-. apply Hr in E as (? & ? & _). congruence.
Qed.

Lemma wp_lookup_rmap_item s mm pte L (Q : option loc → server_st → Prop) :
  metadata_ok (metadata s) → no_oom s →
  (∀ l it s', looked_up s mm pte L s' l it → Q (Some l) s') →
  wp (lookup_rmap_item mm pte) s Q.
Proof.
  intros [C Hwf] Ho HQ. pose proof (wf_rmap _ _ _ _ Hwf) as Hr. unfold lookup_rmap_item. do 2 wp_step. wp_step.
  destruct (rmap_tree (metadata s) !! (mm, pte_va pte)) as [l|] eqn:E.
  - wp_step. pose proof E as E'. apply Hr in E' as (it & Hl & Hk). do 2 wp_step. wp_step.
    eapply wp_upd_item; [exact Hl|]. wp_step. apply (HQ _ (stamped s pte it)).
    split; try done; simpl.
    + exists C. by eapply wf_touch.
    + by rewrite insert_id.
    + by eapply sharing_view_same.
    + by rewrite lookup_insert_eq.
    + intros i Hi. by rewrite lookup_insert_ne.
    + intros it0 Hit0. by replace it0 with it by congruence.
    + congruence.
  - wp_step. eapply wp_malloc_item; [exact Ho|]. intros l junk a Hfr Ha.
    wp_step. eapply wp_upd_item; [apply lookup_insert_eq|]. do 3 wp_step. wp_step. wp_step. wp_step.
    eapply wp_upd_item; [apply lookup_insert_eq|]. wp_step.
    set (it := stamped s pte (init_item mm (pte_va pte) junk)).
    match goal with |- Q _ ?st => assert (st = with_metadata (λ m, upd_rmap (<[key_of it := l]>) (upd_items (<[l := it]>) m))
      (with_accessed (λ n, u64 (n + 1)) (with_answers (λ _, a) s))) as -> end.
    { unfold with_metadata, upd_rmap, upd_items, with_accessed, with_answers; simpl. by rewrite !insert_insert_eq. }
    apply (HQ _ it). split; try done; simpl.
    + exists C. by apply (wf_alloc C None (metadata s) l it).
    + by apply (sharing_view_alloc (metadata s) l it).
    + apply lookup_insert_eq.
    + intros i Hi. by rewrite lookup_insert_ne.
    + congruence.
Qed.
