(* ===== verification/Scan.v ===== *)
(** * Scan: one offloaded KSM pass on the server

    [codes/bask/server.c]: the page loop of [ksm_page_worker] and
    [do_ksm_v3].  The two threads alternate through [worker_todo] (modelled as
    such in Handoff); while a job runs the main thread only fetches the next
    pages, so here a job runs where it is posted.  RDMA reads are the
    interface [RdmaReads]; what the pre-hash thread had ready for a page when
    it was looked up is the argument [pre]. *)
From S2P Require Import Prelude Wire HashPair Store LogTable Metadata Merge.
Open Scope Z_scope.

(** The reads the host serves: [None] is a failed work request. *)
Class RdmaReads := {
  read_map : shadow_pt_descriptor → option (list shadow_pte);
  read_pages : desc_entry → Z → option (list page) }.

(** What [worker_todo] carries to the worker. *)
Record worker_job := WorkerJob {
  job_mm_id : Z;
  job_va2dma_map : list shadow_pte;
  job_pages : list page;
  job_idx_adjust : Z }.

(** (mm_id, table entry, pre-computed hash, page) *)
Record scan_entry := ScanEntry {
  se_mm : Z; se_pte : shadow_pte; se_pre : option hash_pair; se_page : page }.

Definition se_key (e : scan_entry) : item_key := (se_mm e, pte_va (se_pte e)).

Section scan.
Context `{RdmaReads}.
(** [ksm_ops]: [cmp_and_merge_one] or [cmp_and_merge_one_old]. *)
Context (ksm_ops : option hash_pair → page → loc → M server_st Z).
Context (pre : Z → Z → option hash_pair).

Definition scan_page (e : scan_entry) : M server_st unit :=
  curr_item ← lookup_rmap_item (se_mm e) (se_pte e);
  match curr_item with
  | None => halt "Failed to lookup rmap item."
  | Some item =>
    err ← ksm_ops (se_pre e) (se_page e) item;
    halt_if (negb (err =? 0)) "cmp_and_merge_one failed."
  end.

(** The [for] loop of the worker; [idx] is [idx_adjust + i]. *)
Fixpoint process_pages (mm : Z) (map : list shadow_pte) (idx : nat) (pages : list page) : M server_st unit :=
  match pages with
  | [] => mret tt
  | pg :: pages' =>
    pte ← deref (map !! idx) "va2dma_map[idx] out of bounds";
    scan_page (ScanEntry mm pte (pre mm (Z.of_nat idx)) pg) ;;
    process_pages mm map (S idx) pages'
  end.

Definition ksm_page_worker (work : worker_job) : M server_st unit :=
  process_pages (job_mm_id work) (job_va2dma_map work) (Z.to_nat (job_idx_adjust work)) (job_pages work).

Definition sgl_nums (entry_cnt : Z) : Z := div_round_up entry_cnt MAX_PAGES_IN_SGL.

Definition this_sgl_size (entry_cnt sgl_idx : Z) : Z :=
  if sgl_idx =? sgl_nums entry_cnt - 1 then entry_cnt - sgl_idx * MAX_PAGES_IN_SGL else MAX_PAGES_IN_SGL.

(** [malloc] that only matters by failing. *)
Definition malloc_buf : M server_st bool := a ← next_answer; mret (bool_decide (a ≠ None)).

(** The chunks from [sgl_idx] on; [None] is the early [return -1].  The
    counters are [scanned_cnt] and the [num_pages] of the posted job. *)
Fixpoint scan_chunks (n : nat) (sgl_idx : Z) (pt_desc : shadow_pt_descriptor) (map : list shadow_pte)
    (scanned_cnt num_pages : Z) : M server_st (option (Z * Z)) :=
  match n with
  | O => mret (Some (scanned_cnt, num_pages))
  | S n' =>
    let size := this_sgl_size (ptd_entry_cnt pt_desc) sgl_idx in
    ok ← malloc_buf;
    if negb (ok : bool) then mret None else
    ent ← deref (ptd_desc_entries pt_desc !! Z.to_nat sgl_idx) "desc_entries out of bounds";
    match read_pages ent size with
    | None => mret None
    | Some page_buf =>
      ksm_page_worker (WorkerJob (ptd_mm_id pt_desc) map page_buf (sgl_idx * MAX_PAGES_IN_SGL)) ;;
      scan_chunks n' (sgl_idx + 1) pt_desc map (s32 (scanned_cnt + num_pages)) size
    end
  end.

(** One iteration of the loop over the page tables. *)
Definition scan_mm (pt_desc : shadow_pt_descriptor) (scanned_cnt : Z) : M server_st (option Z) :=
  ok1 ← malloc_buf;
  if negb (ok1 : bool) then mret None else
  ok2 ← malloc_buf;
  if negb (ok2 : bool) then mret None else
  match read_map pt_desc with
  | None => mret None
  | Some map =>
    first ← deref (map !! 0%nat) "va2dma_map[0]";
    if pte_va first =? 0 then mret None else
    let n := sgl_nums (ptd_entry_cnt pt_desc) in
    r ← scan_chunks (Z.to_nat n) 0 pt_desc map scanned_cnt 0;
    match r with
    | None => mret None
    | Some (scanned, num_pages) =>
      halt_if (n =? 0) "waits for WORK_DONE, which nobody sets" ;;
      mret (Some (s32 (scanned + num_pages)))
    end
  end.

Fixpoint scan_mms (descs : list shadow_pt_descriptor) (scanned_cnt : Z) : M server_st (option Z) :=
  match descs with
  | [] => mret (Some scanned_cnt)
  | d :: descs' =>
    r ← scan_mm d scanned_cnt;
    match r with
    | None => mret None
    | Some scanned => scan_mms descs' scanned
    end
  end.

Definition do_ksm_v3 (meta_desc : metadata_descriptor) : M server_st Z :=
  r ← scan_mms (take (Z.to_nat (md_pt_cnt meta_desc)) (md_pt_descs meta_desc)) 0;
  match r with
  | None => mret (-1)
  | Some scanned =>
    prune_metadata ;;
    modify (with_accessed (λ _, 0)) ;;
    mret scanned
  end.

(** ** The pages of a pass, in scan order *)
Fixpoint entries_from (mm : Z) (map : list shadow_pte) (idx : nat) (pages : list page) : list scan_entry :=
  match pages, drop idx map with
  | pg :: pages', pte :: _ => ScanEntry mm pte (pre mm (Z.of_nat idx)) pg :: entries_from mm map (S idx) pages'
  | _, _ => []
  end.

(** What the host must serve for a page table to be scanned: [map] and the
    pages, chunk by chunk. *)
Fixpoint chunks_readable (desc : shadow_pt_descriptor) (n : nat) (sgl_idx : Z) (pages : list page) : Prop :=
  match n with
  | O => pages = []
  | S n' =>
    let size := this_sgl_size (ptd_entry_cnt desc) sgl_idx in
    ∃ ent, ptd_desc_entries desc !! Z.to_nat sgl_idx = Some ent ∧ 0 ≤ size ∧
      read_pages ent size = Some (take (Z.to_nat size) pages) ∧ (Z.to_nat size ≤ length pages)%nat ∧
      chunks_readable desc n' (sgl_idx + 1) (drop (Z.to_nat size) pages)
  end.

Record readable (desc : shadow_pt_descriptor) (map : list shadow_pte) (pages : list page) : Prop := {
  rd_map : read_map desc = Some map;
  rd_cnt : Z.of_nat (length map) = ptd_entry_cnt desc;
  rd_pages : length pages = length map;
  rd_first : ∃ p, map !! 0%nat = Some p ∧ pte_va p ≠ 0;
  rd_chunks : chunks_readable desc (Z.to_nat (sgl_nums (ptd_entry_cnt desc))) 0 pages }.

(** A table with what the host serves for it, and the pages of a list of them. *)
Record table_work := TableWork { tw_desc : shadow_pt_descriptor; tw_map : list shadow_pte; tw_pages : list page }.

Definition table_entries (w : table_work) : list scan_entry :=
  entries_from (ptd_mm_id (tw_desc w)) (tw_map w) 0 (tw_pages w).

Definition batch_of (ws : list table_work) : list scan_entry := mjoin (table_entries <$> ws).

Definition pages_of (ws : list table_work) : Z := Z.of_nat (length (mjoin (tw_pages <$> ws))).

(** ** Lemmas *)
Lemma batch_of_cons w ws : batch_of (w :: ws) = table_entries w ++ batch_of ws.
Proof. done. Qed.

Lemma pages_of_cons w ws : pages_of (w :: ws) = Z.of_nat (length (tw_pages w)) + pages_of ws.
Proof.
  unfold pages_of. change (mjoin (tw_pages <$> w :: ws)) with (tw_pages w ++ mjoin (tw_pages <$> ws)).
  rewrite length_app. lia.
Qed.

Lemma pages_of_nonneg ws : 0 ≤ pages_of ws.
Proof. unfold pages_of. lia. Qed.

Lemma entries_from_app mm map idx p1 p2 :
  (idx + length p1 ≤ length map)%nat →
  entries_from mm map idx (p1 ++ p2) = entries_from mm map idx p1 ++ entries_from mm map (idx + length p1) p2.
Proof.
  revert idx. induction p1 as [|pg p1 IH]; intros idx Hl; simpl; [by rewrite Nat.add_0_r|].
  destruct (drop idx map) as [|pte rest] eqn:E.
  - apply (f_equal length) in E. rewrite length_drop in E. simpl in *. lia.
  - simpl in *. f_equal. rewrite IH by lia. f_equal. f_equal. lia.
Qed.

Lemma length_entries_from mm map idx pages :
  (idx + length pages ≤ length map)%nat → length (entries_from mm map idx pages) = length pages.
Proof.
  revert idx. induction pages as [|pg p1 IH]; intros idx Hl; simpl; [done|].
  destruct (drop idx map) as [|pte rest] eqn:E.
  - apply (f_equal length) in E. rewrite length_drop in E. simpl in *. lia.
  - simpl in *. rewrite IH; lia.
Qed.

(** A job scans its pages in order. *)
Lemma process_pages_entries mm map idx pages s :
  (idx + length pages ≤ length map)%nat →
  process_pages mm map idx pages s = for_each scan_page (entries_from mm map idx pages) s.
Proof.
  revert idx s. induction pages as [|pg pages IH]; intros idx s Hl; simpl; [done|].
  destruct (drop idx map) as [|pte rest] eqn:E.
  - apply (f_equal length) in E. rewrite length_drop in E. simpl in *. lia.
  - assert (map !! idx = Some pte) as Hm.
    { rewrite <- (Nat.add_0_r idx), <- lookup_drop, E. done. }
    rewrite Hm. simpl. unfold mbind, M_bind, deref, mret, M_ret.
    destruct (scan_page _ s) as [[[] s']| |]; try done. apply IH. simpl in Hl. lia.
Qed.

End scan.
