(* ===== verification/ScanSpec.v ===== *)
(** * ScanSpec: what a pass over a batch of pages does

    One page, then a batch of pages with distinct (mm_id, va): the server
    never stops or faults, its invariant holds throughout, and the events it
    queues for the host describe exactly how the sharing changed. *)
From S2P Require Import Prelude Wire HashPair Store LogTable Metadata Merge MetadataInv ChainInv MetadataSpec RehashInv MergeSpec PruneSpec LookupSpec Scan.
Open Scope Z_scope.

Section pass.
Context `{XXHash} (pf : item_key → Z) (fh : Z → hash_pair).

(** The page scanned is the frame's content, and the host names the frame. *)
Definition entry_ok (e : scan_entry) : Prop :=
  calculate_hash_pair (se_pre e) (se_page e) = fh (pte_kpfn (se_pte e)) ∧
  fh (pte_kpfn (se_pte e)) ≠ null_hash ∧ pf (se_key e) = pte_kpfn (se_pte e).

Record pass_inv (s0 : server_st) (L : list ksm_event_log) (done : list scan_entry) (s : server_st) : Prop := PassInv {
  pi_ok : metadata_ok (metadata s);
  pi_oom : no_oom s;
  pi_log : ∃ new, log_repr (log_table s) (L ++ new) ∧ (length new ≤ length done)%nat ∧
     sharing_view (metadata s) = replay pf (sharing_view (metadata s0)) new;
  pi_ctl : iteration s = iteration s0 ∧ smart_scan_opt s = smart_scan_opt s0;
  pi_count : u64 (total_accessed_cnt s) = u64 (total_accessed_cnt s0 + Z.of_nat (length done));
  pi_frames : frames_ok fh (metadata s);
  pi_unst : ∀ i it, items (metadata s) !! i = Some it → state it = Unstable → key_of it ∈ se_key <$> done;
  pi_dom : dom (rmap_tree (metadata s)) = dom (rmap_tree (metadata s0)) ∪ list_to_set (se_key <$> done);
  pi_seen : ∀ i it, items (metadata s) !! i = Some it → key_of it ∈ se_key <$> done →
     last_access it = s16 (iteration s0);
  pi_unseen : ∀ i it, items (metadata s) !! i = Some it → key_of it ∉ se_key <$> done →
     ∃ it0, items (metadata s0) !! i = Some it0 ∧ key_of it0 = key_of it ∧ last_access it = last_access it0;
  pi_sound : ∀ i it e, items (metadata s) !! i = Some it → e ∈ done → key_of it = se_key e → state it ≠ Volatile →
     old_hash it = fh (pte_kpfn (se_pte e)) }.

Lemma u64_succ z n : u64 z = u64 n → u64 (z + 1) = u64 (n + 1).
Proof. unfold wrap_u. intros E. rewrite Z.add_mod, E, <- Z.add_mod by lia. done. Qed.

Lemma u64_idem z : u64 (u64 z) = u64 z.
Proof. unfold wrap_u. by rewrite Z.mod_mod by lia. Qed.

Lemma pass_inv_start s L :
  metadata_ok (metadata s) → no_oom s → log_repr (log_table s) L → frames_ok fh (metadata s) →
  (∀ i it, items (metadata s) !! i = Some it → state it ≠ Unstable) → pass_inv s L [] s.
Proof.
  intros H1 H2 H3 H4 H5. split; try done.
  - exists []. rewrite app_nil_r. done.
  - simpl. by rewrite Z.add_0_r.
  - intros i it Hi Hu. by destruct (H5 i it Hi).
  - simpl. set_solver.
  - intros i it Hi Hin. set_solver.
  - intros i it Hi _. eauto.
  - intros i it e _ Hin. set_solver.
Qed.

Lemma items_of_rmap m i it : metadata_ok m → items m !! i = Some it → rmap_tree m !! key_of it = Some i.
Proof. intros [C [Hr _ _ _]] Hi. apply Hr. eauto. Qed.

Lemma looked_up_state s mm pte L s1 l it (done : list item_key) :
  looked_up s mm pte L s1 l it → metadata_ok (metadata s) →
  (∀ i it0, items (metadata s) !! i = Some it0 → state it0 = Unstable → key_of it0 ∈ done) →
  (mm, pte_va pte) ∉ done → state it = Volatile ∨ state it = Stable.
Proof.
  intros Hlu [C Hwf] Hun Hnin. destruct (items (metadata s) !! l) as [it0|] eqn:E0.
  - destruct (lu_old _ _ _ _ _ _ _ Hlu it0 E0) as [-> Hr]. simpl.
    pose proof (is_items _ _ _ _ (wf_share _ _ _ _ Hwf) l it0 E0 ltac:(done)) as Hok. unfold item_ok in Hok.
    destruct (state it0) eqn:Hst; auto; [done|]. exfalso. apply Hnin.
    pose proof (lu_key _ _ _ _ _ _ _ Hlu) as Hk. simpl in Hk. rewrite <- Hk. exact (Hun l it0 E0 Hst).
  - left. by apply (lu_new _ _ _ _ _ _ _ Hlu).
Qed.

Lemma looked_up_rehash_free s mm pte L s1 l it hash :
  looked_up s mm pte L s1 l it → frames_ok fh (metadata s) → fh (pfn it) = hash → rehash_free s1 it hash.
Proof.
  intros Hlu Hf Hh n nd Hst Hsn Hn Hp Hne. exfalso. apply Hne.
  pose proof (lu_ok _ _ _ _ _ _ _ Hlu) as [C Hwf].
  destruct (stable_item_node C _ l it Hwf (lu_item _ _ _ _ _ _ _ Hlu) Hst) as (n' & nd' & E1 & E2 & _ & E4).
  replace nd' with nd in * by congruence. rewrite E4. rewrite (proj1 (lu_nodes _ _ _ _ _ _ _ Hlu)) in Hn.
  rewrite (Hf n nd Hn). congruence.
Qed.

(** The items after a page: the scanned one is stamped, the others keep their
    key and stamp, and become unstable only by being scanned. *)
Record page_items (s : server_st) (e : scan_entry) (s2 : server_st) : Prop := PageItems {
  pt_seen : ∀ i it, items (metadata s2) !! i = Some it → key_of it = se_key e → last_access it = s16 (iteration s);
  pt_other : ∀ i it, items (metadata s2) !! i = Some it → key_of it ≠ se_key e →
     ∃ it1, items (metadata s) !! i = Some it1 ∧ key_of it1 = key_of it ∧ last_access it = last_access it1 ∧
       (state it = Unstable → state it1 = Unstable) ∧
       (frames_ok fh (metadata s) → state it ≠ Volatile → state it1 ≠ Volatile ∧ old_hash it = old_hash it1) }.

Lemma page_items_intro s e L s1 l it L1 s2 new :
  looked_up s (se_mm e) (se_pte e) L s1 l it → progress pf fh l s1 L1 s2 new → page_items s e s2.
Proof.
  intros Hlu [P1 P2 P3 P4 P5 _ P9 _ P11]. destruct Hlu.
  assert (Hback : ∀ i it', items (metadata s2) !! i = Some it' → ∃ it1, items (metadata s1) !! i = Some it1 ∧
      key_of it' = key_of it1 ∧ last_access it' = last_access it1 ∧ (state it' = Unstable → i = l ∨ state it1 = Unstable)).
  { intros i it' Hi. pose proof (items_of_rmap _ _ _ P1 Hi) as Hr. rewrite P4 in Hr.
    destruct lu_ok as [C' [Hr' _ _ _]]. apply Hr' in Hr as (it1 & Hit1 & Hk1). exists it1.
    destruct (P9 i it1 Hit1) as (it'' & ? & ? & ? & ?). replace it'' with it' in * by congruence. done. }
  split; intros i it' Hi Hk.
  - pose proof (items_of_rmap _ _ _ P1 Hi) as Hr. rewrite P4, lu_rmap, Hk in Hr.
    unfold se_key in Hr. rewrite lookup_insert_eq in Hr. injection Hr as <-.
    destruct (Hback l it' Hi) as (it1 & Hi1 & _ & -> & _). replace it1 with it in * by congruence. apply lu_stamp.
  - destruct (Hback i it' Hi) as (it1 & Hi1 & E1 & E2 & E3).
    assert (i ≠ l) as Hne.
    { intros ->. apply Hk. unfold se_key. replace it1 with it in * by congruence. congruence. }
    rewrite lu_others in Hi1 by done. exists it1. split_and!; [done..| |].
    + intros Hu. by destruct (E3 Hu).
    + intros Hf Hst. rewrite <- (lu_others i Hne) in Hi1. apply (P11 ltac:(intros n nd; rewrite (proj1 lu_nodes); apply Hf) i it1 it'); auto.
Qed.

(** One page. *)
Lemma wp_scan_page s0 L done s e :
  pass_inv s0 L done s → se_key e ∉ se_key <$> done → entry_ok e →
  Z.of_nat (length L) + Z.of_nat (length done) + 1 < 2 ^ 30 →
  wp (scan_page cmp_and_merge_one e) s (λ _ s', pass_inv s0 L (done ++ [e]) s').
Proof.
  intros [H1 H2 (new & HL & Hnew & HV) (H4 & H4') H5 H6 H7 H8 H9 H10 H11] Hnin (Hh & Hnn & Hpf) Hlen.
  unfold scan_page. wp_step. eapply (wp_lookup_rmap_item s _ _ (L ++ new)); [done..|].
  intros l it s1 Hlu. wp_step.
  assert (Hat : at_item s1 (L ++ new) l it).
  { split; [apply Hlu|by rewrite (lu_log _ _ _ _ _ _ _ Hlu)|apply Hlu|rewrite length_app; lia|apply Hlu]. }
  pose proof (lu_stamp _ _ _ _ _ _ _ Hlu) as [Hla Hpfn]. pose proof (lu_key _ _ _ _ _ _ _ Hlu) as Hkey.
  eapply wp_mono; [apply (wp_cmp_and_merge_one pf fh (se_pre e) (se_page e) s1 _ l it Hat)|].
  - rewrite length_app. lia.
  - eapply looked_up_state; [exact Hlu|done|exact H7|exact Hnin].
  - by rewrite Hh.
  - by rewrite Hkey, Hpfn.
  - by rewrite Hpfn.
  - eapply looked_up_rehash_free; [exact Hlu|done|]. by rewrite Hpfn.
  - intros r s2 (-> & new2 & it2 & Hp & Hb & Hit2 & Hout). apply wp_halt_if; [done|].
    pose proof (page_items_intro _ _ _ _ _ _ _ _ _ Hlu Hp) as [Hpt1 Hpt2].
    destruct Hp as [P1 P2 P3 P4 P5 (P6 & P7 & P8) P9 P10 P11], Hlu. destruct lu_ctl as (U1 & U2 & U3).
    split; rewrite ?fmap_app; simpl.
    + done.
    + done.
    + exists (new ++ new2). rewrite !length_app, app_assoc. simpl. split_and!; [done|lia|].
      by rewrite P5, lu_view, HV, replay_app.
    + split; congruence.
    + rewrite P7, U3, u64_idem, length_app. simpl. rewrite Nat2Z.inj_add, Z.add_assoc. by apply u64_succ.
    + apply P10. intros n nd. rewrite (proj1 lu_nodes). apply H6.
    + intros i it' Hi Hu. destruct (decide (key_of it' = se_key e)) as [->|Hne]; [set_solver|].
      destruct (Hpt2 i it' Hi Hne) as (it1 & Hi1 & <- & _ & Hu1 & _). specialize (H7 i it1 Hi1 (Hu1 Hu)). set_solver.
    + rewrite P4, lu_rmap, dom_insert_L, H8, list_to_set_app_L. simpl. unfold se_key. set_solver.
    + intros i it' Hi Hk. destruct (decide (key_of it' = se_key e)) as [Heq|Hne].
      * rewrite (Hpt1 i it' Hi Heq). by rewrite H4.
      * destruct (Hpt2 i it' Hi Hne) as (it1 & Hi1 & E & -> & _). apply (H9 i it1 Hi1). rewrite E. set_solver.
    + intros i it' Hi Hk. assert (key_of it' ≠ se_key e) as Hne by set_solver.
      destruct (Hpt2 i it' Hi Hne) as (it1 & Hi1 & E & -> & _).
      destruct (H10 i it1 Hi1) as (it0 & ? & ? & ?); [rewrite E; set_solver|]. exists it0. split_and!; congruence.
    + intros i it' e' Hi Hin Hk Hst. apply elem_of_app in Hin as [Hin|Hin].
      * assert (key_of it' ≠ se_key e) as Hne.
        { intros Heq. apply Hnin. apply list_elem_of_fmap. exists e'. split; [congruence|done]. }
        destruct (Hpt2 i it' Hi Hne) as (it1 & Hi1 & E & _ & _ & Hs). destruct (Hs H6 Hst) as [Hs1 ->].
        apply (H11 i it1 e' Hi1 Hin); [congruence|done].
      * apply list_elem_of_singleton in Hin as ->.
        pose proof (items_of_rmap _ _ _ P1 Hi) as Hr. rewrite P4, lu_rmap, Hk in Hr. unfold se_key in Hr.
        rewrite lookup_insert_eq in Hr. injection Hr as <-. replace it' with it2 in * by congruence.
        destruct (Hout Hst) as [-> _]. exact Hh.
Qed.

(** A batch, after the pages [done]. *)
Lemma wp_scan_batch s0 L done batch s (Q : unit → server_st → Prop) :
  pass_inv s0 L done s → NoDup (se_key <$> done ++ batch) → Forall entry_ok batch →
  Z.of_nat (length L) + Z.of_nat (length (done ++ batch)) < 2 ^ 30 →
  (∀ s', pass_inv s0 L (done ++ batch) s' → Q tt s') →
  wp (for_each (scan_page cmp_and_merge_one) batch) s Q.
Proof.
  intros H0 Hnd Hok Hlen HQ. eapply wp_mono.
  - apply (wp_for_each _ (λ l1 _ s', pass_inv s0 L (done ++ l1) s')); [by rewrite app_nil_r|].
    intros l1 e l2 s' -> Hinv. rewrite app_assoc, fmap_app, NoDup_app in Hnd. destruct Hnd as (_ & Hd & _).
    apply Forall_app in Hok as [_ Hok]. apply Forall_cons in Hok as [Hok _].
    rewrite app_assoc. apply wp_scan_page; [done| |done|].
    2: { rewrite !length_app in Hlen. rewrite length_app. cbn [length] in Hlen. lia. }
    intros Hin. apply (Hd _ Hin). simpl. apply list_elem_of_here.
  - intros [] s'. apply HQ.
Qed.

(** ** The whole of [do_ksm_v3] *)
Lemma pass_inv_answers s0 L done s a :
  NoMem ∉ a → pass_inv s0 L done s → pass_inv s0 L done (with_answers (λ _, a) s).
Proof. by intros Ha []. Qed.

Lemma wp_malloc_buf s (Q : bool → server_st → Prop) :
  no_oom s → (∀ a, NoMem ∉ a → Q true (with_answers (λ _, a) s)) → wp malloc_buf s Q.
Proof.
  intros Ho HQ. unfold malloc_buf. wp_step. eapply wp_next_answer; [done|]. intros j a Ha. wp_step.
  rewrite bool_decide_eq_true_2 by done. by apply HQ.
Qed.

Section do_ksm.
Context `{RdmaReads} (pre : Z → Z → option hash_pair).

Lemma sgl_nums_bounds n : 0 < n → 0 < sgl_nums n ∧ (sgl_nums n - 1) * MAX_PAGES_IN_SGL < n ≤ sgl_nums n * MAX_PAGES_IN_SGL.
Proof.
  intros Hn. unfold sgl_nums, div_round_up, MAX_PAGES_IN_SGL.
  pose proof (Z.div_mod (n + 65536 - 1) 65536 ltac:(lia)) as E.
  pose proof (Z.mod_pos_bound (n + 65536 - 1) 65536 ltac:(lia)). nia.
Qed.

(** The chunks of one table, from the [k]-th on. *)
Lemma wp_scan_chunks s0 L done s desc map pages n k sc np :
  pass_inv s0 L done s → chunks_readable desc n k pages → 0 ≤ k →
  k + Z.of_nat n = sgl_nums (ptd_entry_cnt desc) → Z.of_nat (length map) = ptd_entry_cnt desc →
  (n ≠ O → Z.of_nat (length pages) = ptd_entry_cnt desc - k * MAX_PAGES_IN_SGL) →
  let es := entries_from pre (ptd_mm_id desc) map (Z.to_nat (k * MAX_PAGES_IN_SGL)) pages in
  NoDup (se_key <$> done ++ es) → Forall entry_ok es →
  Z.of_nat (length L) + Z.of_nat (length (done ++ es)) < 2 ^ 30 →
  0 ≤ sc → 0 ≤ np → sc + np + Z.of_nat (length pages) < 2 ^ 31 →
  wp (scan_chunks cmp_and_merge_one pre n k desc map sc np) s (λ r s', ∃ sc' np', r = Some (sc', np') ∧
    0 ≤ sc' ∧ 0 ≤ np' ∧ sc' + np' = sc + np + Z.of_nat (length pages) ∧ pass_inv s0 L (done ++ es) s').
Proof.
  revert k pages done s sc np. induction n as [|n IH];
    intros k pages done s sc np Hinv Hrd Hk Hkn Hmap Hpl es Hnd Hok Hlen Hsc Hnp Hsum; simpl in Hrd.
  - subst pages. simpl in *. wp_step. exists sc, np. split_and!; [done..|lia|]. subst es. simpl. by rewrite app_nil_r.
  - destruct Hrd as (ent & Hent & Hsz & Hread & Hle & Hrd). specialize (Hpl ltac:(done)).
    set (size := this_sgl_size (ptd_entry_cnt desc) k) in *.
    assert (Hlast : n ≠ O → size = MAX_PAGES_IN_SGL).
    { intros Hn. unfold size, this_sgl_size. destruct (Z.eqb_spec k (sgl_nums (ptd_entry_cnt desc) - 1)); [lia|done]. }
    assert (Hdl : n = O → drop (Z.to_nat size) pages = []) by (intros ->; exact Hrd).
    simpl. wp_step. eapply wp_malloc_buf; [apply Hinv|]. intros a Ha. simpl.
    wp_step. eapply wp_deref; [exact Hent|]. fold size. rewrite Hread.
    set (p1 := take (Z.to_nat size) pages) in *. set (p2 := drop (Z.to_nat size) pages) in *.
    set (idx := Z.to_nat (k * MAX_PAGES_IN_SGL)) in *.
    assert (MAX_PAGES_IN_SGL = 65536) as HM by done. rewrite HM in *.
    assert (length p1 = Z.to_nat size) as Hp1 by (unfold p1; rewrite length_take; lia).
    assert (pages = p1 ++ p2) as Hpp by (symmetry; apply take_drop).
    assert (length pages = length p1 + length p2)%nat as Hpl2 by (rewrite Hpp, length_app; done).
    assert (Hes : es = entries_from pre (ptd_mm_id desc) map idx p1 ++
                       entries_from pre (ptd_mm_id desc) map (idx + length p1) p2).
    { unfold es. rewrite Hpp at 1. apply entries_from_app. lia. }
    rewrite Hes in Hok. apply Forall_app in Hok as [Hok1 Hok2].
    rewrite Hes, app_assoc in Hnd, Hlen.
    assert (Hcomp : ∀ s', ksm_page_worker cmp_and_merge_one pre (WorkerJob (ptd_mm_id desc) map p1 (k * 65536)) s' =
      for_each (scan_page cmp_and_merge_one) (entries_from pre (ptd_mm_id desc) map idx p1) s').
    { intros s'. apply process_pages_entries. simpl. fold idx. lia. }
    wp_step. eapply wp_eq; [apply Hcomp|]. eapply (wp_scan_batch s0 L done).
    + by apply pass_inv_answers.
    + rewrite fmap_app, NoDup_app in Hnd. by destruct Hnd as [? _].
    + done.
    + rewrite length_app in Hlen. lia.
    + intros s' Hinv'. rewrite wrap_s_small by lia.
      assert (Hidx : n ≠ O → (idx + length p1)%nat = Z.to_nat ((k + 1) * 65536)).
      { intros Hn. rewrite Hp1, (Hlast Hn). unfold idx. lia. }
      destruct (decide (n = O)) as [->|Hn].
      * simpl. wp_step. exists (sc + np), size. rewrite (Hdl eq_refl) in *. simpl in *.
        split_and!; [done|lia..| ]. rewrite Hes. by rewrite app_nil_r.
      * rewrite Hes, app_assoc, (Hidx Hn). rewrite (Hidx Hn) in Hnd, Hok2, Hlen.
        eapply wp_mono; [apply (IH (k + 1) p2 (done ++ entries_from pre (ptd_mm_id desc) map idx p1) s' (sc + np) size);
          try done; try lia|].
        intros r s2 (sc' & np' & -> & ? & ? & ? & ?). exists sc', np'. split_and!; [done..|lia|done].
Qed.

(** One table. *)
Lemma wp_scan_mm s0 L done s w sc :
  pass_inv s0 L done s → readable (tw_desc w) (tw_map w) (tw_pages w) →
  NoDup (se_key <$> done ++ table_entries pre w) → Forall entry_ok (table_entries pre w) →
  Z.of_nat (length L) + Z.of_nat (length (done ++ table_entries pre w)) < 2 ^ 30 →
  0 ≤ sc → sc + Z.of_nat (length (tw_pages w)) < 2 ^ 31 →
  wp (scan_mm cmp_and_merge_one pre (tw_desc w) sc) s (λ r s',
    r = Some (sc + Z.of_nat (length (tw_pages w))) ∧ pass_inv s0 L (done ++ table_entries pre w) s').
Proof.
  intros Hinv [Hmap Hcnt Hpg (p & Hp & Hpva) Hch] Hnd Hok Hlen Hsc Hsum. unfold scan_mm.
  wp_step. eapply wp_malloc_buf; [apply Hinv|]. intros a Ha. simpl.
  wp_step. eapply wp_malloc_buf; [done|]. intros b Hb. simpl. rewrite Hmap.
  wp_step. eapply wp_deref; [exact Hp|]. destruct (Z.eqb_spec (pte_va p) 0); [done|].
  assert (0 < ptd_entry_cnt (tw_desc w)) as Hpos.
  { rewrite <- Hcnt. destruct (tw_map w); [done|]. simpl. lia. }
  destruct (sgl_nums_bounds _ Hpos) as [Hn _]. wp_step. eapply wp_mono.
  - apply (wp_scan_chunks s0 L done _ (tw_desc w) (tw_map w) (tw_pages w) _ 0 sc 0);
      [apply pass_inv_answers; [exact Hb|by apply pass_inv_answers]|exact Hch|lia|lia|done|lia|done|done|done|lia|lia|lia].
  - intros r s' (sc' & np' & -> & H1 & H2 & H3 & H4). wp_step. apply wp_halt_if; [by apply Z.eqb_neq; lia|].
    wp_step. rewrite wrap_s_small by lia. split; [|exact H4]. f_equal. lia.
Qed.

Lemma wp_scan_mms s0 L ws : ∀ done s sc,
  pass_inv s0 L done s → Forall (λ w, readable (tw_desc w) (tw_map w) (tw_pages w)) ws →
  NoDup (se_key <$> done ++ batch_of pre ws) → Forall entry_ok (batch_of pre ws) →
  Z.of_nat (length L) + Z.of_nat (length (done ++ batch_of pre ws)) < 2 ^ 30 →
  0 ≤ sc → sc + pages_of ws < 2 ^ 31 →
  wp (scan_mms cmp_and_merge_one pre (tw_desc <$> ws) sc) s (λ r s',
    r = Some (sc + pages_of ws) ∧ pass_inv s0 L (done ++ batch_of pre ws) s').
Proof.
  induction ws as [|w ws IH]; intros done s sc Hinv Hrd Hnd Hok Hlen Hsc Hsum.
  - simpl. wp_step. rewrite app_nil_r. split; [f_equal; unfold pages_of; simpl; lia|done].
  - apply Forall_cons in Hrd as [Hrd1 Hrd2]. rewrite batch_of_cons in Hok. apply Forall_app in Hok as [Hok1 Hok2].
    rewrite batch_of_cons, app_assoc in Hnd, Hlen |- *. rewrite pages_of_cons in Hsum |- *.
    pose proof (pages_of_nonneg ws). rewrite fmap_cons. simpl.
    wp_step. eapply wp_mono; [apply (wp_scan_mm s0 L done s w sc); try done|].
    + rewrite fmap_app, NoDup_app in Hnd. by destruct Hnd as [? _].
    + rewrite length_app in Hlen. lia.
    + lia.
    + intros r s' [-> Hinv']. eapply wp_mono; [apply (IH _ s' _ Hinv'); try done; lia|].
      intros r' s2 [-> Hf]. split; [f_equal; lia|done].
Qed.

(** There is one item per key. *)
Lemma items_size m : metadata_ok m → (size (items m) ≤ size (rmap_tree m))%nat.
Proof using.
  intros [C [Hr _ _ _]].
  trans (length (gtree_list (rmap_tree m)).*2).
  - rewrite <- size_dom, <- (size_list_to_set (C:=gset loc) (gtree_list (rmap_tree m)).*2) by (by apply rmap_locs_NoDup).
    apply subseteq_size. intros i [it Hi]%elem_of_dom. apply elem_of_list_to_set, list_elem_of_fmap.
    exists (key_of it, i). split; [done|]. apply elem_of_gtree_list, Hr. eauto.
  - rewrite length_fmap, gtree_list_perm. by rewrite length_map_to_list.
Qed.

Lemma pass_inv_size s0 L done s :
  pass_inv s0 L done s → (size (items (metadata s)) ≤ size (rmap_tree (metadata s0)) + length done)%nat.
Proof using.
  intros []. etrans; [by apply items_size|]. rewrite <- !size_dom, pi_dom0, size_union_alt.
  apply Nat.add_le_mono_l. trans (size (list_to_set (C:=gset item_key) (se_key <$> done))).
  - apply subseteq_size. set_solver.
  - rewrite <- (length_fmap se_key done). generalize (se_key <$> done). intros l.
    induction l as [|k l IH]; [done|simpl].
    rewrite size_union_alt, size_singleton. assert (size (list_to_set (C:=gset item_key) l ∖ {[k]}) ≤ length l)%nat; [|lia].
    etrans; [|exact IH]. apply subseteq_size. set_solver.
Qed.

(** The pass, then the clean-up. *)
Lemma wp_do_ksm_v3 s L meta ws (Q : Z → server_st → Prop) :
  pass_inv s L [] s → take (Z.to_nat (md_pt_cnt meta)) (md_pt_descs meta) = tw_desc <$> ws →
  Forall (λ w, readable (tw_desc w) (tw_map w) (tw_pages w)) ws →
  NoDup (se_key <$> batch_of pre ws) → Forall entry_ok (batch_of pre ws) → pages_of ws < 2 ^ 31 →
  Z.of_nat (length L) + Z.of_nat (size (rmap_tree (metadata s))) + 2 * Z.of_nat (length (batch_of pre ws)) < 2 ^ 30 →
  (∀ s1 n1 s2 n2, pass_inv s L (batch_of pre ws) s1 → log_repr (log_table s1) (L ++ n1) →
     pass_end s1 (L ++ n1) s2 n2 →
     sharing_view (metadata s1) = replay pf (sharing_view (metadata s)) n1 →
     Q (pages_of ws) (with_accessed (λ _, 0) s2)) →
  wp (do_ksm_v3 cmp_and_merge_one pre meta) s Q.
Proof.
  intros Hinv Htake Hrd Hnd Hok Hpages Hlen HQ. unfold do_ksm_v3. rewrite Htake. wp_step.
  pose proof (pages_of_nonneg ws).
  eapply wp_mono; [apply (wp_scan_mms s L ws [] s 0 Hinv); simpl app; try done; lia|].
  intros r s1 [-> Hinv1]. simpl app in Hinv1. pose proof (pass_inv_size _ _ _ _ Hinv1) as Hsz.
  pose proof Hinv1 as [Hok1 Ho1 (new & HL & Hnew & HV) _ _ _ _ _ _ _].
  wp_step. eapply wp_prune_metadata; [done|exact HL|done|rewrite length_app; lia|].
  intros s2 n2 Hend _. do 3 wp_step. by eapply HQ.
Qed.
End do_ksm.
End pass.
