(* ===== verification/ErrorHandling.v ===== *)
(** * ErrorHandling: undoing the merges the host could not apply

    [codes/bask/server.c]: [do_handle_error].  The host returns the events it
    failed to apply, re-tagged; the server takes the items back out of the
    nodes they had joined. *)
From S2P Require Import Prelude Wire HashPair Store LogTable Metadata Merge MetadataInv ChainInv MetadataSpec RehashInv MergeSpec PruneSpec Scan.
Open Scope Z_scope.

(** The pages of the error table, as the log entries in them. *)
Class ErrorReads := { read_log_pages : error_table_desc_entry → Z → option (list ksm_event_log) }.

Definition find_item (mm v : Z) : M server_st loc :=
  s ← get;
  match rmap_tree (metadata s) !! (mm, v) with
  | None => halt "lookup_rmap_item failed"
  | Some item => mret item
  end.

(** [item->stable_node], NULL being reported. *)
Definition node_of_item (item : loc) : M server_st loc :=
  it ← get_item item;
  match stable_node_of it with
  | None => halt "Invalid stable node for item"
  | Some node => mret node
  end.

Definition merge_one_failed (entry : ksm_event_log) : M server_st unit :=
  item ← find_item (sm_from_mm_id entry) (sm_from_va entry);
  curr_node ← node_of_item item;
  nd ← get_node curr_node;
  halt_if (negb (node_pfn nd =? sm_kpfn entry)) "Unexpected pfn while undoing stable merge" ;;
  halt_if (shared_cnt nd <? 1) "Invalid shared count for stable node" ;;
  remove_item_from_node curr_node item ;;
  reset_item_state item ;;
  upd_item item bump_volatility ;;
  nd' ← get_node curr_node;
  whenM (shared_cnt nd' =? 0) (remove_stale_node_and_log curr_node item).

Definition merge_two_failed (entry : ksm_event_log) : M server_st unit :=
  from_item ← find_item (um_from_mm_id entry) (um_from_va entry);
  curr_node ← node_of_item from_item;
  nd ← get_node curr_node;
  reset_items (gtree_list (sharing_item_tree nd)) ;;
  remove_stable_node_no_item curr_node.

Definition handle_event (entry : ksm_event_log) : M server_st unit :=
  match log_type entry with
  | HOST_STALE_STABLE_NODE => halt "HOST_STALE_STABLE_NODE"
  | HOST_NO_STABLE_NODE => halt "HOST_NO_STABLE_NODE - currently unreachable"
  | HOST_MERGE_ONE_FAILED => merge_one_failed entry
  | HOST_MERGE_TWO_FAILED => merge_two_failed entry
  | _ => halt "Invalid event type"
  end.

Section handle.
Context `{ErrorReads}.

(** The chunks of the error table from the [i]-th on. *)
Fixpoint handle_chunks (et_desc : error_table_descriptor) (i : nat) (descs : list error_table_desc_entry)
    (total_log_cnt : Z) : M server_st Z :=
  match descs with
  | [] => mret 0
  | d :: descs' =>
    let total_sgl_entries := div_round_up (et_total_cnt et_desc * SIZEOF_KSM_EVENT_LOG) PAGE_SIZE in
    let this_sgl_size :=
      if Z.of_nat i =? et_desc_cnt et_desc - 1 then total_sgl_entries - Z.of_nat i * MAX_PAGES_IN_SGL
      else MAX_PAGES_IN_SGL in
    ok ← malloc_buf;
    if negb (ok : bool) then mret (-1) else
    match read_log_pages d this_sgl_size with
    | None => mret (-1)
    | Some buf =>
      let this_log_cnt := Z.min total_log_cnt (this_sgl_size * PAGE_SIZE / SIZEOF_KSM_EVENT_LOG) in
      for_each handle_event (take (Z.to_nat this_log_cnt) buf) ;;
      handle_chunks et_desc (S i) descs' (total_log_cnt - this_log_cnt)
    end
  end.

Definition do_handle_error (et_desc : error_table_descriptor) : M server_st Z :=
  handle_chunks et_desc 0 (take (Z.to_nat (et_desc_cnt et_desc)) (et_entries et_desc)) (et_total_cnt et_desc).
End handle.

(** ** Undoing one stable merge *)

(** A key of the view is a stable item on a live node of that frame. *)
Lemma view_stable m k p :
  metadata_ok m → sharing_view m !! k = Some p →
  ∃ l it n nd, rmap_tree m !! k = Some l ∧ items m !! l = Some it ∧ key_of it = k ∧ state it = Stable ∧
    stable_node_of it = Some n ∧ nodes m !! n = Some nd ∧ node_pfn nd = p ∧ sharing_item_tree nd !! k = Some l.
Proof.
  intros [C Hwf]. rewrite sharing_view_lookup. destruct (rmap_tree m !! k) as [l|] eqn:Hk; simpl; [|done].
  pose proof Hk as Hk'. apply (wf_rmap _ _ _ _ Hwf) in Hk' as (it & Hl & Hkey). rewrite Hl. simpl.
  unfold node_pfn_of. destruct (state it) eqn:Hst; try done. intros E.
  destruct (stable_item_node C m l it Hwf Hl Hst) as (n & nd & Hsn & Hn & Ht & _).
  rewrite Hsn in E. simpl in E. rewrite Hn in E. simpl in E. injection E as <-.
  exists l, it, n, nd. rewrite <- Hkey. split_and!; congruence.
Qed.

Record undone1 (s : server_st) (L : list ksm_event_log) (k : item_key) (s' : server_st)
    (new : list ksm_event_log) : Prop := Undone1 {
  ud_ok : metadata_ok (metadata s');
  ud_log : log_repr (log_table s') (L ++ new);
  ud_oom : no_oom s';
  ud_len : (length new ≤ 1)%nat;
  ud_rmap : rmap_tree (metadata s') = rmap_tree (metadata s);
  ud_view : sharing_view (metadata s') = delete k (sharing_view (metadata s)) }.

Lemma wp_merge_one_failed s L e (Q : unit → server_st → Prop) :
  metadata_ok (metadata s) → log_repr (log_table s) L → no_oom s → Z.of_nat (length L) < 2 ^ 30 →
  sharing_view (metadata s) !! (sm_from_mm_id e, sm_from_va e) = Some (sm_kpfn e) →
  (∀ s' new, undone1 s L (sm_from_mm_id e, sm_from_va e) s' new → Q tt s') →
  wp (merge_one_failed e) s Q.
Proof.
  intros Hok HL Ho Hlen Hv HQ.
  destruct (view_stable _ _ _ Hok Hv) as (l & it & n & nd & Hk & Hl & Hkey & Hst & Hsn & Hn & Hp & Ht).
  destruct Hok as [C Hwf]. destruct (leave_key C s l it n nd Hwf Hl Hst Hsn Hn) as (Hwf2 & Hcnt & Hpos & HV).
  unfold merge_one_failed, find_item, node_of_item.
  do 3 wp_step. rewrite Hk. do 3 wp_step. eapply wp_get_item; [exact Hl|]. rewrite Hsn. wp_step.
  wp_step. eapply wp_get_node; [exact Hn|]. wp_step. apply wp_halt_if; [by rewrite Hp, Z.eqb_refl|].
  wp_step. apply wp_halt_if; [apply Z.ltb_ge; lia|].
  wp_step. eapply wp_remove_item_from_node; [exact Hl|exact Hn|].
  wp_step. unfold reset_item_state. eapply wp_upd_item; [exact Hl|].
  wp_step. eapply wp_upd_item; [apply lookup_insert_eq|].
  wp_step. eapply wp_get_node; [apply lookup_insert_eq|].
  set (it' := bump_volatility (reset_item it)).
  match goal with |- wp _ ?st _ => assert (st = with_metadata (λ m, upd_items (<[l := it']>)
    (upd_nodes (<[n := left_node it nd]>) m)) s) as -> end.
  { unfold with_metadata, upd_items, upd_nodes; simpl. by rewrite insert_insert_eq. }
  assert (Hwf3 : wf C (Some l) (Some n) (upd_items (<[l := it']>) (upd_nodes (<[n := left_node it nd]>) (metadata s)))).
  { pose proof (wf_upd_transit C (Some n) _ l (reset_item it) it' Hwf2 ltac:(apply lookup_insert_eq) eq_refl) as H.
    unfold upd_items in H at 1. simpl in H. by rewrite insert_insert_eq in H. }
  assert (HV' : sharing_view (upd_items (<[l := it']>) (upd_nodes (<[n := left_node it nd]>) (metadata s)))
    = delete (key_of it) (sharing_view (metadata s))).
  { by eapply sharing_view_leave; [destruct Hwf|..]. }
  apply wp_whenM; intros Hz.
  - apply Z.eqb_eq in Hz. assert (sharing_item_tree (left_node it nd) = ∅) as Hemp.
    { eapply counted_zero; [exact (wf_share _ _ _ _ Hwf3)|apply lookup_insert_eq|done]. }
    eapply (wp_remove_stale_node_and_log C (Some l));
      [exact Hwf3|apply lookup_insert_eq|done|apply lookup_insert_eq|exact HL|done..|].
    intros C' N' T' t a m' Hwf' Hrel Hdel HL' Ha. eapply HQ. rewrite <- Hkey.
    split; [|exact HL'|done|done|done|].
    + exists C'. eapply (wf_close_volatile C' None _ l it'); [exact Hwf'|apply lookup_insert_eq|done].
    + rewrite <- HV'. eapply (sharing_view_relinked C l it');
        [exact Hwf3|apply lookup_insert_eq|done|apply lookup_insert_eq|done|done].
  - apply Z.eqb_neq in Hz. apply (HQ _ []). rewrite <- Hkey. split; [|by rewrite app_nil_r|done|simpl; lia|done|done].
    exists C. eapply (wf_close_volatile C None _ l it'); [|apply lookup_insert_eq|done].
    eapply wf_close_node; [exact Hwf3|apply lookup_insert_eq|]. lia.
Qed.

(** ** Undoing a report *)
Definition failed_key (e : ksm_event_log) : item_key := (sm_from_mm_id e, sm_from_va e).

(** A report of failed stable merges, each of an item still merged. *)
Record undoable (s : server_st) (L : list ksm_event_log) (es : list ksm_event_log) : Prop := Undoable {
  un_ok : metadata_ok (metadata s);
  un_log : log_repr (log_table s) L;
  un_oom : no_oom s;
  un_len : Z.of_nat (length L) + Z.of_nat (length es) < 2 ^ 30;
  un_merged : Forall (λ e, log_type e = HOST_MERGE_ONE_FAILED ∧
    sharing_view (metadata s) !! failed_key e = Some (sm_kpfn e)) es;
  un_distinct : NoDup (failed_key <$> es) }.

Record undone (s : server_st) (L : list ksm_event_log) (es : list ksm_event_log) (s' : server_st) : Prop := Undone {
  ue_ok : metadata_ok (metadata s');
  ue_oom : no_oom s';
  ue_log : ∃ new, log_repr (log_table s') (L ++ new) ∧ (length new ≤ length es)%nat;
  ue_rmap : rmap_tree (metadata s') = rmap_tree (metadata s);
  ue_view : sharing_view (metadata s') = foldl (λ V e, delete (failed_key e) V) (sharing_view (metadata s)) es }.

Lemma lookup_foldl_delete (V : gmap item_key Z) es k :
  k ∉ failed_key <$> es → foldl (λ V e, delete (failed_key e) V) V es !! k = V !! k.
Proof.
  revert V. induction es as [|e es IH]; intros V Hk; [done|]. rewrite fmap_cons, not_elem_of_cons in Hk. simpl.
  rewrite IH by tauto. by rewrite lookup_delete_ne by naive_solver.
Qed.

(** After the first entries of a report the rest can still be undone. *)
Lemma undoable_rest s L es1 es2 s' :
  undoable s L (es1 ++ es2) → undone s L es1 s' →
  ∃ new, (length new ≤ length es1)%nat ∧ undoable s' (L ++ new) es2.
Proof.
  intros [U1 U2 U3 U4 U5 U6] [V1 V2 (new & V3 & V4) V5 V6]. exists new. split; [done|].
  rewrite length_app in U4. rewrite fmap_app, NoDup_app in U6. destruct U6 as (_ & Hd & U6).
  apply Forall_app in U5 as [_ U5]. split; [done|done|done|rewrite length_app; lia| |done].
  rewrite Forall_forall in U5 |- *. intros e He. destruct (U5 e He) as [-> E]. split; [done|].
  rewrite V6, lookup_foldl_delete; [done|]. intros Hin. apply (Hd _ Hin). apply list_elem_of_fmap. by exists e.
Qed.

Lemma undone_trans s L es1 es2 s1 L1 s2 new :
  (length new ≤ length es1)%nat → L1 = L ++ new → undone s L es1 s1 → undone s1 L1 es2 s2 → undone s L (es1 ++ es2) s2.
Proof.
  intros Hn -> [V1 V2 _ V5 V6] [W1 W2 (new2 & W3 & W4) W5 W6]. split; [done|done| |congruence|by rewrite foldl_app, W6, V6].
  exists (new ++ new2). rewrite app_assoc, !length_app. split; [done|lia].
Qed.

Lemma wp_undo_stable_merges s L es :
  undoable s L es → wp (for_each handle_event es) s (λ _ s', undone s L es s').
Proof.
  revert s L. induction es as [|e es IH]; intros s L Hu; pose proof Hu as [Hok HL Ho Hlen Hes Hnd].
  - simpl. wp_step. split; [done|done| |done|done]. exists []. by rewrite app_nil_r.
  - apply Forall_cons in Hes as [[Ht He] _]. cbn [length] in Hlen. cbn [for_each]. wp_step. unfold handle_event. rewrite Ht.
    eapply wp_merge_one_failed; [done|exact HL|done|lia|exact He|]. intros s' new [U1 U2 U3 U4 U5 U6].
    assert (undone s L [e] s') as He1.
    { split; [done|done|by exists new|done|done]. }
    destruct (undoable_rest s L [e] es s' Hu He1) as (new' & Hn' & Hu').
    eapply wp_mono; [by apply IH|]. intros [] s2 H2. by eapply (undone_trans _ _ [e] es).
Qed.

Section report.
Context `{ErrorReads}.

(** The host serves the entries [es] as [total] entries spread over chunks. *)
Fixpoint logs_readable (et_desc : error_table_descriptor) (i : nat) (descs : list error_table_desc_entry)
    (total : Z) (es : list ksm_event_log) : Prop :=
  match descs with
  | [] => es = []
  | d :: descs' =>
    let total_sgl_entries := div_round_up (et_total_cnt et_desc * SIZEOF_KSM_EVENT_LOG) PAGE_SIZE in
    let size := if Z.of_nat i =? et_desc_cnt et_desc - 1 then total_sgl_entries - Z.of_nat i * MAX_PAGES_IN_SGL
                else MAX_PAGES_IN_SGL in
    let n := Z.min total (size * PAGE_SIZE / SIZEOF_KSM_EVENT_LOG) in
    (∃ buf, read_log_pages d size = Some buf ∧ take (Z.to_nat n) buf = take (Z.to_nat n) es) ∧
    logs_readable et_desc (S i) descs' (total - n) (drop (Z.to_nat n) es)
  end.

Lemma undone_start s L es a : NoMem ∉ a → undoable s L es → undoable (with_answers (λ _, a) s) L es.
Proof. intros Ha []. by split. Qed.

Lemma undone_weaken s L es a s' : undone (with_answers (λ _, a) s) L es s' → undone s L es s'.
Proof. intros []. by split. Qed.

Lemma wp_handle_chunks et_desc i descs total es s L :
  undoable s L es → logs_readable et_desc i descs total es →
  wp (handle_chunks et_desc i descs total) s (λ r s', r = 0 ∧ undone s L es s').
Proof.
  revert i total es s L. induction descs as [|d descs IH]; intros i total es s L Hu Hr.
  - simpl in Hr. subst es. simpl. wp_step. split; [done|]. destruct Hu. split; [done|done| |done|done].
    exists []. by rewrite app_nil_r.
  - cbn [logs_readable] in Hr. cbn [handle_chunks]. cbv zeta in Hr |- *.
    set (size := if Z.of_nat i =? _ then _ else _) in *. set (n := Z.min total _) in *.
    destruct Hr as ((buf & Hb & Htake) & Hr). unfold malloc_buf. wp_step. wp_step.
    eapply wp_next_answer; [apply Hu|]. intros j a Ha. wp_step. simpl negb. cbv iota. rewrite Hb.
    rewrite Htake. pose proof (undone_start _ _ _ _ Ha Hu) as Hu1.
    rewrite <- (take_drop (Z.to_nat n) es) in Hu1.
    assert (undoable (with_answers (λ _, a) s) L (take (Z.to_nat n) es)) as Hu0.
    { destruct Hu1 as [U1 U2 U3 U4 U5 U6]. rewrite length_app in U4. apply Forall_app in U5 as [U5 _].
      rewrite fmap_app, NoDup_app in U6. split; try done; [lia|tauto]. }
    wp_step. eapply wp_mono; [by apply wp_undo_stable_merges|]. intros [] s1 H1.
    destruct (undoable_rest _ _ _ _ _ Hu1 H1) as (new & Hn & Hu2).
    eapply wp_mono; [by eapply IH|]. intros r s2 [-> H2]. split; [done|]. apply (undone_weaken _ _ _ a).
    rewrite <- (take_drop (Z.to_nat n) es). by eapply undone_trans.
Qed.
End report.

(** ** Undoing a new stable node *)
Definition reset_all (D : list loc) (I : gmap loc rmap_item) : gmap loc rmap_item :=
  map_imap (λ l it, Some (if decide (l ∈ D) then bump_volatility (reset_item it) else it)) I.

Lemma lookup_reset_all D I l :
  reset_all D I !! l = (λ it, if decide (l ∈ D) then bump_volatility (reset_item it) else it) <$> I !! l.
Proof. unfold reset_all. rewrite map_lookup_imap. by destruct (I !! l). Qed.

Lemma reset_all_nil I : reset_all [] I = I.
Proof. apply map_eq. intros l. rewrite lookup_reset_all. by destruct (I !! l). Qed.

Lemma reset_all_snoc D I l it :
  I !! l = Some it → l ∉ D →
  <[l := bump_volatility (reset_item it)]> (reset_all D I) = reset_all (D ++ [l]) I.
Proof.
  intros Hl Hnd. apply map_eq. intros k. rewrite lookup_reset_all. destruct (decide (l = k)) as [<-|Hne].
  - rewrite lookup_insert_eq, Hl. simpl. by rewrite decide_True by set_solver.
  - rewrite lookup_insert_ne, lookup_reset_all by done. destruct (I !! k); [simpl|done]. f_equal.
    apply decide_ext. set_solver.
Qed.

Lemma wp_reset_items s l1 l2 (Q : unit → server_st → Prop) :
  NoDup (l1 ++ l2).*2 →
  (∀ k i, (k, i) ∈ l2 → ∃ it, items (metadata s) !! i = Some it ∧ state it = Stable) →
  Q tt (with_metadata (upd_items (reset_all (l1 ++ l2).*2)) s) →
  wp (reset_items l2) (with_metadata (upd_items (reset_all l1.*2)) s) Q.
Proof.
  revert l1. induction l2 as [|[k i] l2 IH]; intros l1 Hnd Hst HQ; simpl.
  - rewrite app_nil_r in HQ. by wp_step.
  - destruct (Hst k i ltac:(set_solver)) as (it & Hi & Hs).
    assert (i ∉ l1.*2) as Hni.
    { rewrite fmap_app in Hnd. apply NoDup_app in Hnd as (_ & Hd & _). intros Hin. apply (Hd i Hin). apply list_elem_of_here. }
    assert (items (metadata (with_metadata (upd_items (reset_all l1.*2)) s)) !! i = Some it) as Hi'.
    { simpl. rewrite lookup_reset_all, Hi. simpl. by rewrite decide_False. }
    wp_step. unfold reset_each_item_state, reset_item_state. wp_step. eapply wp_get_item; [exact Hi'|].
    rewrite decide_False by (rewrite Hs; tauto). wp_step. eapply wp_upd_item; [exact Hi'|].
    wp_step. eapply wp_upd_item; [apply lookup_insert_eq|]. wp_step.
    match goal with |- wp _ ?st _ =>
      assert (st = with_metadata (upd_items (reset_all (l1 ++ [(k, i)]).*2)) s) as -> end.
    { unfold with_metadata, upd_items; simpl. rewrite insert_insert_eq, (reset_all_snoc _ _ _ it) by done.
      by rewrite fmap_app. }
    apply IH; [by rewrite <- app_assoc| |by rewrite <- app_assoc]. intros k' i' Hin. apply (Hst k'). set_solver.
Qed.

(** The invariant with the node emptied. *)
Lemma inv_share_reset C m n nd :
  wf C None None m → nodes m !! n = Some nd →
  inv_share None (Some n) (reset_all (tree_items nd) (items m)) (<[n := set_sharing 0 ∅ nd]> (nodes m)).
Proof.
  intros [Hr [Hs1 Hs2 Hs3] _ _] Hn. split.
  - intros l it'. rewrite lookup_reset_all. destruct (items m !! l) as [it|] eqn:Hl; simpl; [|done].
    intros [= <-] _. specialize (Hs1 l it Hl ltac:(done)). case_decide as Hd.
    { unfold item_ok, bump_volatility. done. }
    unfold item_ok in *. destruct (state it) eqn:Hst; try done. destruct Hs1 as (n' & nd' & E1 & E2 & E3 & E4).
    exists n', nd'. rewrite lookup_insert_ne; [done|]. intros <-. apply Hd. replace nd with nd' by congruence.
    apply elem_of_tree_items. eauto.
  - intros n' nd' Hn' k l Hk. split; [done|]. apply lookup_insert_Some in Hn' as [[<- <-]|[Hne Hn']].
    { simpl in Hk. by rewrite lookup_empty in Hk. }
    destruct (Hs2 n' nd' Hn' k l Hk) as (_ & it & Hl & E1 & E2 & E3). exists it.
    rewrite lookup_reset_all, Hl. simpl. rewrite decide_False; [done|].
    intros (k' & Hk')%elem_of_tree_items. destruct (Hs2 n nd Hn k' l Hk') as (_ & it' & Hl' & _ & _ & E3').
    congruence.
  - intros n' nd' [[<- <-]|[Hne Hn']]%lookup_insert_Some.
    + unfold counted. simpl. rewrite map_size_empty. split_and!; [done|done|]. done.
    + destruct (Hs3 n' nd' Hn') as (? & ? & Hpos). split_and!; [done..|]. intros _. by apply Hpos.
Qed.

Lemma inv_rmap_reset m D : inv_rmap (rmap_tree m) (items m) → inv_rmap (rmap_tree m) (reset_all D (items m)).
Proof.
  intros Hr k l. rewrite (Hr k l), lookup_reset_all. destruct (items m !! l) as [it|]; simpl; [|naive_solver].
  split; intros (it' & [= <-] & Hk); eexists; (split; [done|]); revert Hk; by case_decide.
Qed.

Lemma inv_unst_reset C m n nd :
  wf C None None m → nodes m !! n = Some nd →
  inv_unst None (reset_all (tree_items nd) (items m)) (unstable_hash_table m).
Proof.
  intros [_ [_ Hs2 _] _ Hu] Hn h l. rewrite (Hu h l), lookup_reset_all.
  assert (∀ it, items m !! l = Some it → l ∈ tree_items nd → state it = Stable) as Hst.
  { intros it Hl (k & Hk)%elem_of_tree_items. destruct (Hs2 n nd Hn k l Hk) as (_ & it' & Hl' & _ & E & _). congruence. }
  destruct (items m !! l) as [it|]; simpl; [|naive_solver]. specialize (Hst it eq_refl).
  split; intros [_ (it' & [= <-] & E1 & E2)]; (split; [done|]); eexists; (split; [done|]).
  - case_decide as Hd; [|done]. apply Hst in Hd. congruence.
  - revert E1 E2. by case_decide.
Qed.

(** Every item that shared the node loses its frame; nothing else changes. *)
Record undone2 (s : server_st) (n : loc) (nd : stable_node) (s' : server_st) : Prop := Undone2 {
  u2_ok : metadata_ok (metadata s');
  u2_log : log_table s' = log_table s;
  u2_oom : no_oom s';
  u2_rmap : rmap_tree (metadata s') = rmap_tree (metadata s);
  u2_node : nodes (metadata s') !! n = None;
  u2_view : sharing_view (metadata s') =
            filter (λ kp, sharing_item_tree nd !! kp.1 = None) (sharing_view (metadata s)) }.

Lemma view_reset C m n nd N' T' :
  wf C None None m → nodes m !! n = Some nd → relinked (nodes m) N' n →
  sharing_view (upd_nodes (λ _, N') (upd_stable (λ _, T') (upd_items (reset_all (tree_items nd)) m))) =
  filter (λ kp, sharing_item_tree nd !! kp.1 = None) (sharing_view m).
Proof.
  intros Hwf Hn Hrel. apply map_eq. intros k. rewrite map_lookup_filter, !sharing_view_lookup. simpl.
  destruct (rmap_tree m !! k) as [l|] eqn:Hk; [simpl|done]. rewrite lookup_reset_all.
  pose proof Hk as Hk'. apply (wf_rmap _ _ _ _ Hwf) in Hk' as (it & Hl & Hkey). rewrite Hl. simpl.
  destruct (decide (l ∈ tree_items nd)) as [Hd|Hd].
  - apply elem_of_tree_items in Hd as [k' Hd].
    destruct (is_nodes _ _ _ _ (wf_share _ _ _ _ Hwf) n nd Hn k' l Hd) as (_ & it' & Hl' & Hk' & Hst & Hsn).
    assert (k' = k) as -> by congruence. replace it' with it in * by congruence.
    unfold node_pfn_of. rewrite Hst, Hsn. simpl. rewrite Hn. simpl. rewrite Hd. by rewrite option_guard_False.
  - assert (sharing_item_tree nd !! k = None) as Hnone.
    { destruct (sharing_item_tree nd !! k) as [l'|] eqn:E; [|done]. exfalso. apply Hd, elem_of_tree_items. exists k.
      destruct (is_nodes _ _ _ _ (wf_share _ _ _ _ Hwf) n nd Hn k l' E) as (_ & it' & Hl' & Hk' & _).
      assert (rmap_tree m !! k = Some l') by (apply (wf_rmap _ _ _ _ Hwf); eauto). congruence. }
    assert (node_pfn_of N' it = node_pfn_of (nodes m) it) as ->.
    { apply node_pfn_of_content. intros j Hj Hsi. apply Hrel. intros ->.
      destruct (stable_item_node C m l it Hwf Hl Hsi) as (n' & nd' & E1 & E2 & E3 & _).
      replace nd' with nd in * by congruence. congruence. }
    destruct (node_pfn_of (nodes m) it); simpl; [|done]. by rewrite option_guard_True.
Qed.

Lemma wp_merge_two_failed s e p (Q : unit → server_st → Prop) :
  metadata_ok (metadata s) → no_oom s →
  sharing_view (metadata s) !! (um_from_mm_id e, um_from_va e) = Some p →
  (∀ s' n nd, nodes (metadata s) !! n = Some nd → node_pfn nd = p →
     is_Some (sharing_item_tree nd !! (um_from_mm_id e, um_from_va e)) → undone2 s n nd s' → Q tt s') →
  wp (merge_two_failed e) s Q.
Proof.
  intros Hok Ho Hv HQ.
  destruct (view_stable _ _ _ Hok Hv) as (l & it & n & nd & Hk & Hl & Hkey & Hst & Hsn & Hn & Hp & Ht).
  destruct Hok as [C Hwf]. unfold merge_two_failed, find_item, node_of_item.
  do 3 wp_step. rewrite Hk. do 3 wp_step. eapply wp_get_item; [exact Hl|]. rewrite Hsn. wp_step.
  wp_step. eapply wp_get_node; [exact Hn|]. wp_step.
  assert (s = with_metadata (upd_items (reset_all ([] : list (item_key * loc)).*2)) s) as Hs0.
  { unfold with_metadata, upd_items; simpl. rewrite reset_all_nil. by destruct s as [[] ? ? ? ? ? ?]. }
  rewrite Hs0 at 1. eapply wp_reset_items; simpl app.
  - apply NoDup_fmap_2_strong; [|apply NoDup_fmap_1 with (f := fst); apply gtree_list_NoDup_keys].
    intros [k1 i1] [k2 i2] H1%elem_of_gtree_list H2%elem_of_gtree_list Heq. simpl in Heq. subst i2.
    destruct (is_nodes _ _ _ _ (wf_share _ _ _ _ Hwf) n nd Hn k1 i1 H1) as (_ & j1 & ? & ? & _).
    destruct (is_nodes _ _ _ _ (wf_share _ _ _ _ Hwf) n nd Hn k2 i1 H2) as (_ & j2 & ? & ? & _). congruence.
  - intros k i Hin%elem_of_gtree_list.
    destruct (is_nodes _ _ _ _ (wf_share _ _ _ _ Hwf) n nd Hn k i Hin) as (_ & it' & ? & _ & ? & _). eauto.
  - change ((gtree_list (sharing_item_tree nd)).*2) with (tree_items nd).
    eapply wp_remove_stable_node_no_item; [exact (wf_chain _ _ _ _ Hwf)|exact Hn|].
    intros C' N' T' Hc' Hrel Hdel. apply (HQ _ n nd); [done|done|eauto|].
    split; [|done|done|done|exact Hdel|by apply (view_reset C _ n)].
    exists C'. split; simpl; [apply inv_rmap_reset; by destruct Hwf| |exact Hc'|by eapply inv_unst_reset].
    eapply (inv_share_relinked None n _ _ N'); [by eapply inv_share_reset|apply lookup_insert_eq|done| |done].
    intros k Hkn. rewrite lookup_insert_ne by done. by apply Hrel.
Qed.
