(* ===== verification/PreHash.v ===== *)
(** * PreHash: the thread that hashes pages ahead of the KSM worker

    [codes/bask/server.h]: [init_pre_hash_pair_table],
    [start_pre_hash_pair_table], [pre_hash_worker], [lookup_pre_hash_pair].
    Two threads share the state below; each transition is one critical section
    of [pre_hash_worker_lock] or one access to shared memory.  The client (the
    KSM worker) is outside a job, spinning in [start_pre_hash_pair_table], or
    scanning the pages it announced; only outside a job is the page buffer
    freed or refilled. *)
From S2P Require Import Prelude Wire HashPair.
Open Scope Z_scope.

Definition PRE_HASH_NUM : Z := 16384.

Inductive working_status := NO_WORKER | WORKER_READY | DATA_READY | IN_PROGRESS | WORK_DONE | STOP.

#[export] Instance working_status_eq_dec : EqDecision working_status.
Proof. solve_decision. Defined.

(** Where [pre_hash_worker] is: at the top of its loop, before [memset], at
    the [for] test with [i], past the STOP test, after the two hashes, past
    the [for]. *)
Inductive worker_pc := WIdle | WClear | WLoop (i : Z) | WHash (i : Z) | WAdd (i : Z) | WFinish.

Inductive client_pc := COut | CStarting | CInJob.

Record pre_hash_st := PreHashSt {
  pre_hash_worker_status : working_status;
  pre_hash_pair_table_base_ptr : Z;
  pre_hash_pair_max_idx : Z;
  pre_hash_pair_chunk : Z → hash_pair;
  pre_hash_pair_curr_idx : Z;
  wpc : worker_pc;
  cpc : client_pc;
  memory : Z → page;      (* the page at an address *)
  freed : bool }.         (* the buffer of the last job was freed *)

Definition with_status (v : working_status) (p : worker_pc) (st : pre_hash_st) : pre_hash_st :=
  PreHashSt v (pre_hash_pair_table_base_ptr st) (pre_hash_pair_max_idx st) (pre_hash_pair_chunk st)
    (pre_hash_pair_curr_idx st) p (cpc st) (memory st) (freed st).
Definition with_client (c : client_pc) (mem : Z → page) (fr : bool) (st : pre_hash_st) : pre_hash_st :=
  PreHashSt (pre_hash_worker_status st) (pre_hash_pair_table_base_ptr st) (pre_hash_pair_max_idx st)
    (pre_hash_pair_chunk st) (pre_hash_pair_curr_idx st) (wpc st) c mem fr.
Definition with_chunk (c : Z → hash_pair) (p : worker_pc) (st : pre_hash_st) : pre_hash_st :=
  PreHashSt (pre_hash_worker_status st) (pre_hash_pair_table_base_ptr st) (pre_hash_pair_max_idx st)
    c (pre_hash_pair_curr_idx st) p (cpc st) (memory st) (freed st).
Definition with_curr (n : Z) (p : worker_pc) (st : pre_hash_st) : pre_hash_st :=
  PreHashSt (pre_hash_worker_status st) (pre_hash_pair_table_base_ptr st) (pre_hash_pair_max_idx st)
    (pre_hash_pair_chunk st) n p (cpc st) (memory st) (freed st).

(** [init_pre_hash_pair_table], the [malloc] having succeeded. *)
Definition init_pre_hash_pair_table (mem : Z → page) (junk : Z → hash_pair) : pre_hash_st :=
  PreHashSt WORKER_READY 0 0 junk 0 WIdle COut mem false.

(** One iteration of the spin loop of [start_pre_hash_pair_table]. *)
Definition start_pre_hash_pair_table (base_ptr max_idx : Z) (st : pre_hash_st) : pre_hash_st :=
  match pre_hash_worker_status st with
  | WORKER_READY | WORK_DONE =>
    PreHashSt DATA_READY base_ptr max_idx (pre_hash_pair_chunk st) 0 (wpc st) CInJob (memory st) (freed st)
  | IN_PROGRESS => with_status STOP (wpc st) st
  | _ => st
  end.

Section worker.
Context `{XXHash}.

(** One step of [pre_hash_worker]; [None]: it found nothing to do. *)
Definition pre_hash_worker (st : pre_hash_st) : option pre_hash_st :=
  match wpc st with
  | WIdle =>
    if decide (pre_hash_worker_status st = DATA_READY) then Some (with_status IN_PROGRESS WClear st) else None
  | WClear => Some (with_chunk (λ _, null_hash) (WLoop 0) st)
  | WLoop i =>
    if i <? pre_hash_pair_max_idx st then
      if decide (pre_hash_worker_status st = STOP)
      then Some (with_status (pre_hash_worker_status st) WFinish st)
      else Some (with_status (pre_hash_worker_status st) (WHash i) st)
    else Some (with_status (pre_hash_worker_status st) WFinish st)
  | WHash i =>
    let h := page_hash_pair (memory st (pre_hash_pair_table_base_ptr st + i * PAGE_SIZE)) in
    Some (with_chunk (λ j, if j =? i then h else pre_hash_pair_chunk st j) (WAdd i) st)
  | WAdd i => Some (with_curr (pre_hash_pair_curr_idx st + 1) (WLoop (i + 1)) st)
  | WFinish => Some (with_status WORK_DONE WIdle st)
  end.

Inductive ph_step : pre_hash_st → pre_hash_st → Prop :=
| ph_worker st st' : pre_hash_worker st = Some st' → ph_step st st'
| ph_begin st : cpc st ≠ CStarting → ph_step st (with_client CStarting (memory st) (freed st) st)
| ph_start st base max : cpc st = CStarting → 0 ≤ max ≤ PRE_HASH_NUM →
    ph_step st (start_pre_hash_pair_table base max st)
| ph_end st : cpc st = CInJob → ph_step st (with_client COut (memory st) (freed st) st)
| ph_free st : cpc st = COut → ph_step st (with_client COut (memory st) true st)
| ph_refill st mem : cpc st = COut → ph_step st (with_client COut mem false st).

Inductive ph_reachable (mem : Z → page) (junk : Z → hash_pair) : pre_hash_st → Prop :=
| ph_init : ph_reachable mem junk (init_pre_hash_pair_table mem junk)
| ph_next st st' : ph_reachable mem junk st → ph_step st st' → ph_reachable mem junk st'.

(** [lookup_pre_hash_pair]; [on] is [pre_hash_opt]. *)
Definition lookup_pre_hash_pair (on : bool) (page_buf : Z) (st : pre_hash_st) : outcome (option hash_pair) :=
  if negb on then Ok None
  else
    let page_idx := u64 (page_buf - pre_hash_pair_table_base_ptr st) / PAGE_SIZE in
    let idx := pre_hash_pair_curr_idx st in
    if PRE_HASH_NUM <=? page_idx then Halt "Invalid page idx for pre_hash_pair"
    else if page_idx <? idx then Ok (Some (pre_hash_pair_chunk st page_idx))
    else Ok None.

(** What makes the lookups right. *)
Record ph_inv (st : pre_hash_st) : Prop := PhInv {
  ph_bounds : 0 ≤ pre_hash_pair_curr_idx st ≤ pre_hash_pair_max_idx st ∧ pre_hash_pair_max_idx st ≤ PRE_HASH_NUM;
  ph_status : match pre_hash_worker_status st with
              | IN_PROGRESS | STOP => wpc st ≠ WIdle
              | _ => wpc st = WIdle
              end;
  ph_ready : pre_hash_worker_status st = DATA_READY → pre_hash_pair_curr_idx st = 0;
  ph_index : match wpc st with
             | WClear => pre_hash_pair_curr_idx st = 0
             | WLoop i => i = pre_hash_pair_curr_idx st
             | WHash i | WAdd i => i = pre_hash_pair_curr_idx st ∧ i < pre_hash_pair_max_idx st
             | _ => True
             end;
  ph_chunk : cpc st = CInJob → ∀ j,
     (0 ≤ j < pre_hash_pair_curr_idx st ∨ (0 ≤ j ∧ wpc st = WAdd j)) →
     pre_hash_pair_chunk st j = page_hash_pair (memory st (pre_hash_pair_table_base_ptr st + j * PAGE_SIZE)) }.

Lemma ph_inv_init mem junk : ph_inv (init_pre_hash_pair_table mem junk).
Proof. by split. Qed.

Lemma ph_inv_worker st st' : ph_inv st → pre_hash_worker st = Some st' → ph_inv st'.
Proof.
  intros [H1 H2 H3 H4 H5]. unfold pre_hash_worker. destruct (wpc st) as [| |i|i|i|] eqn:Ep; simpl in *.
  - case_decide as Hd; [|done]. intros [= <-]. specialize (H3 Hd). split; simpl; try done.
    intros Hc j [Hj|[_ Hj]]; [lia|done].
  - intros [= <-]. split; simpl; try done; [by destruct (pre_hash_worker_status st)|].
    intros Hc j [Hj|[_ Hj]]; [lia|done].
  - subst i. destruct (Z.ltb_spec (pre_hash_pair_curr_idx st) (pre_hash_pair_max_idx st)); [case_decide|];
      intros [= <-]; (split; simpl; try done; [by destruct (pre_hash_worker_status st)|]);
      intros Hc j [Hj|[_ Hj]]; try done; apply H5; auto.
  - destruct H4 as [-> Hlt]. intros [= <-]. split; simpl; try done; [by destruct (pre_hash_worker_status st)|].
    intros Hc j Hj. destruct (Z.eqb_spec j (pre_hash_pair_curr_idx st)) as [->|Hne]; [done|].
    apply H5; [done|]. destruct Hj as [?|[_ Hj]]; [by left|congruence].
  - destruct H4 as [-> Hlt]. intros [= <-]. split; simpl; try done.
    + lia.
    + by destruct (pre_hash_worker_status st).
    + intros Hs. by rewrite Hs in H2.
    + intros Hc j [Hj|[_ Hj]]; [|done]. apply H5; [done|].
      destruct (decide (j = pre_hash_pair_curr_idx st)) as [->|]; [right; split; [lia|done]|left; lia].
  - intros [= <-]. split; simpl; try done. intros Hc j [Hj|[_ Hj]]; [|done]. apply H5; auto.
Qed.

Lemma ph_inv_step st st' : ph_inv st → ph_step st st' → ph_inv st'.
Proof.
  intros Hinv Hstep. destruct Hstep as [st st' Hw|st Hc|st base max Hc Hmax|st Hc|st Hc|st mem Hc].
  - by eapply ph_inv_worker.
  - destruct Hinv. by split.
  - destruct Hinv as [H1 H2 H3 H4 H5]. unfold start_pre_hash_pair_table.
    destruct (pre_hash_worker_status st) eqn:Es; split; simpl; rewrite ?Es, ?Hc; try done;
      try (rewrite H2; done); try lia; intros _ j [Hj|[_ Hj]]; try lia; congruence.
  - destruct Hinv. split; simpl; done.
  - destruct Hinv. split; simpl; done.
  - destruct Hinv. split; simpl; done.
Qed.

Lemma ph_inv_reachable mem junk st : ph_reachable mem junk st → ph_inv st.
Proof. induction 1; [apply ph_inv_init|by eapply ph_inv_step]. Qed.

(** The pages of the announced range. *)
Definition in_range (st : pre_hash_st) (page_buf i : Z) : Prop :=
  page_buf = pre_hash_pair_table_base_ptr st + i * PAGE_SIZE ∧ 0 ≤ i < pre_hash_pair_max_idx st.

Lemma page_idx_in_range st page_buf i :
  ph_inv st → in_range st page_buf i →
  u64 (page_buf - pre_hash_pair_table_base_ptr st) / PAGE_SIZE = i ∧ i < PRE_HASH_NUM.
Proof.
  intros [H1 _ _ _ _] [-> Hi]. unfold PRE_HASH_NUM, PAGE_SIZE in *. split; [|lia].
  rewrite wrap_u_small by lia.
  replace (pre_hash_pair_table_base_ptr st + i * 4096 - pre_hash_pair_table_base_ptr st) with (i * 4096) by lia.
  by apply Z.div_mul.
Qed.

(** The worker, run alone, [n] steps. *)
Fixpoint run_worker (n : nat) (st : pre_hash_st) : pre_hash_st :=
  match n with
  | O => st
  | S n' => match pre_hash_worker st with Some st' => run_worker n' st' | None => st end
  end.

End worker.
