(* ===== verification/Handoff.v ===== *)
(** * Handoff: passing page buffers from [do_ksm_v3] to [ksm_page_worker]

    [codes/bask/server.c]: the chunks of one page table go through the single
    slot [worker_todo].  The main thread fetches the next chunk while the
    worker scans the previous one and frees a buffer once the next is posted.
    A transition is one critical section of [page_worker_mutex] (the worker
    holds the mutex for a whole job) or one action of the main thread outside
    it.  Buffers are named by the index of their chunk. *)
From S2P Require Import Prelude PreHash.
Open Scope Z_scope.

(** The main thread: about to fetch chunk [k], to post it, to free its
    predecessor, waiting for the last job, done. *)
Inductive main_pc := MRead (k : nat) | MPost (k : nat) | MFree (k : nat) | MWait | MDone.

Record handoff_st := HandoffSt {
  worker_status : working_status;
  todo_buf : option nat;           (* worker_todo.pages_buf *)
  todo_num_pages : Z;              (* worker_todo.num_pages *)
  mpc : main_pc;
  prev_page_buf : option nat;
  live_bufs : gset nat;
  scanned : list nat;              (* chunks the worker has scanned, in order *)
  scanned_cnt : Z }.

Definition initial_handoff : handoff_st := HandoffSt WORKER_READY None 0 (MRead 0) None ∅ [] 0.

Section handoff.
(** The sizes of the chunks. *)
Context (sizes : list Z).

Definition free_prev (st : handoff_st) : gset nat :=
  match prev_page_buf st with Some p => live_bufs st ∖ {[p]} | None => live_bufs st end.

Definition main_step (st : handoff_st) : option handoff_st :=
  match mpc st with
  | MRead k =>
    if decide (k < length sizes)%nat
    then Some (HandoffSt (worker_status st) (todo_buf st) (todo_num_pages st) (MPost k) (prev_page_buf st)
                 ({[k]} ∪ live_bufs st) (scanned st) (scanned_cnt st))
    else Some (HandoffSt (worker_status st) (todo_buf st) (todo_num_pages st) MWait (prev_page_buf st)
                 (live_bufs st) (scanned st) (scanned_cnt st))
  | MPost k =>
    match worker_status st with
    | WORK_DONE | WORKER_READY =>
      Some (HandoffSt DATA_READY (Some k) (default 0 (sizes !! k)) (MFree k) (prev_page_buf st)
              (live_bufs st) (scanned st) (scanned_cnt st + todo_num_pages st))
    | _ => None
    end
  | MFree k =>
    Some (HandoffSt (worker_status st) (todo_buf st) (todo_num_pages st) (MRead (S k)) (Some k)
            (free_prev st) (scanned st) (scanned_cnt st))
  | MWait =>
    if decide (worker_status st = WORK_DONE)
    then Some (HandoffSt WORKER_READY None 0 MDone None (free_prev st) (scanned st)
                 (scanned_cnt st + todo_num_pages st))
    else None
  | MDone => None
  end.

(** The worker scans the posted chunk. *)
Definition worker_step (st : handoff_st) : option handoff_st :=
  if decide (worker_status st = DATA_READY) then
    match todo_buf st with
    | Some b => Some (HandoffSt WORK_DONE (todo_buf st) (todo_num_pages st) (mpc st) (prev_page_buf st)
                        (live_bufs st) (scanned st ++ [b]) (scanned_cnt st))
    | None => None
    end
  else None.

Inductive handoff_step : handoff_st → handoff_st → Prop :=
| hs_main st st' : main_step st = Some st' → handoff_step st st'
| hs_worker st st' : worker_step st = Some st' → handoff_step st st'.

Inductive handoff_reachable : handoff_st → Prop :=
| hr_init : handoff_reachable initial_handoff
| hr_step st st' : handoff_reachable st → handoff_step st st' → handoff_reachable st'.

Definition sum_sizes (n : nat) : Z := foldr Z.add 0 (take n sizes).

(** Jobs posted so far. *)
Definition posted (p : main_pc) : nat :=
  match p with MRead k | MPost k => k | MFree k => S k | MWait | MDone => length sizes end.

Definition prev_of (k : nat) : option nat := match k with O => None | S k' => Some k' end.

Record handoff_inv (st : handoff_st) : Prop := HandoffInv {
  hi_bound : (posted (mpc st) ≤ length sizes)%nat;
  hi_first : mpc st ≠ MDone → posted (mpc st) = O →
     worker_status st = WORKER_READY ∧ scanned st = [] ∧ todo_num_pages st = 0;
  hi_later : mpc st ≠ MDone → ∀ k, posted (mpc st) = S k → todo_buf st = Some k ∧
     ((worker_status st = DATA_READY ∧ scanned st = seq 0 k) ∨
      (worker_status st = WORK_DONE ∧ scanned st = seq 0 (S k)));
  hi_count : scanned_cnt st + todo_num_pages st = sum_sizes (posted (mpc st));
  hi_done : mpc st = MDone → scanned st = seq 0 (length sizes) ∧ todo_num_pages st = 0 ∧
     live_bufs st = ∅ ∧ worker_status st = WORKER_READY;
  hi_bufs : match mpc st with
     | MRead k => prev_page_buf st = prev_of k ∧ live_bufs st = (match k with O => ∅ | S j => {[j]} end)
     | MPost k | MFree k => (k < length sizes)%nat ∧ prev_page_buf st = prev_of k ∧
                            live_bufs st = {[k]} ∪ (match k with O => ∅ | S j => {[j]} end)
     | MWait => prev_page_buf st = prev_of (length sizes) ∧
                live_bufs st = (match length sizes with O => ∅ | S j => {[j]} end)
     | MDone => True
     end }.

Lemma sum_sizes_S k : (k < length sizes)%nat → sum_sizes (S k) = sum_sizes k + default 0 (sizes !! k).
Proof.
  intros Hk. unfold sum_sizes. destruct (lookup_lt_is_Some_2 sizes k Hk) as [x Hx]. rewrite Hx. simpl.
  rewrite (take_S_r _ _ _ Hx), foldr_app. simpl.
  assert (∀ l z, foldr Z.add z l = foldr Z.add 0 l + z) as H.
  { induction l as [|y l IH]; intros z; simpl; [lia|]. rewrite IH. lia. }
  rewrite (H _ (x + 0)). lia.
Qed.

Lemma handoff_inv_init : handoff_inv initial_handoff.
Proof. split; simpl; try done. lia. Qed.

Lemma main_read_inv st st' k :
  handoff_inv st → mpc st = MRead k → main_step st = Some st' → handoff_inv st'.
Proof.
  intros [H1 H2 H3 H4 H5 H6] Em. unfold main_step. rewrite Em in *. simpl in *. destruct H6 as [Hp Hl].
  destruct (decide _) as [Hk|Hk]; intros [= <-].
  - split; simpl; [lia|by intros _; apply H2|by intros _; apply H3|done|done|by rewrite Hl].
  - assert (k = length sizes) as -> by lia.
    split; simpl; [lia|by intros _; apply H2|by intros _; apply H3|done|done|done].
Qed.

Lemma main_post_inv st st' k :
  handoff_inv st → mpc st = MPost k → main_step st = Some st' → handoff_inv st'.
Proof.
  intros [H1 H2 H3 H4 H5 H6] Em. unfold main_step. rewrite Em in *. simpl in *. destruct H6 as (Hk & Hp & Hl).
  assert (Hseq : (worker_status st = WORK_DONE ∨ worker_status st = WORKER_READY) → scanned st = seq 0 k).
  { intros Hs. destruct k as [|k]; [by apply H2|]. destruct (H3 ltac:(done) k eq_refl) as (_ & [[E _]|[_ E]]); [|done].
    destruct Hs; congruence. }
  assert (Hres : worker_status st = WORK_DONE ∨ worker_status st = WORKER_READY →
    handoff_inv (HandoffSt DATA_READY (Some k) (default 0 (sizes !! k)) (MFree k) (prev_page_buf st)
              (live_bufs st) (scanned st) (scanned_cnt st + todo_num_pages st))).
  { intros Hs. split; simpl; try done; [|rewrite sum_sizes_S by done; lia].
    intros _ j [= <-]. split; [done|]. left. split; [done|by apply Hseq]. }
  destruct (worker_status st); try done; intros [= <-]; apply Hres; auto.
Qed.

Lemma main_free_inv st st' k :
  handoff_inv st → mpc st = MFree k → main_step st = Some st' → handoff_inv st'.
Proof.
  intros [H1 H2 H3 H4 H5 H6] Em. unfold main_step. rewrite Em in *. simpl in *. destruct H6 as (Hk & Hp & Hl).
  intros [= <-]. split; simpl; [done|done|by intros _; apply H3|done|done|].
  split; [done|]. unfold free_prev. rewrite Hp, Hl.
  destruct k as [|k]; simpl; [by rewrite union_empty_r_L|].
  apply set_eq. intros x. rewrite elem_of_difference, elem_of_union, !elem_of_singleton. lia.
Qed.

Lemma main_wait_inv st st' :
  handoff_inv st → mpc st = MWait → main_step st = Some st' → handoff_inv st'.
Proof.
  intros [H1 H2 H3 H4 H5 H6] Em. unfold main_step. rewrite Em in *. simpl in *. destruct H6 as (Hp & Hl).
  destruct (decide _) as [Hs|]; [|done]. intros [= <-]. split; simpl; try done; [lia|]. intros _.
  destruct (length sizes) as [|k] eqn:E; [destruct (H2 ltac:(done) eq_refl); congruence|].
  destruct (H3 ltac:(done) k eq_refl) as (_ & [[Hs' _]|[_ Hsc]]); [congruence|].
  split_and!; [done|done| |done]. unfold free_prev. rewrite Hp, Hl. simpl. set_solver.
Qed.

Lemma worker_inv st st' : handoff_inv st → worker_step st = Some st' → handoff_inv st'.
Proof.
  intros [H1 H2 H3 H4 H5 H6]. unfold worker_step. destruct (decide _) as [Hs|]; [|done].
  destruct (todo_buf st) as [b|] eqn:Eb; [|done]. intros [= <-]. split; simpl; try done.
  - intros Hm Hz. destruct (H2 Hm Hz); congruence.
  - intros Hm k Hk. destruct (H3 Hm k Hk) as (E & [[_ Hsc]|[Hs' _]]); [|congruence].
    split; [congruence|]. right. split; [done|]. rewrite Hsc. injection E as ->. change (0%nat :: seq 1 k) with (seq 0 (S k)). by rewrite seq_S.
  - intros Hm. destruct (H5 Hm) as (_ & _ & _ & ?). congruence.
Qed.

Lemma handoff_inv_step st st' : handoff_inv st → handoff_step st st' → handoff_inv st'.
Proof.
  intros Hinv Hstep. destruct Hstep as [st st' Hm|st st' Hw]; [|by eapply worker_inv].
  destruct (mpc st) as [k|k|k| |] eqn:Em.
  - by eapply main_read_inv.
  - by eapply main_post_inv.
  - by eapply main_free_inv.
  - by eapply main_wait_inv.
  - unfold main_step in Hm. by rewrite Em in Hm.
Qed.

Lemma handoff_inv_reachable st : handoff_reachable st → handoff_inv st.
Proof. induction 1; [apply handoff_inv_init|by eapply handoff_inv_step]. Qed.

End handoff.
