(* ===== verification/Conn.v ===== *)
(** * Conn: the server's connection, its resources and its command line

    [codes/bask/server.c]: [cleanup_rdma_cb], [start_listening],
    [on_connect_request], [on_disconnect], [run_event_loop], the options of
    [main], [wait_cq_event_and_poll] and [rdma_read_memory].  A verbs call is
    a library call that succeeds or fails; [answers] is what the next calls
    do.  A field of [struct rdma_cb] is NULL or holds the resource it names:
    [held] is the set of the fields that are not NULL and [released] the
    sequence of destructor calls. *)
From S2P Require Import Prelude Wire HashPair.

Inductive resource :=
| Ec | ListenId | ConnId | Qp | Pd | CompChan | Cq | MdDescMr | KsmResultMr
| SingleOpDescMr | SingleOpResultMr | StableTable | UnstableTable | RmapTree | LogEntries.

#[export] Instance resource_eq_dec : EqDecision resource.
Proof. solve_decision. Defined.

Definition resources : list resource :=
  [Ec; ListenId; ConnId; Qp; Pd; CompChan; Cq; MdDescMr; KsmResultMr;
   SingleOpDescMr; SingleOpResultMr; StableTable; UnstableTable; RmapTree; LogEntries].

#[export] Program Instance resource_finite : finite.Finite resource := {| finite.enum := resources |}.
Next Obligation. apply (bool_decide_unpack _). by vm_compute. Qed.
Next Obligation. intros x. apply (bool_decide_unpack _). by destruct x; vm_compute. Qed.

#[export] Instance resource_countable : Countable resource := finite.finite_countable.

Record conn_st := ConnSt {
  held : gset resource;
  released : list resource;
  verb_answers : list bool;
  posted_recvs : list ksm_wr_tag;
  accepted : bool }.

(** One verbs call; with no recorded answer left it succeeds. *)
Definition verb : M conn_st bool := λ s,
  match verb_answers s with
  | [] => Ok (true, s)
  | b :: l => Ok (b, ConnSt (held s) (released s) l (posted_recvs s) (accepted s))
  end.

Definition hold (rs : list resource) : M conn_st unit :=
  modify (λ s, ConnSt (list_to_set rs ∪ held s) (released s) (verb_answers s) (posted_recvs s) (accepted s)).

(** A constructor whose result is stored in the field [r] (NULL if it failed). *)
Definition acquire (r : resource) : M conn_st bool :=
  ok ← verb; (if (ok : bool) then hold [r] else mret tt) ;; mret ok.

(** [if (cb->f) { destroy(cb->f); cb->f = NULL; }] *)
Definition release (r : resource) : M conn_st unit :=
  modify (λ s, if decide (r ∈ held s)
               then ConnSt (held s ∖ {[r]}) (released s ++ [r]) (verb_answers s) (posted_recvs s) (accepted s)
               else s).

Definition is_held (r : resource) : M conn_st bool := gets (λ s, bool_decide (r ∈ held s)).

Definition cleanup_rdma_cb : M conn_st unit :=
  conn ← is_held ConnId;
  (if (conn : bool) then release Qp ;; release ConnId else mret tt) ;;
  release ListenId ;;
  release MdDescMr ;;
  release KsmResultMr ;;
  release StableTable ;;
  release UnstableTable ;;
  release RmapTree ;;
  release LogEntries ;;
  release CompChan ;;
  release Cq ;;
  release Pd ;;
  release Ec.

(** [die]: the process exits. *)
Definition or_die (m : M conn_st bool) (why : string) : M conn_st unit :=
  ok ← m; if (ok : bool) then mret tt else halt why.

Definition start_listening : M conn_st unit :=
  or_die (acquire Ec) "rdma_create_event_channel" ;;
  or_die (acquire ListenId) "rdma_create_id" ;;
  or_die verb "inet_pton - invalid IP address" ;;
  or_die verb "rdma_bind_addr" ;;
  or_die verb "rdma_listen".

(** The calls of [on_connect_request] in order, each failure being [goto err]. *)
Definition and_then (m k : M conn_st bool) : M conn_st bool :=
  ok ← m; if (ok : bool) then k else mret false.

Definition post_recv (tag : ksm_wr_tag) : M conn_st bool :=
  ok ← verb;
  (if (ok : bool)
   then modify (λ s, ConnSt (held s) (released s) (verb_answers s) (posted_recvs s ++ [tag]) (accepted s))
   else mret tt) ;;
  mret ok.

(** [single_op_result_mr] is registered, but [ksm_result_mr] is tested. *)
Definition reg_single_op_result : M conn_st bool :=
  _ ← acquire SingleOpResultMr; is_held KsmResultMr.

Definition post_first_recv (mode : offload_mode) : M conn_st bool :=
  match mode with
  | SINGLE_OPERATION_OFFLOAD => post_recv WR_RECV_SINGLE_OP
  | KSM_OFFLOAD => post_recv WR_RECV_METADATA
  | NO_OFFLOAD => mret true
  end.

Definition connect (mode : offload_mode) : M conn_st bool :=
  and_then (acquire Pd)
  (and_then (acquire CompChan)
  (and_then (acquire Cq)
  (and_then (ok ← verb; (if (ok : bool) then hold [ConnId; Qp] else mret tt) ;; mret ok)
  (and_then (acquire MdDescMr)
  (and_then (acquire KsmResultMr)
  (and_then (acquire SingleOpDescMr)
  (and_then reg_single_op_result
  (and_then (post_first_recv mode)
   verb)))))))).

Definition on_connect_request (mode : offload_mode) : M conn_st unit :=
  ok ← connect mode;
  if (ok : bool)
  then modify (λ s, ConnSt (held s) (released s) (verb_answers s) (posted_recvs s) true)
  else cleanup_rdma_cb.

Definition on_disconnect : M conn_st unit := cleanup_rdma_cb.

Inductive cm_event := CONNECT_REQUEST | ESTABLISHED | DISCONNECTED | TIMEWAIT_EXIT | OTHER_EVENT (z : Z).

(** The events the loop takes, [on_established] being a parameter (it runs
    until the connection fails).  [rdma_get_cm_event] fails at the end of the
    list. *)
Fixpoint run_event_loop (mode : offload_mode) (on_established : M conn_st unit) (evs : list cm_event)
  : M conn_st unit :=
  match evs with
  | [] => mret tt
  | ev :: evs' =>
    match ev with
    | CONNECT_REQUEST => on_connect_request mode ;; run_event_loop mode on_established evs'
    | ESTABLISHED => on_established ;; run_event_loop mode on_established evs'
    | DISCONNECTED | TIMEWAIT_EXIT => on_disconnect
    | OTHER_EVENT _ => run_event_loop mode on_established evs'
    end
  end.

(** [main] after the options: the containers are created, then the loop, then
    a last clean-up. *)
Definition server_main (mode : offload_mode) (on_established : M conn_st unit) (evs : list cm_event)
  : M conn_st unit :=
  hold [RmapTree; StableTable; UnstableTable; LogEntries] ;;
  start_listening ;;
  run_event_loop mode on_established evs ;;
  cleanup_rdma_cb.

(** ** Options *)
Record server_config := ServerConfig {
  cfg_debug : bool;
  cfg_smart_scan : bool;
  cfg_pre_hash : bool;
  cfg_mode : offload_mode;
  cfg_old_ops : bool }.

Definition default_config : server_config := ServerConfig false true true KSM_OFFLOAD false.

Definition parse_arg (c : server_config) (arg : string) : server_config :=
  if String.prefix "debug=1" arg then
    ServerConfig true (cfg_smart_scan c) (cfg_pre_hash c) (cfg_mode c) (cfg_old_ops c)
  else if String.prefix "no_skip_opt" arg then
    ServerConfig (cfg_debug c) false (cfg_pre_hash c) (cfg_mode c) (cfg_old_ops c)
  else if String.prefix "no_pre_hash_opt" arg then
    ServerConfig (cfg_debug c) (cfg_smart_scan c) false (cfg_mode c) (cfg_old_ops c)
  else if String.prefix "dataplane" arg then
    ServerConfig (cfg_debug c) (cfg_smart_scan c) (cfg_pre_hash c) SINGLE_OPERATION_OFFLOAD (cfg_old_ops c)
  else if String.prefix "old" arg then
    ServerConfig (cfg_debug c) false false (cfg_mode c) true
  else c.

Definition parse_args (args : list string) : server_config := foldl parse_arg default_config args.

(** ** Waiting for a completion *)

(** [ibv_poll_cq] called again and again: no completion yet, or one with its
    status; the code polls until there is one. *)
Fixpoint wait_cq_event_and_poll (polls : list (option bool)) : outcome Z :=
  match polls with
  | [] => Halt "polling"
  | None :: polls' => wait_cq_event_and_poll polls'
  | Some true :: _ => Ok 0%Z
  | Some false :: _ => Halt "completion with error"
  end.

Definition rdma_read_memory (post_ok : bool) (polls : list (option bool)) : outcome Z :=
  if post_ok then wait_cq_event_and_poll polls else Ok (-1)%Z.

(** ** Clean-up *)
Definition cleanup_order : list resource :=
  [Qp; ConnId; ListenId; MdDescMr; KsmResultMr; StableTable; UnstableTable; RmapTree; LogEntries;
   CompChan; Cq; Pd; Ec].

(** [conn_id] and [qp] are set together. *)
Definition paired (s : conn_st) : Prop := Qp ∈ held s ↔ ConnId ∈ held s.

(** The effect of releasing a list of resources in order. *)
Definition released_all (rs : list resource) (s : conn_st) : conn_st :=
  ConnSt (held s ∖ list_to_set rs) (released s ++ filter (λ r, r ∈ held s) rs)
    (verb_answers s) (posted_recvs s) (accepted s).

Lemma released_all_nil s : released_all [] s = s.
Proof.
  destruct s. unfold released_all; simpl. f_equal; [set_solver|by rewrite app_nil_r].
Qed.

Lemma released_all_release rs r s (Q : unit → conn_st → Prop) :
  r ∉ rs → Q tt (released_all (rs ++ [r]) s) → wp (release r) (released_all rs s) Q.
Proof.
  intros Hr HQ. unfold release. wp_step.
  replace (if decide _ then _ else _) with (released_all (rs ++ [r]) s); [done|].
  unfold released_all; simpl. rewrite filter_app, list_to_set_app_L. simpl. rewrite filter_cons.
  destruct (decide (r ∈ held s)) as [Hh|Hh]; case_decide as Hd.
  - f_equal; [set_solver|by rewrite app_assoc].
  - set_solver.
  - set_solver.
  - f_equal; [set_solver|by rewrite app_nil_r].
Qed.

Lemma wp_cleanup s (Q : unit → conn_st → Prop) :
  paired s → Q tt (released_all cleanup_order s) → wp cleanup_rdma_cb s Q.
Proof.
  intros Hp HQ. unfold cleanup_rdma_cb, is_held. do 2 wp_step.
  assert (Hrest : ∀ s0, s0 = released_all [Qp; ConnId] s → wp (release ListenId ;;
    release MdDescMr ;; release KsmResultMr ;; release StableTable ;; release UnstableTable ;;
    release RmapTree ;; release LogEntries ;; release CompChan ;; release Cq ;; release Pd ;; release Ec) s0 Q).
  { intros s0 ->. repeat first [apply wp_bind; eapply released_all_release; [set_solver|]; cbn [app]
                              | eapply released_all_release; [set_solver|]; exact HQ]. }
  wp_step. case_bool_decide as Hc.
  - wp_step. rewrite <- (released_all_nil s). eapply released_all_release; [set_solver|].
    eapply released_all_release; [set_solver|]. by apply Hrest.
  - wp_step. apply Hrest. unfold released_all. destruct s as [h rl va pr ac]; unfold paired in Hp; simpl in *.
    rewrite !filter_cons, !decide_False by tauto. rewrite app_nil_r. f_equal.
    apply set_eq. intros x. set_unfold. naive_solver.
Qed.

(** ** Connecting *)

(** A failure leaves whatever was acquired before it. *)
Definition conn_inv (s : conn_st) : Prop := paired s.

Lemma wp_verb s (Q : bool → conn_st → Prop) :
  (∀ b a, Q b (ConnSt (held s) (released s) a (posted_recvs s) (accepted s))) → wp verb s Q.
Proof.
  intros HQ. unfold wp, verb. destruct (verb_answers s) eqn:E; [|apply HQ].
  specialize (HQ true []). destruct s; simpl in *. by subst.
Qed.

(** What an accepted connection holds for certain. *)
Definition connected : gset resource :=
  {[Pd; CompChan; Cq; ConnId; Qp; MdDescMr; KsmResultMr; SingleOpDescMr]}.

Definition recv_tag (mode : offload_mode) : ksm_wr_tag :=
  match mode with SINGLE_OPERATION_OFFLOAD => WR_RECV_SINGLE_OP | _ => WR_RECV_METADATA end.

(** What holds in the middle of [connect]. *)
Definition grown (A : gset resource) (R : list ksm_wr_tag) (s : conn_st) : Prop :=
  paired s ∧ A ⊆ held s ∧ posted_recvs s = R ∧ accepted s = false.

Lemma wp_and_then m k s (Q : bool → conn_st → Prop) :
  wp m s (λ b s', if (b : bool) then wp k s' Q else Q false s') → wp (and_then m k) s Q.
Proof. intros H. unfold and_then. wp_step. eapply wp_mono; [exact H|]. intros [] s' Hs; [done|by wp_step]. Qed.

Lemma wp_acquire A R r s (Q : bool → conn_st → Prop) :
  r ≠ Qp → r ≠ ConnId → grown A R s →
  (∀ s', grown ({[r]} ∪ A) R s' → Q true s') → (∀ s', grown A R s' → Q false s') → wp (acquire r) s Q.
Proof.
  intros H1 H2 (Hp & HA & HR & Hac) HQ1 HQ2. unfold acquire, hold. wp_step. apply wp_verb. intros b a.
  destruct b; wp_steps; [apply HQ1|apply HQ2]; (split_and!; [|simpl; set_solver|done|done]); unfold paired in *; set_solver.
Qed.

Lemma wp_connect mode s (Q : bool → conn_st → Prop) :
  mode ≠ NO_OFFLOAD → grown ∅ [] s →
  (∀ s', grown connected [recv_tag mode] s' → Q true s') →
  (∀ s' R, grown ∅ R s' → Q false s') →
  wp (connect mode) s Q.
Proof.
  intros Hmode Hs HQ1 HQ2. unfold connect.
  assert (Hweak : ∀ A R s', grown A R s' → Q false s').
  { intros A R s' (H1 & H2 & H3 & H4). apply (HQ2 s' R). split_and!; [done|set_solver|done|done]. }
  do 3 (apply wp_and_then; (eapply wp_acquire; [done|done|exact Hs| |by eapply Hweak]); clear s Hs; intros s Hs).
  apply wp_and_then. wp_step. apply wp_verb. intros b a. unfold hold. destruct b; wp_steps;
    [|eapply Hweak; destruct Hs as (? & ? & ? & ?); by split_and!].
  match goal with |- wp _ ?st _ => assert (grown ({[ConnId; Qp]} ∪ ({[Cq]} ∪ ({[CompChan]} ∪ ({[Pd]} ∪ ∅)))) [] st) as Hs2 end.
  { destruct Hs as (Hp & HA & HR & Hac). split_and!; [|simpl; set_solver|done|done]. unfold paired in *; set_solver. }
  revert Hs2. match goal with |- grown _ _ ?st → _ => generalize st end. clear s Hs a. intros s Hs.
  do 3 (apply wp_and_then; (eapply wp_acquire; [done|done|exact Hs| |by eapply Hweak]); clear s Hs; intros s Hs).
  apply wp_and_then. unfold reg_single_op_result. wp_step.
  eapply wp_acquire; [done|done|exact Hs| |]; clear s Hs; intros s Hs; unfold is_held; wp_step;
    (rewrite bool_decide_eq_true_2 by (destruct Hs as (_ & HA & _); set_solver));
    apply wp_and_then; unfold post_first_recv, post_recv; destruct mode; try done; wp_step;
    apply wp_verb; intros b a; destruct b; wp_steps;
    try (eapply Hweak; destruct Hs as (? & ? & ? & ?); by split_and!);
    apply wp_verb; intros b a'; destruct b;
    first [apply HQ1; destruct Hs as (Hp & HA & HR & Hac); simpl; (split_and!; [done|set_solver|simpl; by rewrite HR|done])
          |eapply Hweak; destruct Hs as (Hp & HA & HR & Hac); split_and!; [exact Hp|exact HA|done|done]].
Qed.

(** Either the connection is accepted with everything in place and one receive
    posted, or it is torn down. *)
Lemma wp_on_connect_request mode s (Q : unit → conn_st → Prop) :
  mode ≠ NO_OFFLOAD → grown ∅ [] s →
  (∀ s', paired s' → accepted s' = true →
     connected ⊆ held s' → posted_recvs s' = [recv_tag mode] →
     Q tt s') →
  (∀ s', accepted s' = false → (∀ r, r ∈ cleanup_order → r ∉ held s') → Q tt s') →
  wp (on_connect_request mode) s Q.
Proof.
  intros Hmode Hs HQ1 HQ2. unfold on_connect_request. wp_step. eapply wp_connect; [done|exact Hs| |].
  - intros s' (Hp & HA & HR & Hac). wp_step. by apply HQ1.
  - intros s' R (Hp & HA & HR & Hac). apply wp_cleanup; [done|]. apply HQ2; [done|].
    intros r Hr. change (r ∉ held s' ∖ list_to_set cleanup_order). apply not_elem_of_difference. right. by apply elem_of_list_to_set.
Qed.
