(* ===== verification/Server.v ===== *)
(** * Server: the service loops of the SmartNIC server

    [codes/bask/server.c]: one round of the loop of [on_established] (undo
    what the host could not apply, scan, report) and of
    [on_established_ops_offload_mode] (compare or hash pages on request). *)
From S2P Require Import Prelude Wire HashPair Store LogTable Metadata Merge MetadataInv ChainInv MetadataSpec RehashInv MergeSpec PruneSpec LookupSpec Scan ScanSpec ErrorHandling.
Open Scope Z_scope.

(** ** Batch offload: [on_established] *)
Definition zero_stats : server_stats := ServerStats 0 0 0 0 0.

Definition server_init (smart : bool) : server_st :=
  ServerSt empty_metadata (KsmLogTable (replicate 1024 (Some zero_log)) 0 1024) zero_stats 0 0 smart [].

Section serve.
Context `{RdmaReads} `{ErrorReads}.
Context (ksm_ops : option hash_pair → page → loc → M server_st Z).
Context (pre : Z → Z → option hash_pair).
(** [result_mr->rkey] and the address of [log_table.entries]. *)
Context (rkey addr : Z).

(** The verbs calls of a round, each succeeding or not: the registration of the
    result, its sending and the receive posted for the next metadata. *)
Record round_verbs := RoundVerbs { reg_ok : bool; send_ok : bool; recv_ok : bool }.
Definition verbs_ok : round_verbs := RoundVerbs true true true.

(** How a round ends: the connection is cleaned up, the result having been sent
    or not, or the loop goes on. *)
Inductive round_end := Closed (sent : option result_desc) | Again (sent : result_desc).

(** One round; [first] says that no result was registered yet. *)
Definition serve_round (vb : round_verbs) (first : bool) (md_desc_rx : metadata_descriptor) : M server_st round_end :=
  whenM (negb first) clear_log_table ;;
  err ← do_handle_error (md_et_descs md_desc_rx);
  if negb (err =? 0) then mret (Closed None) else
  total_scanned_cnt ← do_ksm_v3 ksm_ops pre md_desc_rx;
  if total_scanned_cnt <? 0 then mret (Closed None) else
  if negb (reg_ok vb) then mret (Closed None) else
  s ← get;
  let res := ResultDesc total_scanned_cnt (cnt (log_table s)) rkey addr in
  modify (with_stats (λ _, zero_stats)) ;;
  if negb (send_ok vb) then mret (Closed None) else
  if negb (recv_ok vb) then mret (Closed (Some res)) else
  modify (with_iteration (λ i, s32 (i + 1))) ;;
  mret (Again res).

(** What the host reads back from the registered table. *)
Definition reported_log (s : server_st) (r : result_desc) : list ksm_event_log :=
  omap id (take (Z.to_nat (rd_log_cnt r)) (entries (log_table s))).

(** Successive rounds, until one closes the connection; the results sent. *)
Fixpoint serve (first : bool) (mds : list (round_verbs * metadata_descriptor)) : M server_st (list result_desc) :=
  match mds with
  | [] => mret []
  | (vb, md) :: mds' =>
    r ← serve_round vb first md;
    match r with
    | Closed sent => mret (option_list sent)
    | Again res => rest ← serve false mds'; mret (res :: rest)
    end
  end.
End serve.

(** ** Single-operation offload: [on_established_ops_offload_mode] *)

(** [memcmp] of the C library: only its sign is specified. *)
Class Memcmp := {
  memcmp : list Z → list Z → Z;
  memcmp_zero : ∀ a b, length a = length b → memcmp a b = 0 ↔ a = b;
  memcmp_int : ∀ a b, - 2 ^ 31 ≤ memcmp a b < 2 ^ 31 }.

(** [read rkey iova len]: the bytes an RDMA read returns. *)
Definition serve_single `{XXHash} `{Memcmp} (read : Z → Z → Z → option (list Z))
    (d : operation_descriptor) : outcome operation_result :=
  match od_cmd d with
  | PAGE_COMPARE =>
    if negb (od_page_num d =? 2) then Halt "Invalid page cnt" else
    match read (od_rkey d) (od_iova d) (PAGE_SIZE * 2) with
    | None => Halt "rdma failed"
    | Some buf => Ok (OperationResult (od_cmd d) (od_id d)
                        (u32 (memcmp (take 4096 buf) (take 4096 (drop 4096 buf)))))
    end
  | PAGE_HASH =>
    if negb (od_page_num d =? 1) then Halt "Invalid page cnt" else
    match read (od_rkey d) (od_iova d) PAGE_SIZE with
    | None => Halt "rdma failed"
    | Some buf => Ok (OperationResult (od_cmd d) (od_id d) (u64 (XXH64 (take 4096 buf) 0)))
    end
  | OTHER_CMD _ => Halt "Invalid operation cmd"
  end.

(** ** Lemmas *)
Lemma log_repr_clear t L :
  log_repr t L → log_repr (KsmLogTable (replicate (Z.to_nat (capacity t)) (Some zero_log)) 0 (capacity t)) [].
Proof. intros []. split; simpl; [by rewrite length_replicate; lia|done|done|by rewrite take_0]. Qed.

Lemma s32_u32 z : - 2 ^ 31 ≤ z < 2 ^ 31 → s32 (u32 z) = z.
Proof.
  intros Hz. unfold wrap_s, wrap_u. simpl (2 ^ (32 - 1)). 
  rewrite Z.add_mod_idemp_l by lia. rewrite Z.mod_small by lia. lia.
Qed.

Section serve_spec.
Context `{XXHash} `{RdmaReads} `{ErrorReads} (pf : item_key → Z) (fh : Z → hash_pair).
Context (pre : Z → Z → option hash_pair) (rkey addr : Z).

(** Between rounds. *)
Record idle (s : server_st) (L : list ksm_event_log) : Prop := Idle {
  id_ok : metadata_ok (metadata s);
  id_log : log_repr (log_table s) L;
  id_oom : no_oom s;
  id_unst : ∀ i it, items (metadata s) !! i = Some it → state it ≠ Unstable }.

(** The host sends no failures. *)
Definition no_errors (md : metadata_descriptor) : Prop := et_desc_cnt (md_et_descs md) = 0.

Lemma wp_serve_round s L (first : bool) md ws (Q : round_end → server_st → Prop) :
  idle s L → (first = true → L = []) → frames_ok fh (metadata s) → no_errors md →
  take (Z.to_nat (md_pt_cnt md)) (md_pt_descs md) = tw_desc <$> ws →
  Forall (λ w, readable (tw_desc w) (tw_map w) (tw_pages w)) ws →
  NoDup (se_key <$> batch_of pre ws) → Forall (entry_ok pf fh) (batch_of pre ws) → pages_of ws < 2 ^ 31 →
  Z.of_nat (size (rmap_tree (metadata s))) + 2 * Z.of_nat (length (batch_of pre ws)) < 2 ^ 30 →
  (∀ s' n1 n2, idle s' (n1 ++ n2) → frames_ok fh (metadata s') →
     Forall (λ e, log_type e = DPU_STALE_STABLE_NODE ∧
       (s16 (iteration s) = iteration s → (log_i0 e, log_w0 e) ∉ se_key <$> batch_of pre ws)) n2 →
     (∀ e, e ∈ n2 → (log_i0 e, log_w0 e) ∈ dom (rmap_tree (metadata s)) ∪ list_to_set (se_key <$> batch_of pre ws)) →
     sharing_view (metadata s') =
       filter (λ kp, kp.1 ∈ dom (rmap_tree (metadata s'))) (replay pf (sharing_view (metadata s)) n1) →
     iteration s' = s32 (iteration s + 1) → stats s' = zero_stats → total_accessed_cnt s' = 0 →
     Q (Again (ResultDesc (pages_of ws) (Z.of_nat (length (n1 ++ n2))) rkey addr)) s') →
  wp (serve_round cmp_and_merge_one pre rkey addr verbs_ok first md) s Q.
Proof.
  intros [I1 I2 I3 I4] Hfirst Hf Hne Htake Hrd Hnd Hok Hpg Hlen HQ. unfold serve_round.
  set (s0 := if first then s else with_log (λ t, KsmLogTable (replicate (Z.to_nat (capacity t)) (Some zero_log)) 0 (capacity t)) s).
  assert (Hs0 : pass_inv pf fh s0 [] [] s0).
  { apply pass_inv_start; unfold s0; destruct first; try done.
    - by rewrite <- Hfirst.
    - by eapply log_repr_clear. }
  assert (Hm0 : metadata s0 = metadata s) by (unfold s0; by destruct first).
  assert (Hi0 : iteration s0 = iteration s) by (unfold s0; by destruct first).
  assert (Hrest : wp (err ← do_handle_error (md_et_descs md);
    if negb (err =? 0) then mret (Closed None) else
    total_scanned_cnt ← do_ksm_v3 cmp_and_merge_one pre md;
    if total_scanned_cnt <? 0 then mret (Closed None) else
    s ← get; modify (with_stats (λ _, zero_stats)) ;; modify (with_iteration (λ i, s32 (i + 1))) ;;
    mret (Again (ResultDesc total_scanned_cnt (cnt (log_table s)) rkey addr))) s0 Q).
  { unfold do_handle_error. rewrite Hne. simpl. do 2 wp_step. simpl. wp_step.
    eapply (wp_do_ksm_v3 pf fh pre s0 [] md ws); [exact Hs0|exact Htake|exact Hrd|exact Hnd|exact Hok|exact Hpg|by rewrite Hm0|].
    intros s1 n1 s2 n2 [P1 P2 P3 (P4 & P4') P5 P6 P7 P8 P9 P10 P11] HL1 [E1 E2 E3 E4 (E5 & E5') E6 E7 (E8 & _) E9] HV.
    pose proof (pages_of_nonneg ws) as Hnn. destruct (Z.ltb_spec (pages_of ws) 0); [lia|].
    wp_steps. replace (cnt (log_table _)) with (Z.of_nat (length (n1 ++ n2))) by (symmetry; apply E2).
    apply (HQ _ n1 n2); simpl; try done.
    - by apply E9.
    - eapply Forall_impl; [exact E4|]. intros e (Ht & i & it & Hi & Hst & Hk). split; [done|]. intros Hit Hin. rewrite Hk in Hin.
      unfold stale in Hst. rewrite (P9 i it Hi Hin), P4 in Hst. rewrite Hi0 in Hst. lia.
    - intros e He. rewrite Forall_forall in E4. destruct (E4 e He) as (_ & i & it & Hi & _ & Hk). rewrite <- Hm0, <- P8, Hk.
      destruct P1 as [C Hwf]. apply elem_of_dom. exists i. apply (wf_rmap _ _ _ _ Hwf). by exists it.
    - rewrite E7, HV. by rewrite Hm0.
    - by rewrite E8, P4, Hi0. }
  apply wp_bind. apply wp_whenM; intros Hb.
  - unfold clear_log_table. wp_step. unfold s0 in Hrest. by destruct first.
  - unfold s0 in Hrest. by destruct first.
Qed.
End serve_spec.

(** The hypotheses a pass makes about what the host serves. *)
Record served `{XXHash} `{RdmaReads} (pf : item_key → Z) (fh : Z → hash_pair) (pre : Z → Z → option hash_pair)
    (md : metadata_descriptor) (ws : list table_work) : Prop := Served {
  sv_tables : take (Z.to_nat (md_pt_cnt md)) (md_pt_descs md) = tw_desc <$> ws;
  sv_readable : Forall (λ w, readable (tw_desc w) (tw_map w) (tw_pages w)) ws;
  sv_distinct : NoDup (se_key <$> batch_of pre ws);
  sv_static : Forall (entry_ok pf fh) (batch_of pre ws);
  sv_pages : pages_of ws < 2 ^ 31 }.
