(* ===== verification/Growable.v ===== *)
(** * Growable: the host kernel's segmented, doubling arrays

    The storage shared by the shadow page table and the error table of
    [codes/mm/ksm_shadow.c]: a vector of arrays of which all but the last
    have the maximal capacity; the last doubles with [krealloc] until it
    reaches it, then a new one of one page is appended.  Entry [i] is in
    array [i / max] at [i mod max]. *)
From S2P Require Import Prelude.
Open Scope Z_scope.

Definition GROWTH_FACTOR : Z := 2.

(** What the next kernel allocations return; none left: they succeed. *)
Abbreviation kalloc := (list bool).

Definition kmalloc : M kalloc bool := λ s,
  match s with [] => Ok (true, []) | b :: l => Ok (b, l) end.

(** [arrays] is NULL after a failed, unchecked [krealloc]. *)
Record table (A : Type) := Table {
  arrays : option (list (list (option A)));
  array_cnt : Z;
  tb_cnt : Z;
  tb_capacity : Z }.
Arguments Table {A}.
Arguments arrays {A}.
Arguments array_cnt {A}.
Arguments tb_cnt {A}.
Arguments tb_capacity {A}.

Section growable.
Context {A : Type}.
(** Entries in a page and in the largest array. *)
Context (per_page max_cap : Z).

Definition fresh_array (n : Z) : list (option A) := replicate (Z.to_nat n) None.

Definition set_last (f : list (option A) → list (option A)) (As : list (list (option A))) : list (list (option A)) :=
  match last As with Some a => removelast As ++ [f a] | None => As end.

(** Room in the last array, and what a growth would make it. *)
Definition curr_capacity (t : table A) : Z := tb_capacity t - max_cap * (array_cnt t - 1).

(** The [krealloc] branch: the last array doubles. *)
Definition grow_last (t : table A) : M kalloc (table A) :=
  let new_capacity := curr_capacity t * GROWTH_FACTOR in
  ok ← kmalloc;
  if (ok : bool)
  then mret (Table (set_last (λ a, resize (Z.to_nat new_capacity) None a) <$> arrays t) (array_cnt t) (tb_cnt t)
               (tb_capacity t + (new_capacity - curr_capacity t)))
  else mret t.

(** The other branch, once the vector of arrays was enlarged. *)
Definition add_array (t : table A) : table A :=
  Table ((λ As, As ++ [fresh_array per_page]) <$> arrays t) (array_cnt t + 1) (tb_cnt t) (tb_capacity t + per_page).

(** [t->arrays[i / max][i % max] = v]; a NULL vector or a missing array
    faults. *)
Definition write_at (i : Z) (v : A) (t : table A) : outcome (table A) :=
  match arrays t with
  | None => Fault "NULL array vector"
  | Some As =>
    match As !! Z.to_nat (i / max_cap) with
    | None => Fault "array index"
    | Some a =>
      if (i mod max_cap) <? Z.of_nat (length a)
      then Ok (Table (Some (<[Z.to_nat (i / max_cap) := <[Z.to_nat (i mod max_cap) := Some v]> a]> As))
                 (array_cnt t) (tb_cnt t) (tb_capacity t))
      else Fault "entry index"
    end
  end.

Definition read_at (i : Z) (t : table A) : option A :=
  As ← arrays t; a ← As !! Z.to_nat (i / max_cap); v ← a !! Z.to_nat (i mod max_cap); v.

(** ** Representation *)

(** [max_cap] is [per_page] doubled [k] times. *)
Context (k : nat).
Hypothesis Hpp : 0 < per_page.
Hypothesis Hmax : max_cap = per_page * 2 ^ Z.of_nat k.

Record table_repr (t : table A) (L : list A) : Prop := TableRepr {
  tr_arrays : ∃ front a j, arrays t = Some (front ++ [a]) ∧ Forall (λ f, Z.of_nat (length f) = max_cap) front ∧
     (j ≤ k)%nat ∧ Z.of_nat (length a) = per_page * 2 ^ Z.of_nat j ∧
     array_cnt t = Z.of_nat (length front) + 1 ∧
     tb_capacity t = max_cap * Z.of_nat (length front) + Z.of_nat (length a);
  tr_cnt : tb_cnt t = Z.of_nat (length L);
  tr_fits : tb_cnt t ≤ tb_capacity t;
  tr_read : ∀ i, (i < length L)%nat → read_at (Z.of_nat i) t = L !! i }.

Lemma table_repr_inj t L1 L2 : table_repr t L1 → table_repr t L2 → L1 = L2.
Proof using.
  intros [_ C1 _ R1] [_ C2 _ R2]. assert (length L1 = length L2) as El by lia. apply list_eq. intros i.
  destruct (decide (i < length L1)%nat) as [Hi|Hi]; [rewrite <- R1, <- R2 by lia; done|].
  rewrite !lookup_ge_None_2 by lia. done.
Qed.

Lemma max_pos : 0 < max_cap.
Proof using Hpp Hmax. rewrite Hmax. assert (0 < 2 ^ Z.of_nat k) by (apply Z.pow_pos_nonneg; lia). nia. Qed.

Lemma set_last_snoc f front a : set_last f (front ++ [a]) = front ++ [f a].
Proof using. unfold set_last. rewrite last_snoc. f_equal. apply removelast_last. Qed.

(** Index arithmetic. *)
Lemma index_in_last (nf i len : Z) :
  0 ≤ nf → max_cap * nf ≤ i < max_cap * nf + len → len ≤ max_cap →
  i / max_cap = nf ∧ i mod max_cap = i - max_cap * nf.
Proof using Hpp Hmax.
  pose proof max_pos. intros H0 H1 H3.
  assert (i / max_cap = nf) as E.
  { symmetry. apply (Z.div_unique i max_cap _ (i - max_cap * nf)); lia. }
  split; [done|]. rewrite Z.mod_eq by lia. lia.
Qed.

Lemma last_len_max a (j : nat) : (j ≤ k)%nat → Z.of_nat (length a) = per_page * 2 ^ Z.of_nat j → Z.of_nat (@length (option A) a) ≤ max_cap.
Proof using Hpp Hmax.
  intros Hj ->. rewrite Hmax. apply Z.mul_le_mono_nonneg_l; [lia|]. apply Z.pow_le_mono_r; lia.
Qed.

(** Reading is unaffected by a longer last array or a new one. *)
Lemma read_at_grow As As' i t t' v :
  arrays t = Some As → arrays t' = Some As' →
  (∀ n a, As !! n = Some a → ∃ a', As' !! n = Some a' ∧ ∀ m x, a !! m = Some x → a' !! m = Some x) →
  read_at i t = Some v → read_at i t' = Some v.
Proof using.
  intros H1 H2 H. unfold read_at. rewrite H1, H2. simpl.
  destruct (As !! Z.to_nat (i / max_cap)) as [a|] eqn:E; [|done]. simpl.
  destruct (H _ _ E) as (a' & E' & Ha). rewrite E'. simpl.
  destruct (a !! Z.to_nat (i mod max_cap)) as [x|] eqn:Ex; [|done]. simpl. by rewrite (Ha _ _ Ex).
Qed.

(** Growing keeps the representation and makes room. *)
Lemma table_repr_grow_last t L (t' : table A) :
  table_repr t L → curr_capacity t * GROWTH_FACTOR ≤ max_cap →
  t' = Table (set_last (λ a, resize (Z.to_nat (curr_capacity t * GROWTH_FACTOR)) None a) <$> arrays t) (array_cnt t)
         (tb_cnt t) (tb_capacity t + (curr_capacity t * GROWTH_FACTOR - curr_capacity t)) →
  table_repr t' L ∧ tb_capacity t < tb_capacity t'.
Proof using Hpp Hmax.
  intros [(front & a & j & Ha & Hf & Hj & Hlen & Hac & Hcap) Hcnt Hfits Hread] Hle ->.
  assert (curr_capacity t = Z.of_nat (length a)) as Hcur by (unfold curr_capacity; rewrite Hac, Hcap; lia).
  unfold GROWTH_FACTOR in *. rewrite Hcur in *.
  assert (0 < 2 ^ Z.of_nat j) by (apply Z.pow_pos_nonneg; lia). assert (0 < Z.of_nat (length a)) by (rewrite Hlen; nia).
  assert (S j ≤ k)%nat as Hjk.
  { assert (2 ^ Z.of_nat (S j) ≤ 2 ^ Z.of_nat k) as Hpow.
    { rewrite Nat2Z.inj_succ, Z.pow_succ_r by lia. rewrite Hlen, Hmax in Hle. nia. }
    apply Nat2Z.inj_le. by apply (Z.pow_le_mono_r_iff 2); lia. }
  split; [|simpl; lia]. split; simpl; [|done|lia|].
  - exists front, (resize (Z.to_nat (Z.of_nat (length a) * 2)) None a), (S j).
    rewrite Ha. simpl. rewrite set_last_snoc, length_resize. split_and!; [done..| |done|lia].
    rewrite Nat2Z.inj_succ, Z.pow_succ_r, Z2Nat.id by lia. lia.
  - intros i Hi. rewrite <- Hread by done. destruct (L !! i) as [v|] eqn:Ev; [|apply lookup_ge_None in Ev; lia].
    symmetry. rewrite Hread in * by done. rewrite Ev. symmetry.
    eapply (read_at_grow (front ++ [a])); [exact Ha|simpl; by rewrite Ha; simpl; rewrite set_last_snoc| |by rewrite Hread].
    intros n b Hb. apply lookup_app_Some in Hb as [Hb|[Hn Hb]].
    + exists b. split; [by apply lookup_app_l_Some|done].
    + exists (resize (Z.to_nat (Z.of_nat (length a) * 2)) None a).
      apply list_lookup_singleton_Some in Hb as [Hn0 ->]. split; [rewrite lookup_app_r by done; by rewrite Hn0|].
      intros m x Hm. rewrite lookup_resize; [done| |]; apply lookup_lt_Some in Hm; lia.
Qed.

Lemma table_repr_add_array t L :
  table_repr t L → max_cap < curr_capacity t * GROWTH_FACTOR →
  table_repr (add_array t) L ∧ tb_capacity t < tb_capacity (add_array t).
Proof using Hpp Hmax.
  intros [(front & a & j & Ha & Hf & Hj & Hlen & Hac & Hcap) Hcnt Hfits Hread] Hgt.
  assert (curr_capacity t = Z.of_nat (length a)) as Hcur by (unfold curr_capacity; rewrite Hac, Hcap; lia).
  unfold GROWTH_FACTOR in *. rewrite Hcur in *.
  assert (j = k) as ->.
  { destruct (decide (j = k)) as [|Hne]; [done|]. exfalso. rewrite Hlen, Hmax in Hgt.
    assert (2 ^ Z.of_nat (S j) ≤ 2 ^ Z.of_nat k) by (apply Z.pow_le_mono_r; lia).
    rewrite Nat2Z.inj_succ, Z.pow_succ_r in * by lia. nia. }
  split; [|simpl; lia]. split; simpl; [|done|lia|].
  - exists (front ++ [a]), (fresh_array per_page), 0%nat. rewrite Ha. simpl.
    unfold fresh_array. rewrite length_replicate, length_app. simpl.
    split_and!; [done| |lia|lia|lia|lia]. apply Forall_app. split; [done|]. apply Forall_singleton. lia.
  - intros i Hi. destruct (L !! i) as [v|] eqn:Ev; [|apply lookup_ge_None in Ev; lia].
    eapply (read_at_grow (front ++ [a])); [exact Ha|simpl; by rewrite Ha| |by rewrite Hread].
    intros n b Hb. exists b. split; [by apply lookup_app_l_Some|done].
Qed.

Lemma table_repr_capacity t L : table_repr t L → per_page ≤ tb_capacity t ∧ curr_capacity t ≤ tb_capacity t.
Proof using Hpp Hmax.
  intros [(front & a & j & _ & _ & _ & Hlen & Hac & Hcap) _ _ _]. pose proof max_pos.
  assert (0 < 2 ^ Z.of_nat j) by (apply Z.pow_pos_nonneg; lia). unfold curr_capacity. rewrite Hac, Hcap, Hlen. nia.
Qed.

Lemma write_at_same i v t t' : write_at i v t = Ok t' → tb_cnt t' = tb_cnt t ∧ tb_capacity t' = tb_capacity t.
Proof using. unfold write_at. repeat (case_match; [|done] || case_match); by intros [= <-]. Qed.

(** Every index below the capacity is inside an array. *)
Lemma index_ok t L i :
  table_repr t L → 0 ≤ i < tb_capacity t →
  ∃ As b, arrays t = Some As ∧ As !! Z.to_nat (i / max_cap) = Some b ∧ 0 ≤ i mod max_cap < Z.of_nat (length b).
Proof using Hpp Hmax.
  intros [(front & a & j & Ha & Hf & Hj & Hlen & Hac & Hcap) _ _ _] Hi. pose proof max_pos as Hm.
  pose proof (Z.mod_pos_bound i max_cap Hm). exists (front ++ [a]).
  destruct (Z.lt_ge_cases i (max_cap * Z.of_nat (length front))) as [Hlt|Hge].
  - assert (0 ≤ i / max_cap < Z.of_nat (length front)) as Hd.
    { split; [apply Z.div_pos; lia|apply Z.div_lt_upper_bound; lia]. }
    destruct (lookup_lt_is_Some_2 front (Z.to_nat (i / max_cap)) ltac:(lia)) as [b Hb].
    exists b. split_and!; [done|by apply lookup_app_l_Some|lia|].
    rewrite Forall_lookup in Hf. rewrite (Hf _ _ Hb). lia.
  - destruct (index_in_last (Z.of_nat (length front)) i (Z.of_nat (length a))) as [-> E]; [lia|lia|by eapply last_len_max|].
    exists a. split_and!; [done| |lia|lia]. rewrite Nat2Z.id, lookup_app_r by done. by rewrite Nat.sub_diag.
Qed.

Lemma read_write t i i' v t' :
  0 ≤ i → 0 ≤ i' → write_at i v t = Ok t' → read_at i' t' = if decide (i' = i) then Some v else read_at i' t.
Proof using Hpp Hmax.
  intros Hi0 Hi0'. pose proof max_pos as Hm. unfold write_at, read_at. destruct (arrays t) as [As|]; [|done].
  destruct (As !! Z.to_nat (i / max_cap)) as [b|] eqn:Eb; [|done].
  destruct (Z.ltb_spec (i mod max_cap) (Z.of_nat (length b))) as [Hlt|]; [|done]. intros [= <-]. simpl.
  pose proof (Z.mod_pos_bound i max_cap Hm). pose proof (Z.mod_pos_bound i' max_cap Hm).
  pose proof (Z.div_pos i max_cap Hi0 Hm). pose proof (Z.div_pos i' max_cap Hi0' Hm).
  destruct (decide (i' / max_cap = i / max_cap)) as [Hd|Hd].
  - rewrite Hd, list_lookup_insert_eq by (by eapply lookup_lt_Some). rewrite Eb. simpl.
    destruct (decide (i' mod max_cap = i mod max_cap)) as [Hr|Hr].
    + assert (i' = i) as -> by (rewrite (Z.div_mod i max_cap), (Z.div_mod i' max_cap); lia).
      rewrite decide_True by done. rewrite list_lookup_insert_eq by lia. done.
    + rewrite decide_False by congruence. by rewrite list_lookup_insert_ne by lia.
  - rewrite decide_False by congruence. by rewrite list_lookup_insert_ne by lia.
Qed.

(** The next entry is written inside an array. *)
Lemma write_shape t L v As b :
  table_repr t L → arrays t = Some As → As !! Z.to_nat (tb_cnt t / max_cap) = Some b →
  ∃ front a j, <[Z.to_nat (tb_cnt t / max_cap) := <[Z.to_nat (tb_cnt t mod max_cap) := Some v]> b]> As = front ++ [a] ∧
     Forall (λ f : list (option A), Z.of_nat (length f) = max_cap) front ∧
     (j ≤ k)%nat ∧ Z.of_nat (length a) = per_page * 2 ^ Z.of_nat j ∧
     array_cnt t = Z.of_nat (length front) + 1 ∧
     tb_capacity t = max_cap * Z.of_nat (length front) + Z.of_nat (length a).
Proof using Hpp Hmax.
  intros [(front & a & j & Ha & Hf & Hj & Hlen & Hac & Hcap) _ _ _] HAs Hb.
  assert (As = front ++ [a]) as -> by congruence.
  destruct (decide (Z.to_nat (tb_cnt t / max_cap) < length front)%nat) as [Hin|Hin].
  - rewrite insert_app_l by done. eexists _, a, j. split_and!; [done| |done|done|..]; rewrite ?length_insert; try done.
    apply Forall_insert; [done|]. rewrite length_insert.
    rewrite lookup_app_l in Hb by done. rewrite Forall_lookup in Hf. by eapply Hf.
  - apply lookup_app_Some in Hb as [Hb|[_ Hb]]; [apply lookup_lt_Some in Hb; lia|].
    apply list_lookup_singleton_Some in Hb as [Hn ->].
    assert (Z.to_nat (tb_cnt t / max_cap) = length front + 0)%nat as -> by lia.
    rewrite insert_app_r. simpl. eexists front, _, j. rewrite length_insert. by split_and!.
Qed.

Lemma write_at_next t L v :
  table_repr t L → tb_cnt t < tb_capacity t →
  ∃ t', write_at (tb_cnt t) v t = Ok t' ∧ table_repr t' L ∧
    table_repr (Table (arrays t') (array_cnt t') (tb_cnt t' + 1) (tb_capacity t')) (L ++ [v]).
Proof using Hpp Hmax.
  intros Hrep Hlt. pose proof Hrep as [(front & a & j & Ha & Hf & Hj & Hlen & Hac & Hcap) Hcnt Hfits Hread].
  destruct (index_ok t L (tb_cnt t) Hrep) as (As & b & HAs & Hb & Hr); [lia|].
  set (t' := Table (Some (<[Z.to_nat (tb_cnt t / max_cap) := <[Z.to_nat (tb_cnt t mod max_cap) := Some v]> b]> As))
                 (array_cnt t) (tb_cnt t) (tb_capacity t)).
  assert (Hw : write_at (tb_cnt t) v t = Ok t').
  { unfold write_at. rewrite HAs, Hb. destruct (Z.ltb_spec (tb_cnt t mod max_cap) (Z.of_nat (length b))); [done|lia]. }
  assert (Hshape : ∃ front a j, arrays t' = Some (front ++ [a]) ∧ Forall (λ f, Z.of_nat (length f) = max_cap) front ∧
     (j ≤ k)%nat ∧ Z.of_nat (length a) = per_page * 2 ^ Z.of_nat j ∧
     array_cnt t' = Z.of_nat (length front) + 1 ∧
     tb_capacity t' = max_cap * Z.of_nat (length front) + Z.of_nat (length a)).
  { destruct (write_shape t L v As b Hrep HAs Hb) as (f' & a' & j' & E & ?). exists f', a', j'. simpl. by rewrite E. }
  assert (Hrd : ∀ i, (i < length L)%nat → read_at (Z.of_nat i) t' = L !! i).
  { intros i Hi. rewrite (read_write t (tb_cnt t) (Z.of_nat i) v t') by (done || lia).
    rewrite decide_False by lia. by apply Hread. }
  exists t'. split; [done|]. split; split; simpl; try done; try lia.
  - rewrite length_app. simpl. lia.
  - intros i Hi. rewrite length_app in Hi. simpl in Hi. change (read_at (Z.of_nat i) t' = (L ++ [v]) !! i).
    destruct (decide (i = length L)) as [->|Hne].
    + rewrite (read_write t (tb_cnt t) _ v t') by (done || lia). rewrite decide_True by lia.
      by rewrite lookup_app_r, Nat.sub_diag by done.
    + rewrite lookup_app_l by lia. apply Hrd. lia.
Qed.
End growable.
