(* ===== verification/Shadow.v ===== *)
(** * Shadow: the host's shadow page tables and error table

    [codes/mm/ksm_shadow.c].  A shadow page table lists the pages of one
    process that are offered to the server, in scan order, with an index from
    virtual address to the kernel's rmap item; the error table collects the
    events the host could not apply.  Both are Growable tables.  The kernel's
    xarray is a finite map from page number to item. *)
From S2P Require Import Prelude Wire Growable.
Open Scope Z_scope.

Definition PAGE_SHIFT : Z := 12.
(** 4 MB: [MAX_PAGE_ORDER] 10 and 4 KB pages. *)
Definition KMALLOC_MAX_SIZE : Z := 4194304.
Definition PTES_PER_PAGE : Z := PAGE_SIZE / SIZEOF_SHADOW_PTE.
Definition LOGS_PER_PAGE : Z := PAGE_SIZE / SIZEOF_KSM_EVENT_LOG.
Definition MAX_CAPACITY_PER_TABLE : Z := KMALLOC_MAX_SIZE / SIZEOF_SHADOW_PTE / 2.
Definition MAX_RESULT_TABLE_ENTRIES : Z := KMALLOC_MAX_SIZE / SIZEOF_KSM_EVENT_LOG.

(** ** Shadow page tables *)
Record shadow_mm := ShadowMm {
  sm_mm_id : Z;
  pt_map : table shadow_pte;
  page_xa : gmap Z positive }.

(** [kmalloc]s of the structure, of the vector and of the first array. *)
Definition create_empty (mm : Z) : M kalloc (option shadow_mm) :=
  ok1 ← kmalloc;
  if negb (ok1 : bool) then mret None else
  ok2 ← kmalloc;
  if negb (ok2 : bool) then mret None else
  ok3 ← kmalloc;
  if negb (ok3 : bool) then mret None else
  mret (Some (ShadowMm mm (Table (Some [fresh_array PTES_PER_PAGE]) 1 0 PTES_PER_PAGE) ∅)).

(** The result of the [krealloc] of the vector is not tested: NULL is
    dereferenced at once. *)
Definition grow_shadow_page_table (t : table shadow_pte) : M kalloc (table shadow_pte) :=
  if MAX_CAPACITY_PER_TABLE <? curr_capacity MAX_CAPACITY_PER_TABLE t * GROWTH_FACTOR then
    new_va_array ← kmalloc;
    if negb (new_va_array : bool) then mret t else
    va_arrays ← kmalloc;
    if (va_arrays : bool) then mret (add_array PTES_PER_PAGE t) else fault "va_arrays is NULL"
  else grow_last MAX_CAPACITY_PER_TABLE t.

(** [xa_insert]: fails if the index is in use or memory runs out. *)
Definition xa_insert (xa : gmap Z positive) (index : Z) (item : positive) : M kalloc (option (gmap Z positive)) :=
  match xa !! index with
  | Some _ => mret None
  | None => ok ← kmalloc; if (ok : bool) then mret (Some (<[index := item]> xa)) else mret None
  end.

Definition liftO {S A} (o : outcome A) : M S A := λ s,
  match o with Ok a => Ok (a, s) | Halt w => Halt w | Fault w => Fault w end.

Definition with_table (t : table shadow_pte) (sm : shadow_mm) : shadow_mm :=
  ShadowMm (sm_mm_id sm) t (page_xa sm).

Definition insert_entry_to_shadow_mm (sm : shadow_mm) (va kpfn : Z) (rmap_item : positive)
  : M kalloc (Z * shadow_mm) :=
  t ← (if tb_capacity (pt_map sm) <=? tb_cnt (pt_map sm) then grow_shadow_page_table (pt_map sm)
       else mret (pt_map sm));
  if tb_capacity t <=? tb_cnt t then mret (-1, with_table t sm) else
  t' ← liftO (write_at MAX_CAPACITY_PER_TABLE (tb_cnt t) (ShadowPte va kpfn) t);
  r ← xa_insert (page_xa sm) (Z.shiftr va PAGE_SHIFT) rmap_item;
  match r with
  | None => mret (-1, with_table t' sm)
  | Some xa => mret (0, ShadowMm (sm_mm_id sm) (Table (arrays t') (array_cnt t') (tb_cnt t' + 1) (tb_capacity t')) xa)
  end.

(** [BUG_ON] is a stop. *)
Definition get_va_at (sm : shadow_mm) (idx : Z) : outcome Z :=
  if tb_cnt (pt_map sm) <=? idx then Halt "BUG_ON"
  else match read_at MAX_CAPACITY_PER_TABLE idx (pt_map sm) with
       | Some pte => Ok (pte_va pte)
       | None => Fault "va_arrays"
       end.

Fixpoint get_shadow_mm (shadow_pt_list : list shadow_mm) (mm : Z) : option shadow_mm :=
  match shadow_pt_list with
  | [] => None
  | entry :: l => if sm_mm_id entry =? mm then Some entry else get_shadow_mm l mm
  end.

Definition shadow_mm_lookup (sm : shadow_mm) (va : Z) : option positive :=
  page_xa sm !! Z.shiftr va PAGE_SHIFT.

(** The second union of [struct ksm_rmap_item] as its 64-bit word: the [page]
    pointer, or [oldchecksum] and [age] in its bytes 0-3 and 4. *)
Definition ki_oldchecksum (word : Z) : Z := u32 word.
Definition ki_age (word : Z) : Z := wrap_u 8 (Z.shiftr word 32).
Definition set_ki_age (age word : Z) : Z :=
  word - Z.shiftl (ki_age word) 32 + Z.shiftl (wrap_u 8 age) 32.

(** The [xa_for_each] of [free_shadow_mm] on one item: the page that loses the
    reference taken for the scan, and the item's word afterwards. *)
Definition free_shadow_item (page_ksm : Z → bool) (disconnected : bool) (curr_iteration word : Z) : option Z * Z :=
  if word =? 0 then (None, word)
  else (if page_ksm word then None else Some word,
        if disconnected then set_ki_age (curr_iteration - 1) 0 else word).

(** ** Error table *)
Record error_table := ErrorTable { et_table : table ksm_event_log; et_registered : Z }.

(** [kmalloc] does not clear [registered]: it is [junk] until the first
    registration. *)
Definition create_error_table (junk : Z) : M kalloc (option error_table) :=
  ok1 ← kmalloc;
  if negb (ok1 : bool) then mret None else
  ok2 ← kmalloc;
  if negb (ok2 : bool) then mret None else
  ok3 ← kmalloc;
  if negb (ok3 : bool) then mret None else
  mret (Some (ErrorTable (Table (Some [fresh_array LOGS_PER_PAGE]) 1 0 LOGS_PER_PAGE) junk)).

Definition clear_error_table (tbl : error_table) : outcome error_table :=
  if et_registered tbl =? tb_cnt (et_table tbl)
  then Ok (ErrorTable (Table (arrays (et_table tbl)) (array_cnt (et_table tbl)) 0 (tb_capacity (et_table tbl))) 0)
  else Halt "Error table not fully registered".

(** Here a failed [krealloc] of the vector leaves it NULL. *)
Definition grow_error_table (t : table ksm_event_log) : M kalloc (table ksm_event_log) :=
  if MAX_RESULT_TABLE_ENTRIES <? curr_capacity MAX_RESULT_TABLE_ENTRIES t * GROWTH_FACTOR then
    new_entry_table ← kmalloc;
    if negb (new_entry_table : bool) then mret t else
    entry_tables ← kmalloc;
    if (entry_tables : bool) then mret (add_array LOGS_PER_PAGE t)
    else mret (Table None (array_cnt t) (tb_cnt t) (tb_capacity t))
  else grow_last MAX_RESULT_TABLE_ENTRIES t.

(** [error_table->total_cnt] is read before [error_table] is tested. *)
Definition insert_error_log (tbl : option error_table) (tag : event_tag) (log : ksm_event_log)
  : M kalloc (Z * option error_table) :=
  match tbl with
  | None => fault "error_table is NULL"
  | Some tbl =>
    t ← (if tb_capacity (et_table tbl) <=? tb_cnt (et_table tbl) then grow_error_table (et_table tbl)
         else mret (et_table tbl));
    if tb_capacity t <=? tb_cnt t then mret (-1, Some (ErrorTable t (et_registered tbl))) else
    t' ← liftO (write_at MAX_RESULT_TABLE_ENTRIES (tb_cnt t) (retag tag log) t);
    mret (0, Some (ErrorTable (Table (arrays t') (array_cnt t') (tb_cnt t' + 1) (tb_capacity t')) (et_registered tbl)))
  end.

(** ** Lemmas *)
Abbreviation pte_repr := (table_repr PTES_PER_PAGE MAX_CAPACITY_PER_TABLE 9).
Abbreviation log_tbl_repr := (table_repr LOGS_PER_PAGE MAX_RESULT_TABLE_ENTRIES 10).

Lemma pte_dims : 0 < PTES_PER_PAGE ∧ MAX_CAPACITY_PER_TABLE = PTES_PER_PAGE * 2 ^ Z.of_nat 9.
Proof. by vm_compute. Qed.
Lemma log_dims : 0 < LOGS_PER_PAGE ∧ MAX_RESULT_TABLE_ENTRIES = LOGS_PER_PAGE * 2 ^ Z.of_nat 10.
Proof. by vm_compute. Qed.

Lemma fresh_table_repr {A} (per_page max_cap : Z) (k : nat) :
  0 < per_page → table_repr (A := A) per_page max_cap k (Table (Some [fresh_array per_page]) 1 0 per_page) [].
Proof.
  intros Hp. split; simpl; [|done|lia|lia].
  exists [], (fresh_array per_page), 0%nat. unfold fresh_array. rewrite length_replicate. simpl.
  split_and!; [done|constructor|lia|lia|lia|lia].
Qed.

(** The table is at most half empty. *)
Definition frugal (t : table shadow_pte) : Prop := tb_capacity t ≤ Z.max PTES_PER_PAGE (2 * tb_cnt t).

(** What [grow] does from a full table when no allocation fails. *)
Lemma wp_kmalloc (s : kalloc) (Q : bool → kalloc → Prop) :
  (∀ b s', (false ∉ s → b = true ∧ false ∉ s') → Q b s') → wp kmalloc s Q.
Proof. intros HQ. unfold wp, kmalloc. destruct s as [|b s]; apply HQ; [done|]. intros H. split; [destruct b|]; set_solver. Qed.

Lemma wp_grow_shadow t L s (Q : table shadow_pte → kalloc → Prop) :
  pte_repr t L → false ∉ s →
  (∀ t' s', pte_repr t' L → tb_capacity t < tb_capacity t' ≤ 2 * tb_capacity t → tb_cnt t' = tb_cnt t → false ∉ s' → Q t' s') →
  wp (grow_shadow_page_table t) s Q.
Proof.
  intros Ht Hs HQ. destruct pte_dims as [Hp Hm]. unfold grow_shadow_page_table.
  destruct (table_repr_capacity _ _ 9 Hp Hm t L Ht) as [Hc1 Hc2].
  destruct (Z.ltb_spec MAX_CAPACITY_PER_TABLE (curr_capacity MAX_CAPACITY_PER_TABLE t * GROWTH_FACTOR)).
  - wp_step. apply wp_kmalloc. intros b1 s1 [-> Hs1]; [done|]. simpl. wp_step. apply wp_kmalloc. intros b2 s2 [-> Hs2]; [done|].
    wp_step. destruct (table_repr_add_array _ _ 9 Hp Hm t L Ht) as [H1 H2]; [done|]. apply HQ; [done|simpl in *; lia|done..].
  - unfold grow_last. wp_step. apply wp_kmalloc. intros b1 s1 [-> Hs1]; [done|]. wp_step.
    edestruct (table_repr_grow_last _ _ 9 Hp Hm t L) as [H1 H2]; [done|lia|reflexivity|].
    apply HQ; [done|simpl in *; unfold GROWTH_FACTOR in *; lia|done..].
Qed.

Lemma wp_grow_error t L s (Q : table ksm_event_log → kalloc → Prop) :
  log_tbl_repr t L → false ∉ s →
  (∀ t' s', log_tbl_repr t' L → tb_capacity t < tb_capacity t' → tb_cnt t' = tb_cnt t → false ∉ s' → Q t' s') →
  wp (grow_error_table t) s Q.
Proof.
  intros Ht Hs HQ. destruct log_dims as [Hp Hm]. unfold grow_error_table.
  destruct (Z.ltb_spec MAX_RESULT_TABLE_ENTRIES (curr_capacity MAX_RESULT_TABLE_ENTRIES t * GROWTH_FACTOR)).
  - wp_step. apply wp_kmalloc. intros b1 s1 [-> Hs1]; [done|]. simpl. wp_step. apply wp_kmalloc. intros b2 s2 [-> Hs2]; [done|].
    wp_step. destruct (table_repr_add_array _ _ 10 Hp Hm t L Ht) as [H1 H2]; [done|]. by apply HQ.
  - unfold grow_last. wp_step. apply wp_kmalloc. intros b1 s1 [-> Hs1]; [done|]. wp_step.
    edestruct (table_repr_grow_last _ _ 10 Hp Hm t L) as [H1 H2]; [done|lia|reflexivity|]. by apply HQ.
Qed.

Lemma pwp_liftO {S A} (o : outcome A) (s : S) (Q : A → S → Prop) : (∀ a, o = Ok a → Q a s) → pwp (liftO o) s Q.
Proof. unfold liftO, pwp. destruct o; auto. Qed.

Lemma wp_liftO {S A} (o : outcome A) a (s : S) (Q : A → S → Prop) : o = Ok a → Q a s → wp (liftO o) s Q.
Proof. by intros ->. Qed.

(** One entry more, found again by index and by address. *)
Lemma wp_insert_entry sm L va kpfn item s (Q : Z * shadow_mm → kalloc → Prop) :
  pte_repr (pt_map sm) L → frugal (pt_map sm) → false ∉ s → page_xa sm !! Z.shiftr va PAGE_SHIFT = None →
  (∀ t s', pte_repr t (L ++ [ShadowPte va kpfn]) → frugal t → false ∉ s' →
     Q (0, ShadowMm (sm_mm_id sm) t (<[Z.shiftr va PAGE_SHIFT := item]> (page_xa sm))) s') →
  wp (insert_entry_to_shadow_mm sm va kpfn item) s Q.
Proof.
  intros Ht Hfr Hs Hxa HQ. destruct pte_dims as [Hp Hm]. unfold insert_entry_to_shadow_mm, frugal in *.
  assert (Hrest : ∀ t s1, pte_repr t L → tb_cnt t < tb_capacity t ≤ Z.max PTES_PER_PAGE (2 * (tb_cnt t + 1)) → false ∉ s1 →
    wp (if tb_capacity t <=? tb_cnt t then mret (-1, with_table t sm) else
        t' ← liftO (write_at MAX_CAPACITY_PER_TABLE (tb_cnt t) (ShadowPte va kpfn) t);
        r ← xa_insert (page_xa sm) (Z.shiftr va PAGE_SHIFT) item;
        match r with
        | None => mret (-1, with_table t' sm)
        | Some xa => mret (0, ShadowMm (sm_mm_id sm) (Table (arrays t') (array_cnt t') (tb_cnt t' + 1) (tb_capacity t')) xa)
        end) s1 Q).
  { intros t s1 Ht1 Hlt Hs1. destruct (Z.leb_spec (tb_capacity t) (tb_cnt t)); [lia|]. destruct Hlt as [Hlt Hle].
    destruct (write_at_next _ _ 9 Hp Hm t L (ShadowPte va kpfn) Ht1 Hlt) as (t' & Hw & _ & Ht').
    destruct (write_at_same _ _ _ _ _ Hw) as [Ec Ek]. wp_step. eapply wp_liftO; [exact Hw|]. wp_step. unfold xa_insert. rewrite Hxa.
    wp_step. apply wp_kmalloc. intros b s2 [-> Hs2]; [done|]. do 2 wp_step. apply HQ; [done|simpl; by rewrite Ec, Ek|done]. }
  wp_step. destruct (Z.leb_spec (tb_capacity (pt_map sm)) (tb_cnt (pt_map sm))) as [Hfull|Hroom].
  - eapply wp_grow_shadow; [done|done|]. intros t s1 Ht1 Hlt Hc Hs1. apply Hrest; [done| |done].
    pose proof (tr_fits _ _ _ _ _ Ht). lia.
  - wp_step. apply Hrest; [done|lia|done].
Qed.

Lemma wp_insert_error_log tbl L tag log s (Q : Z * option error_table → kalloc → Prop) :
  log_tbl_repr (et_table tbl) L → false ∉ s →
  (∀ t s', log_tbl_repr t (L ++ [retag tag log]) → false ∉ s' →
     Q (0, Some (ErrorTable t (et_registered tbl))) s') →
  wp (insert_error_log (Some tbl) tag log) s Q.
Proof.
  intros Ht Hs HQ. destruct log_dims as [Hp Hm]. unfold insert_error_log.
  assert (Hrest : ∀ t s1, log_tbl_repr t L → tb_cnt t < tb_capacity t → false ∉ s1 →
    wp (if tb_capacity t <=? tb_cnt t then mret (-1, Some (ErrorTable t (et_registered tbl))) else
    t' ← liftO (write_at MAX_RESULT_TABLE_ENTRIES (tb_cnt t) (retag tag log) t);
    mret (0, Some (ErrorTable (Table (arrays t') (array_cnt t') (tb_cnt t' + 1) (tb_capacity t')) (et_registered tbl)))) s1 Q).
  { intros t s1 Ht1 Hlt Hs1. destruct (Z.leb_spec (tb_capacity t) (tb_cnt t)); [lia|].
    destruct (write_at_next _ _ 10 Hp Hm t L (retag tag log) Ht1 Hlt) as (t' & Hw & _ & Ht').
    wp_step. eapply wp_liftO; [exact Hw|]. wp_step. by apply HQ. }
  wp_step. destruct (Z.leb_spec (tb_capacity (et_table tbl)) (tb_cnt (et_table tbl))) as [Hfull|Hroom].
  - eapply wp_grow_error; [done|done|]. intros t s1 Ht1 Hlt Hc Hs1. apply Hrest; [done| |done].
    pose proof (tr_fits _ _ _ _ _ Ht). lia.
  - wp_step. by apply Hrest.
Qed.

Lemma get_va_at_repr sm L i :
  pte_repr (pt_map sm) L → 0 ≤ i →
  get_va_at sm i = match L !! Z.to_nat i with Some pte => Ok (pte_va pte) | None => Halt "BUG_ON" end.
Proof.
  intros [_ Hcnt _ Hread] Hi. unfold get_va_at. rewrite Hcnt. destruct (Z.leb_spec (Z.of_nat (length L)) i).
  - by rewrite lookup_ge_None_2 by lia.
  - destruct (lookup_lt_is_Some_2 L (Z.to_nat i) ltac:(lia)) as [pte Hp]. rewrite Hp.
    specialize (Hread (Z.to_nat i) ltac:(lia)). rewrite Z2Nat.id in Hread by done. by rewrite Hread, Hp.
Qed.
