(* ===== verification/Scatter.v ===== *)
(** * Scatter: the chained scatterlists the host registers

    [codes/mm/ksm_rdma.c] and [codes/mm/ksm_shadow.c]: the loops that lay the
    pages of a chunk out in kmalloc'd scatterlists of at most
    [SG_CHUNK_SIZE] entries linked by chain entries
    ([rdma_register_shadow_mms], [rdma_register_error_table]) and the loops
    that free them again ([free_shadow_mm], [rdma_unregister_error_table]),
    which recompute the sizes from the number of pages.  A list of chunks
    stands for the chunks reached by following the chain entries. *)
From S2P Require Import Prelude Wire Growable Shadow.
Open Scope Z_scope.

(** The kernel's limit on one scatterlist allocation. *)
Definition SG_CHUNK_SIZE : Z := 128.

Inductive sg_entry := SgPage (page : Z) | SgLast (page : Z) | SgChain.

(** How many scatterlists hold [size] entries. *)
Definition sg_iters (this_sgl_size : Z) : Z :=
  if this_sgl_size <=? SG_CHUNK_SIZE then 1
  else let remaining_size := this_sgl_size - SG_CHUNK_SIZE in
       (remaining_size + (SG_CHUNK_SIZE - 1) - 1) / (SG_CHUNK_SIZE - 1) + 1.

(** The registration loop, [n] iterations from the end, [registered] entries
    laid out: each page goes to the next entry, a full list ends with the
    chain entry, the last list with the end mark. *)
Definition mark_end (l : list sg_entry) : list sg_entry :=
  match last l with Some (SgPage p) => removelast l ++ [SgLast p] | _ => l end.

Definition pages_from (page_of : Z → Z) (start n : Z) : list sg_entry :=
  (λ i, SgPage (page_of (start + Z.of_nat i))) <$> seq 0 (Z.to_nat n).

Fixpoint build_sgl (page_of : Z → Z) (iters : nat) (registered this_sgl_size : Z) : list (list sg_entry) :=
  match iters with
  | O => []
  | S O => [mark_end (pages_from page_of registered (this_sgl_size - registered))]
  | S iters' =>
    (pages_from page_of registered (SG_CHUNK_SIZE - 1) ++ [SgChain]) ::
    build_sgl page_of iters' (registered + (SG_CHUNK_SIZE - 1)) this_sgl_size
  end.

Definition register_sgl (page_of : Z → Z) (this_sgl_size : Z) : list (list sg_entry) :=
  build_sgl page_of (Z.to_nat (sg_iters this_sgl_size)) 0 this_sgl_size.

(** The freeing loop over the chunks [sgt] still linked: how many it frees.
    An entry that is neither a chain nor the end stops
    [rdma_unregister_error_table] ([stops]); [free_shadow_mm] goes on with the
    same list.  An entry outside the list is a fault. *)
Definition one_more (o : outcome nat) : outcome nat :=
  match o with Ok n => Ok (S n) | Halt w => Halt w | Fault w => Fault w end.

Fixpoint free_sgl (stops : bool) (iters : nat) (freed this_sgl_size : Z) (sgt : list (list sg_entry)) : outcome nat :=
  match iters with
  | O => Ok O
  | S iters' =>
    let this_size := match iters' with O => this_sgl_size - freed | _ => SG_CHUNK_SIZE end in
    if this_size =? 0 then Ok O else
    if this_size <? 0 then Fault "sg index" else
    match head sgt ≫= (.!! Z.to_nat (this_size - 1)) with
    | None => Fault "sg index"
    | Some SgChain => one_more (free_sgl stops iters' (freed + (this_size - 1)) this_sgl_size (tail sgt))
    | Some (SgLast _) => Ok 1%nat
    | Some (SgPage _) =>
      if stops then Halt "Invalid scatterlist"
      else free_sgl stops iters' (freed + (this_size - 1)) this_sgl_size sgt
    end
  end.

Definition unregister_sgl (stops : bool) (this_sgl_size : Z) (sgt : list (list sg_entry)) : outcome nat :=
  free_sgl stops (Z.to_nat (sg_iters this_sgl_size)) 0 this_sgl_size sgt.

(** The pages in the order the chain presents them. *)
Definition sg_pages (sgt : list (list sg_entry)) : list Z :=
  omap (λ e, match e with SgPage p | SgLast p => Some p | SgChain => None end) (mjoin sgt).

(** ** Chunks

    A table of [total] pages is registered in chunks of [MAX_PAGES_IN_SGL]. *)
Definition sgl_num (total : Z) : Z := div_round_up total MAX_PAGES_IN_SGL.

Definition chunk_size (total sgl_idx : Z) : Z :=
  if sgl_idx =? sgl_num total - 1 then total - sgl_idx * MAX_PAGES_IN_SGL else MAX_PAGES_IN_SGL.

Definition chunks (total : Z) : list Z := Z.of_nat <$> seq 0 (Z.to_nat (sgl_num total)).

(** [page_of i] is page [i] of the whole table. *)
Definition register_chunks (page_of : Z → Z) (total : Z) : list (list (list sg_entry)) :=
  (λ sgl_idx, register_sgl (λ i, page_of (sgl_idx * MAX_PAGES_IN_SGL + i)) (chunk_size total sgl_idx)) <$> chunks total.

(** The unregistration of the chunks, given how many there are. *)
Fixpoint unregister_chunks (stops : bool) (total sgl_idx : Z) (sgts : list (list (list sg_entry))) : outcome (list nat) :=
  match sgts with
  | [] => Ok []
  | sgt :: sgts' =>
    match unregister_sgl stops (chunk_size total sgl_idx) sgt with
    | Ok n => match unregister_chunks stops total (sgl_idx + 1) sgts' with Ok ns => Ok (n :: ns) | o => o end
    | Halt w => Halt w | Fault w => Fault w
    end
  end.

(** ** The error table

    [array_page k] is the page frame of [entry_tables[k]]. *)
Definition error_pages (registered : Z) : Z := div_round_up (registered * SIZEOF_KSM_EVENT_LOG) PAGE_SIZE.

Definition error_page_of (array_page : Z → Z) (i : Z) : Z :=
  let entry_pos := LOGS_PER_PAGE * i in
  let array_idx := entry_pos / MAX_RESULT_TABLE_ENTRIES in
  let entry_idx := entry_pos mod MAX_RESULT_TABLE_ENTRIES in
  array_page array_idx + (entry_idx * SIZEOF_KSM_EVENT_LOG) / PAGE_SIZE.

(** [mr_of sgt] is the registered memory region of a scatterlist. *)
Definition rdma_register_error_table (array_page : Z → Z) (mr_of : list (list sg_entry) → error_table_desc_entry)
    (tbl : error_table) : error_table * list (list (list sg_entry)) * error_table_descriptor :=
  let registered := tb_cnt (et_table tbl) in
  let sgts := register_chunks (error_page_of array_page) (error_pages registered) in
  (ErrorTable (et_table tbl) registered, sgts,
   ErrorTableDescriptor registered (sgl_num (error_pages registered)) (mr_of <$> sgts)).

Definition rdma_unregister_error_table (tbl : error_table) (sgts : list (list (list sg_entry))) : outcome (list nat) :=
  unregister_chunks true (error_pages (et_registered tbl)) 0 sgts.

(** ** The shadow page tables *)
Record kernel_item := KernelItem { ki_address : Z; ki_page : Z }.

Definition page_mask (va : Z) : Z := va - va mod PAGE_SIZE.

(** The xarray in the order its iterator visits it. *)
Definition index_le (a b : Z * positive) : Prop := a.1 ≤ b.1.
#[export] Instance index_le_dec : RelDecision index_le.
Proof. intros a b. unfold index_le. apply _. Defined.
#[export] Instance index_le_total : Total index_le.
Proof. intros a b. unfold index_le. lia. Qed.
#[export] Instance index_le_trans : Transitive index_le.
Proof. intros a b c. unfold index_le. lia. Qed.

Definition xa_order (xa : gmap Z positive) : list (Z * positive) := merge_sort index_le (map_to_list xa).

(** The innermost loop: entry [va_idx] of the table against the next item of
    the xarray. *)
Fixpoint next_pages (items : positive → option kernel_item) (sm : shadow_mm) (n : nat) (va_idx : Z)
    (xa_iter : list (Z * positive)) : outcome (list Z) :=
  match n with
  | O => Ok []
  | S n' =>
    match get_va_at sm va_idx with
    | Halt w => Halt w | Fault w => Fault w
    | Ok this_va =>
      match xa_iter with
      | [] => Halt "Failed to find Page"
      | (_, p) :: xa_iter' =>
        match items p with
        | None => Fault "item"
        | Some item =>
          if negb (page_mask (ki_address item) =? this_va) then Halt "Page address mismatch" else
          match next_pages items sm n' (va_idx + 1) xa_iter' with Ok l => Ok (ki_page item :: l) | o => o end
        end
      end
    end
  end.

(** The map's own scatterlist: one entry per page of the arrays, as (array,
    first entry of the page). *)
Definition array_size (t : table shadow_pte) (i : Z) : Z :=
  if i =? array_cnt t - 1 then tb_capacity t - i * MAX_CAPACITY_PER_TABLE else MAX_CAPACITY_PER_TABLE.

Definition map_sg (t : table shadow_pte) : list (Z * Z) :=
  i ← Z.of_nat <$> seq 0 (Z.to_nat (array_cnt t));
  (λ j, (i, Z.of_nat j * PTES_PER_PAGE)) <$> seq 0 (Z.to_nat (div_round_up (array_size t i) PTES_PER_PAGE)).

Definition map_pages_cnt (t : table shadow_pte) : Z := tb_capacity t * SIZEOF_SHADOW_PTE / PAGE_SIZE.

(** One table of [shadow_pt_list]: its scatterlists, its map and the
    descriptor the server receives. *)
Definition register_shadow_mm (items : positive → option kernel_item) (mr_of : list (list sg_entry) → desc_entry)
    (map_mr : list (Z * Z) → desc_entry) (sm : shadow_mm)
  : outcome (list (list (list sg_entry)) * list (Z * Z) * shadow_pt_descriptor) :=
  let cnt := tb_cnt (pt_map sm) in
  match next_pages items sm (Z.to_nat cnt) 0 (xa_order (page_xa sm)) with
  | Halt w => Halt w | Fault w => Fault w
  | Ok pages =>
    let sgts := register_chunks (λ i, default 0 (pages !! Z.to_nat i)) cnt in
    let map := map_sg (pt_map sm) in
    if MAX_PAGES_IN_SGL <=? Z.of_nat (length map) then Halt "Too many pages in map_sg" else
    if negb (Z.of_nat (length map) * PAGE_SIZE =? SIZEOF_SHADOW_PTE * tb_capacity (pt_map sm)) then Halt "Map mr size mismatch" else
    Ok (sgts, map, ShadowPtDescriptor (sm_mm_id sm) (pages_rkey (map_mr map)) (pages_base_addr (map_mr map)) (mr_of <$> sgts) cnt)
  end.

(** What [free_shadow_mm] does with the scatterlists. *)
Definition free_shadow_sgls (sm : shadow_mm) (sgts : list (list (list sg_entry))) : outcome (list nat) :=
  unregister_chunks false (tb_cnt (pt_map sm)) 0 sgts.

(** ** Lemmas *)
Lemma length_pages_from f a n : length (pages_from f a n) = Z.to_nat n.
Proof. unfold pages_from. by rewrite length_fmap, length_seq. Qed.

Lemma pages_from_snoc f a n : 0 ≤ n → pages_from f a (n + 1) = pages_from f a n ++ [SgPage (f (a + n))].
Proof.
  intros Hn. unfold pages_from. rewrite Z2Nat.inj_add by lia. rewrite seq_app, fmap_app. simpl.
  by rewrite Z2Nat.id by lia.
Qed.

Lemma mark_end_pages f a n :
  0 < n → mark_end (pages_from f a n) = pages_from f a (n - 1) ++ [SgLast (f (a + (n - 1)))].
Proof.
  intros Hn. replace n with ((n - 1) + 1) at 1 by lia. rewrite pages_from_snoc by lia.
  unfold mark_end. rewrite last_snoc. f_equal. apply removelast_last.
Qed.

Lemma sg_pages_cons c l : sg_pages (c :: l) =
  omap (λ e, match e with SgPage p | SgLast p => Some p | SgChain => None end) c ++ sg_pages l.
Proof. unfold sg_pages. simpl. by rewrite omap_app. Qed.

Lemma omap_pages f a n :
  omap (λ e, match e with SgPage p | SgLast p => Some p | SgChain => None end) (pages_from f a n)
  = (λ i, f (a + Z.of_nat i)) <$> seq 0 (Z.to_nat n).
Proof. unfold pages_from. induction (seq 0 (Z.to_nat n)) as [|i l IH]; simpl; [done|]. by f_equal. Qed.

Lemma omap_pages_chain f a n :
  omap (λ e, match e with SgPage p | SgLast p => Some p | SgChain => None end) (pages_from f a n ++ [SgChain])
  = (λ i, f (a + Z.of_nat i)) <$> seq 0 (Z.to_nat n).
Proof. by rewrite omap_app, omap_pages, app_nil_r. Qed.

Lemma fmap_seq_app (f : Z → Z) (a : Z) (n m : nat) :
  (λ i, f (a + Z.of_nat i)) <$> seq 0 (n + m) =
  ((λ i, f (a + Z.of_nat i)) <$> seq 0 n) ++ ((λ i, f (a + Z.of_nat n + Z.of_nat i)) <$> seq 0 m).
Proof.
  rewrite seq_app, fmap_app. f_equal. rewrite <- (Nat.add_0_r (0 + n)), <- fmap_add_seq, <- list_fmap_compose.
  apply list_fmap_ext. intros i x _. simpl. f_equal. lia.
Qed.

(** [iters] lists are exactly enough: with [n] of them left there are between
    2 and [SG_CHUNK_SIZE] entries for the last. *)
Definition enough (n : nat) (registered total : Z) : Prop :=
  match n with
  | O => False
  | S m => (if (m =? 0)%nat then 1 else 2) ≤ total - registered - Z.of_nat m * (SG_CHUNK_SIZE - 1) ≤ SG_CHUNK_SIZE
  end.

Lemma sg_iters_enough total : 0 < total → enough (Z.to_nat (sg_iters total)) 0 total.
Proof.
  intros Ht. unfold sg_iters, SG_CHUNK_SIZE. destruct (Z.leb_spec total 128) as [Hle|Hgt]; [simpl; unfold SG_CHUNK_SIZE; lia|].
  set (q := (total - 128 + (128 - 1) - 1) / (128 - 1)).
  assert (127 * q ≤ total - 128 + 126 < 127 * q + 127) as Hq.
  { pose proof (Z.div_mod (total - 128 + (128 - 1) - 1) (128 - 1) ltac:(lia)).
    pose proof (Z.mod_pos_bound (total - 128 + (128 - 1) - 1) (128 - 1) ltac:(lia)). unfold q. lia. }
  assert (Z.to_nat (q + 1) = S (Z.to_nat q)) as -> by lia. unfold enough, SG_CHUNK_SIZE.
  rewrite Z2Nat.id by lia. destruct (Z.to_nat q =? 0)%nat eqn:E; [|lia].
  apply Nat.eqb_eq in E. lia.
Qed.

(** *** One scatterlist *)
Lemma enough_S n registered total :
  enough (S (S n)) registered total → enough (S n) (registered + (SG_CHUNK_SIZE - 1)) total.
Proof. unfold enough, SG_CHUNK_SIZE. simpl. destruct (n =? 0)%nat eqn:E; [apply Nat.eqb_eq in E; subst|]; lia. Qed.

Lemma build_sgl_S page_of n registered total :
  build_sgl page_of (S (S n)) registered total =
    (pages_from page_of registered (SG_CHUNK_SIZE - 1) ++ [SgChain])
    :: build_sgl page_of (S n) (registered + (SG_CHUNK_SIZE - 1)) total.
Proof. done. Qed.

Lemma build_sgl_pages page_of n registered total :
  enough n registered total →
  sg_pages (build_sgl page_of n registered total) =
    (λ i, page_of (registered + Z.of_nat i)) <$> seq 0 (Z.to_nat (total - registered)).
Proof.
  revert registered. induction n as [|n IH]; intros registered H; [done|]. destruct n as [|n].
  - unfold enough in H. simpl in H. simpl. rewrite sg_pages_cons. simpl. rewrite app_nil_r.
    rewrite mark_end_pages by lia. rewrite omap_app, omap_pages. simpl.
    replace (Z.to_nat (total - registered)) with (Z.to_nat (total - registered - 1) + 1)%nat by lia.
    rewrite seq_app, fmap_app. simpl. repeat f_equal. lia.
  - rewrite build_sgl_S, sg_pages_cons, IH by (by apply enough_S). rewrite omap_pages_chain.
    unfold enough in H. simpl (S n =? 0)%nat in H. cbv iota in H.
    replace (Z.to_nat (total - registered))
      with (Z.to_nat (SG_CHUNK_SIZE - 1) + Z.to_nat (total - (registered + (SG_CHUNK_SIZE - 1))))%nat
      by (unfold SG_CHUNK_SIZE in *; lia).
    rewrite fmap_seq_app. by rewrite Z2Nat.id by done.
Qed.

Lemma build_sgl_length page_of n registered total :
  enough n registered total →
  length (build_sgl page_of n registered total) = n ∧
  Forall (λ c, Z.of_nat (length c) ≤ SG_CHUNK_SIZE) (build_sgl page_of n registered total).
Proof.
  revert registered. induction n as [|n IH]; intros registered H; [done|]. destruct n as [|n].
  - unfold enough in H. simpl in *. split; [done|]. apply Forall_singleton. rewrite mark_end_pages by lia.
    rewrite length_app, length_pages_from. simpl. lia.
  - rewrite build_sgl_S. destruct (IH _ (enough_S _ _ _ H)) as [H1 H2]. split; [simpl; simpl in H1; lia|].
    constructor; [|done]. by rewrite length_app, length_pages_from.
Qed.

Lemma build_sgl_freed stops page_of n registered total :
  enough n registered total → free_sgl stops n registered total (build_sgl page_of n registered total) = Ok n.
Proof.
  revert registered. induction n as [|n IH]; intros registered H; [done|]. destruct n as [|n].
  - unfold enough in H. simpl in H. cbn [free_sgl build_sgl]. destruct (Z.eqb_spec (total - registered) 0); [lia|].
    destruct (Z.ltb_spec (total - registered) 0); [lia|]. rewrite mark_end_pages by lia.
    cbn [head mbind option_bind]. rewrite lookup_app_r; rewrite length_pages_from; [|lia]. by rewrite Nat.sub_diag.
  - specialize (IH _ (enough_S _ _ _ H)). rewrite build_sgl_S.
    change (free_sgl stops (S (S n)) registered total ?l) with
      (match head l ≫= (.!! Z.to_nat (SG_CHUNK_SIZE - 1)) with
       | None => Fault "sg index"
       | Some SgChain => one_more (free_sgl stops (S n) (registered + (SG_CHUNK_SIZE - 1)) total (tail l))
       | Some (SgLast _) => Ok 1%nat
       | Some (SgPage _) => if stops then Halt "Invalid scatterlist"
           else free_sgl stops (S n) (registered + (SG_CHUNK_SIZE - 1)) total l
       end).
    set (l := build_sgl _ _ _ _) in *. set (c := pages_from page_of registered (SG_CHUNK_SIZE - 1) ++ [SgChain]).
    assert (head (c :: l) ≫= (.!! Z.to_nat (SG_CHUNK_SIZE - 1)) = Some SgChain) as ->; [|cbn [tail]; by rewrite IH].
    change (c !! Z.to_nat (SG_CHUNK_SIZE - 1) = Some SgChain). unfold c.
    rewrite lookup_app_r; rewrite length_pages_from; [|lia]. by rewrite Nat.sub_diag.
Qed.

(** *** All the chunks *)
Lemma mjoin_singleton {A} (l : list A) : mjoin [l] = l.
Proof. apply app_nil_r. Qed.

Lemma chunk_size_pos total i : 0 ≤ i < sgl_num total → 0 < chunk_size total i ≤ MAX_PAGES_IN_SGL.
Proof.
  unfold chunk_size, sgl_num, div_round_up, MAX_PAGES_IN_SGL. intros Hi.
  pose proof (Z.div_mod (total + 65536 - 1) 65536 ltac:(lia)).
  pose proof (Z.mod_pos_bound (total + 65536 - 1) 65536 ltac:(lia)).
  destruct (Z.eqb_spec i ((total + 65536 - 1) / 65536 - 1)); lia.
Qed.

Lemma register_sgl_pages page_of size :
  0 < size → sg_pages (register_sgl page_of size) = (λ i, page_of (Z.of_nat i)) <$> seq 0 (Z.to_nat size).
Proof.
  intros Hs. unfold register_sgl. rewrite build_sgl_pages by (by apply sg_iters_enough). by rewrite Z.sub_0_r.
Qed.

Lemma unregister_register stops page_of size :
  0 < size → unregister_sgl stops size (register_sgl page_of size) = Ok (length (register_sgl page_of size)).
Proof.
  intros Hs. pose proof (sg_iters_enough _ Hs) as He. unfold unregister_sgl, register_sgl.
  rewrite build_sgl_freed by done. f_equal. symmetry. by apply build_sgl_length.
Qed.

(** The first [n] chunks, not counting the last, are full. *)
Lemma full_chunks page_of total n :
  (Z.of_nat n < sgl_num total) →
  mjoin ((λ sgl_idx, sg_pages (register_sgl (λ i, page_of (sgl_idx * MAX_PAGES_IN_SGL + i)) (chunk_size total sgl_idx)))
           <$> (Z.of_nat <$> seq 0 n))
  = (λ i, page_of (Z.of_nat i)) <$> seq 0 (n * Z.to_nat MAX_PAGES_IN_SGL).
Proof.
  induction n as [|n IH]; intros Hn; [done|]. rewrite seq_S, !fmap_app, join_app, IH by lia.
  replace (S n * Z.to_nat MAX_PAGES_IN_SGL)%nat with (n * Z.to_nat MAX_PAGES_IN_SGL + Z.to_nat MAX_PAGES_IN_SGL)%nat by lia.
  change (λ i : nat, page_of (Z.of_nat i)) with (λ i : nat, page_of (0 + Z.of_nat i)). rewrite fmap_seq_app. f_equal.
  rewrite Nat.add_0_l, !list_fmap_singleton, mjoin_singleton.
  assert (chunk_size total (Z.of_nat n) = MAX_PAGES_IN_SGL) as ->.
  { unfold chunk_size. destruct (Z.eqb_spec (Z.of_nat n) (sgl_num total - 1)); [lia|done]. }
  rewrite register_sgl_pages by done. apply list_fmap_ext. intros i x _. f_equal. unfold MAX_PAGES_IN_SGL. lia.
Qed.

Lemma register_chunks_pages page_of total :
  0 ≤ total → mjoin (sg_pages <$> register_chunks page_of total) = (λ i, page_of (Z.of_nat i)) <$> seq 0 (Z.to_nat total).
Proof.
  intros Ht. unfold register_chunks, chunks. rewrite <- list_fmap_compose. unfold compose.
  destruct (Z.to_nat (sgl_num total)) as [|n] eqn:En.
  - assert (total = 0) as ->; [|done]. unfold sgl_num, div_round_up, MAX_PAGES_IN_SGL in En.
    pose proof (Z.div_mod (total + 65536 - 1) 65536 ltac:(lia)).
    pose proof (Z.mod_pos_bound (total + 65536 - 1) 65536 ltac:(lia)). lia.
  - rewrite seq_S, !fmap_app, join_app, full_chunks by lia. rewrite Nat.add_0_l, !list_fmap_singleton, mjoin_singleton.
    pose proof (chunk_size_pos total (Z.of_nat n) ltac:(lia)) as Hc. rewrite register_sgl_pages by lia.
    unfold chunk_size in *. destruct (Z.eqb_spec (Z.of_nat n) (sgl_num total - 1)); [|lia].
    replace (Z.to_nat total) with (n * Z.to_nat MAX_PAGES_IN_SGL + Z.to_nat (total - Z.of_nat n * MAX_PAGES_IN_SGL))%nat
      by (unfold MAX_PAGES_IN_SGL in *; lia).
    change (λ i : nat, page_of (Z.of_nat i)) with (λ i : nat, page_of (0 + Z.of_nat i)). rewrite fmap_seq_app. f_equal.
    apply list_fmap_ext. intros i x _. f_equal. unfold MAX_PAGES_IN_SGL. lia.
Qed.

Lemma unregister_register_chunks stops page_of total :
  unregister_chunks stops total 0 (register_chunks page_of total) = Ok (length <$> register_chunks page_of total).
Proof.
  unfold register_chunks, chunks.
  assert (∀ n a, (Z.of_nat (a + n) ≤ sgl_num total) →
    let l := (λ sgl_idx, register_sgl (λ i, page_of (sgl_idx * MAX_PAGES_IN_SGL + i)) (chunk_size total sgl_idx)) <$>
               (Z.of_nat <$> seq a n) in
    unregister_chunks stops total (Z.of_nat a) l = Ok (length <$> l)) as H.
  { induction n as [|n IH]; intros a Hn; [done|]. cbn zeta. cbn [seq]. rewrite !fmap_cons. cbn [unregister_chunks].
    rewrite unregister_register by (apply chunk_size_pos; lia).
    replace (Z.of_nat a + 1) with (Z.of_nat (S a)) by lia. specialize (IH (S a) ltac:(lia)). cbn zeta in IH. by rewrite IH. }
  destruct (Z.le_gt_cases 0 (sgl_num total)).
  - apply (H _ 0%nat). lia.
  - by rewrite Z2Nat.nonpos by lia.
Qed.

(** ** Registering a well-formed table *)
Definition xa_entry (e : shadow_pte * positive) : Z * positive := (Z.shiftr (pte_va e.1) PAGE_SHIFT, e.2).

(** The entries [es] were inserted, in ascending order of address. *)
Record shadow_wf (items : positive → option kernel_item) (sm : shadow_mm) (es : list (shadow_pte * positive)) : Prop :=
  ShadowWf {
  sw_table : pte_repr (pt_map sm) es.*1;
  sw_xa : page_xa sm = list_to_map (xa_entry <$> es);
  sw_sorted : StronglySorted Z.lt (xa_entry <$> es).*1;
  sw_items : Forall (λ e, ∃ it, items e.2 = Some it ∧ page_mask (ki_address it) = pte_va e.1) es }.

Lemma StronglySorted_lt_NoDup l : StronglySorted Z.lt l → NoDup l.
Proof.
  induction 1 as [|a l Hl IH Ha]; constructor; [|done]. intros Hin. rewrite Forall_forall in Ha. specialize (Ha _ Hin). lia.
Qed.

Lemma StronglySorted_index l : StronglySorted Z.lt l.*1 → StronglySorted index_le l.
Proof.
  induction l as [|a l IH]; intros H; [constructor|]. simpl in H. apply StronglySorted_inv in H as [H1 H2].
  constructor; [by apply IH|]. rewrite Forall_fmap in H2. eapply Forall_impl; [exact H2|]. unfold index_le. simpl. lia.
Qed.

Lemma xa_order_list (l : list (Z * positive)) : StronglySorted Z.lt l.*1 → xa_order (list_to_map l) = l.
Proof.
  intros Hs. pose proof (StronglySorted_lt_NoDup _ Hs) as Hnd. unfold xa_order.
  assert (merge_sort index_le (map_to_list (list_to_map l : gmap Z positive)) ≡ₚ l) as Hp.
  { rewrite merge_sort_Permutation. by apply map_to_list_to_map. }
  eapply StronglySorted_unique_strong; [|by apply StronglySorted_merge_sort; apply _|by apply StronglySorted_index|done].
  intros x1 x2 H1 H2 Hle1 Hle2. rewrite Hp in H1. unfold index_le in *.
  destruct x1 as [k1 v1], x2 as [k2 v2]. simpl in *. assert (k1 = k2) as -> by lia. f_equal.
  apply (elem_of_list_to_map_1 (M := gmap Z)) in H1; [|done]. apply (elem_of_list_to_map_1 (M := gmap Z)) in H2; [|done].
  congruence.
Qed.

Lemma next_pages_ok items sm es n :
  shadow_wf items sm es → (n ≤ length es)%nat →
  next_pages items sm n (Z.of_nat (length es - n)) (xa_entry <$> drop (length es - n) es)
    = Ok (omap (λ e, ki_page <$> items e.2) (drop (length es - n) es)).
Proof.
  intros Hwf. induction n as [|n IH]; intros Hn.
  - rewrite Nat.sub_0_r, drop_all. done.
  - destruct (lookup_lt_is_Some_2 es (length es - S n) ltac:(lia)) as [e He].
    rewrite (drop_S _ _ _ He). cbn [fmap list_fmap next_pages omap list_omap].
    replace (S (length es - S n)) with (length es - n)%nat by lia.
    rewrite (get_va_at_repr _ es.*1) by (apply Hwf || lia). rewrite Nat2Z.id, list_lookup_fmap, He. simpl.
    pose proof (sw_items _ _ _ Hwf) as Hit. rewrite Forall_lookup in Hit. destruct (Hit _ _ He) as (it & Hi & Hm).
    rewrite Hi. simpl. rewrite Hm, Z.eqb_refl. simpl.
    replace (Z.of_nat (length es - S n) + 1) with (Z.of_nat (length es - n)) by lia. by rewrite IH by lia.
Qed.

Lemma omap_items_length items sm es :
  shadow_wf items sm es → length (omap (λ e, ki_page <$> items e.2) es) = length es.
Proof.
  intros [_ _ _ H]. induction H as [|e es (it & Hi & _) H IH]; [done|].
  cbn [omap list_omap]. rewrite Hi. cbn. f_equal. exact IH.
Qed.

(** [registered] never runs past the [map_pages_cnt] entries allocated. *)
Lemma map_sg_length t L : pte_repr t L → Z.of_nat (length (map_sg t)) = map_pages_cnt t.
Proof.
  intros [(front & a & j & Ha & Hf & Hj & Hlen & Hac & Hcap) _ _ _]. unfold map_sg, map_pages_cnt.
  rewrite Hcap. rewrite Hac. unfold array_size. rewrite Hac, Hcap.
  assert (Hfull : ∀ n (f : Z → Z), (∀ i, 0 ≤ i < Z.of_nat n → f i = MAX_CAPACITY_PER_TABLE) →
     length (i ← Z.of_nat <$> seq 0 n;
       (λ k, (i, Z.of_nat k * PTES_PER_PAGE)) <$> seq 0 (Z.to_nat (div_round_up (f i) PTES_PER_PAGE))) = (n * 512)%nat).
  { induction n as [|n IH]; intros f Hf'; [done|]. rewrite seq_S, fmap_app, bind_app, length_app, IH by (intros; apply Hf'; lia).
    rewrite Nat.add_0_l, list_fmap_singleton. simpl mbind. rewrite app_nil_r, length_fmap, length_seq, Hf' by lia.
    change (Z.to_nat (div_round_up MAX_CAPACITY_PER_TABLE PTES_PER_PAGE)) with 512%nat. lia. }
  replace (Z.to_nat (Z.of_nat (length front) + 1)) with (S (length front)) by lia.
  rewrite seq_S, fmap_app, bind_app, length_app, Nat.add_0_l, list_fmap_singleton.
  rewrite (Hfull _ (λ i, if i =? Z.of_nat (length front) + 1 - 1 then _ else _)).
  - simpl mbind. rewrite app_nil_r, length_fmap, length_seq.
    destruct (Z.eqb_spec (Z.of_nat (length front)) (Z.of_nat (length front) + 1 - 1)); [|lia].
    rewrite Hlen. change MAX_CAPACITY_PER_TABLE with 131072. change SIZEOF_SHADOW_PTE with 16. change PAGE_SIZE with 4096.
    change PTES_PER_PAGE with 256.
    replace (131072 * Z.of_nat (length front) + 256 * 2 ^ Z.of_nat j - Z.of_nat (length front) * 131072)
      with (256 * 2 ^ Z.of_nat j) by lia.
    assert (0 < 2 ^ Z.of_nat j) by (apply Z.pow_pos_nonneg; lia). unfold div_round_up.
    replace (256 * 2 ^ Z.of_nat j + 256 - 1) with (255 + 2 ^ Z.of_nat j * 256) by lia. rewrite Z.div_add by lia.
    replace ((131072 * Z.of_nat (length front) + 256 * 2 ^ Z.of_nat j) * 16)
      with ((512 * Z.of_nat (length front) + 2 ^ Z.of_nat j) * 4096) by lia. rewrite Z.div_mul by lia. change (255 / 256) with 0.
    rewrite Z.add_0_l, Nat2Z.inj_add, Z2Nat.id, Nat2Z.inj_mul by lia. lia.
  - intros i Hi. destruct (Z.eqb_spec i (Z.of_nat (length front) + 1 - 1)); [lia|done].
Qed.

Lemma map_pages_capacity t L : pte_repr t L → map_pages_cnt t * PAGE_SIZE = SIZEOF_SHADOW_PTE * tb_capacity t.
Proof.
  intros [(front & a & j & _ & _ & Hj & Hlen & _ & Hcap) _ _ _]. unfold map_pages_cnt. rewrite Hcap, Hlen.
  change MAX_CAPACITY_PER_TABLE with 131072. change SIZEOF_SHADOW_PTE with 16. change PAGE_SIZE with 4096. change PTES_PER_PAGE with 256.
  replace ((131072 * Z.of_nat (length front) + 256 * 2 ^ Z.of_nat j) * 16)
    with ((512 * Z.of_nat (length front) + 2 ^ Z.of_nat j) * 4096) by lia. rewrite Z.div_mul by lia. lia.
Qed.

Lemma register_shadow_mm_ok items mr_of map_mr sm es :
  shadow_wf items sm es → map_pages_cnt (pt_map sm) < MAX_PAGES_IN_SGL →
  ∃ sgts, register_shadow_mm items mr_of map_mr sm
          = Ok (sgts, map_sg (pt_map sm),
                ShadowPtDescriptor (sm_mm_id sm) (pages_rkey (map_mr (map_sg (pt_map sm))))
                  (pages_base_addr (map_mr (map_sg (pt_map sm)))) (mr_of <$> sgts) (Z.of_nat (length es))) ∧
    mjoin (sg_pages <$> sgts) = omap (λ e, ki_page <$> items e.2) es ∧
    free_shadow_sgls sm sgts = Ok (length <$> sgts).
Proof.
  intros Hwf Hmax. pose proof (sw_table _ _ _ Hwf) as Ht. unfold register_shadow_mm, free_shadow_sgls.
  rewrite (tr_cnt _ _ _ _ _ Ht), length_fmap, Nat2Z.id, (sw_xa _ _ _ Hwf), xa_order_list by apply Hwf.
  pose proof (next_pages_ok _ _ _ (length es) Hwf ltac:(lia)) as Hn. rewrite Nat.sub_diag in Hn. rewrite drop_0 in Hn.
  change (Z.of_nat 0) with 0 in Hn. rewrite Hn. set (pages := omap _ es) in *.
  rewrite (map_sg_length _ _ Ht). destruct (Z.leb_spec MAX_PAGES_IN_SGL (map_pages_cnt (pt_map sm))); [lia|].
  rewrite (map_pages_capacity _ _ Ht), Z.eqb_refl. simpl negb. cbv iota.
  eexists. split; [reflexivity|]. split; [|apply unregister_register_chunks].
  rewrite register_chunks_pages, Nat2Z.id by lia. pose proof (omap_items_length _ _ _ Hwf) as Hl. fold pages in Hl.
  apply list_eq. intros i. rewrite list_lookup_fmap. destruct (decide (i < length es)%nat) as [Hi|Hi].
  - rewrite lookup_seq_lt by done. cbn. rewrite Nat2Z.id.
    destruct (lookup_lt_is_Some_2 pages i ltac:(lia)) as [pg ->]. done.
  - rewrite lookup_seq_ge by lia. cbn. symmetry. apply lookup_ge_None. lia.
Qed.

(** ** Tables built by a walk *)

(** The entries are in ascending order of page. *)
Definition ascending (es : list (shadow_pte * positive)) : Prop := StronglySorted Z.lt (xa_entry <$> es).*1.

Record shadow_built (sm : shadow_mm) (es : list (shadow_pte * positive)) : Prop := ShadowBuilt {
  sb_table : pte_repr (pt_map sm) es.*1;
  sb_xa : page_xa sm = list_to_map (xa_entry <$> es);
  sb_frugal : frugal (pt_map sm) }.

Lemma built_wf items sm es :
  shadow_built sm es → ascending es →
  Forall (λ e, ∃ it, items e.2 = Some it ∧ page_mask (ki_address it) = pte_va e.1) es → shadow_wf items sm es.
Proof. by intros [H1 H2] Ha Hi. Qed.

Lemma ascending_next es e es' :
  ascending (es ++ e :: es') → (xa_entry e).1 ∉ (xa_entry <$> es).*1.
Proof.
  intros H%StronglySorted_lt_NoDup. rewrite !fmap_app, !fmap_cons in H. apply NoDup_app in H as (_ & Hd & _).
  intros Hin. apply (Hd _ Hin). set_solver.
Qed.

(** The next entry of a walk. *)
Lemma wp_insert_built sm es va kpfn item s (Q : Z * shadow_mm → kalloc → Prop) :
  shadow_built sm es → ascending (es ++ [(ShadowPte va kpfn, item)]) → false ∉ s →
  (∀ sm' s', shadow_built sm' (es ++ [(ShadowPte va kpfn, item)]) → sm_mm_id sm' = sm_mm_id sm → false ∉ s' → Q (0, sm') s') →
  wp (insert_entry_to_shadow_mm sm va kpfn item) s Q.
Proof.
  intros [H1 H2 H3] Ha Hf HQ. pose proof (ascending_next _ _ _ Ha) as Hnew. eapply wp_insert_entry; [exact H1|done|done| |].
  - rewrite H2. by apply not_elem_of_list_to_map_1.
  - intros t s1 Ht Hfr Hs1. apply HQ; [|done|done]. split; simpl; [by rewrite fmap_app| |done].
    rewrite H2, fmap_app. symmetry. by apply list_to_map_snoc.
Qed.

Lemma wp_create_empty mm s (Q : option shadow_mm → kalloc → Prop) :
  false ∉ s → (∀ sm s', shadow_built sm [] → sm_mm_id sm = mm → false ∉ s' → Q (Some sm) s') → wp (create_empty mm) s Q.
Proof.
  intros Hs HQ. unfold create_empty.
  wp_step. apply wp_kmalloc. intros b1 s1 [-> Hs1]; [done|]. simpl. wp_step. apply wp_kmalloc. intros b2 s2 [-> Hs2]; [done|].
  simpl. wp_step. apply wp_kmalloc. intros b3 s3 [-> Hs3]; [done|]. simpl. wp_step.
  apply HQ; [|done|done]. split; [|done|by vm_compute]. simpl. apply fresh_table_repr, pte_dims.
Qed.
