(* ===== verification/Advisor.v ===== *)
(** * Advisor: how many pages to scan at a time

    [codes/mm/ksm.c]: the scan-time advisor, which sets
    [ksm_thread_pages_to_scan] after every pass of the local scan, and the
    sysfs files of the daemon's pace.  A division is a partial operation: by 0
    it is [None].  [ktime_get] and [task_sched_runtime] are arguments, in
    nanoseconds; what [kstrtouint] and [kstrtoul] make of a buffer is an
    argument too, [None] when they fail. *)
From S2P Require Import Prelude.
Open Scope Z_scope.

Definition KSM_ADVISOR_MIN_CPU : Z := 10.
Definition EWMA_WEIGHT : Z := 30.
Definition DEFAULT_PAGES_TO_SCAN : Z := 100.
Definition MSEC_PER_SEC : Z := 1000.

(** [struct advisor_ctx] *)
Record advisor_ctx := AdvisorCtx {
  start_scan : Z;
  scan_time : Z;
  change : Z;
  cpu_time : Z }.

Inductive ksm_advisor_type := KSM_ADVISOR_NONE | KSM_ADVISOR_SCAN_TIME.

#[export] Instance ksm_advisor_type_eq_dec : EqDecision ksm_advisor_type.
Proof. solve_decision. Defined.

(** The variables of the advisor; [ksm_thread_pages_to_scan] and
    [ksm_advisor_max_cpu] are [unsigned int], the others [unsigned long]. *)
Record pace := Pace {
  ksm_advisor : ksm_advisor_type;
  ctx : advisor_ctx;
  ksm_thread_pages_to_scan : Z;
  ksm_thread_sleep_millisecs : Z;
  ksm_advisor_max_pages_to_scan : Z;
  ksm_advisor_min_pages_to_scan : Z;
  ksm_advisor_max_cpu : Z;
  ksm_advisor_target_scan_time : Z }.

(** The initial values. *)
Definition default_pace : pace :=
  Pace KSM_ADVISOR_NONE (AdvisorCtx 0 0 0 0) DEFAULT_PAGES_TO_SCAN 20 30000 500 70 200.

Definition with_ctx (c : advisor_ctx) (p : pace) : pace :=
  Pace (ksm_advisor p) c (ksm_thread_pages_to_scan p) (ksm_thread_sleep_millisecs p) (ksm_advisor_max_pages_to_scan p)
    (ksm_advisor_min_pages_to_scan p) (ksm_advisor_max_cpu p) (ksm_advisor_target_scan_time p).
Definition with_pages (n : Z) (p : pace) : pace :=
  Pace (ksm_advisor p) (ctx p) n (ksm_thread_sleep_millisecs p) (ksm_advisor_max_pages_to_scan p)
    (ksm_advisor_min_pages_to_scan p) (ksm_advisor_max_cpu p) (ksm_advisor_target_scan_time p).

(** ** The advisor *)

(** Unsigned division; [nz x] is the code's [x ? x : 1]. *)
Definition udiv (a b : Z) : option Z := if b =? 0 then None else Some (a / b).
Definition nz (x : Z) : Z := if x =? 0 then 1 else x.

Definition set_advisor_defaults (p : pace) : pace :=
  match ksm_advisor p with
  | KSM_ADVISOR_NONE => with_pages DEFAULT_PAGES_TO_SCAN p
  | KSM_ADVISOR_SCAN_TIME => with_pages (wrap_u 32 (ksm_advisor_min_pages_to_scan p)) (with_ctx (AdvisorCtx 0 0 0 0) p)
  end.

Definition advisor_start_scan (now : Z) (p : pace) : pace :=
  match ksm_advisor p with
  | KSM_ADVISOR_SCAN_TIME => with_ctx (AdvisorCtx now (scan_time (ctx p)) (change (ctx p)) (cpu_time (ctx p))) p
  | KSM_ADVISOR_NONE => p
  end.

Definition prev_scan_time (c : advisor_ctx) (t : Z) : Z := if scan_time c =? 0 then t else scan_time c.

Definition ewma (prev curr : Z) : Z := u64 (u64 ((100 - EWMA_WEIGHT) * prev) + u64 (EWMA_WEIGHT * curr)) / 100.

(** [div_s64(ktime_ms_delta(now, start), MSEC_PER_SEC)], as an
    [unsigned long], and at least 1. *)
Definition seconds (now start : Z) : Z := nz (u64 (Z.quot (Z.quot (wrap_s 64 (now - start)) 1000000) MSEC_PER_SEC)).

(** The caps, in the code's order. *)
Definition cap_pages (p : pace) (pages per_page_cost : Z) : Z :=
  let pages := Z.min pages (u64 (per_page_cost * ksm_advisor_max_cpu p)) in
  let pages := Z.max pages (u64 (per_page_cost * KSM_ADVISOR_MIN_CPU)) in
  Z.min pages (ksm_advisor_max_pages_to_scan p).

Definition scan_time_advisor (now runtime : Z) (p : pace) : option pace :=
  let c := ctx p in
  let t := seconds now (start_scan c) in
  let cpu_time_diff_ms := u64 (runtime - cpu_time c) / 1000 / 1000 in
  percent ← udiv (u64 (cpu_time_diff_ms * 100)) (u64 (t * 1000));
  let cpu_percent := nz (wrap_u 32 percent) in
  let last_scan_time := prev_scan_time c t in
  factor ← udiv (u64 (ksm_advisor_target_scan_time p * 100)) t;
  let factor := nz factor in
  chg ← udiv (u64 (t * 100)) last_scan_time;
  let chg := ewma (change c) (nz chg) in
  pages ← udiv (wrap_u 32 (ksm_thread_pages_to_scan p * 100)) factor;
  let pages := u64 (pages * chg) / 100 in
  cost ← udiv (ksm_thread_pages_to_scan p) cpu_percent;
  let pages := cap_pages p pages (nz cost) in
  Some (with_pages (wrap_u 32 pages) (with_ctx (AdvisorCtx (start_scan c) t chg runtime) p)).

Definition advisor_stop_scan (now runtime : Z) (p : pace) : option pace :=
  match ksm_advisor p with
  | KSM_ADVISOR_SCAN_TIME => scan_time_advisor now runtime p
  | KSM_ADVISOR_NONE => Some p
  end.

(** ** The sysfs files: the new pace, or [-EINVAL] *)
Definition with_limits (max_pages min_pages max_cpu target : Z) (p : pace) : pace :=
  Pace (ksm_advisor p) (ctx p) (ksm_thread_pages_to_scan p) (ksm_thread_sleep_millisecs p) max_pages min_pages max_cpu target.

Definition sleep_millisecs_store (msecs : option Z) (p : pace) : option pace :=
  msecs ← msecs;
  Some (Pace (ksm_advisor p) (ctx p) (ksm_thread_pages_to_scan p) msecs (ksm_advisor_max_pages_to_scan p)
    (ksm_advisor_min_pages_to_scan p) (ksm_advisor_max_cpu p) (ksm_advisor_target_scan_time p)).

Definition pages_to_scan_store (nr_pages : option Z) (p : pace) : option pace :=
  if bool_decide (ksm_advisor p = KSM_ADVISOR_NONE) then n ← nr_pages; Some (with_pages n p) else None.

Definition advisor_mode_store (sysfs_streq : string → string → bool) (buf : string) (p : pace) : option pace :=
  new ← (if sysfs_streq "scan-time" buf then Some KSM_ADVISOR_SCAN_TIME
         else if sysfs_streq "none" buf then Some KSM_ADVISOR_NONE else None);
  let p' := Pace new (ctx p) (ksm_thread_pages_to_scan p) (ksm_thread_sleep_millisecs p) (ksm_advisor_max_pages_to_scan p)
    (ksm_advisor_min_pages_to_scan p) (ksm_advisor_max_cpu p) (ksm_advisor_target_scan_time p) in
  Some (if bool_decide (ksm_advisor p = new) then p' else set_advisor_defaults p').

Definition advisor_max_cpu_store (value : option Z) (p : pace) : option pace :=
  v ← value;
  Some (with_limits (ksm_advisor_max_pages_to_scan p) (ksm_advisor_min_pages_to_scan p) (wrap_u 32 v) (ksm_advisor_target_scan_time p) p).

Definition advisor_min_pages_to_scan_store (value : option Z) (p : pace) : option pace :=
  v ← value;
  Some (with_limits (ksm_advisor_max_pages_to_scan p) v (ksm_advisor_max_cpu p) (ksm_advisor_target_scan_time p) p).

Definition advisor_max_pages_to_scan_store (value : option Z) (p : pace) : option pace :=
  v ← value;
  Some (with_limits v (ksm_advisor_min_pages_to_scan p) (ksm_advisor_max_cpu p) (ksm_advisor_target_scan_time p) p).

Definition advisor_target_scan_time_store (value : option Z) (p : pace) : option pace :=
  v ← value;
  if v <? 1 then None else
  Some (with_limits (ksm_advisor_max_pages_to_scan p) (ksm_advisor_min_pages_to_scan p) (ksm_advisor_max_cpu p) v p).
