(* ===== verification/AdvisorProps.v ===== *)
(** * AdvisorProps: the pace of the local scan *)
From S2P Require Import Prelude Advisor.
Open Scope Z_scope.

(** The variables are of their types; the target is not 0, as the code sees to. *)
Record pace_ok (p : pace) : Prop := PaceOk {
  po_pages : 0 ≤ ksm_thread_pages_to_scan p < 2 ^ 32;
  po_max : 0 ≤ ksm_advisor_max_pages_to_scan p < 2 ^ 64;
  po_min : 0 ≤ ksm_advisor_min_pages_to_scan p < 2 ^ 64;
  po_cpu : 0 ≤ ksm_advisor_max_cpu p < 2 ^ 32;
  po_target : 1 ≤ ksm_advisor_target_scan_time p < 2 ^ 64;
  po_time : 0 ≤ scan_time (ctx p) < 2 ^ 64;
  po_change : 0 ≤ change (ctx p) < 2 ^ 64 }.

Lemma nz_pos x : 0 ≤ x → 1 ≤ nz x.
Proof. unfold nz. destruct (Z.eqb_spec x 0); lia. Qed.

Lemma udiv_some a b : b ≠ 0 → udiv a b = Some (a / b).
Proof. unfold udiv. by destruct (Z.eqb_spec b 0). Qed.

(** A scan time in milliseconds does not overflow to 0. *)
Lemma seconds_ok now start : 1 ≤ seconds now start < 2 ^ 64 ∧ u64 (seconds now start * 1000) ≠ 0.
Proof.
  unfold seconds, MSEC_PER_SEC. pose proof (wrap_s_range 64 (now - start) ltac:(lia)) as Hw.
  set (d := wrap_s 64 (now - start)) in *. change (2 ^ (64 - 1)) with 9223372036854775808 in Hw. rewrite Z.quot_quot by lia. change (1000000 * 1000) with 1000000000.
  set (q := Z.quot d 1000000000).
  assert (-9223372037 ≤ q ≤ 9223372037) as Hq by (unfold q; Z.quot_rem_to_equations; lia). clearbody q.
  unfold nz, wrap_u. change (2 ^ 64) with 18446744073709551616.
  destruct (Z.eqb_spec (q mod 18446744073709551616) 0) as [E|E]; [done|].
  split; [Z.div_mod_to_equations; lia|].
  assert (q ≠ 0) by (intros ->; by apply E). rewrite Z.mul_mod_idemp_l by lia. Z.div_mod_to_equations. lia.
Qed.

(** The average lies between the two values. *)
Lemma ewma_between prev curr :
  0 ≤ prev < 2 ^ 57 → 0 ≤ curr < 2 ^ 57 → Z.min prev curr ≤ ewma prev curr ≤ Z.max prev curr.
Proof.
  intros Hp Hc. unfold ewma, EWMA_WEIGHT. change (100 - 30) with 70. change (2 ^ 57) with 144115188075855872 in *.
  rewrite !wrap_u_small; change (2 ^ 64) with 18446744073709551616; [|lia..|rewrite !wrap_u_small; change (2 ^ 64) with 18446744073709551616; lia].
  Z.div_mod_to_equations. lia.
Qed.

Lemma ewma_range prev curr : 0 ≤ ewma prev curr < 2 ^ 64.
Proof.
  unfold ewma. pose proof (wrap_u_range 64 (u64 ((100 - EWMA_WEIGHT) * prev) + u64 (EWMA_WEIGHT * curr)) ltac:(lia)).
  Z.div_mod_to_equations. lia.
Qed.

(** The limits by the cost of a page and by the maximum; the maximum wins. *)
Lemma cap_pages_bounds p pages cost :
  pace_ok p → 1 ≤ cost < 2 ^ 32 → 0 ≤ pages →
  Z.min (ksm_advisor_max_pages_to_scan p) (cost * KSM_ADVISOR_MIN_CPU) ≤ cap_pages p pages cost ∧
  cap_pages p pages cost ≤ ksm_advisor_max_pages_to_scan p ∧
  cap_pages p pages cost ≤ Z.max (cost * ksm_advisor_max_cpu p) (cost * KSM_ADVISOR_MIN_CPU).
Proof.
  intros [] Hc Hp. unfold cap_pages, KSM_ADVISOR_MIN_CPU. rewrite !wrap_u_small by (split; nia). lia.
Qed.

(** The advisor always comes to a result. *)
Lemma scan_time_advisor_some now runtime p :
  pace_ok p → ∃ percent chg raw p', 1 ≤ percent < 2 ^ 32 ∧ 1 ≤ chg < 2 ^ 64 ∧ 0 ≤ raw ∧ scan_time_advisor now runtime p = Some p' ∧
    chg = nz (u64 (seconds now (start_scan (ctx p)) * 100) / prev_scan_time (ctx p) (seconds now (start_scan (ctx p)))) ∧
    raw = u64 (wrap_u 32 (ksm_thread_pages_to_scan p * 100) / nz (u64 (ksm_advisor_target_scan_time p * 100) / seconds now (start_scan (ctx p)))
            * ewma (change (ctx p)) chg) / 100 ∧
    p' = with_pages (wrap_u 32 (cap_pages p raw (nz (ksm_thread_pages_to_scan p / percent))))
      (with_ctx (AdvisorCtx (start_scan (ctx p)) (seconds now (start_scan (ctx p))) (ewma (change (ctx p)) chg) runtime) p).
Proof.
  intros Hp. destruct (seconds_ok now (start_scan (ctx p))) as [Ht Ht0]. set (t := seconds now (start_scan (ctx p))) in *.
  assert (Hnz : ∀ x, 0 ≤ x → nz x ≠ 0) by (intros x Hx; pose proof (nz_pos x Hx); lia).
  assert (Hlast : 1 ≤ prev_scan_time (ctx p) t).
  { pose proof (po_time _ Hp). unfold prev_scan_time. destruct (Z.eqb_spec (scan_time (ctx p)) 0); lia. }
  pose proof (wrap_u_range 64 (t * 100) ltac:(lia)) as Hw. pose proof (wrap_u_range 64 (ksm_advisor_target_scan_time p * 100) ltac:(lia)) as Hw2.
  pose proof (wrap_u_range 32 (ksm_thread_pages_to_scan p * 100) ltac:(lia)) as Hw3.
  set (pc := nz (wrap_u 32 (u64 (u64 (runtime - cpu_time (ctx p)) / 1000 / 1000 * 100) / u64 (t * 1000)))).
  assert (1 ≤ pc < 2 ^ 32) as Hpc.
  { unfold pc, nz. pose proof (wrap_u_range 32 (u64 (u64 (runtime - cpu_time (ctx p)) / 1000 / 1000 * 100) / u64 (t * 1000)) ltac:(lia)).
    case_match; lia. }
  set (chg := nz (u64 (t * 100) / prev_scan_time (ctx p) t)).
  assert (1 ≤ chg < 2 ^ 64) as Hchg.
  { unfold chg, nz. case_match eqn:E; [lia|]. apply Z.eqb_neq in E. split; [|apply Z.div_lt_upper_bound; nia].
    assert (0 ≤ u64 (t * 100) / prev_scan_time (ctx p) t) by (apply Z.div_pos; lia). lia. }
  set (fac := nz (u64 (ksm_advisor_target_scan_time p * 100) / t)).
  assert (1 ≤ fac) as Hfac by (apply nz_pos, Z.div_pos; lia).
  exists pc, chg, (u64 (wrap_u 32 (ksm_thread_pages_to_scan p * 100) / fac * ewma (change (ctx p)) chg) / 100).
  eexists. split_and!; try done; try lia.
  - apply Z.div_pos; [|lia]. apply wrap_u_range. lia.
  - unfold scan_time_advisor. fold t.
    rewrite (udiv_some _ (u64 (t * 1000))) by done. cbn. fold pc.
    rewrite (udiv_some _ t) by lia. cbn. rewrite (udiv_some _ (prev_scan_time _ _)) by lia. cbn.
    fold chg fac. rewrite (udiv_some _ fac) by lia. cbn. rewrite (udiv_some _ pc) by lia. done.
Qed.

(** ** The advisor's result *)

(** C27: the advisor always has a result, and keeps it within its limits.  No
    division is by 0, whatever the clocks say, and the variables stay within
    their types.  For some share of the processor of at least one percent, and
    the number of pages scanned for one percent of it, the new
    [ksm_thread_pages_to_scan] is at most [ksm_advisor_max_pages_to_scan] and
    the pages of [ksm_advisor_max_cpu] percent, and at least the pages of 10
    percent as far as the maximum allows; the change factor moves towards the
    new one without passing it.  A pass that took as long as the target, after
    one that did too, leaves the number as it is, up to these limits. *)
Theorem scan_time_advisor_bounds now runtime p :
  pace_ok p →
  ∃ percent p', scan_time_advisor now runtime p = Some p' ∧ pace_ok p' ∧ 1 ≤ percent < 2 ^ 32 ∧
    let t := seconds now (start_scan (ctx p)) in
    let cost := nz (ksm_thread_pages_to_scan p / percent) in
    let new_change := nz (u64 (t * 100) / prev_scan_time (ctx p) t) in
    (ksm_advisor_max_pages_to_scan p < 2 ^ 32 →
     Z.min (ksm_advisor_max_pages_to_scan p) (cost * 10) ≤ ksm_thread_pages_to_scan p' ∧
     ksm_thread_pages_to_scan p' ≤ ksm_advisor_max_pages_to_scan p ∧
     ksm_thread_pages_to_scan p' ≤ Z.max (cost * ksm_advisor_max_cpu p) (cost * 10) ∧
     (ksm_advisor_target_scan_time p = t → t < 2 ^ 57 → scan_time (ctx p) ∈ [0; t] → change (ctx p) = 100 →
      ksm_thread_pages_to_scan p * 100 < 2 ^ 32 →
      ksm_thread_pages_to_scan p' = cap_pages p (ksm_thread_pages_to_scan p) cost)) ∧
    (change (ctx p) < 2 ^ 57 → new_change < 2 ^ 57 →
     Z.min (change (ctx p)) new_change ≤ change (ctx p') ≤ Z.max (change (ctx p)) new_change).
Proof.
  intros Hp. destruct (scan_time_advisor_some now runtime p Hp) as (percent & chg & raw & p' & Hpc & Hchg & Hraw & E & -> & -> & ->).
  destruct (seconds_ok now (start_scan (ctx p))) as [Ht _]. set (t := seconds now (start_scan (ctx p))) in *.
  set (cost := nz (ksm_thread_pages_to_scan p / percent)) in *. set (r := u64 _ / 100) in *.
  assert (1 ≤ cost < 2 ^ 32) as Hcost.
  { pose proof (po_pages _ Hp). unfold cost, nz. case_match eqn:E0; [lia|]. apply Z.eqb_neq in E0.
    split; [|apply Z.div_lt_upper_bound; nia]. assert (0 ≤ ksm_thread_pages_to_scan p / percent) by (apply Z.div_pos; lia). lia. }
  destruct (cap_pages_bounds p r cost Hp Hcost Hraw) as (C1 & C2 & C3). unfold KSM_ADVISOR_MIN_CPU in *.
  eexists percent, _. split; [exact E|]. split_and!; [|lia|lia| |].
  - pose proof (wrap_u_range 32 (cap_pages p r cost) ltac:(lia)). pose proof (ewma_range (change (ctx p)) (nz (u64 (t * 100) / prev_scan_time (ctx p) t))).
    destruct Hp. split; simpl; lia.
  - intros Hm. cbn [ksm_thread_pages_to_scan with_pages with_ctx]. rewrite (wrap_u_small 32) by (pose proof (po_max _ Hp); lia). split_and!; [done..|].
    intros Htg Ht57 Hst Hch Hpg. f_equal. unfold r. rewrite Htg, Hch.
    assert (prev_scan_time (ctx p) t = t) as ->.
    { unfold prev_scan_time. apply elem_of_cons in Hst as [-> | ->%list_elem_of_singleton]; [done|]. by destruct (t =? 0). }
    rewrite !(wrap_u_small 64 (t * 100)) by lia. rewrite !(Z.mul_comm t 100), !Z.div_mul by lia. change (nz 100) with 100.
    change (ewma 100 100) with 100. rewrite (wrap_u_small 32) by (pose proof (po_pages _ Hp); lia). rewrite Z.div_mul by lia.
    rewrite wrap_u_small by (pose proof (po_pages _ Hp); lia). by rewrite Z.div_mul by lia.
  - intros H1 H2. apply ewma_between; pose proof (po_change _ Hp); lia.
Qed.

(** A process in the scan-time mode, after a pass of 200 seconds. *)
Definition toy_pace : pace := Pace KSM_ADVISOR_SCAN_TIME (AdvisorCtx 0 200 100 0) 5000 20 30000 500 70 200.

Lemma toy_pace_ok : pace_ok toy_pace.
Proof. by split. Qed.
Lemma default_pace_ok : pace_ok default_pace.
Proof. by split. Qed.

Lemma scan_time_advisor_bounds_witness :
  pace_ok toy_pace ∧ option_map ksm_thread_pages_to_scan (scan_time_advisor 200000000000 100000000000 toy_pace) = Some 5000 ∧
  ∃ percent p', scan_time_advisor 200000000000 100000000000 toy_pace = Some p' ∧ pace_ok p' ∧ 1 ≤ percent < 2 ^ 32 ∧
    ksm_thread_pages_to_scan p' ≤ 30000.
Proof.
  split; [exact toy_pace_ok|]. split; [by vm_compute|].
  destruct (scan_time_advisor_bounds 200000000000 100000000000 toy_pace toy_pace_ok) as (percent & p' & E & Hok & Hpc & Hl & _).
  exists percent, p'. split_and!; [exact E|exact Hok|apply Hpc..|]. by destruct (Hl ltac:(by vm_compute)) as (_ & Hm & _).
Defined.

(** The minimum is where the advisor starts, and no limit: after a pass of one
    second that used a fifth of it, 250 pages instead of 500. *)
Lemma advisor_goes_below_minimum :
  ∃ p p', advisor_mode_store String.eqb "scan-time" default_pace = Some p ∧ ksm_thread_pages_to_scan p = ksm_advisor_min_pages_to_scan p ∧
    advisor_stop_scan 1000000000 200000000 (advisor_start_scan 0 p) = Some p' ∧
    ksm_thread_pages_to_scan p' < ksm_advisor_min_pages_to_scan p'.
Proof. eexists _, _. split_and!; [reflexivity|reflexivity|reflexivity|by vm_compute]. Qed.
