(* ===== verification/HostMem.v ===== *)
(** * HostMem: the host's memory as the merging daemon sees it

    The state [codes/mm/ksm.c] works on: page frames ([struct page]), page
    tables, memory areas; KSM's own items and stable nodes; and the processes
    that run meanwhile.

    - A [struct page *] is its frame number.  The reference count of a page is
      kept by owner: page tables ([fr_mapcount]), swap cache, the daemon
      ([fr_kref]) and everybody else ([fr_extra]); [page_count] is their sum.
    - A page table is a finite map from (mm, address) to present entries of
      base pages: a missing directory, table or entry reads as absent.
    - [user] is what each address should read: only the processes change it.
    - [env] is what the processes and the rest of the kernel do at the points
      where the daemon sleeps or holds no page-table lock: one function per
      point, in order ([interfere]).  [rely] is what they may do.
    - The fault that unshares a page ([handle_mm_fault]), and the rebalancing
      of red-black trees (lib/rbtree.c, not among the sources), are interfaces. *)
From S2P Require Import Prelude Wire HashPair Growable Shadow.
Open Scope Z_scope.

Abbreviation loc := positive.
Abbreviation addr_key := (Z * Z)%type.   (* mm, address *)

(** ** Frames, page tables, areas *)

(** [page->mapping]: NULL or a file, an [anon_vma], or a stable node (possibly
    NULL) tagged [PAGE_MAPPING_KSM]. *)
Inductive page_mapping := MapOther | MapAnon | MapKsm (node : option loc).

Inductive lock_owner := Unlocked | LockedByKsmd | LockedByOther.

Record frame := Frame {
  fr_content : page;
  fr_mapping : page_mapping;
  fr_excl : bool;            (* PageAnonExclusive *)
  fr_dirty : bool;           (* PageDirty *)
  fr_lock : lock_owner;
  fr_mapcount : Z;
  fr_swapcache : bool;
  fr_kref : Z;
  fr_extra : Z;
  fr_pinned : bool;          (* folio_maybe_dma_pinned *)
  fr_writers : bool;         (* a device may be writing to it *)
  fr_head : option Z;        (* head of the compound page it is part of *)
  fr_splittable : bool;      (* what split_huge_page will answer *)
  fr_index : Z;              (* page->index *)
  fr_root : Z }.             (* root of its anon_vma *)

Record pte := Pte { pte_pfn : Z; pte_write : bool; pte_dirty : bool; pte_rest : Z }.

Record vma := Vma {
  vm_start : Z; vm_end : Z; vm_pgoff : Z;
  vm_mergeable : bool;
  vm_anon : option (Z * Z) }.   (* anon_vma and its root *)

Record mem := Mem {
  frames : gmap Z frame;
  ptes : gmap addr_key pte;
  vmas : gmap Z (list vma);
  exiting : gset Z;          (* mm_users = 0 *)
  tlb_pending : gset Z;
  zero_pfn : Z }.

#[export] Instance page_mapping_eq_dec : EqDecision page_mapping.
Proof. solve_decision. Defined.
#[export] Instance lock_owner_eq_dec : EqDecision lock_owner.
Proof. solve_decision. Defined.
#[export] Instance pte_eq_dec : EqDecision pte.
Proof. solve_decision. Defined.

Definition page_count (fr : frame) : Z :=
  fr_mapcount fr + (if fr_swapcache fr then 1 else 0) + fr_kref fr + fr_extra fr.

Definition PageKsm (fr : frame) : bool := match fr_mapping fr with MapKsm _ => true | _ => false end.
Definition PageAnon (fr : frame) : bool := match fr_mapping fr with MapOther => false | _ => true end.
Definition page_stable_node (fr : frame) : option loc :=
  match fr_mapping fr with MapKsm n => n | _ => None end.
Definition PageTransCompound (fr : frame) : bool := bool_decide (fr_head fr ≠ None).
Definition page_mapped (fr : frame) : bool := 0 <? fr_mapcount fr.

Definition page_of (addr : Z) : Z := Z.land addr (Z.lnot 4095).   (* PAGE_MASK *)

Definition vma_lookup (m : mem) (mm addr : Z) : option vma :=
  snd <$> list_find (λ v, vm_start v ≤ addr < vm_end v) (default [] (vmas m !! mm)).

Definition ksm_test_exit (m : mem) (mm : Z) : bool := bool_decide (mm ∈ exiting m).

Definition find_mergeable_vma (m : mem) (mm addr : Z) : option vma :=
  if ksm_test_exit m mm then None else
  match vma_lookup m mm addr with
  | Some v => if vm_mergeable v && bool_decide (vm_anon v ≠ None) then Some v else None
  | None => None
  end.

(** [page_address_in_vma] of codes/mm/rmap.c for the pages met here: NULL for
    [-EFAULT]; a KSM page has no [anon_vma] in [folio_anon_vma]. *)
Definition page_address_in_vma (fr : frame) (v : vma) : option Z :=
  match fr_mapping fr, vm_anon v with
  | MapAnon, Some (_, root) =>
    let address := vm_start v + Z.shiftl (fr_index fr - vm_pgoff v) PAGE_SHIFT in
    if (root =? fr_root fr) && (vm_pgoff v <=? fr_index fr) && (address <? vm_end v)
    then Some address else None
  | _, _ => None
  end.

(** ** KSM's items and stable nodes *)
Definition SEQNR_MASK : Z := 0xff.
Definition UNSTABLE_FLAG : Z := 0x100.
Definition STABLE_FLAG : Z := 0x200.

(** The word an item's [page] shares with what the scan without a server keeps. *)
Inductive item_word :=
| PageField (page : option Z)
| ScanFields (oldchecksum age remaining_skips : Z).

(** [struct ksm_rmap_item]; [hlist] is the position in the node's list.  The
    links of an item in the unstable tree lie over [head], which then is no
    node's. *)
Record kitem := KItem {
  ki_mm : Z;
  ki_address : Z;
  ki_word : item_word;
  ki_anon_vma : Z;
  ki_head : option loc }.

(** [page] is only read after it was written as such, or cleared. *)
Definition ki_page (it : kitem) : option Z :=
  match ki_word it with PageField p => p | ScanFields _ _ _ => None end.

Definition STABLE_NODE_CHAIN : Z := -1024.

(** Where a node is linked: in the tree, or in the list of a chain
    ([head == STABLE_NODE_DUP_HEAD]). *)
Inductive node_link := InTree | DupOf (chain : loc).

#[export] Instance node_link_eq_dec : EqDecision node_link.
Proof. solve_decision. Defined.

(** [struct ksm_stable_node]; [kn_kpfn] is the union of [kpfn] and
    [chain_prune_time]; the [hlist] holds items, or the duplicates of a chain. *)
Record knode := KNode {
  kn_kpfn : Z;
  kn_len : Z;          (* rmap_hlist_len *)
  kn_hlist : list loc;
  kn_link : node_link }.

(** The stable tree. *)
Inductive rb_tree := RbLeaf | RbNode (l : rb_tree) (x : loc) (r : rb_tree).

Fixpoint inorder (t : rb_tree) : list loc :=
  match t with
  | RbLeaf => []
  | RbNode l x r => inorder l ++ x :: inorder r
  end.

Class RbTree := {
  rb_insert_color : rb_tree → rb_tree;
  rb_erase : loc → rb_tree → rb_tree;
  inorder_insert_color : ∀ t, inorder (rb_insert_color t) = inorder t;
  inorder_erase : ∀ x t, inorder (rb_erase x t) = filter (λ y, y ≠ x) (inorder t) }.

(** ** The state of the daemon *)
Record ksm_counters := KsmCounters {
  ksm_pages_shared : Z;
  ksm_pages_sharing : Z;
  ksm_pages_unshared : Z;
  ksm_stable_node_chains : Z;
  ksm_stable_node_dups : Z;
  anon_vma_refs : Z;                   (* references held on anon_vmas by items *)
  ksm_merging_pages : gmap Z Z }.      (* mm->ksm_merging_pages *)

Record ksm := Ksm {
  kitems : gmap loc kitem;
  knodes : gmap loc knode;
  root_stable_tree : rb_tree;
  root_unstable_tree : rb_tree;
  scan_seqnr : Z;                      (* ksm_scan.seqnr *)
  iter_cnt : Z;                        (* iterations with the server *)
  is_ksm_offload : bool;               (* a server does the comparing, and answers *)
  ksm_smart_scan : bool;
  counters : ksm_counters }.

Record merge_stats := MergeStats {
  fail_reason_cnts : list Z;
  ksm_zero_pages : Z;
  mm_zero_pages : gmap Z Z;            (* mm->ksm_zero_pages *)
  anon_pages : gmap Z Z }.             (* MM_ANONPAGES *)

Record ksm_config := KsmConfig {
  ksm_max_page_sharing : Z;
  ksm_use_zero_pages : bool;
  stack_log : ksm_event_log;           (* an uninitialised log entry on the stack *)
  jiffies : nat → Z }.                 (* the time, by the environment steps to come *)

Abbreviation user_mem := (gmap addr_key page).
Abbreviation env_step := (mem * user_mem → mem * user_mem).

Record host := Host {
  h_mem : mem;
  user : user_mem;
  env : list env_step;
  h_ksm : ksm;
  h_stats : merge_stats;
  ksm_error_table : option error_table;
  kallocs : kalloc;
  config : ksm_config }.

Definition with_mem (f : mem → mem) (h : host) : host :=
  Host (f (h_mem h)) (user h) (env h) (h_ksm h) (h_stats h) (ksm_error_table h) (kallocs h) (config h).
Definition with_ksm (f : ksm → ksm) (h : host) : host :=
  Host (h_mem h) (user h) (env h) (f (h_ksm h)) (h_stats h) (ksm_error_table h) (kallocs h) (config h).
Definition with_hstats (f : merge_stats → merge_stats) (h : host) : host :=
  Host (h_mem h) (user h) (env h) (h_ksm h) (f (h_stats h)) (ksm_error_table h) (kallocs h) (config h).
Definition with_errors (t : option error_table) (a : kalloc) (h : host) : host :=
  Host (h_mem h) (user h) (env h) (h_ksm h) (h_stats h) t a (config h).

Definition on_frames (f : gmap Z frame → gmap Z frame) (m : mem) : mem :=
  Mem (f (frames m)) (ptes m) (vmas m) (exiting m) (tlb_pending m) (zero_pfn m).
Definition on_ptes (f : gmap addr_key pte → gmap addr_key pte) (m : mem) : mem :=
  Mem (frames m) (f (ptes m)) (vmas m) (exiting m) (tlb_pending m) (zero_pfn m).

Definition on_items (f : gmap loc kitem → gmap loc kitem) (k : ksm) : ksm :=
  Ksm (f (kitems k)) (knodes k) (root_stable_tree k) (root_unstable_tree k) (scan_seqnr k)
    (iter_cnt k) (is_ksm_offload k) (ksm_smart_scan k) (counters k).
Definition on_nodes (f : gmap loc knode → gmap loc knode) (k : ksm) : ksm :=
  Ksm (kitems k) (f (knodes k)) (root_stable_tree k) (root_unstable_tree k) (scan_seqnr k)
    (iter_cnt k) (is_ksm_offload k) (ksm_smart_scan k) (counters k).
Definition on_root (f : rb_tree → rb_tree) (k : ksm) : ksm :=
  Ksm (kitems k) (knodes k) (f (root_stable_tree k)) (root_unstable_tree k) (scan_seqnr k)
    (iter_cnt k) (is_ksm_offload k) (ksm_smart_scan k) (counters k).
Definition on_unstable (f : rb_tree → rb_tree) (k : ksm) : ksm :=
  Ksm (kitems k) (knodes k) (root_stable_tree k) (f (root_unstable_tree k)) (scan_seqnr k)
    (iter_cnt k) (is_ksm_offload k) (ksm_smart_scan k) (counters k).
Definition on_seqnr (f : Z → Z) (k : ksm) : ksm :=
  Ksm (kitems k) (knodes k) (root_stable_tree k) (root_unstable_tree k) (f (scan_seqnr k))
    (iter_cnt k) (is_ksm_offload k) (ksm_smart_scan k) (counters k).
Definition on_iter_cnt (f : Z → Z) (k : ksm) : ksm :=
  Ksm (kitems k) (knodes k) (root_stable_tree k) (root_unstable_tree k) (scan_seqnr k)
    (f (iter_cnt k)) (is_ksm_offload k) (ksm_smart_scan k) (counters k).
Definition on_offload (f : bool → bool) (k : ksm) : ksm :=
  Ksm (kitems k) (knodes k) (root_stable_tree k) (root_unstable_tree k) (scan_seqnr k)
    (iter_cnt k) (f (is_ksm_offload k)) (ksm_smart_scan k) (counters k).
Definition on_smart_scan (f : bool → bool) (k : ksm) : ksm :=
  Ksm (kitems k) (knodes k) (root_stable_tree k) (root_unstable_tree k) (scan_seqnr k)
    (iter_cnt k) (is_ksm_offload k) (f (ksm_smart_scan k)) (counters k).
Definition on_counters (f : ksm_counters → ksm_counters) (k : ksm) : ksm :=
  Ksm (kitems k) (knodes k) (root_stable_tree k) (root_unstable_tree k) (scan_seqnr k)
    (iter_cnt k) (is_ksm_offload k) (ksm_smart_scan k) (f (counters k)).

(** Frame fields the daemon assigns. *)
Definition set_mapping (v : page_mapping) (fr : frame) : frame :=
  Frame (fr_content fr) v (fr_excl fr) (fr_dirty fr) (fr_lock fr) (fr_mapcount fr) (fr_swapcache fr)
    (fr_kref fr) (fr_extra fr) (fr_pinned fr) (fr_writers fr) (fr_head fr) (fr_splittable fr) (fr_index fr) (fr_root fr).
Definition set_excl (v : bool) (fr : frame) : frame :=
  Frame (fr_content fr) (fr_mapping fr) v (fr_dirty fr) (fr_lock fr) (fr_mapcount fr) (fr_swapcache fr)
    (fr_kref fr) (fr_extra fr) (fr_pinned fr) (fr_writers fr) (fr_head fr) (fr_splittable fr) (fr_index fr) (fr_root fr).
Definition set_dirty (v : bool) (fr : frame) : frame :=
  Frame (fr_content fr) (fr_mapping fr) (fr_excl fr) v (fr_lock fr) (fr_mapcount fr) (fr_swapcache fr)
    (fr_kref fr) (fr_extra fr) (fr_pinned fr) (fr_writers fr) (fr_head fr) (fr_splittable fr) (fr_index fr) (fr_root fr).
Definition set_lock (v : lock_owner) (fr : frame) : frame :=
  Frame (fr_content fr) (fr_mapping fr) (fr_excl fr) (fr_dirty fr) v (fr_mapcount fr) (fr_swapcache fr)
    (fr_kref fr) (fr_extra fr) (fr_pinned fr) (fr_writers fr) (fr_head fr) (fr_splittable fr) (fr_index fr) (fr_root fr).
Definition add_mapcount (d : Z) (fr : frame) : frame :=
  Frame (fr_content fr) (fr_mapping fr) (fr_excl fr) (fr_dirty fr) (fr_lock fr) (fr_mapcount fr + d) (fr_swapcache fr)
    (fr_kref fr) (fr_extra fr) (fr_pinned fr) (fr_writers fr) (fr_head fr) (fr_splittable fr) (fr_index fr) (fr_root fr).
Definition set_swapcache (v : bool) (fr : frame) : frame :=
  Frame (fr_content fr) (fr_mapping fr) (fr_excl fr) (fr_dirty fr) (fr_lock fr) (fr_mapcount fr) v
    (fr_kref fr) (fr_extra fr) (fr_pinned fr) (fr_writers fr) (fr_head fr) (fr_splittable fr) (fr_index fr) (fr_root fr).
Definition add_kref (d : Z) (fr : frame) : frame :=
  Frame (fr_content fr) (fr_mapping fr) (fr_excl fr) (fr_dirty fr) (fr_lock fr) (fr_mapcount fr) (fr_swapcache fr)
    (fr_kref fr + d) (fr_extra fr) (fr_pinned fr) (fr_writers fr) (fr_head fr) (fr_splittable fr) (fr_index fr) (fr_root fr).
Definition set_head (v : option Z) (fr : frame) : frame :=
  Frame (fr_content fr) (fr_mapping fr) (fr_excl fr) (fr_dirty fr) (fr_lock fr) (fr_mapcount fr) (fr_swapcache fr)
    (fr_kref fr) (fr_extra fr) (fr_pinned fr) (fr_writers fr) v (fr_splittable fr) (fr_index fr) (fr_root fr).

(** ** Primitive accesses *)
Definition get_frame (p : Z) : M host frame := h ← get; deref (frames (h_mem h) !! p) "struct page".
Definition upd_frame (p : Z) (f : frame → frame) : M host unit :=
  fr ← get_frame p; modify (with_mem (on_frames (<[p := f fr]>))).
Definition get_kitem (i : loc) : M host kitem := h ← get; deref (kitems (h_ksm h) !! i) "rmap_item".
Definition upd_kitem (i : loc) (f : kitem → kitem) : M host unit :=
  it ← get_kitem i; modify (with_ksm (on_items (<[i := f it]>))).
Definition get_knode (n : loc) : M host knode := h ← get; deref (knodes (h_ksm h) !! n) "stable_node".
Definition upd_knode (n : loc) (f : knode → knode) : M host unit :=
  nd ← get_knode n; modify (with_ksm (on_nodes (<[n := f nd]>))).

(** The rest of the machine runs. *)
Definition interfere : M host unit := λ h,
  match env h with
  | [] => Ok (tt, h)
  | f :: fs =>
    let '(m, u) := f (h_mem h, user h) in
    Ok (tt, Host m u fs (h_ksm h) (h_stats h) (ksm_error_table h) (kallocs h) (config h))
  end.

Definition get_page (p : Z) : M host unit := upd_frame p (add_kref 1).
(** The last reference frees the page, which resets its mapping. *)
Definition drop_ref (fr : frame) : frame :=
  let fr' := add_kref (-1) fr in
  if page_count fr' =? 0 then set_mapping MapOther fr' else fr'.
Definition put_page (p : Z) : M host unit := upd_frame p drop_ref.

Definition trylock_page (p : Z) : M host bool :=
  fr ← get_frame p;
  if bool_decide (fr_lock fr = Unlocked) then upd_frame p (set_lock LockedByKsmd) ;; mret true
  else mret false.

(** Sleeps until the holder releases the lock. *)
Definition lock_page (p : Z) : M host unit :=
  fr ← get_frame p;
  halt_if (bool_decide (fr_lock fr = LockedByKsmd)) "lock_page: already held" ;;
  interfere ;;
  upd_frame p (set_lock LockedByKsmd).

Definition unlock_page (p : Z) : M host unit := upd_frame p (set_lock Unlocked).

Definition count_fail (reason : nat) : M host unit :=
  modify (with_hstats (λ st, MergeStats (alter (λ n, wrap_s 64 (n + 1)) reason (fail_reason_cnts st))
    (ksm_zero_pages st) (mm_zero_pages st) (anon_pages st))).

(** [mm->counter += d], an [unsigned long]. *)
Definition bump (mm d : Z) (c : gmap Z Z) : gmap Z Z := <[mm := u64 (default 0 (c !! mm) + d)]> c.

Definition count (shared sharing unshared refs : Z) : M host unit :=
  modify (with_ksm (on_counters (λ c, KsmCounters (u64 (ksm_pages_shared c + shared)) (u64 (ksm_pages_sharing c + sharing))
    (u64 (ksm_pages_unshared c + unshared)) (ksm_stable_node_chains c) (ksm_stable_node_dups c)
    (anon_vma_refs c + refs) (ksm_merging_pages c)))).
Definition count_nodes (chains dups : Z) : M host unit :=
  modify (with_ksm (on_counters (λ c, KsmCounters (ksm_pages_shared c) (ksm_pages_sharing c)
    (ksm_pages_unshared c) (u64 (ksm_stable_node_chains c + chains)) (u64 (ksm_stable_node_dups c + dups))
    (anon_vma_refs c) (ksm_merging_pages c)))).
Definition count_merging (mm d : Z) : M host unit :=
  modify (with_ksm (on_counters (λ c, KsmCounters (ksm_pages_shared c) (ksm_pages_sharing c)
    (ksm_pages_unshared c) (ksm_stable_node_chains c) (ksm_stable_node_dups c)
    (anon_vma_refs c) (bump mm d (ksm_merging_pages c))))).

(** [insert_error_log] on the daemon's table. *)
Definition report (tag : event_tag) (log : ksm_event_log) : M host unit := λ h,
  match insert_error_log (ksm_error_table h) tag log (kallocs h) with
  | Ok ((_, t), a) => Ok (tt, with_errors t a h)
  | Halt w => Halt w
  | Fault w => Fault w
  end.

(** ** What the rest of the machine may do *)

(** Every mapped address reads what its process last stored there. *)
Definition coherent (m : mem) (u : user_mem) : Prop :=
  ∀ k e, ptes m !! k = Some e → ∃ fr, frames m !! pte_pfn e = Some fr ∧ u !! k = Some (fr_content fr).

(** How many entries map a frame. *)
Definition mappings (t : gmap addr_key pte) (p : Z) : Z := msum (λ e, if pte_pfn e =? p then 1 else 0) t.

(** A process's areas: whole pages, disjoint, in ascending order. *)
Definition area_before (v w : vma) : Prop := vm_end v ≤ vm_start w.
#[export] Instance area_before_dec : RelDecision area_before.
Proof. intros v w. unfold area_before. apply _. Defined.
Definition area_ok (v : vma) : Prop := 0 ≤ vm_start v ≤ vm_end v ∧ vm_start v mod 4096 = 0 ∧ vm_end v mod 4096 = 0.
#[export] Instance area_ok_dec v : Decision (area_ok v).
Proof. unfold area_ok. apply _. Defined.
Definition areas_ok (l : list vma) : Prop := Forall area_ok l ∧ StronglySorted area_before l.
#[export] Instance areas_ok_dec l : Decision (areas_ok l).
Proof. unfold areas_ok. apply _. Defined.

(** The rules of anonymous memory: only an exclusive page is writable, and it
    has one mapping; a device writes only to an exclusive page, which it has
    pinned or holds a reference to; a KSM page is neither, and is not free.  The
    zero page is not counted. *)
Record mem_ok (m : mem) : Prop := MemOk {
  mo_write : ∀ k e fr, ptes m !! k = Some e → frames m !! pte_pfn e = Some fr → pte_write e = true → fr_excl fr = true;
  mo_excl : ∀ k1 k2 e1 e2 fr, ptes m !! k1 = Some e1 → ptes m !! k2 = Some e2 → pte_pfn e1 = pte_pfn e2 →
    frames m !! pte_pfn e1 = Some fr → fr_excl fr = true → k1 = k2;
  mo_writers : ∀ p fr, frames m !! p = Some fr → fr_writers fr = true →
    fr_excl fr = true ∧ (fr_pinned fr = true ∨ 0 < fr_extra fr);
  mo_ksm : ∀ p fr, frames m !! p = Some fr → PageKsm fr = true → fr_excl fr = false ∧ 0 < page_count fr;
  mo_refs : ∀ p fr, frames m !! p = Some fr → 0 ≤ fr_kref fr ∧ 0 ≤ fr_extra fr ∧ 0 ≤ fr_mapcount fr;
  mo_mapcount : ∀ p fr, frames m !! p = Some fr → p ≠ zero_pfn m → fr_mapcount fr = mappings (ptes m) p;
  mo_size : ∀ p q fr fq, frames m !! p = Some fr → frames m !! q = Some fq → length (fr_content fr) = length (fr_content fq);
  mo_zero : ∀ fr, frames m !! zero_pfn m = Some fr → fr_mapping fr = MapOther;
  mo_areas : ∀ mm l, vmas m !! mm = Some l → areas_ok l }.

(** A page the daemon holds and that nobody can write to: a KSM page, or one it
    has locked after taking the exclusivity away. *)
Definition frozen (fr : frame) : Prop :=
  0 < fr_kref fr ∧ fr_excl fr = false ∧ fr_writers fr = false ∧
  (PageKsm fr = true ∨ fr_lock fr = LockedByKsmd).

(** What happens to one frame. *)
Record frame_rely (fr fr' : frame) : Prop := FrameRely {
  rl_kref : fr_kref fr' = fr_kref fr;
  rl_lock : fr_lock fr' = LockedByKsmd ↔ fr_lock fr = LockedByKsmd;
  rl_frozen : frozen fr → frozen fr' ∧ fr_content fr' = fr_content fr ∧ fr_mapping fr' = fr_mapping fr }.

Definition mem_rely (m m' : mem) : Prop :=
  zero_pfn m' = zero_pfn m ∧ dom (frames m') = dom (frames m) ∧
  ∀ p fr fr', frames m !! p = Some fr → frames m' !! p = Some fr' → frame_rely fr fr'.

(** The frames are those of the machine, and only the daemon makes KSM pages. *)
Definition no_new_ksm (m m' : mem) : Prop :=
  dom (frames m') = dom (frames m) ∧ ∀ p fr' n, frames m' !! p = Some fr' → fr_mapping fr' = MapKsm n →
    ∃ fr, frames m !! p = Some fr ∧ fr_mapping fr = MapKsm n.

Definition rely (f : env_step) : Prop := ∀ m u,
  no_new_ksm m (f (m, u)).1 ∧
  (mem_ok m → coherent m u →
   mem_ok (f (m, u)).1 ∧ coherent (f (m, u)).1 (f (m, u)).2 ∧ mem_rely m (f (m, u)).1).

(** ** [handle_mm_fault] with [FAULT_FLAG_UNSHARE] *)
Inductive vm_fault := FAULT_DONE | VM_FAULT_SIGBUS | VM_FAULT_SIGSEGV | VM_FAULT_OOM.

(** The KSM page, or the zero page KSM placed, that an address maps. *)
Definition maps_ksm (m : mem) (k : addr_key) : bool :=
  match ptes m !! k with
  | None => false
  | Some e =>
    (if frames m !! pte_pfn e is Some fr then PageKsm fr else false) ||
    ((pte_pfn e =? zero_pfn m) && pte_dirty e)
  end.

(** It may back out, but not for ever; nobody sees another content. *)
Class MmFault := {
  handle_mm_fault : mem → addr_key → mem * vm_fault;
  unshare_no_ksm : ∀ m k, no_new_ksm m (handle_mm_fault m k).1;
  unshares : ∀ m u k, mem_ok m → coherent m u →
    mem_ok (handle_mm_fault m k).1 ∧ coherent (handle_mm_fault m k).1 u ∧ mem_rely m (handle_mm_fault m k).1;
  back_outs : nat;
  unshared_at_last : ∀ m k, let next m := (handle_mm_fault m k).1 in
    ∃ n, (n ≤ back_outs)%nat ∧
      (maps_ksm (Nat.iter n next m) k = false ∨ (handle_mm_fault (Nat.iter n next m) k).2 ≠ FAULT_DONE) }.
