(* ===== verification/HostTree.v ===== *)
(** * HostTree: KSM's stable tree on the host

    The part of [codes/mm/ksm.c] that keeps stable nodes and the items on
    them: [get_ksm_page], [remove_node_from_stable_tree],
    [remove_rmap_item_from_tree], [stable_tree_append], [stable_tree_insert]
    and the chains of duplicates.  [ksm_merge_across_nodes] has its default, so
    there is one tree; page migration, which rewrites [kpfn], is left out, so a
    second read of [kpfn] gives the first value. *)
From S2P Require Import Prelude Wire HashPair Growable Shadow Server HostMem.
Open Scope Z_scope.

Definition has_flag (flag address : Z) : bool := negb (Z.land address flag =? 0).

Definition set_address (a : Z) (it : kitem) : kitem :=
  KItem (ki_mm it) a (ki_word it) (ki_anon_vma it) (ki_head it).
Definition set_head_ptr (n : option loc) (it : kitem) : kitem :=
  KItem (ki_mm it) (ki_address it) (ki_word it) (ki_anon_vma it) n.
Definition set_anon_vma (a : Z) (it : kitem) : kitem :=
  KItem (ki_mm it) (ki_address it) (ki_word it) a (ki_head it).
(** [address &= PAGE_MASK] *)
Definition mask_address (it : kitem) : kitem := set_address (page_of (ki_address it)) it.

Definition set_hlist (len : Z) (l : list loc) (nd : knode) : knode := KNode (kn_kpfn nd) len l (kn_link nd).
Definition set_kpfn (p : Z) (nd : knode) : knode := KNode p (kn_len nd) (kn_hlist nd) (kn_link nd).
Definition set_link (k : node_link) (nd : knode) : knode := KNode (kn_kpfn nd) (kn_len nd) (kn_hlist nd) k.

Definition is_stable_node_chain (nd : knode) : bool := kn_len nd =? STABLE_NODE_CHAIN.
Definition is_stable_node_dup (nd : knode) : bool := negb (bool_decide (kn_link nd = InTree)).

(** ** Trees *)
Fixpoint rb_replace_node (victim new : loc) (t : rb_tree) : rb_tree :=
  match t with
  | RbLeaf => RbLeaf
  | RbNode l x r => RbNode (rb_replace_node victim new l) (if decide (x = victim) then new else x)
                      (rb_replace_node victim new r)
  end.

(** [rb_link_node] at the NULL pointer a descent has reached: the turns taken,
    [true] for left. *)
Fixpoint rb_link_node (x : loc) (path : list bool) (t : rb_tree) : rb_tree :=
  match path, t with
  | true :: path', RbNode l y r => RbNode (rb_link_node x path' l) y r
  | false :: path', RbNode l y r => RbNode l y (rb_link_node x path' r)
  | _, _ => RbNode RbLeaf x RbLeaf
  end.

Section tree.
Context `{RbTree} `{Memcmp}.

(** ** Nodes *)
Definition alloc_stable_node : M host (option loc) := λ h,
  match kmalloc (kallocs h) with
  | Ok (true, a) =>
    let n := fresh (dom (knodes (h_ksm h))) in
    Ok (Some n, with_errors (ksm_error_table h) a (with_ksm (on_nodes (<[n := KNode 0 0 [] InTree]>)) h))
  | Ok (false, a) => Ok (None, with_errors (ksm_error_table h) a h)
  | Halt w => Halt w
  | Fault w => Fault w
  end.

Definition free_stable_node (n : loc) : M host unit :=
  _ ← get_knode n; modify (with_ksm (on_nodes (delete n))).

Definition stable_node_chain_add_dup (dup chain : loc) : M host unit :=
  upd_knode dup (set_link (DupOf chain)) ;;
  upd_knode chain (λ nd, set_hlist (kn_len nd) (dup :: kn_hlist nd) nd) ;;
  count_nodes 0 1.

Definition hlist_del (x n : loc) : M host unit :=
  upd_knode n (λ nd, set_hlist (kn_len nd) (filter (λ y, y ≠ x) (kn_hlist nd)) nd).

Definition stable_node_dup_del (dup : loc) : M host unit :=
  nd ← get_knode dup;
  match kn_link nd with
  | DupOf chain => hlist_del dup chain ;; count_nodes 0 (-1)
  | InTree => modify (with_ksm (on_root (rb_erase dup)))
  end.

Definition alloc_stable_node_chain (dup : loc) : M host (option loc) :=
  r ← alloc_stable_node;
  match r with
  | None => mret None
  | Some chain =>
    h ← get;
    upd_knode chain (λ nd, set_hlist STABLE_NODE_CHAIN [] (set_kpfn (jiffies (config h) (length (env h))) nd)) ;;
    count_nodes 1 0 ;;
    modify (with_ksm (on_root (rb_replace_node dup chain))) ;;
    stable_node_chain_add_dup dup chain ;;
    mret (Some chain)
  end.

Definition free_stable_node_chain (chain : loc) : M host unit :=
  modify (with_ksm (on_root (rb_erase chain))) ;;
  free_stable_node chain ;;
  count_nodes (-1) 0.

(** The [hlist_for_each_entry] of [remove_node_from_stable_tree]. *)
Fixpoint clear_items (n : loc) (l : list loc) : M host unit :=
  match l with
  | [] => mret tt
  | i :: l' =>
    it ← get_kitem i;
    (if bool_decide (l' = []) then count (-1) 0 0 (-1) else count 0 (-1) 0 (-1)) ;;
    count_merging (ki_mm it) (-1) ;;
    upd_knode n (λ nd, set_hlist (s32 (kn_len nd - 1)) (kn_hlist nd) nd) ;;
    upd_kitem i mask_address ;;
    clear_items n l'
  end.

Definition remove_node_from_stable_tree (stable_node : loc) : M host unit :=
  nd ← get_knode stable_node;
  halt_if (kn_len nd <? 0) "BUG_ON" ;;
  clear_items stable_node (kn_hlist nd) ;;
  stable_node_dup_del stable_node ;;
  free_stable_node stable_node.

(** ** [get_ksm_page] *)
Inductive get_ksm_page_flags := GET_KSM_PAGE_NOLOCK | GET_KSM_PAGE_LOCK | GET_KSM_PAGE_TRYLOCK.

(** The page, NULL, or [ERR_PTR(-EBUSY)]. *)
Inductive gotten := Got (page : Z) | GotNull | GotBusy.

Definition is_expected (stable_node : loc) (fr : frame) : bool :=
  bool_decide (fr_mapping fr = MapKsm (Some stable_node)).

(** [stale:] *)
Definition stale_node (stable_node : loc) (kpfn : Z) : M host gotten :=
  remove_node_from_stable_tree stable_node ;;
  h ← get;
  (if is_ksm_offload (h_ksm h)
   then let junk := stack_log (config h) in
        report HOST_STALE_STABLE_NODE
          (KsmEventLog HOST_STALE_STABLE_NODE (log_w0 junk) kpfn (log_i0 junk) (log_i1 junk))
   else mret tt) ;;
  mret GotNull.

(** A page whose mapping is still this node's and whose count is 0 is between
    two steps of its freeing: it is not in the swap cache ([page_count]). *)
Definition get_ksm_page (stable_node : loc) (flags : get_ksm_page_flags) : M host gotten :=
  nd ← get_knode stable_node;
  let kpfn := kn_kpfn nd in
  fr ← get_frame kpfn;
  if negb (is_expected stable_node fr) then stale_node stable_node kpfn else
  interfere ;;
  fr ← get_frame kpfn;
  if page_count fr =? 0 then stale_node stable_node kpfn else
  get_page kpfn ;;
  if negb (is_expected stable_node fr) then put_page kpfn ;; stale_node stable_node kpfn else
  let check_again :=
    fr ← get_frame kpfn;
    if negb (is_expected stable_node fr) then unlock_page kpfn ;; put_page kpfn ;; stale_node stable_node kpfn
    else mret (Got kpfn) in
  match flags with
  | GET_KSM_PAGE_TRYLOCK =>
    ok ← trylock_page kpfn;
    if negb (ok : bool) then put_page kpfn ;; mret GotBusy else check_again
  | GET_KSM_PAGE_LOCK => lock_page kpfn ;; check_again
  | GET_KSM_PAGE_NOLOCK => mret (Got kpfn)
  end.

(** ** Items *)
Definition remove_rmap_item_from_tree (rmap_item : loc) : M host unit :=
  it ← get_kitem rmap_item;
  if has_flag STABLE_FLAG (ki_address it) then
    stable_node ← deref (ki_head it) "stable_node";
    r ← get_ksm_page stable_node GET_KSM_PAGE_LOCK;
    match r with
    | Got page =>
      hlist_del rmap_item stable_node ;;
      unlock_page page ;;
      put_page page ;;
      nd ← get_knode stable_node;
      (if bool_decide (kn_hlist nd = []) then count (-1) 0 0 (-1) else count 0 (-1) 0 (-1)) ;;
      count_merging (ki_mm it) (-1) ;;
      upd_knode stable_node (λ nd, set_hlist (s32 (kn_len nd - 1)) (kn_hlist nd) nd) ;;
      upd_kitem rmap_item (λ it, mask_address (set_head_ptr None it))
    | _ => mret tt
    end
  else if has_flag UNSTABLE_FLAG (ki_address it) then
    h ← get;
    let age := wrap_u 8 (scan_seqnr (h_ksm h) - ki_address it) in
    halt_if (1 <? age) "BUG_ON" ;;
    whenM (age =? 0) (modify (with_ksm (on_unstable (rb_erase rmap_item)))) ;;
    count 0 0 (-1) 0 ;;
    upd_kitem rmap_item mask_address
  else mret tt.

Definition stable_tree_append (rmap_item stable_node : loc) : M host unit :=
  nd ← get_knode stable_node;
  it ← get_kitem rmap_item;
  halt_if (kn_len nd <? 0) "BUG_ON" ;;
  upd_knode stable_node (λ nd, set_hlist (s32 (kn_len nd + 1)) (rmap_item :: kn_hlist nd) nd) ;;
  upd_kitem rmap_item (λ it, set_address (Z.lor (ki_address it) STABLE_FLAG) (set_head_ptr (Some stable_node) it)) ;;
  (if bool_decide (kn_hlist nd = []) then count 1 0 0 0 else count 0 1 0 0) ;;
  count_merging (ki_mm it) 1.

(** ** Duplicates *)
Definition is_page_sharing_candidate_at (max : Z) (nd : knode) (offset : Z) : bool :=
  negb (kn_len nd =? 0) && (kn_len nd + offset <? max).

(** The walk of [stable_node_dup] when it does not prune: up to the first
    duplicate with room. *)
Fixpoint first_dup (dups : list loc) : M host (option (loc * Z)) :=
  match dups with
  | [] => mret None
  | dup :: dups' =>
    r ← get_ksm_page dup GET_KSM_PAGE_NOLOCK;
    match r with
    | Got page =>
      nd ← get_knode dup;
      h ← get;
      if is_page_sharing_candidate_at (ksm_max_page_sharing (config h)) nd 0 then mret (Some (dup, page))
      else put_page page ;; first_dup dups'
    | _ => first_dup dups'
    end
  end.

(** [stable_node_dup] with [prune_stale_stable_nodes] false. *)
Definition stable_node_dup (stable_node : loc) : M host (option (loc * Z)) :=
  nd ← get_knode stable_node;
  r ← first_dup (kn_hlist nd);
  match r with
  | None => mret None
  | Some (found, page) =>
    nd ← get_knode stable_node;
    fnd ← get_knode found;
    h ← get;
    whenM (negb (bool_decide (head (kn_hlist nd) = Some found)) &&
           is_page_sharing_candidate_at (ksm_max_page_sharing (config h)) fnd 1)
      (upd_knode stable_node (λ nd, set_hlist (kn_len nd)
         (found :: filter (λ y, y ≠ found) (kn_hlist nd)) nd)) ;;
    mret (Some (found, page))
  end.

(** [chain], that is [__stable_node_chain] without pruning: whether a duplicate
    with room was found, and its page. *)
Definition chain (s_n : loc) : M host (bool * option Z) :=
  nd ← get_knode s_n;
  if is_stable_node_chain nd then
    r ← stable_node_dup s_n;
    match r with
    | Some (_, page) => mret (true, Some page)
    | None => mret (false, None)
    end
  else
    h ← get;
    if is_page_sharing_candidate_at (ksm_max_page_sharing (config h)) nd 0 then
      r ← get_ksm_page s_n GET_KSM_PAGE_NOLOCK;
      match r with
      | Got page => mret (true, Some page)
      | _ => mret (true, None)
      end
    else mret (false, None).

Definition stable_node_dup_any (stable_node : loc) : M host (option loc) :=
  nd ← get_knode stable_node;
  if negb (is_stable_node_chain nd) then mret (Some stable_node) else
  match kn_hlist nd with
  | [] => free_stable_node_chain stable_node ;; mret None
  | dup :: _ => mret (Some dup)
  end.

(** ** [stable_tree_insert] *)

(** How a descent ends: back to [again], at a NULL pointer, or at a node with
    the same content. *)
Inductive descent := Again | LinkAt (path : list bool) | SameAs (stable_node : loc).

(** The page a tree node is compared through. *)
Definition tree_page_of (stable_node : loc) : M host (option Z) :=
  c ← chain stable_node;
  let '(found, tree_page) := c in
  if (found : bool) then mret tree_page else
  any ← stable_node_dup_any stable_node;
  match any with
  | None => mret None
  | Some stable_node_any =>
    r ← get_ksm_page stable_node_any GET_KSM_PAGE_NOLOCK;
    match r with Got page => mret (Some page) | _ => mret None end
  end.

(** [rest] is the subtree at [*new]; the tree does not change on the way, any
    change leads to [again]. *)
Fixpoint descend (kpage : Z) (rest : rb_tree) (path : list bool) : M host descent :=
  match rest with
  | RbLeaf => mret (LinkAt path)
  | RbNode l x r =>
    tree_page ← tree_page_of x;
    match tree_page with
    | None => mret Again
    | Some tp =>
      kfr ← get_frame kpage;
      tfr ← get_frame tp;
      let ret := memcmp (fr_content kfr) (fr_content tfr) in
      put_page tp ;;
      if ret <? 0 then descend kpage l (path ++ [true])
      else if 0 <? ret then descend kpage r (path ++ [false])
      else mret (SameAs x)
    end
  end.

(** Every [goto again] follows the removal of a node; [None] is out of fuel. *)
Fixpoint search_place (fuel : nat) (kpage : Z) : M host (option descent) :=
  match fuel with
  | O => mret None
  | S fuel' =>
    h ← get;
    d ← descend kpage (root_stable_tree (h_ksm h)) [];
    match d with
    | Again => search_place fuel' kpage
    | _ => mret (Some d)
    end
  end.

(** After the descent. *)
Definition link_new_node (kpage : Z) (d : descent) : M host (option loc) :=
  r ← alloc_stable_node;
  match r with
  | None => mret None
  | Some dup =>
    upd_knode dup (λ nd, set_hlist 0 [] (set_kpfn kpage nd)) ;;
    upd_frame kpage (set_mapping (MapKsm (Some dup))) ;;
    match d with
    | SameAs stable_node =>
      nd ← get_knode stable_node;
      c ← (if is_stable_node_chain nd then mret (Some stable_node) else alloc_stable_node_chain stable_node);
      match c with
      | None => free_stable_node dup ;; mret None
      | Some chain => stable_node_chain_add_dup dup chain ;; mret (Some dup)
      end
    | LinkAt path =>
      modify (with_ksm (on_root (λ t, rb_insert_color (rb_link_node dup path t)))) ;;
      mret (Some dup)
    | Again => halt "unreachable"
    end
  end.

Definition stable_tree_insert (kpage : Z) : M host (option loc) :=
  h ← get;
  d ← search_place (S (size (knodes (h_ksm h)))) kpage;
  match d with
  | Some d => link_new_node kpage d
  | None => halt "again: out of fuel"
  end.

End tree.
