(* ===== verification/HostTreeInv.v ===== *)
(** * HostTreeInv: the invariant of the host's stable tree

    [ksm_ok]: items and nodes point to each other, chains and duplicates too,
    the tree holds exactly the nodes linked in it, and the counters count.  It
    is proved for the changes of HostTree on the structures alone; [sharing] is
    the abstract state, the node and frame each item is merged on. *)
From S2P Require Import Prelude Wire HashPair Growable Shadow Server HostMem HostTree.
Open Scope Z_scope.

(** ** Flags *)
Lemma stable_flag_masked a : has_flag STABLE_FLAG (page_of a) = false.
Proof.
  unfold has_flag, page_of. rewrite <- Z.land_assoc. change (Z.land (Z.lnot 4095) STABLE_FLAG) with 0.
  by rewrite Z.land_0_r.
Qed.

Lemma stable_flag_set a : has_flag STABLE_FLAG (Z.lor a STABLE_FLAG) = true.
Proof. unfold has_flag. rewrite Z.land_comm, Z.lor_comm, Z.land_lor_distr_r. 
  apply negb_true_iff, Z.eqb_neq. rewrite Z.land_diag. intros E. apply (f_equal (λ z, Z.testbit z 9)) in E.
  rewrite Z.lor_spec in E. by vm_compute in E.
Qed.

Lemma page_of_flag a : page_of (Z.lor a STABLE_FLAG) = page_of a.
Proof.
  unfold page_of. rewrite Z.land_lor_distr_l. change (Z.land STABLE_FLAG (Z.lnot 4095)) with 0. apply Z.lor_0_r.
Qed.

Lemma page_of_idemp a : page_of (page_of a) = page_of a.
Proof. unfold page_of. rewrite <- Z.land_assoc. by rewrite Z.land_diag. Qed.

Definition stable_item (it : kitem) : bool := has_flag STABLE_FLAG (ki_address it).

Definition unstable_item (it : kitem) : bool := has_flag UNSTABLE_FLAG (ki_address it).

Lemma unstable_masked it : unstable_item (mask_address it) = false.
Proof.
  unfold unstable_item, has_flag. simpl. unfold page_of. rewrite <- Z.land_assoc.
  change (Z.land (Z.lnot 4095) UNSTABLE_FLAG) with 0. by rewrite Z.land_0_r.
Qed.

Lemma unstable_listed it n :
  unstable_item (set_address (Z.lor (ki_address it) STABLE_FLAG) (set_head_ptr n it)) = unstable_item it.
Proof.
  unfold unstable_item, has_flag. simpl. rewrite Z.land_lor_distr_l. change (Z.land STABLE_FLAG UNSTABLE_FLAG) with 0.
  by rewrite Z.lor_0_r.
Qed.

(** [u64] of a sum. *)
Lemma u64_add a b : u64 (u64 a + b) = u64 (a + b).
Proof. unfold wrap_u. apply Z.add_mod_idemp_l. lia. Qed.

(** ** Masking a list of items *)
Definition mask_all (l : list loc) (I : gmap loc kitem) : gmap loc kitem :=
  map_imap (λ i it, Some (if decide (i ∈ l) then mask_address it else it)) I.

Lemma lookup_mask_all l I i : mask_all l I !! i = (λ it, if decide (i ∈ l) then mask_address it else it) <$> I !! i.
Proof. unfold mask_all. rewrite map_lookup_imap. by destruct (I !! i). Qed.

Lemma mask_all_nil I : mask_all [] I = I.
Proof. apply map_eq. intros i. rewrite lookup_mask_all. by destruct (I !! i). Qed.

Lemma mask_all_cons i l I it :
  I !! i = Some it → i ∉ l → mask_all l (<[i := mask_address it]> I) = mask_all (i :: l) I.
Proof.
  intros Hi Hn. apply map_eq. intros j. rewrite !lookup_mask_all. destruct (decide (i = j)) as [<-|Hne].
  - rewrite lookup_insert_eq, Hi. simpl. rewrite decide_False by done. by rewrite decide_True by set_solver.
  - rewrite lookup_insert_ne by done. destruct (I !! j); [|done]. simpl. f_equal. apply decide_ext. set_solver.
Qed.

(** ** Trees *)
(** The descent ends at a NULL pointer of the tree. *)
Fixpoint path_ends (path : list bool) (t : rb_tree) : Prop :=
  match path, t with
  | [], RbLeaf => True
  | true :: path', RbNode l _ _ => path_ends path' l
  | false :: path', RbNode _ _ r => path_ends path' r
  | _, _ => False
  end.

Lemma inorder_link_at x path t :
  path_ends path t → ∃ l1 l2, inorder t = l1 ++ l2 ∧ inorder (rb_link_node x path t) = l1 ++ x :: l2.
Proof.
  revert t. induction path as [|b path IH]; intros t; destruct t as [|l z r]; try destruct b; simpl; try done.
  - intros _. by exists [], [].
  - intros Hp. destruct (IH l Hp) as (l1 & l2 & E1 & E2). exists l1, (l2 ++ z :: inorder r).
    rewrite E1, E2. by rewrite <- !app_assoc.
  - intros Hp. destruct (IH r Hp) as (l1 & l2 & E1 & E2). exists (inorder l ++ z :: l1), l2.
    rewrite E1, E2. by rewrite <- !app_assoc.
Qed.

Lemma inorder_replace v n t :
  inorder (rb_replace_node v n t) = (λ x, if decide (x = v) then n else x) <$> inorder t.
Proof. induction t as [|l IHl x r IHr]; simpl; [done|]. by rewrite fmap_app, fmap_cons, IHl, IHr. Qed.

(** ** The invariant *)
Definition nshared (nd : knode) : Z :=
  if is_stable_node_chain nd then 0 else match kn_hlist nd with [] => 0 | _ => 1 end.
Definition nsharing (nd : knode) : Z :=
  if is_stable_node_chain nd then 0 else match kn_hlist nd with [] => 0 | _ :: l => Z.of_nat (length l) end.
Definition nitems (nd : knode) : Z :=
  if is_stable_node_chain nd then 0 else Z.of_nat (length (kn_hlist nd)).
Definition nchain (nd : knode) : Z := if is_stable_node_chain nd then 1 else 0.
Definition ndup (nd : knode) : Z := if is_stable_node_dup nd then 1 else 0.

(** [r] references on [anon_vma]s are held for items about to be appended. *)
Record counted (r : Z) (N : gmap loc knode) (c : ksm_counters) : Prop := Counted {
  ct_shared : ksm_pages_shared c = u64 (msum nshared N);
  ct_sharing : ksm_pages_sharing c = u64 (msum nsharing N);
  ct_chains : ksm_stable_node_chains c = u64 (msum nchain N);
  ct_dups : ksm_stable_node_dups c = u64 (msum ndup N);
  ct_refs : anon_vma_refs c = r + msum nitems N }.

Record ksm_ok (r : Z) (k : ksm) : Prop := KsmOk {
  ko_item : ∀ i it, kitems k !! i = Some it → stable_item it = true →
    ∃ n nd, ki_head it = Some n ∧ knodes k !! n = Some nd ∧ is_stable_node_chain nd = false ∧ i ∈ kn_hlist nd;
  ko_node : ∀ n nd, knodes k !! n = Some nd → is_stable_node_chain nd = false →
    kn_len nd = Z.of_nat (length (kn_hlist nd)) ∧ NoDup (kn_hlist nd) ∧
    ∀ i, i ∈ kn_hlist nd → ∃ it, kitems k !! i = Some it ∧ stable_item it = true ∧ ki_head it = Some n;
  ko_chain : ∀ c cd, knodes k !! c = Some cd → is_stable_node_chain cd = true →
    kn_link cd = InTree ∧ NoDup (kn_hlist cd) ∧
    ∀ d, d ∈ kn_hlist cd → ∃ nd, knodes k !! d = Some nd ∧ kn_link nd = DupOf c ∧ is_stable_node_chain nd = false;
  ko_dup : ∀ d nd c, knodes k !! d = Some nd → kn_link nd = DupOf c →
    ∃ cd, knodes k !! c = Some cd ∧ is_stable_node_chain cd = true ∧ d ∈ kn_hlist cd;
  ko_nodup : NoDup (inorder (root_stable_tree k));
  ko_tree : ∀ n, n ∈ inorder (root_stable_tree k) ↔ ∃ nd, knodes k !! n = Some nd ∧ kn_link nd = InTree;
  ko_counted : counted r (knodes k) (counters k);
  ko_small : Z.of_nat (size (kitems k)) < 2 ^ 31 }.

(** ** The unstable tree

    Its items carry the number of the pass that put them there.  The tree is
    emptied when a pass begins; between two passes what is left of it is not
    read. *)
Definition item_age (seqnr address : Z) : Z := wrap_u 8 (seqnr - address).

(** The unstable items, with their addresses. *)
Definition unstable_address (it : kitem) : option Z := if unstable_item it then Some (ki_address it) else None.
Definition unstables (I : gmap loc kitem) : gmap loc Z := omap unstable_address I.

Definition in_step (k : ksm) : Prop :=
  NoDup (inorder (root_unstable_tree k)) ∧
  ∀ i, i ∈ inorder (root_unstable_tree k) ↔ ∃ a, unstables (kitems k) !! i = Some a ∧ item_age (scan_seqnr k) a = 0.

(** In no tree. *)
Definition plain_item (it : kitem) : Prop := stable_item it = false ∧ unstable_item it = false.

(** The flags of an item in no tree are clear; the links of an item in the
    unstable tree lie over its [head]. *)
Definition marks_ok (I : gmap loc kitem) : Prop := ∀ i it, I !! i = Some it →
  (plain_item it → page_of (ki_address it) = ki_address it) ∧ (unstable_item it = true → ki_head it = None).

Lemma marks_ok_insert I i (it : kitem) :
  marks_ok I → (plain_item it → page_of (ki_address it) = ki_address it) → (unstable_item it = true → ki_head it = None) →
  marks_ok (<[i := it]> I).
Proof. intros HI H1 H2 j jt [[<- <-]|[_ Hj]]%lookup_insert_Some; [done|by eapply HI]. Qed.

Lemma marks_ok_masked I i (it : kitem) : marks_ok I → marks_ok (<[i := mask_address it]> I).
Proof. intros HI. apply marks_ok_insert; [done|intros _; apply page_of_idemp|by rewrite unstable_masked]. Qed.

(** Only what the flags do not say has changed. *)
Lemma marks_ok_same I i (it it' : kitem) :
  marks_ok I → I !! i = Some it → ki_address it' = ki_address it → (unstable_item it = true → ki_head it' = ki_head it) →
  marks_ok (<[i := it']> I).
Proof.
  intros HI Hi Ha Hh. destruct (HI i it Hi) as [H1 H2]. unfold plain_item, stable_item, unstable_item in *.
  apply marks_ok_insert; [done|..]; unfold plain_item, stable_item, unstable_item; rewrite ?Ha; [done|].
  intros Hu. by rewrite Hh, H2.
Qed.

Lemma marks_ok_listed I i (it' : kitem) :
  marks_ok I → stable_item it' = true → unstable_item it' = false → marks_ok (<[i := it']> I).
Proof. intros HI Hs Hu. apply marks_ok_insert; [done|by intros [? _]; congruence|congruence]. Qed.

Lemma marks_ok_mask l I : marks_ok I → marks_ok (mask_all l I).
Proof.
  intros HI i it. rewrite lookup_mask_all. destruct (I !! i) as [it0|] eqn:Hi; [|done]. simpl. intros [= <-].
  case_decide; [|by eapply HI]. split; [intros _; apply page_of_idemp|by rewrite unstable_masked].
Qed.

(** [b]: in the course of a pass. *)
Record unstable_ok (b : bool) (k : ksm) : Prop := UnstableOk {
  uo_item : ∀ i a, unstables (kitems k) !! i = Some a → has_flag STABLE_FLAG a = false ∧ item_age (scan_seqnr k) a ≤ 1;
  uo_tree : if b then in_step k else ∀ i a, unstables (kitems k) !! i = Some a → item_age (scan_seqnr k) a ≠ 0;
  uo_count : ksm_pages_unshared (counters k) = u64 (Z.of_nat (size (unstables (kitems k))));
  uo_marks : marks_ok (kitems k) }.

(** What concerns the scan without a server is as it was. *)
Record scan_same (k k' : ksm) : Prop := ScanSame {
  sc_items : unstables (kitems k') = unstables (kitems k);
  sc_tree : root_unstable_tree k' = root_unstable_tree k;
  sc_seqnr : scan_seqnr k' = scan_seqnr k;
  sc_offload : is_ksm_offload k' = is_ksm_offload k;
  sc_count : ∀ X, ksm_pages_unshared (counters k) = u64 X → ksm_pages_unshared (counters k') = u64 X;
  sc_marks : marks_ok (kitems k) → marks_ok (kitems k') }.

Lemma scan_same_refl k : scan_same k k.
Proof. by split. Qed.
Lemma scan_same_trans k1 k2 k3 : scan_same k1 k2 → scan_same k2 k3 → scan_same k1 k3.
Proof. intros [A1 A2 A3 A4 A5 A6] [B1 B2 B3 B4 B5 B6]. split; [congruence..| |by auto]. intros X HX. by apply B5, A5. Qed.
Lemma unstable_ok_same b k k' : scan_same k k' → unstable_ok b k → unstable_ok b k'.
Proof.
  intros [S1 S2 S3 _ S5 S6] [U1 U2 U3 U4]. split; unfold in_step; rewrite ?S1, ?S2, ?S3; [done|exact U2|by apply S5|by apply S6].
Qed.

(** No item enters the unstable tree, or moves in it. *)
Definition no_entry (k k' : ksm) : Prop := ∀ j it', kitems k' !! j = Some it' → unstable_item it' = true →
  ∃ it, kitems k !! j = Some it ∧ unstable_item it = true ∧ ki_address it' = ki_address it.

Lemma no_entry_trans k1 k2 k3 : no_entry k1 k2 → no_entry k2 k3 → no_entry k1 k3.
Proof.
  intros A B j it3 H3 U3. destruct (B j it3 H3 U3) as (it2 & H2 & U2 & E2). destruct (A j it2 H2 U2) as (it1 & H1 & U1 & E1).
  exists it1. split_and!; congruence.
Qed.
Lemma no_entry_insert i it k k' :
  kitems k' = <[i := it]> (kitems k) → unstable_item it = false → no_entry k k'.
Proof. intros E Hu j jt. rewrite E. intros [[<- <-]|[_ Hj]]%lookup_insert_Some Hju; [congruence|by exists jt]. Qed.

Lemma no_entry_refl k : no_entry k k.
Proof. intros j it Hj Hu. by exists it. Qed.
Lemma no_entry_same i it it' k k' :
  kitems k !! i = Some it → kitems k' = <[i := it']> (kitems k) → ki_address it' = ki_address it → no_entry k k'.
Proof.
  intros Hi E Ha j jt. rewrite E. intros [[<- <-]|[_ Hj]]%lookup_insert_Some Hu; [|by exists jt].
  exists it. split_and!; [done| |done]. unfold unstable_item in *. by rewrite <- Ha.
Qed.
Lemma no_entry_delete i k k' : kitems k' = delete i (kitems k) → no_entry k k'.
Proof. intros E j jt. rewrite E. intros [_ Hj]%lookup_delete_Some Hu. by exists jt. Qed.

Lemma lookup_unstables I i : unstables I !! i = I !! i ≫= unstable_address.
Proof. unfold unstables. apply lookup_omap. Qed.
Lemma unstables_insert I i it' :
  default None (unstable_address <$> I !! i) = unstable_address it' → unstables (<[i := it']> I) = unstables I.
Proof.
  intros E. apply map_eq. intros j. rewrite !lookup_unstables. destruct (decide (i = j)) as [<-|Hne].
  - rewrite lookup_insert_eq. simpl. rewrite <- E. by destruct (I !! i).
  - by rewrite lookup_insert_ne.
Qed.
Lemma unstables_delete I i : (∀ it, I !! i = Some it → unstable_item it = false) → unstables (delete i I) = unstables I.
Proof.
  intros E. apply map_eq. intros j. rewrite !lookup_unstables. destruct (decide (i = j)) as [<-|Hne].
  - rewrite lookup_delete_eq. destruct (I !! i) as [it|] eqn:Hi; [|done]. simpl. unfold unstable_address. by rewrite (E it).
  - by rewrite lookup_delete_ne.
Qed.
Lemma unstables_mask l I :
  (∀ i it, i ∈ l → I !! i = Some it → unstable_item it = false) → unstables (mask_all l I) = unstables I.
Proof.
  intros Hl. apply map_eq. intros i. rewrite !lookup_unstables, lookup_mask_all.
  destruct (I !! i) as [it|] eqn:Hi; simpl; [|done]. case_decide as Hin; [|done].
  unfold unstable_address. by rewrite unstable_masked, (Hl i it Hin Hi).
Qed.

(** A stable item is not unstable. *)
Lemma stable_not_unstable b k i it : unstable_ok b k → kitems k !! i = Some it → stable_item it = true → unstable_item it = false.
Proof.
  intros Hu Hi Hs. destruct (unstable_item it) eqn:E; [|done].
  destruct (uo_item _ _ Hu i (ki_address it)) as [E' _]; [|unfold stable_item in Hs; congruence].
  rewrite lookup_unstables, Hi. simpl. unfold unstable_address. by rewrite E.
Qed.

Lemma unstable_ok_plain I U q n o w c :
  (∀ i it, I !! i = Some it → unstable_item it = false ∧ page_of (ki_address it) = ki_address it) → ksm_pages_unshared c = 0 →
  unstable_ok false (Ksm I ∅ RbLeaf U q n o w c).
Proof.
  intros Hi Hc. assert (E : unstables I = ∅).
  { apply map_empty. intros i. rewrite lookup_unstables. destruct (I !! i) as [it|] eqn:E; [|done]. simpl.
    unfold unstable_address. by rewrite (proj1 (Hi i it E)). }
  split; simpl; rewrite ?E; [intros i a Ha; by rewrite lookup_empty in Ha| |by rewrite Hc|].
  - intros i a Ha. by rewrite lookup_empty in Ha.
  - intros i it Hit. destruct (Hi i it Hit). split; [done|congruence].
Qed.

(** An item leaves the unstable tree: it has been taken out of it when it was
    in step, and the counter counts one less. *)
Lemma unstable_ok_leave b k k' i it it' :
  unstable_ok b k → kitems k !! i = Some it → unstable_item it = true → it' = mask_address it →
  kitems k' = <[i := it']> (kitems k) → scan_seqnr k' = scan_seqnr k →
  (if item_age (scan_seqnr k) (ki_address it) =? 0
   then inorder (root_unstable_tree k') = filter (λ y, y ≠ i) (inorder (root_unstable_tree k))
   else root_unstable_tree k' = root_unstable_tree k) →
  ksm_pages_unshared (counters k') = u64 (ksm_pages_unshared (counters k) + -1) →
  unstable_ok b k'.
Proof.
  intros [U1 U2 U3 U4] Hi Hu E' HI Hs Ht Hc. assert (Hu' : unstable_item it' = false) by (rewrite E'; apply unstable_masked).
  assert (Hui : unstables (kitems k) !! i = Some (ki_address it)).
  { rewrite lookup_unstables, Hi. simpl. unfold unstable_address. by rewrite Hu. }
  assert (HD : unstables (kitems k') = delete i (unstables (kitems k))).
  { apply map_eq. intros j. rewrite HI. destruct (decide (i = j)) as [<-|Hne].
    - rewrite lookup_delete_eq, lookup_unstables, lookup_insert_eq. simpl. unfold unstable_address. by rewrite Hu'.
    - rewrite lookup_delete_ne, !lookup_unstables by done. by rewrite lookup_insert_ne. }
  split.
  - intros j a. rewrite HD, Hs. intros [_ Hj]%lookup_delete_Some. by eapply U1.
  - destruct b; cycle 1.
    { intros j a. rewrite HD, Hs. intros [_ Hj]%lookup_delete_Some. by eapply U2. }
    destruct U2 as [N E]. unfold in_step. rewrite HD, Hs. destruct (Z.eqb_spec (item_age (scan_seqnr k) (ki_address it)) 0) as [H0|H0]; rewrite Ht.
    + split; [by apply NoDup_filter|]. intros j. rewrite list_elem_of_filter, E. split.
      * intros (Hne & a & Ha & Hz). exists a. by rewrite lookup_delete_ne.
      * intros (a & [Hne Ha]%lookup_delete_Some & Hz). split; [congruence|by exists a].
    + split; [done|]. intros j. rewrite E. split.
      * intros (a & Ha & Hz). exists a. rewrite lookup_delete_ne; [done|]. intros <-. congruence.
      * intros (a & [Hne Ha]%lookup_delete_Some & Hz). by exists a.
  - rewrite Hc, U3, HD, u64_add, map_size_delete_Some by done.
    assert (size (unstables (kitems k)) ≠ 0%nat). { intros E. apply map_size_empty_inv in E. by rewrite E, lookup_empty in Hui. }
    f_equal. lia.
  - rewrite HI, E'. by apply marks_ok_masked.
Qed.

(** The node and the frame each item is merged on. *)
Definition node_of_kitem (N : gmap loc knode) (it : kitem) : option (loc * Z) :=
  if stable_item it then n ← ki_head it; nd ← N !! n; Some (n, kn_kpfn nd) else None.
Definition sharing (k : ksm) : gmap loc (loc * Z) := omap (node_of_kitem (knodes k)) (kitems k).

Lemma lookup_sharing k i : sharing k !! i = kitems k !! i ≫= node_of_kitem (knodes k).
Proof. unfold sharing. apply lookup_omap. Qed.

(** An empty KSM. *)
Definition empty_counters : ksm_counters := KsmCounters 0 0 0 0 0 0 ∅.
Lemma ksm_ok_fresh I :
  (∀ i it, I !! i = Some it → stable_item it = false) → Z.of_nat (size I) < 2 ^ 31 →
  ksm_ok 0 (Ksm I ∅ RbLeaf RbLeaf 0 0 true false empty_counters).
Proof.
  intros Hi Hs. split; simpl; try done.
  - intros i it H1 H2. rewrite (Hi i it H1) in H2. done.
  - constructor.
  - intros n. split; [by intros ?%elem_of_nil|]. intros (nd & ? & _). done.
Qed.

Lemma length_subset (l : list loc) (X : gset loc) : NoDup l → (∀ x, x ∈ l → x ∈ X) → (length l ≤ size X)%nat.
Proof.
  intros Hl Hx. rewrite <- (size_list_to_set (C := gset loc)) by done. apply subseteq_size. set_solver.
Qed.

(** A node has few items. *)
Lemma hlist_small r k n nd :
  ksm_ok r k → knodes k !! n = Some nd → is_stable_node_chain nd = false →
  Z.of_nat (length (kn_hlist nd)) ≤ Z.of_nat (size (kitems k)).
Proof.
  intros Hk Hn Hc. destruct (ko_node _ _ Hk n nd Hn Hc) as (_ & Hnd & Hall).
  pose proof (length_subset (kn_hlist nd) (dom (kitems k)) Hnd) as Hle. rewrite size_dom in Hle.
  enough (length (kn_hlist nd) ≤ size (kitems k))%nat by lia. apply Hle.
  intros i Hi. destruct (Hall i Hi) as (it & Hit & _). by apply elem_of_dom.
Qed.

(** ** Counting *)

(** The counters after [count]. *)
Definition counted_as (a b d : Z) (c c' : ksm_counters) : Prop :=
  ksm_pages_shared c' = u64 (ksm_pages_shared c + a) ∧ ksm_pages_sharing c' = u64 (ksm_pages_sharing c + b) ∧
  ksm_stable_node_chains c' = ksm_stable_node_chains c ∧ ksm_stable_node_dups c' = ksm_stable_node_dups c ∧
  anon_vma_refs c' = anon_vma_refs c + d.

Lemma counted_update r N c c' n nd nd' a b d :
  counted r N c → N !! n = Some nd → counted_as a b d c c' →
  nshared nd' = nshared nd + a → nsharing nd' = nsharing nd + b → nchain nd' = nchain nd → ndup nd' = ndup nd →
  counted (r + d - (nitems nd' - nitems nd)) (<[n := nd']> N) c'.
Proof.
  intros [C1 C2 C3 C4 C5] Hn (D1 & D2 & D3 & D4 & D5) E1 E2 E3 E4. split; rewrite (msum_update _ _ _ nd) by done.
  - rewrite D1, C1, u64_add, E1. f_equal. lia.
  - rewrite D2, C2, u64_add, E2. f_equal. lia.
  - rewrite D3, C3, E3. f_equal. lia.
  - rewrite D4, C4, E4. f_equal. lia.
  - rewrite D5, C5. lia.
Qed.

(** A node of which the counters see nothing new. *)
Lemma counted_same r N c n nd nd' :
  counted r N c → N !! n = Some nd → nshared nd' = nshared nd → nsharing nd' = nsharing nd → nchain nd' = nchain nd →
  ndup nd' = ndup nd → nitems nd' = nitems nd → counted r (<[n := nd']> N) c.
Proof.
  intros [C1 C2 C3 C4 C5] Hn E1 E2 E3 E4 E5. split; rewrite (msum_update _ _ _ nd) by done.
  - rewrite C1, E1. f_equal. lia.
  - rewrite C2, E2. f_equal. lia.
  - rewrite C3, E3. f_equal. lia.
  - rewrite C4, E4. f_equal. lia.
  - rewrite C5, E5. lia.
Qed.

Lemma length_filter_ne (l : list loc) i : NoDup l → i ∈ l → length l = S (length (filter (λ y, y ≠ i) l)).
Proof.
  induction l as [|x l IH]; intros Hnd Hi; [by apply elem_of_nil in Hi|]. apply NoDup_cons in Hnd as [Hx Hnd].
  rewrite filter_cons. destruct (decide (x ≠ i)) as [Hne|Heq]; simpl; f_equal.
  - apply IH; [done|]. set_solver.
  - apply dec_stable in Heq. subst x. f_equal.
    clear -Hx. induction l as [|y l IH]; [done|]. rewrite filter_cons, decide_True by set_solver. simpl. f_equal. apply IH. set_solver.
Qed.

Lemma not_chain_len nd : kn_len nd = Z.of_nat (length (kn_hlist nd)) → is_stable_node_chain nd = false.
Proof. intros E. unfold is_stable_node_chain, STABLE_NODE_CHAIN. apply Z.eqb_neq. lia. Qed.

Lemma is_chain_set_hlist len l nd : 0 ≤ len → is_stable_node_chain (set_hlist len l nd) = false.
Proof. intros Hl. unfold is_stable_node_chain, STABLE_NODE_CHAIN. simpl. apply Z.eqb_neq. lia. Qed.

Lemma size_insert_existing (I : gmap loc kitem) i it it' : I !! i = Some it → size (<[i := it']> I) = size I.
Proof. intros Hi. apply map_size_insert_Some. by eexists. Qed.

(** ** Items leave and join *)
Section transitions.
Context (r : Z) (k k' : ksm).

(** What a change of one node's list of items leaves alone. *)
Lemma ksm_ok_tree_kept n nd nd' :
  knodes k !! n = Some nd → knodes k' = <[n := nd']> (knodes k) → kn_link nd' = kn_link nd →
  root_stable_tree k' = root_stable_tree k →
  (∀ m, m ∈ inorder (root_stable_tree k) ↔ ∃ md, knodes k !! m = Some md ∧ kn_link md = InTree) →
  ∀ m, m ∈ inorder (root_stable_tree k') ↔ ∃ md, knodes k' !! m = Some md ∧ kn_link md = InTree.
Proof.
  intros Hn HN Hl HR Ht m. rewrite HR, HN, Ht. destruct (decide (m = n)) as [->|Hne].
  - rewrite lookup_insert_eq. split; intros (md & E & L).
    + exists nd'. split; [done|]. rewrite Hn in E. injection E as <-. congruence.
    + injection E as <-. exists nd. split; [done|congruence].
  - by rewrite lookup_insert_ne by done.
Qed.

(** One item [i] joins, leaves or stays on or off the list of one node [n]. *)
Lemma ksm_ok_relist i it it' n nd L a b d :
  ksm_ok r k → kitems k !! i = Some it → (stable_item it = true → ki_head it = Some n) →
  knodes k !! n = Some nd → is_stable_node_chain nd = false →
  NoDup L → (∀ j, j ≠ i → j ∈ L ↔ j ∈ kn_hlist nd) → (i ∈ L ↔ stable_item it' = true) →
  (stable_item it' = true → ki_head it' = Some n) →
  kitems k' = <[i := it']> (kitems k) →
  knodes k' = <[n := set_hlist (Z.of_nat (length L)) L nd]> (knodes k) →
  root_stable_tree k' = root_stable_tree k →
  counted_as a b d (counters k) (counters k') →
  nshared (set_hlist (Z.of_nat (length L)) L nd) = nshared nd + a →
  nsharing (set_hlist (Z.of_nat (length L)) L nd) = nsharing nd + b →
  ksm_ok (r + d - (Z.of_nat (length L) - Z.of_nat (length (kn_hlist nd)))) k' ∧
  sharing k' = (if stable_item it' then <[i := (n, kn_kpfn nd)]> else delete i) (sharing k).
Proof.
  intros Hk Hi Hh Hn Hc HndL HL HiL Hh' HI HN HR HC Ha Hb. pose proof Hk as [K1 K2 K3 K4 K5 K6 K7 K8].
  destruct (K2 n nd Hn Hc) as (Hlen & Hnd & Hall). set (nd' := set_hlist _ L nd) in *.
  assert (Hc' : is_stable_node_chain nd' = false) by (apply is_chain_set_hlist; lia).
  assert (HN' : ∀ m md, knodes k' !! m = Some md → ∃ md0, knodes k !! m = Some md0 ∧ kn_link md = kn_link md0 ∧
    is_stable_node_chain md = is_stable_node_chain md0 ∧ (m = n ∧ md = nd' ∨ m ≠ n ∧ md = md0)).
  { rewrite HN. intros m md Hm. destruct (decide (m = n)) as [->|Hne].
    - rewrite lookup_insert_eq in Hm. injection Hm as <-. exists nd. rewrite Hc'. split_and!; auto.
    - rewrite lookup_insert_ne in Hm by done. exists md. split_and!; auto. }
  assert (HN2 : ∀ m md, knodes k !! m = Some md → ∃ md', knodes k' !! m = Some md' ∧ kn_link md' = kn_link md ∧
    is_stable_node_chain md' = is_stable_node_chain md ∧ (m = n ∧ md' = nd' ∨ m ≠ n ∧ md' = md)).
  { rewrite HN. intros m md Hm. destruct (decide (m = n)) as [->|Hne].
    - rewrite lookup_insert_eq. rewrite Hn in Hm. injection Hm as <-. exists nd'. rewrite Hc'. split_and!; auto.
    - rewrite lookup_insert_ne by done. exists md. split_and!; auto. }
  split.
  - split.
    + intros j jt Hj Hjs. rewrite HI in Hj. destruct (decide (j = i)) as [->|Hne].
      { rewrite lookup_insert_eq in Hj. injection Hj as <-. exists n, nd'. rewrite HN, lookup_insert_eq.
        split_and!; [by apply Hh'|done|done|by apply HiL]. }
      rewrite lookup_insert_ne in Hj by done. destruct (K1 j jt Hj Hjs) as (m & md & E1 & E2 & E3 & E4).
      destruct (HN2 m md E2) as (md' & E5 & _ & E6 & E7). exists m, md'. split_and!; [done|done|congruence|].
      destruct E7 as [[-> ->]|[_ ->]]; [|done]. simpl. apply HL; [done|congruence].
    + intros m md Hm Hmc. destruct (HN' m md Hm) as (md0 & E1 & _ & E2 & E3). destruct E3 as [[-> ->]|[Hne ->]].
      * unfold nd'. simpl. split_and!; [done|done|]. intros j Hj. rewrite HI. destruct (decide (j = i)) as [->|Hne].
        -- exists it'. rewrite lookup_insert_eq. assert (stable_item it' = true) by by apply HiL. auto.
        -- rewrite lookup_insert_ne by done. apply Hall. by apply HL.
      * destruct (K2 m md0 E1 Hmc) as (A & B & C). split_and!; [done|done|]. intros j Hj. destruct (C j Hj) as (jt & D & E & F).
        exists jt. rewrite HI, lookup_insert_ne; [done|]. intros <-. rewrite Hi in D. injection D as <-.
        rewrite Hh in F by done. congruence.
    + intros c cd Hcd Hcc. destruct (HN' c cd Hcd) as (cd0 & E1 & E2 & E3 & E4). destruct E4 as [[-> ->]|[Hne ->]]; [congruence|].
      destruct (K3 c cd0 E1 Hcc) as (A & B & C). split_and!; [done|done|]. intros x Hx. destruct (C x Hx) as (dd & D & E & F).
      destruct (HN2 x dd D) as (dd' & G & G1 & G2 & _). exists dd'. split_and!; congruence.
    + intros x dd c Hd Hdl. destruct (HN' x dd Hd) as (dd0 & E1 & E2 & _). destruct (K4 x dd0 c E1 ltac:(congruence)) as (cd & A & B & C).
      destruct (HN2 c cd A) as (cd' & D & _ & E & F). exists cd'. split_and!; [done|congruence|].
      destruct F as [[-> ->]|[_ ->]]; [congruence|done].
    + by rewrite HR.
    + eapply ksm_ok_tree_kept; [exact Hn|exact HN|done|done|done].
    + rewrite HN. replace (_ - _) with (r + d - (nitems nd' - nitems nd)).
      2: { unfold nitems. rewrite Hc, Hc'. simpl. lia. }
      eapply counted_update; [done|done|exact HC|done|done| |done]. unfold nchain. by rewrite Hc, Hc'.
    + by rewrite HI, (size_insert_existing _ _ it).
  - apply map_eq. intros j. rewrite lookup_sharing, HI. destruct (decide (j = i)) as [->|Hne].
    + rewrite lookup_insert_eq. simpl. unfold node_of_kitem. destruct (stable_item it') eqn:Hst'.
      * rewrite lookup_insert_eq, (Hh' eq_refl). simpl. by rewrite HN, lookup_insert_eq.
      * by rewrite lookup_delete_eq.
    + rewrite lookup_insert_ne by done.
      transitivity (sharing k !! j); [|destruct (stable_item it'); [by rewrite lookup_insert_ne|by rewrite lookup_delete_ne]].
      rewrite lookup_sharing. destruct (kitems k !! j) as [jt|]; simpl; [|done].
      unfold node_of_kitem. destruct (stable_item jt); [|done]. destruct (ki_head jt) as [m|]; simpl; [|done].
      rewrite HN. destruct (decide (m = n)) as [->|Hmn]; [by rewrite lookup_insert_eq, Hn|by rewrite lookup_insert_ne].
Qed.

Lemma ksm_ok_drop_item i it it' n nd :
  ksm_ok r k → kitems k !! i = Some it → stable_item it = true → ki_head it = Some n → knodes k !! n = Some nd →
  stable_item it' = false → kitems k' = <[i := it']> (kitems k) →
  knodes k' = <[n := set_hlist (kn_len nd - 1) (filter (λ y, y ≠ i) (kn_hlist nd)) nd]> (knodes k) →
  root_stable_tree k' = root_stable_tree k →
  counted_as (if bool_decide (filter (λ y, y ≠ i) (kn_hlist nd) = []) then -1 else 0)
             (if bool_decide (filter (λ y, y ≠ i) (kn_hlist nd) = []) then 0 else -1) (-1) (counters k) (counters k') →
  ksm_ok r k' ∧ sharing k' = delete i (sharing k).
Proof.
  intros Hk Hi Hst Hh Hn Hst' HI HN HR HC.
  destruct (ko_item _ _ Hk i it Hi Hst) as (n' & nd1 & Hh' & Hn' & Hc & Hin). rewrite Hh in Hh'. injection Hh' as <-.
  rewrite Hn in Hn'. injection Hn' as <-. destruct (ko_node _ _ Hk n nd Hn Hc) as (Hlen & Hnd & Hall).
  pose proof (length_filter_ne _ _ Hnd Hin) as Hlf. set (L := filter (λ y, y ≠ i) (kn_hlist nd)) in *.
  replace (kn_len nd - 1) with (Z.of_nat (length L)) in HN by lia.
  assert (is_stable_node_chain (set_hlist (Z.of_nat (length L)) L nd) = false) as Hc' by (apply is_chain_set_hlist; lia).
  destruct (ksm_ok_relist i it it' n nd L (if bool_decide (L = []) then -1 else 0) (if bool_decide (L = []) then 0 else -1) (-1) Hk Hi (λ _, Hh) Hn Hc) as [E1 E2]; [..|exact HI|exact HN|exact HR|exact HC| | |].
  - by apply NoDup_filter.
  - intros j Hj. unfold L. rewrite list_elem_of_filter. tauto.
  - rewrite Hst'. split; [|done]. unfold L. rewrite list_elem_of_filter. tauto.
  - by rewrite Hst'.
  - unfold nshared. rewrite Hc, Hc'. simpl. destruct (kn_hlist nd); [done|]. by destruct L.
  - unfold nsharing. rewrite Hc, Hc'. simpl. destruct (kn_hlist nd); [done|]. simpl in Hlf. destruct L; simpl in *; lia.
  - rewrite Hst' in E2. split; [|done]. replace r with (r + -1 - (Z.of_nat (length L) - Z.of_nat (length (kn_hlist nd)))) by lia. done.
Qed.

Lemma ksm_ok_append i it it' n nd :
  ksm_ok r k → kitems k !! i = Some it → stable_item it = false → knodes k !! n = Some nd → is_stable_node_chain nd = false →
  stable_item it' = true → ki_head it' = Some n → kitems k' = <[i := it']> (kitems k) →
  knodes k' = <[n := set_hlist (kn_len nd + 1) (i :: kn_hlist nd) nd]> (knodes k) →
  root_stable_tree k' = root_stable_tree k →
  counted_as (if bool_decide (kn_hlist nd = []) then 1 else 0) (if bool_decide (kn_hlist nd = []) then 0 else 1) 0
    (counters k) (counters k') →
  ksm_ok (r - 1) k' ∧ sharing k' = <[i := (n, kn_kpfn nd)]> (sharing k).
Proof.
  intros Hk Hi Hst Hn Hc Hst' Hh' HI HN HR HC. destruct (ko_node _ _ Hk n nd Hn Hc) as (Hlen & Hnd & Hall).
  assert (i ∉ kn_hlist nd) as Hni.
  { intros Hin. destruct (Hall i Hin) as (it1 & A & B & _). congruence. }
  replace (kn_len nd + 1) with (Z.of_nat (length (i :: kn_hlist nd))) in HN by (simpl; lia).
  assert (∀ l, is_stable_node_chain (set_hlist (Z.of_nat (length l)) l nd) = false) as Hc' by (intros l; apply is_chain_set_hlist; lia).
  destruct (ksm_ok_relist i it it' n nd (i :: kn_hlist nd) (if bool_decide (kn_hlist nd = []) then 1 else 0)
    (if bool_decide (kn_hlist nd = []) then 0 else 1) 0 Hk Hi ltac:(congruence) Hn Hc) as [E1 E2];
    [..|exact HI|exact HN|exact HR|exact HC| | |].
  - by apply NoDup_cons.
  - intros j Hj. set_solver.
  - rewrite Hst'. set_solver.
  - done.
  - unfold nshared. rewrite Hc, Hc'. simpl. by destruct (kn_hlist nd).
  - unfold nsharing. rewrite Hc, Hc'. simpl. destruct (kn_hlist nd); simpl; lia.
  - rewrite Hst' in E2. split; [|done]. simpl length in E1.
    replace (r - 1) with (r + 0 - (Z.of_nat (S (length (kn_hlist nd))) - Z.of_nat (length (kn_hlist nd)))) by lia. done.
Qed.

(** An item off every list. *)
Lemma ksm_ok_item i it it' d :
  ksm_ok r k → kitems k !! i = Some it → stable_item it = false → stable_item it' = false →
  kitems k' = <[i := it']> (kitems k) → knodes k' = knodes k → root_stable_tree k' = root_stable_tree k →
  counted_as 0 0 d (counters k) (counters k') → ksm_ok (r + d) k' ∧ sharing k' = sharing k.
Proof.
  intros [K1 K2 K3 K4 K5 K6 K7 K8] Hi Hst Hst' HI HN HR (C1 & C2 & C3 & C4 & C5). split.
  - split; rewrite ?HN, ?HR; try done.
    + intros j jt Hj Hjs. apply K1; [|done]. rewrite HI in Hj. destruct (decide (j = i)) as [->|Hne].
      * rewrite lookup_insert_eq in Hj. injection Hj as <-. congruence.
      * by rewrite lookup_insert_ne in Hj.
    + intros n nd Hn Hc. destruct (K2 n nd Hn Hc) as (A & B & C). split_and!; [done|done|]. intros j Hj.
      destruct (C j Hj) as (jt & D & E & F). exists jt. rewrite HI, lookup_insert_ne; [done|]. intros <-. congruence.
    + destruct K7 as [D1 D2 D3 D4 D5]. split; [rewrite C1, D1, u64_add|rewrite C2, D2, u64_add|by rewrite C3|by rewrite C4|lia];
        f_equal; lia.
    + by rewrite HI, (size_insert_existing _ _ it).
  - apply map_eq. intros j. rewrite !lookup_sharing, HI, HN. destruct (decide (j = i)) as [->|Hne].
    + rewrite lookup_insert_eq, Hi. simpl. unfold node_of_kitem. by rewrite Hst, Hst'.
    + by rewrite lookup_insert_ne.
Qed.

(** An item off every list is freed, or made. *)
Lemma ksm_ok_free_item i it :
  ksm_ok r k → kitems k !! i = Some it → stable_item it = false → ksm_ok r (on_items (delete i) k).
Proof.
  intros [K1 K2 K3 K4 K5 K6 K7 K8] Hi Hst. split; simpl; try done.
  - intros j jt [_ Hj]%lookup_delete_Some Hjs. by eapply K1.
  - intros n nd Hn Hc. destruct (K2 n nd Hn Hc) as (A & B & C). split_and!; [done|done|]. intros j Hj.
    destruct (C j Hj) as (jt & D & E & F). exists jt. rewrite lookup_delete_ne; [done|]. intros <-. congruence.
  - rewrite map_size_delete, Hi. lia.
Qed.

Lemma ksm_ok_new_item i it :
  ksm_ok r k → kitems k !! i = None → stable_item it = false → Z.of_nat (size (kitems k)) + 1 < 2 ^ 31 →
  ksm_ok r (on_items (<[i := it]>) k).
Proof.
  intros [K1 K2 K3 K4 K5 K6 K7 K8] Hi Hst Hsz. split; simpl; try done.
  - intros j jt Hj Hjs. destruct (decide (j = i)) as [->|Hne].
    + rewrite lookup_insert_eq in Hj. injection Hj as <-. congruence.
    + rewrite lookup_insert_ne in Hj by done. by eapply K1.
  - intros n nd Hn Hc. destruct (K2 n nd Hn Hc) as (A & B & C). split_and!; [done|done|]. intros j Hj.
    destruct (C j Hj) as (jt & D & E & F). exists jt. rewrite lookup_insert_ne; [done|]. intros <-. congruence.
  - rewrite map_size_insert_None by done. lia.
Qed.

(** Only the references on [anon_vma]s change. *)
Lemma ksm_ok_count d :
  ksm_ok r k → kitems k' = kitems k → knodes k' = knodes k → root_stable_tree k' = root_stable_tree k →
  counted_as 0 0 d (counters k) (counters k') → ksm_ok (r + d) k' ∧ sharing k' = sharing k.
Proof.
  intros [K1 K2 K3 K4 K5 K6 K7 K8] HI HN HR (C1 & C2 & C3 & C4 & C5). split; [|unfold sharing; by rewrite HI, HN].
  split; rewrite ?HI, ?HN, ?HR; try done.
  destruct K7 as [D1 D2 D3 D4 D5]. split; [rewrite C1, D1, u64_add|rewrite C2, D2, u64_add|by rewrite C3|by rewrite C4|lia]; f_equal; lia.
Qed.
End transitions.

(** ** Nodes leave *)

(** A chain loses a duplicate. *)
Definition drop_dup (n : loc) (md : knode) : knode :=
  if is_stable_node_chain md then set_hlist (kn_len md) (filter (λ y, y ≠ n) (kn_hlist md)) md else md.

Lemma drop_dup_same n md :
  kn_link (drop_dup n md) = kn_link md ∧ kn_len (drop_dup n md) = kn_len md ∧ kn_kpfn (drop_dup n md) = kn_kpfn md ∧
  is_stable_node_chain (drop_dup n md) = is_stable_node_chain md ∧
  nshared (drop_dup n md) = nshared md ∧ nsharing (drop_dup n md) = nsharing md ∧ nitems (drop_dup n md) = nitems md ∧
  nchain (drop_dup n md) = nchain md ∧ ndup (drop_dup n md) = ndup md.
Proof.
  unfold drop_dup. destruct (is_stable_node_chain md) eqn:E; [|done].
  assert (is_stable_node_chain (set_hlist (kn_len md) (filter (λ y, y ≠ n) (kn_hlist md)) md) = true) as E' by done.
  unfold nshared, nsharing, nitems, nchain, ndup. rewrite E', E. done.
Qed.

Lemma drop_dup_id n md : n ∉ kn_hlist md → drop_dup n md = md.
Proof.
  intros Hn. unfold drop_dup. destruct (is_stable_node_chain md); [|done].
  assert (filter (λ y, y ≠ n) (kn_hlist md) = kn_hlist md) as ->; [|by destruct md].
  induction (kn_hlist md) as [|y l IH]; [done|]. rewrite filter_cons, decide_True by set_solver. f_equal. apply IH. set_solver.
Qed.

Lemma msum_fmap_same (f : knode → Z) g (N : gmap loc knode) : (∀ md, f (g md) = f md) → msum f (g <$> N) = msum f N.
Proof.
  intros Hg. induction N as [|n nd N Hn _ IH] using map_first_key_ind; [by rewrite fmap_empty|].
  rewrite fmap_insert, !msum_insert, Hg, IH; [done|done|by rewrite lookup_fmap, Hn].
Qed.

Section leave.
Context (r : Z) (k k' : ksm).

Lemma ksm_ok_remove_node n nd :
  ksm_ok r k → knodes k !! n = Some nd → is_stable_node_chain nd = false →
  kitems k' = mask_all (kn_hlist nd) (kitems k) →
  knodes k' = delete n (drop_dup n <$> knodes k) →
  NoDup (inorder (root_stable_tree k')) → (∀ m, m ∈ inorder (root_stable_tree k') ↔ m ≠ n ∧ m ∈ inorder (root_stable_tree k)) →
  ksm_pages_shared (counters k') = u64 (ksm_pages_shared (counters k) - nshared nd) →
  ksm_pages_sharing (counters k') = u64 (ksm_pages_sharing (counters k) - nsharing nd) →
  ksm_stable_node_chains (counters k') = ksm_stable_node_chains (counters k) →
  ksm_stable_node_dups (counters k') = u64 (ksm_stable_node_dups (counters k) - ndup nd) →
  anon_vma_refs (counters k') = anon_vma_refs (counters k) - nitems nd →
  ksm_ok r k' ∧ sharing k' = filter (λ kv, kv.2.1 ≠ n) (sharing k).
Proof.
  intros Hk Hn Hc HI HN Hnd' HR C1 C2 C3 C4 C5. pose proof Hk as [K1 K2 K3 K4 K5 K6 K7 K8].
  destruct (K2 n nd Hn Hc) as (Hlen & Hnd & Hall).
  assert (HN' : ∀ m md, knodes k' !! m = Some md ↔ m ≠ n ∧ ∃ md0, knodes k !! m = Some md0 ∧ md = drop_dup n md0).
  { intros m md. rewrite HN, lookup_delete_Some, lookup_fmap, fmap_Some. split; intros (H1 & md0 & H2 & H3); split; eauto. }
  assert (HI' : ∀ j jt, kitems k' !! j = Some jt → ∃ jt0, kitems k !! j = Some jt0 ∧
    (j ∈ kn_hlist nd ∧ stable_item jt = false ∨ j ∉ kn_hlist nd ∧ jt = jt0)).
  { intros j jt. rewrite HI, lookup_mask_all, fmap_Some. intros (jt0 & H1 & ->). exists jt0. split; [done|].
    case_decide; [left|by right]. split; [done|]. apply stable_flag_masked. }
  assert (HI2 : ∀ j jt, kitems k !! j = Some jt → j ∉ kn_hlist nd → kitems k' !! j = Some jt).
  { intros j jt Hj Hni. rewrite HI, lookup_mask_all, Hj. simpl. by rewrite decide_False. }
  split.
  - split.
    + intros j jt Hj Hjs. destruct (HI' j jt Hj) as (jt0 & Hj0 & [[_ E]|[Hni ->]]); [congruence|].
      destruct (K1 j jt0 Hj0 Hjs) as (m & md & E1 & E2 & E3 & E4).
      assert (m ≠ n) as Hmn by congruence. exists m, (drop_dup n md). split_and!; [done| | |].
      * apply HN'. split; [done|]. by exists md.
      * by destruct (drop_dup_same n md) as (_ & _ & _ & -> & _).
      * unfold drop_dup. by rewrite E3.
    + intros m md Hm Hmc. apply HN' in Hm as (Hmn & md0 & Hm & ->). destruct (drop_dup_same n md0) as (_ & _ & _ & E & _).
      rewrite E in Hmc. unfold drop_dup. rewrite Hmc. destruct (K2 m md0 Hm Hmc) as (A & B & C). split_and!; [done|done|].
      intros j Hj. destruct (C j Hj) as (jt & D & E1 & E2). exists jt. split; [|done]. apply HI2; [done|].
      intros Hin. destruct (Hall j Hin) as (jt' & F & _ & G). congruence.
    + intros c cd Hcd Hcc. apply HN' in Hcd as (Hcn & cd0 & Hcd & ->). destruct (drop_dup_same n cd0) as (E0 & _ & _ & E & _).
      rewrite E in Hcc. destruct (K3 c cd0 Hcd Hcc) as (A & B & C). split; [by rewrite E0|]. unfold drop_dup. rewrite Hcc. simpl.
      split; [by apply NoDup_filter|]. intros d [Hdn Hd]%list_elem_of_filter. destruct (C d Hd) as (dd & D & E1 & E2).
      exists (drop_dup n dd). destruct (drop_dup_same n dd) as (F1 & _ & _ & F2 & _). split_and!; [|congruence|congruence].
      apply HN'. split; [done|]. by exists dd.
    + intros d dd c Hd Hl. apply HN' in Hd as (Hdn & dd0 & Hd & ->). destruct (drop_dup_same n dd0) as (E0 & _). rewrite E0 in Hl.
      destruct (K4 d dd0 c Hd Hl) as (cd & A & B & C). assert (c ≠ n) by congruence. exists (drop_dup n cd).
      destruct (drop_dup_same n cd) as (_ & _ & _ & E & _). split_and!; [|congruence|].
      * apply HN'. split; [done|]. by exists cd.
      * unfold drop_dup. rewrite B. simpl. by apply list_elem_of_filter.
    + done.
    + intros m. rewrite HR, K6. split.
      * intros (Hmn & md & Hm & Hl). exists (drop_dup n md). destruct (drop_dup_same n md) as (E0 & _). split; [|congruence].
        apply HN'. split; [done|]. by exists md.
      * intros (md & Hm & Hl). apply HN' in Hm as (Hmn & md0 & Hm & ->). destruct (drop_dup_same n md0) as (E0 & _).
        split; [done|]. exists md0. split; [done|congruence].
    + assert (∀ f : knode → Z, (∀ md, f (drop_dup n md) = f md) → msum f (knodes k') = msum f (knodes k) - f nd) as Hsum.
      { intros f Hf. rewrite HN, (msum_delete _ _ _ (drop_dup n nd)) by by rewrite lookup_fmap, Hn.
        by rewrite (msum_fmap_same _ _ _ Hf), Hf. }
      destruct K7 as [D1 D2 D3 D4 D5].
      split; rewrite Hsum by (intros md; apply (drop_dup_same n md)).
      * rewrite C1, D1. unfold Z.sub. rewrite u64_add. done.
      * rewrite C2, D2. unfold Z.sub. rewrite u64_add. done.
      * rewrite C3, D3. f_equal. unfold nchain. rewrite Hc. lia.
      * rewrite C4, D4. unfold Z.sub. rewrite u64_add. done.
      * rewrite C5, D5. lia.
    + replace (size (kitems k')) with (size (kitems k)); [done|].
      rewrite <- !size_dom. f_equal. apply set_eq. intros j. rewrite !elem_of_dom, HI, lookup_mask_all. by rewrite fmap_is_Some.
  - apply map_eq. intros j. rewrite map_lookup_filter, !lookup_sharing, HI, lookup_mask_all.
    destruct (kitems k !! j) as [jt|] eqn:Hj; simpl; [|done]. case_decide as Hin.
    + destruct (Hall j Hin) as (jt' & E1 & E2 & E3). rewrite Hj in E1. injection E1 as <-.
      unfold node_of_kitem. rewrite E2, E3. simpl. rewrite Hn. simpl.
      change (stable_item (mask_address jt)) with (has_flag STABLE_FLAG (page_of (ki_address jt))).
      rewrite stable_flag_masked. case_guard; [by destruct H|done].
    + unfold node_of_kitem. destruct (stable_item jt) eqn:Hjs; [|done].
      destruct (K1 j jt Hj Hjs) as (m & md & E1 & E2 & E3 & E4). rewrite E1. simpl.
      assert (m ≠ n) as Hmn by congruence. rewrite HN, lookup_delete_ne, lookup_fmap, E2 by done. simpl.
      case_guard; [|by destruct H]. by destruct (drop_dup_same n md) as (_ & _ & -> & _).
Qed.

(** An empty chain is freed. *)
Lemma ksm_ok_free_chain c cd :
  ksm_ok r k → knodes k !! c = Some cd → is_stable_node_chain cd = true → kn_hlist cd = [] →
  kitems k' = kitems k → knodes k' = delete c (knodes k) →
  NoDup (inorder (root_stable_tree k')) → (∀ m, m ∈ inorder (root_stable_tree k') ↔ m ≠ c ∧ m ∈ inorder (root_stable_tree k)) →
  ksm_pages_shared (counters k') = ksm_pages_shared (counters k) →
  ksm_pages_sharing (counters k') = ksm_pages_sharing (counters k) →
  ksm_stable_node_chains (counters k') = u64 (ksm_stable_node_chains (counters k) - 1) →
  ksm_stable_node_dups (counters k') = ksm_stable_node_dups (counters k) →
  anon_vma_refs (counters k') = anon_vma_refs (counters k) →
  ksm_ok r k' ∧ sharing k' = sharing k.
Proof.
  intros Hk Hcd Hcc He HI HN Hnd' HR C1 C2 C3 C4 C5. pose proof Hk as [K1 K2 K3 K4 K5 K6 K7 K8].
  destruct (K3 c cd Hcd Hcc) as (Hl & _ & _).
  assert (HN' : ∀ m md, knodes k' !! m = Some md ↔ m ≠ c ∧ knodes k !! m = Some md).
  { intros m md. rewrite HN, lookup_delete_Some. split; intros [? ?]; split; auto. }
  split.
  - split.
    + intros j jt Hj Hjs. rewrite HI in Hj. destruct (K1 j jt Hj Hjs) as (m & md & E1 & E2 & E3 & E4).
      exists m, md. split_and!; [done| |done|done]. apply HN'. split; [congruence|done].
    + intros m md [Hmc Hm]%HN' Hc. rewrite HI. by apply (K2 m).
    + intros x xd [Hxc Hx]%HN' Hc. destruct (K3 x xd Hx Hc) as (A & B & C). split_and!; [done|done|]. intros d Hd.
      destruct (C d Hd) as (dd & D & E & F). exists dd. split_and!; [|done|done]. apply HN'. split; [congruence|done].
    + intros d dd x [Hdc Hd]%HN' Hx. destruct (K4 d dd x Hd Hx) as (xd & A & B & C). exists xd. split_and!; [|done|done].
      apply HN'. split; [|done]. intros ->. rewrite Hcd in A. injection A as <-. rewrite He in C. by apply elem_of_nil in C.
    + done.
    + intros m. rewrite HR, K6. split.
      * intros (Hmc & md & Hm & Hml). exists md. split; [by apply HN'|done].
      * intros (md & [Hmc Hm]%HN' & Hml). split; [done|]. by exists md.
    + destruct K7 as [D1 D2 D3 D4 D5]. rewrite HN. split; rewrite (msum_delete _ _ _ cd) by done.
      * rewrite C1, D1. f_equal. unfold nshared. rewrite Hcc. lia.
      * rewrite C2, D2. f_equal. unfold nsharing. rewrite Hcc. lia.
      * rewrite C3, D3. unfold Z.sub. rewrite u64_add. unfold nchain. by rewrite Hcc.
      * rewrite C4, D4. f_equal. unfold ndup, is_stable_node_dup. rewrite Hl. simpl. lia.
      * rewrite C5, D5. unfold nitems. rewrite Hcc. lia.
    + by rewrite HI.
  - apply map_eq. intros j. rewrite !lookup_sharing, HI. destruct (kitems k !! j) as [jt|] eqn:Hj; simpl; [|done].
    unfold node_of_kitem. destruct (stable_item jt) eqn:Hjs; [|done]. destruct (K1 j jt Hj Hjs) as (m & md & E1 & E2 & E3 & E4).
    rewrite E1. simpl. rewrite HN, lookup_delete_ne; [done|congruence].
Qed.
End leave.

(** ** Nodes arrive *)
Lemma chain_counts nd :
  is_stable_node_chain nd = true → nshared nd = 0 ∧ nsharing nd = 0 ∧ nitems nd = 0 ∧ nchain nd = 1.
Proof. intros E. unfold nshared, nsharing, nitems, nchain. by rewrite E. Qed.

Section arrive.
Context (r : Z) (k k' : ksm).

(** What a node without items changes: where it is linked. *)
Lemma ksm_ok_new_in_tree d p :
  ksm_ok r k → knodes k !! d = None →
  kitems k' = kitems k → knodes k' = <[d := KNode p 0 [] InTree]> (knodes k) →
  NoDup (inorder (root_stable_tree k')) → (∀ m, m ∈ inorder (root_stable_tree k') ↔ m = d ∨ m ∈ inorder (root_stable_tree k)) →
  counters k' = counters k →
  ksm_ok r k' ∧ sharing k' = sharing k.
Proof.
  intros Hk Hd HI HN Hnd' HR HC. pose proof Hk as [K1 K2 K3 K4 K5 K6 K7 K8].
  assert (HN2 : ∀ m md, knodes k !! m = Some md → m ≠ d ∧ knodes k' !! m = Some md).
  { intros m md Hm. assert (m ≠ d) by congruence. split; [done|]. by rewrite HN, lookup_insert_ne. }
  assert (HN' : ∀ m md, knodes k' !! m = Some md → (m = d ∧ md = KNode p 0 [] InTree) ∨ (m ≠ d ∧ knodes k !! m = Some md)).
  { rewrite HN. intros m md Hm. destruct (decide (m = d)) as [->|Hne].
    - rewrite lookup_insert_eq in Hm. injection Hm as <-. by left.
    - rewrite lookup_insert_ne in Hm by done. by right. }
  split.
  - split.
    + intros j jt Hj Hjs. rewrite HI in Hj. destruct (K1 j jt Hj Hjs) as (m & md & E1 & E2 & E3). exists m, md.
      split; [done|]. split; [by apply HN2|done].
    + intros m md Hm Hmc. destruct (HN' m md Hm) as [[-> ->]|[_ Hm']].
      * split_and!; [done|constructor|]. intros i Hi. simpl in Hi. by apply elem_of_nil in Hi.
      * rewrite HI. by apply (K2 m).
    + intros c cd Hcd Hcc. destruct (HN' c cd Hcd) as [[-> ->]|[_ Hm']]; [done|].
      destruct (K3 c cd Hm' Hcc) as (A & B & C). split_and!; [done|done|]. intros x Hx. destruct (C x Hx) as (xd & D & E).
      exists xd. split; [by apply HN2|done].
    + intros x xd c Hx Hl. destruct (HN' x xd Hx) as [[-> ->]|[_ Hm']]; [done|].
      destruct (K4 x xd c Hm' Hl) as (cd & A & B). exists cd. split; [by apply HN2|done].
    + done.
    + intros m. rewrite HR, K6. split.
      * intros [->|(md & Hm & Hl)]; [|exists md; split; [by apply HN2|done]].
        exists (KNode p 0 [] InTree). by rewrite HN, lookup_insert_eq.
      * intros (md & Hm & Hl). destruct (HN' m md Hm) as [[-> ->]|[_ Hm']]; [by left|]. right. by exists md.
    + destruct K7 as [D1 D2 D3 D4 D5]. rewrite HC, HN. by split; rewrite msum_insert.
    + by rewrite HI.
  - apply map_eq. intros j. rewrite !lookup_sharing, HI. destruct (kitems k !! j) as [jt|] eqn:Hj; simpl; [|done].
    unfold node_of_kitem. destruct (stable_item jt) eqn:Hjs; [|done]. destruct (K1 j jt Hj Hjs) as (m & md & E1 & E2 & _).
    rewrite E1. simpl. destruct (HN2 m md E2) as [_ ->]. by rewrite E2.
Qed.

Lemma ksm_ok_new_dup c cd d p :
  ksm_ok r k → knodes k !! d = None → knodes k !! c = Some cd → is_stable_node_chain cd = true →
  kitems k' = kitems k →
  knodes k' = <[c := set_hlist (kn_len cd) (d :: kn_hlist cd) cd]> (<[d := KNode p 0 [] (DupOf c)]> (knodes k)) →
  root_stable_tree k' = root_stable_tree k →
  ksm_pages_shared (counters k') = ksm_pages_shared (counters k) →
  ksm_pages_sharing (counters k') = ksm_pages_sharing (counters k) →
  ksm_stable_node_chains (counters k') = ksm_stable_node_chains (counters k) →
  ksm_stable_node_dups (counters k') = u64 (ksm_stable_node_dups (counters k) + 1) →
  anon_vma_refs (counters k') = anon_vma_refs (counters k) →
  ksm_ok r k' ∧ sharing k' = sharing k.
Proof.
  intros Hk Hd Hcd Hcc HI HN HR C1 C2 C3 C4 C5. pose proof Hk as [K1 K2 K3 K4 K5 K6 K7 K8].
  assert (c ≠ d) as Hcn by congruence. destruct (K3 c cd Hcd Hcc) as (Hl & Hndc & Hall).
  set (cd' := set_hlist (kn_len cd) (d :: kn_hlist cd) cd) in *. assert (is_stable_node_chain cd' = true) as Hcc' by done.
  assert (HN2 : ∀ m md, knodes k !! m = Some md → m ≠ d ∧ ∃ md', knodes k' !! m = Some md' ∧ kn_link md' = kn_link md ∧
    kn_kpfn md' = kn_kpfn md ∧ is_stable_node_chain md' = is_stable_node_chain md ∧ (m = c ∧ md' = cd' ∨ m ≠ c ∧ md' = md)).
  { intros m md Hm. assert (m ≠ d) by congruence. split; [done|]. rewrite HN. destruct (decide (m = c)) as [->|Hne].
    - rewrite lookup_insert_eq. rewrite Hcd in Hm. injection Hm as <-. exists cd'. split_and!; auto.
    - rewrite !lookup_insert_ne by done. exists md. split_and!; auto. }
  assert (HN' : ∀ m md, knodes k' !! m = Some md → (m = d ∧ md = KNode p 0 [] (DupOf c)) ∨ (m = c ∧ md = cd') ∨
    (m ≠ d ∧ m ≠ c ∧ knodes k !! m = Some md)).
  { rewrite HN. intros m md Hm. destruct (decide (m = c)) as [->|Hne].
    - rewrite lookup_insert_eq in Hm. injection Hm as <-. auto.
    - rewrite lookup_insert_ne in Hm by done. destruct (decide (m = d)) as [->|Hne2].
      + rewrite lookup_insert_eq in Hm. injection Hm as <-. by left.
      + rewrite lookup_insert_ne in Hm by done. auto. }
  split.
  - split.
    + intros j jt Hj Hjs. rewrite HI in Hj. destruct (K1 j jt Hj Hjs) as (m & md & E1 & E2 & E3 & E4).
      destruct (HN2 m md E2) as (_ & md' & F1 & _ & _ & F2 & F3). exists m, md'. split_and!; [done|done|congruence|].
      destruct F3 as [[-> ->]|[_ ->]]; [congruence|done].
    + intros m md Hm Hmc. destruct (HN' m md Hm) as [[-> ->]|[[-> ->]|(_ & _ & Hm')]]; [|congruence|].
      * split_and!; [done|constructor|]. intros i Hi. simpl in Hi. by apply elem_of_nil in Hi.
      * rewrite HI. by apply (K2 m).
    + intros x xd Hx Hxc. destruct (HN' x xd Hx) as [[-> ->]|[[-> ->]|(_ & Hne & Hx')]]; [done| |].
      * split; [done|]. simpl. split.
        -- apply NoDup_cons. split; [|done]. intros Hin. destruct (Hall d Hin) as (dd & A & _). congruence.
        -- intros y Hy. destruct (decide (y = d)) as [->|Hyd].
           ++ exists (KNode p 0 [] (DupOf c)). by rewrite HN, lookup_insert_ne, lookup_insert_eq.
           ++ destruct (Hall y ltac:(set_solver)) as (yd & A & B & C). destruct (HN2 y yd A) as (_ & yd' & F1 & F2 & _ & F3 & _).
              exists yd'. split_and!; congruence.
      * destruct (K3 x xd Hx' Hxc) as (A & B & C). split_and!; [done|done|]. intros y Hy. destruct (C y Hy) as (yd & D & E & F).
        destruct (HN2 y yd D) as (_ & yd' & F1 & F2 & _ & F3 & _). exists yd'. split_and!; congruence.
    + intros x xd y Hx Hxl. destruct (HN' x xd Hx) as [[-> ->]|[[-> ->]|(_ & Hne & Hx')]].
      * simpl in Hxl. injection Hxl as <-. exists cd'. rewrite HN, lookup_insert_eq. split_and!; [done|done|]. simpl. set_solver.
      * simpl in Hxl. congruence.
      * destruct (K4 x xd y Hx' Hxl) as (yd & A & B & C). destruct (HN2 y yd A) as (_ & yd' & F1 & _ & _ & F2 & F3).
        exists yd'. split_and!; [done|congruence|]. destruct F3 as [[-> ->]|[_ ->]]; [|done]. simpl. set_solver.
    + by rewrite HR.
    + intros m. rewrite HR, K6. split.
      * intros (md & Hm & Hml). destruct (HN2 m md Hm) as (_ & md' & F1 & F2 & _). exists md'. split; [done|congruence].
      * intros (md & Hm & Hml). destruct (HN' m md Hm) as [[-> ->]|[[-> ->]|(_ & Hne & Hm')]]; [done| |by exists md].
        by exists cd.
    + destruct K7 as [D1 D2 D3 D4 D5].
      assert (∀ f : knode → Z, msum f (knodes k') = f (KNode p 0 [] (DupOf c)) + msum f (knodes k) - f cd + f cd') as Hsum.
      { intros f. rewrite HN, (msum_update f _ c cd) by by rewrite lookup_insert_ne. rewrite msum_insert by done. lia. }
      destruct (chain_counts cd Hcc) as (Z1 & Z2 & Z3 & Z4). destruct (chain_counts cd' Hcc') as (Z1' & Z2' & Z3' & Z4').
      split; rewrite Hsum.
      * rewrite C1, D1, Z1, Z1'. f_equal. assert (nshared (KNode p 0 [] (DupOf c)) = 0) as -> by done. lia.
      * rewrite C2, D2, Z2, Z2'. f_equal. assert (nsharing (KNode p 0 [] (DupOf c)) = 0) as -> by done. lia.
      * rewrite C3, D3, Z4, Z4'. f_equal. assert (nchain (KNode p 0 [] (DupOf c)) = 0) as -> by done. lia.
      * rewrite C4, D4, u64_add. f_equal. assert (ndup (KNode p 0 [] (DupOf c)) = 1) as -> by done.
        assert (ndup cd' = ndup cd) as -> by done. lia.
      * rewrite C5, D5, Z3, Z3'. assert (nitems (KNode p 0 [] (DupOf c)) = 0) as -> by done. lia.
    + by rewrite HI.
  - apply map_eq. intros j. rewrite !lookup_sharing, HI. destruct (kitems k !! j) as [jt|] eqn:Hj; simpl; [|done].
    unfold node_of_kitem. destruct (stable_item jt) eqn:Hjs; [|done]. destruct (K1 j jt Hj Hjs) as (m & md & E1 & E2 & _).
    rewrite E1. simpl. destruct (HN2 m md E2) as (_ & md' & F1 & _ & F2 & _). rewrite F1, E2. simpl. by rewrite F2.
Qed.

Lemma ksm_ok_new_chain c s sd j :
  ksm_ok r k → knodes k !! c = None → knodes k !! s = Some sd → is_stable_node_chain sd = false → kn_link sd = InTree →
  kitems k' = kitems k →
  knodes k' = <[c := KNode j STABLE_NODE_CHAIN [s] InTree]> (<[s := set_link (DupOf c) sd]> (knodes k)) →
  NoDup (inorder (root_stable_tree k')) →
  (∀ m, m ∈ inorder (root_stable_tree k') ↔ m = c ∨ (m ≠ s ∧ m ∈ inorder (root_stable_tree k))) →
  ksm_pages_shared (counters k') = ksm_pages_shared (counters k) →
  ksm_pages_sharing (counters k') = ksm_pages_sharing (counters k) →
  ksm_stable_node_chains (counters k') = u64 (ksm_stable_node_chains (counters k) + 1) →
  ksm_stable_node_dups (counters k') = u64 (ksm_stable_node_dups (counters k) + 1) →
  anon_vma_refs (counters k') = anon_vma_refs (counters k) →
  ksm_ok r k' ∧ sharing k' = sharing k.
Proof.
  intros Hk Hc Hs Hsc Hsl HI HN Hnd' HR C1 C2 C3 C4 C5. pose proof Hk as [K1 K2 K3 K4 K5 K6 K7 K8].
  assert (c ≠ s) as Hcs by congruence.
  set (cd := KNode j STABLE_NODE_CHAIN [s] InTree) in *. set (sd' := set_link (DupOf c) sd) in *.
  assert (is_stable_node_chain cd = true) as Hcc by done. assert (is_stable_node_chain sd' = false) as Hsc' by done.
  assert (HN2 : ∀ m md, knodes k !! m = Some md → m ≠ c ∧ ∃ md', knodes k' !! m = Some md' ∧ kn_hlist md' = kn_hlist md ∧
    kn_len md' = kn_len md ∧ kn_kpfn md' = kn_kpfn md ∧ is_stable_node_chain md' = is_stable_node_chain md ∧
    (m = s ∧ md' = sd' ∨ m ≠ s ∧ md' = md)).
  { intros m md Hm. assert (m ≠ c) by congruence. split; [done|]. rewrite HN, lookup_insert_ne by done.
    destruct (decide (m = s)) as [->|Hne].
    - rewrite lookup_insert_eq. rewrite Hs in Hm. injection Hm as <-. exists sd'. split_and!; auto.
    - rewrite !lookup_insert_ne by done. exists md. split_and!; auto. }
  assert (HN' : ∀ m md, knodes k' !! m = Some md → (m = c ∧ md = cd) ∨ (m = s ∧ md = sd') ∨ (m ≠ c ∧ m ≠ s ∧ knodes k !! m = Some md)).
  { rewrite HN. intros m md Hm. destruct (decide (m = c)) as [->|Hne].
    - rewrite lookup_insert_eq in Hm. injection Hm as <-. auto.
    - rewrite lookup_insert_ne in Hm by done. destruct (decide (m = s)) as [->|Hne2].
      + rewrite lookup_insert_eq in Hm. injection Hm as <-. auto.
      + rewrite lookup_insert_ne in Hm by done. auto. }
  split.
  - split.
    + intros i it Hi His. rewrite HI in Hi. destruct (K1 i it Hi His) as (m & md & E1 & E2 & E3 & E4).
      destruct (HN2 m md E2) as (_ & md' & F1 & F2 & _ & _ & F3 & _). exists m, md'. split_and!; congruence.
    + intros m md Hm Hmc. rewrite HI. destruct (HN' m md Hm) as [[-> ->]|[[-> ->]|(_ & _ & Hm')]]; [congruence| |by apply (K2 m)].
      by apply (K2 s sd).
    + intros x xd Hx Hxc. destruct (HN' x xd Hx) as [[-> ->]|[[-> ->]|(_ & Hne & Hx')]]; [|congruence|].
      * split; [done|]. simpl. split; [apply NoDup_singleton|]. intros d ->%list_elem_of_singleton.
        exists sd'. by rewrite HN, lookup_insert_ne, lookup_insert_eq.
      * destruct (K3 x xd Hx' Hxc) as (A & B & C). split_and!; [done|done|]. intros y Hy. destruct (C y Hy) as (yd & D & E & F).
        destruct (HN2 y yd D) as (_ & yd' & F1 & _ & _ & _ & F3 & F4). exists yd'. split_and!; [done| |congruence].
        destruct F4 as [[-> ->]|[_ ->]]; [congruence|done].
    + intros x xd y Hx Hxl. destruct (HN' x xd Hx) as [[-> ->]|[[-> ->]|(_ & Hne & Hx')]]; [done| |].
      * simpl in Hxl. injection Hxl as <-. exists cd. rewrite HN, lookup_insert_eq. split_and!; [done|done|]. simpl. set_solver.
      * destruct (K4 x xd y Hx' Hxl) as (yd & A & B & C). destruct (HN2 y yd A) as (_ & yd' & F1 & F2 & _ & _ & F3 & _).
        exists yd'. split_and!; congruence.
    + done.
    + intros m. rewrite HR, K6. split.
      * intros [->|(Hms & md & Hm & Hml)]; [exists cd; by rewrite HN, lookup_insert_eq|].
        destruct (HN2 m md Hm) as (_ & md' & F1 & _ & _ & _ & _ & [[? _]|[_ ->]]); [done|]. by exists md.
      * intros (md & Hm & Hml). destruct (HN' m md Hm) as [[-> ->]|[[-> ->]|(_ & Hne & Hm')]]; [by left|done|].
        right. split; [done|]. by exists md.
    + destruct K7 as [D1 D2 D3 D4 D5].
      assert (∀ f : knode → Z, msum f (knodes k') = f cd + (msum f (knodes k) - f sd + f sd')) as Hsum.
      { intros f. rewrite HN, msum_insert by by rewrite lookup_insert_ne. by rewrite (msum_update f _ s sd) by done. }
      destruct (chain_counts cd Hcc) as (Z1 & Z2 & Z3 & Z4). split; rewrite Hsum.
      * rewrite C1, D1, Z1. f_equal. assert (nshared sd' = nshared sd) as -> by done. lia.
      * rewrite C2, D2, Z2. f_equal. assert (nsharing sd' = nsharing sd) as -> by done. lia.
      * rewrite C3, D3, Z4, u64_add. f_equal. assert (nchain sd' = nchain sd) as -> by done. lia.
      * rewrite C4, D4, u64_add. f_equal. assert (ndup cd = 0) as -> by done. assert (ndup sd' = 1) as -> by done.
        assert (ndup sd = 0) as -> by (unfold ndup, is_stable_node_dup; by rewrite Hsl). lia.
      * rewrite C5, D5, Z3. assert (nitems sd' = nitems sd) as -> by done. lia.
    + by rewrite HI.
  - apply map_eq. intros i. rewrite !lookup_sharing, HI. destruct (kitems k !! i) as [it|] eqn:Hi; simpl; [|done].
    unfold node_of_kitem. destruct (stable_item it) eqn:His; [|done]. destruct (K1 i it Hi His) as (m & md & E1 & E2 & _).
    rewrite E1. simpl. destruct (HN2 m md E2) as (_ & md' & F1 & _ & _ & F2 & _). rewrite F1, E2. simpl. by rewrite F2.
Qed.

(** A chain of one duplicate gives it its place in the tree. *)
Lemma ksm_ok_collapse c cd d dd :
  ksm_ok r k → knodes k !! c = Some cd → is_stable_node_chain cd = true → kn_hlist cd = [d] → knodes k !! d = Some dd →
  kitems k' = kitems k → knodes k' = delete c (<[d := set_link InTree dd]> (knodes k)) →
  NoDup (inorder (root_stable_tree k')) →
  (∀ m, m ∈ inorder (root_stable_tree k') ↔ m = d ∨ (m ≠ c ∧ m ∈ inorder (root_stable_tree k))) →
  ksm_pages_shared (counters k') = ksm_pages_shared (counters k) →
  ksm_pages_sharing (counters k') = ksm_pages_sharing (counters k) →
  ksm_stable_node_chains (counters k') = u64 (ksm_stable_node_chains (counters k) + -1) →
  ksm_stable_node_dups (counters k') = u64 (ksm_stable_node_dups (counters k) + -1) →
  anon_vma_refs (counters k') = anon_vma_refs (counters k) →
  ksm_ok r k' ∧ sharing k' = sharing k.
Proof.
  intros Hk Hc Hcc Hl Hd HI HN Hnd' HR C1 C2 C3 C4 C5. pose proof Hk as [K1 K2 K3 K4 K5 K6 K7 K8].
  destruct (K3 c cd Hc Hcc) as (Hcl & _ & Hall). destruct (Hall d ltac:(rewrite Hl; set_solver)) as (dd0 & A & Hdl & Hdc).
  rewrite Hd in A. injection A as <-. assert (c ≠ d) as Hcd by congruence. set (dd' := set_link InTree dd) in *.
  assert (HN' : ∀ m md, knodes k' !! m = Some md → m ≠ c ∧ ((m = d ∧ md = dd') ∨ (m ≠ d ∧ knodes k !! m = Some md))).
  { rewrite HN. intros m md [Hmc [[<- <-]|[? Hm]]%lookup_insert_Some]%lookup_delete_Some; split; auto. }
  assert (HN2 : ∀ m md, m ≠ c → knodes k !! m = Some md → ∃ md', knodes k' !! m = Some md' ∧ kn_hlist md' = kn_hlist md ∧
    kn_kpfn md' = kn_kpfn md ∧ is_stable_node_chain md' = is_stable_node_chain md ∧ (m = d ∧ md' = dd' ∨ m ≠ d ∧ md' = md)).
  { intros m md Hmc Hm. rewrite HN, lookup_delete_ne by done. destruct (decide (m = d)) as [->|Hne].
    - rewrite lookup_insert_eq. rewrite Hd in Hm. injection Hm as <-. exists dd'. split_and!; auto.
    - rewrite lookup_insert_ne by done. exists md. split_and!; auto. }
  assert (Hdup : ∀ x xd, knodes k !! x = Some xd → kn_link xd = DupOf c → x = d).
  { intros x xd Hx Hxl. destruct (K4 x xd c Hx Hxl) as (cd1 & A & _ & B). rewrite Hc in A. injection A as <-. rewrite Hl in B. set_solver. }
  split.
  - split.
    + intros i it Hi His. rewrite HI in Hi. destruct (K1 i it Hi His) as (m & md & E1 & E2 & E3 & E4).
      destruct (HN2 m md ltac:(congruence) E2) as (md' & F1 & F2 & _ & F3 & _). exists m, md'. split_and!; congruence.
    + intros m md Hm Hmc. rewrite HI. destruct (HN' m md Hm) as [_ [[-> ->]|[_ Hm']]]; [by apply (K2 d dd)|by apply (K2 m)].
    + intros x xd Hx Hxc. destruct (HN' x xd Hx) as [Hne [[-> ->]|[_ Hx']]]; [change (is_stable_node_chain dd = true) in Hxc; congruence|].
      destruct (K3 x xd Hx' Hxc) as (A & B & C). split_and!; [done|done|]. intros y Hy. destruct (C y Hy) as (yd & D & E & F).
      exists yd. rewrite HN, lookup_delete_ne, lookup_insert_ne; [done|congruence..].
    + intros x xd y Hx Hxl. destruct (HN' x xd Hx) as [Hne [[-> ->]|[Hxd Hx']]]; [done|].
      destruct (K4 x xd y Hx' Hxl) as (yd & A & B & C). assert (y ≠ c) as Hyc by (intros ->; by apply Hxd, (Hdup x xd)).
      destruct (HN2 y yd Hyc A) as (yd' & F1 & F2 & _ & F3 & _). exists yd'. split_and!; congruence.
    + done.
    + intros m. rewrite HR, K6. split.
      * intros [->|(Hmc & md & Hm & Hml)]; [by exists dd'; rewrite HN, lookup_delete_ne, lookup_insert_eq|].
        destruct (HN2 m md Hmc Hm) as (md' & F1 & _ & _ & _ & [[_ ->]|[_ ->]]); [by exists dd'|by exists md].
      * intros (md & Hm & Hml). destruct (HN' m md Hm) as [Hne [[-> ->]|[_ Hm']]]; [by left|right]. split; [done|]. by exists md.
    + destruct K7 as [D1 D2 D3 D4 D5].
      assert (∀ f : knode → Z, msum f (knodes k') = msum f (knodes k) - f dd + f dd' - f cd) as Hsum.
      { intros f. rewrite HN, (msum_delete _ _ _ cd) by by rewrite lookup_insert_ne. by rewrite (msum_update f _ d dd) by done. }
      destruct (chain_counts cd Hcc) as (Z1 & Z2 & Z3 & Z4). split; rewrite Hsum.
      * rewrite C1, D1, Z1. f_equal. assert (nshared dd' = nshared dd) as -> by done. lia.
      * rewrite C2, D2, Z2. f_equal. assert (nsharing dd' = nsharing dd) as -> by done. lia.
      * rewrite C3, D3, Z4, u64_add. f_equal. assert (nchain dd' = nchain dd) as -> by done. lia.
      * rewrite C4, D4, u64_add. f_equal. assert (ndup cd = 0) as -> by (unfold ndup, is_stable_node_dup; by rewrite Hcl).
        assert (ndup dd' = 0) as -> by done. assert (ndup dd = 1) as -> by (unfold ndup, is_stable_node_dup; by rewrite Hdl). lia.
      * rewrite C5, D5, Z3. assert (nitems dd' = nitems dd) as -> by done. lia.
    + by rewrite HI.
  - apply map_eq. intros i. rewrite !lookup_sharing, HI. destruct (kitems k !! i) as [it|] eqn:Hi; simpl; [|done].
    unfold node_of_kitem. destruct (stable_item it) eqn:His; [|done]. destruct (K1 i it Hi His) as (m & md & E1 & E2 & E3 & _).
    rewrite E1. simpl. destruct (HN2 m md ltac:(congruence) E2) as (md' & F1 & _ & F2 & _). rewrite F1, E2. simpl. by rewrite F2.
Qed.

(** The duplicates of a chain in another order, and another time of pruning. *)
Lemma ksm_ok_reorder c cd L j :
  ksm_ok r k → knodes k !! c = Some cd → is_stable_node_chain cd = true → L ≡ₚ kn_hlist cd →
  kitems k' = kitems k → knodes k' = <[c := set_kpfn j (set_hlist (kn_len cd) L cd)]> (knodes k) →
  root_stable_tree k' = root_stable_tree k → counters k' = counters k →
  ksm_ok r k' ∧ sharing k' = sharing k.
Proof.
  intros Hk Hcd Hcc HL HI HN HR HC. pose proof Hk as [K1 K2 K3 K4 K5 K6 K7 K8].
  set (cd' := set_kpfn j (set_hlist (kn_len cd) L cd)) in *. assert (is_stable_node_chain cd' = true) as Hcc' by done.
  assert (HN2 : ∀ m md, knodes k !! m = Some md → ∃ md', knodes k' !! m = Some md' ∧ kn_link md' = kn_link md ∧
    is_stable_node_chain md' = is_stable_node_chain md ∧ kn_hlist md' ≡ₚ kn_hlist md ∧
    (m = c ∧ md' = cd' ∨ m ≠ c ∧ md' = md)).
  { intros m md Hm. rewrite HN. destruct (decide (m = c)) as [->|Hne].
    - rewrite lookup_insert_eq. rewrite Hcd in Hm. injection Hm as <-. exists cd'. split_and!; auto.
    - rewrite !lookup_insert_ne by done. exists md. split_and!; auto. }
  assert (HN' : ∀ m md, knodes k' !! m = Some md → ∃ md0, knodes k !! m = Some md0 ∧ kn_link md = kn_link md0 ∧
    is_stable_node_chain md = is_stable_node_chain md0 ∧ kn_hlist md ≡ₚ kn_hlist md0 ∧ (m = c ∧ md = cd' ∨ m ≠ c ∧ md = md0)).
  { rewrite HN. intros m md Hm. destruct (decide (m = c)) as [->|Hne].
    - rewrite lookup_insert_eq in Hm. injection Hm as <-. exists cd. split_and!; auto.
    - rewrite lookup_insert_ne in Hm by done. exists md. split_and!; auto. }
  split.
  - split.
    + intros i it Hi His. rewrite HI in Hi. destruct (K1 i it Hi His) as (m & md & E1 & E2 & E3 & E4).
      destruct (HN2 m md E2) as (md' & F1 & _ & F2 & F3 & _). exists m, md'. split_and!; [done|done|congruence|by rewrite F3].
    + intros m md Hm Hmc. rewrite HI. destruct (HN' m md Hm) as (md0 & E1 & E2 & E3 & _ & [[-> ->]|[_ ->]]); [congruence|by apply (K2 m)].
    + intros x xd Hx Hxc. destruct (HN' x xd Hx) as (xd0 & E1 & E2 & E3 & E4 & _).
      destruct (K3 x xd0 E1 ltac:(congruence)) as (A & B & C). split_and!; [congruence|by rewrite E4|]. intros y Hy. rewrite E4 in Hy.
      destruct (C y Hy) as (yd & D & E & F). destruct (HN2 y yd D) as (yd' & F1 & F2 & F3 & _). exists yd'. split_and!; congruence.
    + intros x xd y Hx Hxl. destruct (HN' x xd Hx) as (xd0 & E1 & E2 & _). destruct (K4 x xd0 y E1 ltac:(congruence)) as (yd & A & B & C).
      destruct (HN2 y yd A) as (yd' & F1 & _ & F2 & F3 & _). exists yd'. split_and!; [done|congruence|by rewrite F3].
    + by rewrite HR.
    + intros m. rewrite HR, K6. split.
      * intros (md & Hm & Hml). destruct (HN2 m md Hm) as (md' & F1 & F2 & _). exists md'. split; [done|congruence].
      * intros (md & Hm & Hml). destruct (HN' m md Hm) as (md0 & E1 & E2 & _). exists md0. split; [done|congruence].
    + rewrite HC, HN. destruct (chain_counts cd Hcc) as (Z1 & Z2 & Z3 & Z4). destruct (chain_counts cd' Hcc') as (Z1' & Z2' & Z3' & Z4').
      eapply counted_same; [done|exact Hcd|congruence..| |congruence]. done.
    + by rewrite HI.
  - apply map_eq. intros i. rewrite !lookup_sharing, HI. destruct (kitems k !! i) as [it|] eqn:Hi; simpl; [|done].
    unfold node_of_kitem. destruct (stable_item it) eqn:His; [|done]. destruct (K1 i it Hi His) as (m & md & E1 & E2 & E3 & _).
    rewrite E1. simpl. destruct (HN2 m md E2) as (md' & F1 & _ & _ & _ & [[-> _]|[_ ->]]); [congruence|]. by rewrite F1, E2.
Qed.
End arrive.
