(* ===== verification/HostMerge.v ===== *)
(** * HostMerge: replacing a page by a shared one

    [codes/mm/ksm.c]: [write_protect_page], [replace_page],
    [try_to_merge_one_page], [try_to_merge_with_ksm_page],
    [try_to_merge_two_pages] and [break_cow].  What runs under the page-table
    lock is one step; the rest of the machine runs between the steps. *)
From S2P Require Import Prelude Wire HashPair Growable Shadow Server HostMem HostTree.
Open Scope Z_scope.

(** ** [enum merge_fail_reason] *)
Definition No_mergeable_vma_found : nat := 0.
Definition Failed_to_lock_page : nat := 1.
Definition Pages_are_not_identical : nat := 2.
Definition Page_address_in_vma_failed : nat := 3.
Definition Page_mapcount_unequal : nat := 6.
Definition Page_is_shared : nat := 7.
Definition Not_an_anonymous_page : nat := 8.
Definition Failed_to_split_page : nat := 9.

Definition set_pte (k : addr_key) (e : pte) : M host unit := modify (with_mem (on_ptes (<[k := e]>))).

(** [pte_wrprotect(pte_mkclean(entry))] *)
Definition protect (e : pte) : pte := Pte (pte_pfn e) false false (pte_rest e).

Definition ENOMEM : Z := 12.

Section merge.
Context `{RbTree} `{Memcmp} `{MmFault}.

(** [split_huge_page]: all the pages of the compound become base pages. *)
Definition split_huge_page (page : Z) : M host bool :=
  fr ← get_frame page;
  if fr_splittable fr then
    modify (with_mem (on_frames (fmap (λ fr', if bool_decide (fr_head fr' = fr_head fr) then set_head None fr' else fr')))) ;;
    mret true
  else mret false.

(** The original entry, or nothing on [-EFAULT].  Clearing the entry and
    putting it back happens under the page-table lock. *)
Definition write_protect_page (mm : Z) (v : vma) (page : Z) : M host (option pte) :=
  fr ← get_frame page;
  match page_address_in_vma fr v with
  | None => count_fail Page_address_in_vma_failed ;; mret None
  | Some address =>
    halt_if (PageTransCompound fr) "BUG_ON" ;;
    h ← get;
    match ptes (h_mem h) !! (mm, address) with
    | None => mret None
    | Some entry =>
      if negb (pte_pfn entry =? page) then mret None else
      let anon_exclusive := fr_excl fr in
      if pte_write entry || pte_dirty entry || anon_exclusive || bool_decide (mm ∈ tlb_pending (h_mem h)) then
        let swapped := if fr_swapcache fr then 1 else 0 in
        if negb (fr_mapcount fr + 1 + swapped =? page_count fr) then
          count_fail Page_mapcount_unequal ;; mret None
        else if anon_exclusive && fr_pinned fr then
          count_fail Page_is_shared ;; mret None
        else
          upd_frame page (λ fr, (if pte_dirty entry then set_dirty true else id) (set_excl false fr)) ;;
          set_pte (mm, address) (protect entry) ;;
          mret (Some (protect entry))
      else mret (Some entry)
    end
  end.

Definition count_zero_page (mm : Z) : M host unit :=
  modify (with_hstats (λ st, MergeStats (fail_reason_cnts st) (u64 (ksm_zero_pages st + 1))
    (bump mm 1 (mm_zero_pages st)) (bump mm (-1) (anon_pages st)))).

(** A missing directory or table reads as an absent entry; [mk_pte] with the
    protection of a private area is read-only and clean. *)
Definition replace_page (mm : Z) (v : vma) (page kpage : Z) (orig_pte : pte) : M host bool :=
  fr ← get_frame page;
  match page_address_in_vma fr v with
  | None => mret false
  | Some addr =>
    h ← get;
    match ptes (h_mem h) !! (mm, addr) with
    | None => mret false
    | Some entry =>
      if negb (bool_decide (entry = orig_pte)) then mret false else
      newpte ← (if negb (kpage =? zero_pfn (h_mem h)) then
                  upd_frame kpage (add_mapcount 1) ;; mret (Pte kpage false false 0)
                else count_zero_page mm ;; mret (Pte kpage false true 0));
      set_pte (mm, addr) newpte ;;
      upd_frame page (λ fr, let fr' := add_mapcount (-1) fr in
        if page_mapped fr' then fr' else set_swapcache false fr') ;;
      mret true
    end
  end.

Definition pages_identical (page1 page2 : Z) : M host bool :=
  fr1 ← get_frame page1;
  fr2 ← get_frame page2;
  mret (memcmp (fr_content fr1) (fr_content fr2) =? 0).

(** From the write protection to the unlocking of the page. *)
Definition merge_locked (mm : Z) (v : vma) (page : Z) (kpage : option Z) : M host bool :=
  fr ← get_frame page;
  split ← (if PageTransCompound fr then split_huge_page page else mret true);
  if negb (split : bool) then count_fail Failed_to_split_page ;; mret false else
  orig_pte ← write_protect_page mm v page;
  interfere ;;
  match orig_pte, kpage with
  | None, _ => mret false
  | Some _, None =>
    upd_frame page (λ fr, set_dirty true (set_mapping (MapKsm None) fr)) ;; mret true
  | Some orig_pte, Some kpage =>
    same ← pages_identical page kpage;
    interfere ;;
    if (same : bool) then replace_page mm v page kpage orig_pte
    else count_fail Pages_are_not_identical ;; mret false
  end.

(** [true] is the code's 0. *)
Definition try_to_merge_one_page (mm : Z) (v : vma) (page : Z) (kpage : option Z) : M host bool :=
  if bool_decide (kpage = Some page) then mret true else
  fr ← get_frame page;
  if negb (PageAnon fr) then count_fail Not_an_anonymous_page ;; mret false else
  locked ← trylock_page page;
  if negb (locked : bool) then count_fail Failed_to_lock_page ;; mret false else
  interfere ;;
  r ← merge_locked mm v page kpage;
  unlock_page page ;;
  mret r.

Definition try_to_merge_with_ksm_page (rmap_item : loc) (page : Z) (kpage : option Z) : M host bool :=
  it ← get_kitem rmap_item;
  interfere ;;
  h ← get;
  match find_mergeable_vma (h_mem h) (ki_mm it) (ki_address it) with
  | None => count_fail No_mergeable_vma_found ;; mret false
  | Some v =>
    ok ← try_to_merge_one_page (ki_mm it) v page kpage;
    if negb (ok : bool) then mret false else
    remove_rmap_item_from_tree rmap_item ;;
    upd_kitem rmap_item (set_anon_vma (if vm_anon v is Some (a, _) then a else 0)) ;;
    count 0 0 0 1 ;;
    mret true
  end.

(** The loop of [break_ksm], over one address: 0 or [-ENOMEM]. *)
Fixpoint break_ksm (fuel : nat) (k : addr_key) : M host Z :=
  h ← get;
  if negb (maps_ksm (h_mem h) k) then mret 0 else
  match fuel with
  | O => halt "handle_mm_fault backs out for ever"
  | S fuel' =>
    let '(m, ret) := handle_mm_fault (h_mem h) k in
    modify (with_mem (λ _, m)) ;;
    match ret with
    | FAULT_DONE => break_ksm fuel' k
    | VM_FAULT_OOM => mret (- ENOMEM)
    | _ => mret 0
    end
  end.

Definition break_cow (rmap_item : loc) : M host unit :=
  it ← get_kitem rmap_item;
  count 0 0 0 (-1) ;;
  interfere ;;
  h ← get;
  match find_mergeable_vma (h_mem h) (ki_mm it) (ki_address it) with
  | None => mret tt
  | Some _ => _ ← break_ksm (S back_outs) (ki_mm it, page_of (ki_address it)); mret tt
  end.

Definition try_to_merge_two_pages (rmap_item : loc) (page : Z) (tree_rmap_item : loc) (tree_page : Z) : M host (option Z) :=
  ok ← try_to_merge_with_ksm_page rmap_item page None;
  if negb (ok : bool) then mret None else
  ok ← try_to_merge_with_ksm_page tree_rmap_item tree_page (Some page);
  if (ok : bool) then mret (Some page) else break_cow rmap_item ;; mret None.
End merge.
