(* ===== verification/HostApply.v ===== *)
(** * HostApply: applying the server's log to the host

    [codes/mm/ksm.c]: [apply_result], one definition per kind of event.
    [DEBUG_LOG] is compiled out ([DEBUG_PRINT_FLAG] is 0); [pfn_to_page] of a
    frame number never yields NULL. *)
From S2P Require Import Prelude Wire HashPair Growable Shadow Server HostMem HostTree HostMerge.
Open Scope Z_scope.

(** What became of one entry. *)
Inductive applied :=
| StableMerged | UnstableMerged
| SkippedMerge                       (* unstable_abort++ *)
| FailedMerge
| NodeDropped | ItemReset.

#[export] Instance applied_eq_dec : EqDecision applied.
Proof. solve_decision. Defined.

Record merge_cnts := MergeCnts { stable_merge_cnt : Z; unstable_merge_cnt : Z; unstable_abort : Z }.

Section apply.
Context `{RbTree} `{Memcmp} `{MmFault}.

(** [shadow_mm_lookup(get_shadow_mm(shadow_pt_list, mm_id), va)]; the address
    of the tree inside a NULL [shadow_mm] is not valid. *)
Definition lookup_shadow (shadow_pt_list : list shadow_mm) (mm_id va : Z) : M host (option loc) :=
  sm ← deref (get_shadow_mm shadow_pt_list mm_id) "shadow_mm";
  mret (shadow_mm_lookup sm va).

Definition apply_stable_merge (shadow_pt_list : list shadow_mm) (log_entry : ksm_event_log) : M host applied :=
  from_item ← lookup_shadow shadow_pt_list (sm_from_mm_id log_entry) (sm_from_va log_entry);
  fr ← get_frame (sm_kpfn log_entry);
  match page_stable_node fr with
  | None => mret SkippedMerge
  | Some stable_node =>
    nd ← get_knode stable_node;
    h ← get;
    halt_if (kn_len nd =? ksm_max_page_sharing (config h)) "Already saturated node" ;;
    r ← get_ksm_page stable_node GET_KSM_PAGE_NOLOCK;
    match r with
    | Got kpage =>
      from_item ← deref from_item "from_item";
      remove_rmap_item_from_tree from_item ;;
      it ← get_kitem from_item;
      page ← deref (ki_page it) "from_item->page";
      ok ← try_to_merge_with_ksm_page from_item page (Some kpage);
      res ← (if (ok : bool) then
               lock_page kpage ;;
               kfr ← get_frame kpage;
               node ← deref (page_stable_node kfr) "stable_node";
               stable_tree_append from_item node ;;
               unlock_page kpage ;;
               mret StableMerged
             else
               upd_kitem from_item (set_head_ptr (Some stable_node)) ;;
               report HOST_MERGE_ONE_FAILED log_entry ;;
               mret FailedMerge);
      put_page kpage ;;
      mret res
    | _ => halt "Failed to get ksm page in STABLE_MERGE"
    end
  end.

(** The pages were parts of one compound page. *)
Definition same_compound (page to_page : Z) : M host bool :=
  fr ← get_frame page;
  if negb (PageTransCompound fr) then mret false else
  tfr ← get_frame to_page;
  mret (bool_decide (fr_head fr = Some (default to_page (fr_head tfr)))).

Definition split_after_failure (page : Z) : M host unit :=
  locked ← trylock_page page;
  if (locked : bool) then _ ← split_huge_page page; unlock_page page else mret tt.

Definition apply_unstable_merge (shadow_pt_list : list shadow_mm) (log_entry : ksm_event_log) : M host applied :=
  h ← get;
  halt_if (ksm_use_zero_pages (config h)) "UNSTABLE_MERGE with zero pages is not supported" ;;
  from_item ← lookup_shadow shadow_pt_list (um_from_mm_id log_entry) (um_from_va log_entry);
  to_item ← lookup_shadow shadow_pt_list (um_to_mm_id log_entry) (um_to_va log_entry);
  from_item ← deref from_item "from_item";
  remove_rmap_item_from_tree from_item ;;
  to_item ← deref to_item "to_item";
  remove_rmap_item_from_tree to_item ;;
  it ← get_kitem from_item;
  page ← deref (ki_page it) "from_item->page";
  it' ← get_kitem to_item;
  to_page ← deref (ki_page it') "to_item->page";
  kpage ← try_to_merge_two_pages from_item page to_item to_page;
  split ← same_compound page to_page;
  match kpage with
  | Some kpage =>
    lock_page kpage ;;
    stable_node ← stable_tree_insert kpage;
    (if stable_node is Some n then stable_tree_append to_item n ;; stable_tree_append from_item n else mret tt) ;;
    unlock_page kpage ;;
    halt_if (bool_decide (stable_node = None)) "Failed to insert stable node in UNSTABLE_MERGE" ;;
    mret UnstableMerged
  | None =>
    whenM split (split_after_failure page) ;;
    report HOST_MERGE_TWO_FAILED log_entry ;;
    mret FailedMerge
  end.

Definition apply_stale_node (shadow_pt_list : list shadow_mm) (log_entry : ksm_event_log) : M host applied :=
  to_item ← lookup_shadow shadow_pt_list (st_last_mm_id log_entry) (st_last_va log_entry);
  halt_if (bool_decide (to_item = None)) "Failed to get to_entry in STALE_NODE" ;;
  to_item ← deref to_item "to_item";
  it ← get_kitem to_item;
  halt_if (bool_decide (ki_head it = None)) "Failed to get linked stable node in STALE_NODE" ;;
  stable_node ← deref (ki_head it) "stable_node";
  nd ← get_knode stable_node;
  halt_if (negb (kn_kpfn nd =? st_kpfn log_entry)) "KPfn mismatch in STALE_NODE" ;;
  r ← get_ksm_page stable_node GET_KSM_PAGE_LOCK;
  match r with
  | Got kpage =>
    fr ← get_frame kpage;
    halt_if (page_mapped fr) "Page is still mapped in STALE_STABLE_NODE" ;;
    upd_frame kpage (set_mapping (MapKsm None)) ;;
    remove_node_from_stable_tree stable_node ;;
    unlock_page kpage ;;
    put_page kpage ;;
    mret NodeDropped
  | _ => halt "Invalid page in stale stable node"
  end.

Definition apply_item_state_change (shadow_pt_list : list shadow_mm) (log_entry : ksm_event_log) : M host applied :=
  to_item ← lookup_shadow shadow_pt_list (sm_from_mm_id log_entry) (sm_from_va log_entry);
  halt_if (bool_decide (to_item = None)) "Failed to get to_entry in ITEM_STATE_CHANGE" ;;
  to_item ← deref to_item "to_item";
  it ← get_kitem to_item;
  halt_if (negb (has_flag STABLE_FLAG (ki_address it))) "Not a stable Item" ;;
  remove_rmap_item_from_tree to_item ;;
  mret ItemReset.

Definition apply_event (shadow_pt_list : list shadow_mm) (log_entry : ksm_event_log) : M host applied :=
  match log_type log_entry with
  | DPU_STABLE_MERGE => apply_stable_merge shadow_pt_list log_entry
  | DPU_UNSTABLE_MERGE => apply_unstable_merge shadow_pt_list log_entry
  | DPU_STALE_STABLE_NODE => apply_stale_node shadow_pt_list log_entry
  | DPU_ITEM_STATE_CHANGE => apply_item_state_change shadow_pt_list log_entry
  | _ => halt "Invalid merge type"
  end.

(** The [int] counters of the loop. *)
Definition count_applied (a : applied) (c : merge_cnts) : merge_cnts :=
  match a with
  | StableMerged => MergeCnts (s32 (stable_merge_cnt c + 1)) (unstable_merge_cnt c) (unstable_abort c)
  | UnstableMerged => MergeCnts (stable_merge_cnt c) (s32 (unstable_merge_cnt c + 1)) (unstable_abort c)
  | SkippedMerge => MergeCnts (stable_merge_cnt c) (unstable_merge_cnt c) (s32 (unstable_abort c + 1))
  | _ => c
  end.

(** The loop over the result table, whose entries the client received in
    order ([cond_resched] ends each round but the skipped ones). *)
Fixpoint apply_events (shadow_pt_list : list shadow_mm) (result : list ksm_event_log) : M host (list applied) :=
  match result with
  | [] => mret []
  | e :: result' =>
    a ← apply_event shadow_pt_list e;
    (if bool_decide (a = SkippedMerge) then mret tt else interfere) ;;
    rest ← apply_events shadow_pt_list result';
    mret (a :: rest)
  end.

Definition apply_result (shadow_pt_list : list shadow_mm) (result : list ksm_event_log) : M host merge_cnts :=
  modify (with_hstats (λ st, MergeStats (replicate 11 0) (ksm_zero_pages st) (mm_zero_pages st) (anon_pages st))) ;;
  applied ← apply_events shadow_pt_list result;
  mret (foldl (λ c a, count_applied a c) (MergeCnts 0 0 0) applied).
End apply.
