(* ===== verification/HostScan.v ===== *)
(** * HostScan: listing the pages of the processes

    [codes/mm/ksm.c]: [prepare_metadata], which walks the page tables of the
    processes and fills their shadow tables; the registration of the tables
    and of the error table (codes/mm/ksm_rdma.c); [destroy_metadata] and
    [free_shadow_mm]; and the offload branch of [ksm_do_scan], one iteration of
    the daemon.

    - The singly linked list of a process's items is a list of items; the
      cursor [ksm_scan.rmap_list], a pointer to a link of it, splits the list
      into the items before it and those after it.
    - Page tables are walked with the process's [mmap_lock] held, so its areas
      are read once; its entries are read one by one, and the rest of the
      machine runs between two of them.  [walk_page_range] visits the addresses
      of the areas in order (codes/mm/pagewalk.c), a special entry is one of the
      zero page, and [vm_normal_page] of any other is its page.
    - [slab] are the answers of [kmem_cache_zalloc]: memory is finite, and once
      they are used up it fails.
    - Other processes add and remove [mm_slot]s meanwhile; the model keeps the
      list as the daemon leaves it. *)
From S2P Require Import Prelude Wire HashPair Growable Shadow Scatter Server HostMem HostTree HostMerge HostApply.
Open Scope Z_scope.

(** ** State *)
Record mm_slot := MmSlot { slot_mm : Z; rmap_list : list loc }.

(** [struct ksm_scan]: [address] and the position in the slot's list. *)
Record ksm_scan := KsmScan { scan_address : Z; passed : list loc; ahead : list loc }.

(** The scatterlists of a registered table, its map and its descriptor. *)
Abbreviation registration := (list (list (list sg_entry)) * list (Z * Z) * shadow_pt_descriptor)%type.

Record scan_st := ScanSt {
  sc_host : host;
  scan : ksm_scan;
  mm_slots : list mm_slot;               (* the list of ksm_mm_head *)
  ksm_rmap_items : Z;
  mm_rmap_items : gmap Z Z;              (* mm->ksm_rmap_items *)
  slab : list bool;
  vm_mergeable_mms : gset Z;             (* MMF_VM_MERGEABLE *)
  shadow_pt_list : list shadow_mm;
  registered : list registration;
  error_sgts : list (list (list sg_entry)) }.

Definition with_host (f : host → host) (s : scan_st) : scan_st :=
  ScanSt (f (sc_host s)) (scan s) (mm_slots s) (ksm_rmap_items s) (mm_rmap_items s) (slab s) (vm_mergeable_mms s)
    (shadow_pt_list s) (registered s) (error_sgts s).
Definition with_scan (f : ksm_scan → ksm_scan) (s : scan_st) : scan_st :=
  ScanSt (sc_host s) (f (scan s)) (mm_slots s) (ksm_rmap_items s) (mm_rmap_items s) (slab s) (vm_mergeable_mms s)
    (shadow_pt_list s) (registered s) (error_sgts s).
Definition with_slots (l : list mm_slot) (s : scan_st) : scan_st :=
  ScanSt (sc_host s) (scan s) l (ksm_rmap_items s) (mm_rmap_items s) (slab s) (vm_mergeable_mms s)
    (shadow_pt_list s) (registered s) (error_sgts s).
Definition with_counts (n : Z) (c : gmap Z Z) (s : scan_st) : scan_st :=
  ScanSt (sc_host s) (scan s) (mm_slots s) n c (slab s) (vm_mergeable_mms s)
    (shadow_pt_list s) (registered s) (error_sgts s).
Definition with_slab (l : list bool) (s : scan_st) : scan_st :=
  ScanSt (sc_host s) (scan s) (mm_slots s) (ksm_rmap_items s) (mm_rmap_items s) l (vm_mergeable_mms s)
    (shadow_pt_list s) (registered s) (error_sgts s).
Definition with_mergeable (f : gset Z → gset Z) (s : scan_st) : scan_st :=
  ScanSt (sc_host s) (scan s) (mm_slots s) (ksm_rmap_items s) (mm_rmap_items s) (slab s) (f (vm_mergeable_mms s))
    (shadow_pt_list s) (registered s) (error_sgts s).
Definition with_shadows (l : list shadow_mm) (s : scan_st) : scan_st :=
  ScanSt (sc_host s) (scan s) (mm_slots s) (ksm_rmap_items s) (mm_rmap_items s) (slab s) (vm_mergeable_mms s)
    l (registered s) (error_sgts s).
Definition with_registered (r : list registration) (e : list (list (list sg_entry))) (s : scan_st) : scan_st :=
  ScanSt (sc_host s) (scan s) (mm_slots s) (ksm_rmap_items s) (mm_rmap_items s) (slab s) (vm_mergeable_mms s)
    (shadow_pt_list s) r e.

(** What runs on the host's state, and on its allocator. *)
Definition on_host {A} (m : M host A) : M scan_st A := λ s,
  match m (sc_host s) with
  | Ok (a, h) => Ok (a, with_host (λ _, h) s)
  | Halt w => Halt w
  | Fault w => Fault w
  end.
Definition on_kalloc {A} (m : M kalloc A) : M host A := λ h,
  match m (kallocs h) with
  | Ok (a, k) => Ok (a, with_errors (ksm_error_table h) k h)
  | Halt w => Halt w
  | Fault w => Fault w
  end.

Definition set_word (w : item_word) (it : kitem) : kitem :=
  KItem (ki_mm it) (ki_address it) w (ki_anon_vma it) (ki_head it).

(** ** Items *)
Definition alloc_rmap_item : M scan_st (option loc) :=
  s ← get;
  match slab s with
  | true :: slab' =>
    let i := fresh (dom (kitems (h_ksm (sc_host s)))) in
    modify (with_slab slab') ;;
    on_host (modify (with_ksm (on_items (<[i := KItem 0 0 (PageField None) 0 None]>)))) ;;
    modify (with_counts (u64 (ksm_rmap_items s + 1)) (mm_rmap_items s)) ;;
    mret (Some i)
  | false :: slab' => modify (with_slab slab') ;; mret None
  | [] => mret None
  end.

Definition free_rmap_item (i : loc) : M scan_st unit :=
  it ← on_host (get_kitem i);
  s ← get;
  modify (with_counts (u64 (ksm_rmap_items s - 1)) (bump (ki_mm it) (-1) (mm_rmap_items s))) ;;
  on_host (modify (with_ksm (on_items (delete i)))).

Section scan.
Context `{RbTree} `{Memcmp} `{MmFault}.

Fixpoint remove_trailing_rmap_items (l : list loc) : M scan_st unit :=
  match l with
  | [] => mret tt
  | i :: l' => on_host (remove_rmap_item_from_tree i) ;; free_rmap_item i ;; remove_trailing_rmap_items l'
  end.

(** The loop of [get_next_rmap_item]: the item of the address, if it is met,
    and what is left of the list. *)
Fixpoint skip_items (addr : Z) (l : list loc) : M scan_st (option loc * list loc) :=
  match l with
  | [] => mret (None, [])
  | i :: l' =>
    it ← on_host (get_kitem i);
    if page_of (ki_address it) =? addr then mret (Some i, l)
    else if addr <? ki_address it then mret (None, l)
    else on_host (remove_rmap_item_from_tree i) ;; free_rmap_item i ;; skip_items addr l'
  end.

Definition set_ahead (l : list loc) : M scan_st unit :=
  modify (with_scan (λ c, KsmScan (scan_address c) (passed c) l)).

Definition get_next_rmap_item (mm addr : Z) : M scan_st (option loc) :=
  s ← get;
  r ← skip_items addr (ahead (scan s));
  match r with
  | (Some i, l) => set_ahead l ;; mret (Some i)
  | (None, l) =>
    set_ahead l ;;
    new ← alloc_rmap_item;
    match new with
    | None => mret None
    | Some i =>
      s ← get;
      modify (with_counts (ksm_rmap_items s) (bump mm 1 (mm_rmap_items s))) ;;
      on_host (upd_kitem i (λ _, KItem mm addr (PageField None) 0 None)) ;;
      set_ahead (i :: l) ;;
      mret (Some i)
    end
  end.

(** ** The page walk *)
Definition anon_test_walk (v : vma) : bool := vm_mergeable v && bool_decide (vm_anon v ≠ None).

(** One entry; the result is the table with the page, if it is listed.  The
    result of the insertion is not tested. *)
Definition scan_pte_entry (mm addr : Z) (shadow : shadow_mm) : M scan_st shadow_mm :=
  s ← get;
  match ptes (h_mem (sc_host s)) !! (mm, addr) with
  | None => mret shadow
  | Some pte_val =>
    if pte_pfn pte_val =? zero_pfn (h_mem (sc_host s)) then mret shadow else
    let page := pte_pfn pte_val in
    on_host (HostMem.get_page page) ;;
    fr ← on_host (get_frame page);
    if PageAnon fr then
      modify (with_scan (λ c, KsmScan addr (passed c) (ahead c))) ;;
      r ← get_next_rmap_item mm addr;
      match r with
      | None => halt "Failed to get rmap item"
      | Some rmap_item =>
        modify (with_scan (λ c, KsmScan (scan_address c) (passed c ++ [rmap_item]) (tail (ahead c)))) ;;
        it ← on_host (get_kitem rmap_item);
        halt_if (negb (page_of (ki_address it) =? addr)) "Address mismatch" ;;
        on_host (upd_kitem rmap_item (set_word (PageField (Some page)))) ;;
        r ← on_host (on_kalloc (insert_entry_to_shadow_mm shadow addr page rmap_item));
        mret (snd r)
      end
    else on_host (put_page page) ;; mret shadow
  end.

Definition area_pages (v : vma) : list Z :=
  (λ n, vm_start v + Z.of_nat n * PAGE_SIZE) <$> seq 0 (Z.to_nat ((vm_end v - vm_start v) / PAGE_SIZE)).

(** The addresses [walk_page_range] visits. *)
Definition walked (m : mem) (mm : Z) : list Z :=
  mjoin (area_pages <$> filter (λ v, anon_test_walk v = true) (default [] (vmas m !! mm))).

Fixpoint walk_page_range (mm : Z) (addrs : list Z) (shadow : shadow_mm) : M scan_st shadow_mm :=
  match addrs with
  | [] => mret shadow
  | addr :: addrs' =>
    shadow' ← scan_pte_entry mm addr shadow;
    on_host interfere ;;
    walk_page_range mm addrs' shadow'
  end.

(** [owner mm] is the process id of [mm->owner]. *)
Context (owner : Z → option Z).

Definition create_shadow_mm (mm : Z) : M scan_st shadow_mm :=
  r ← on_host (on_kalloc (create_empty (default (-1) (owner mm))));
  match r with
  | None => halt "Failed to create shadow page table"
  | Some shadow_pt => s ← get; walk_page_range mm (walked (h_mem (sc_host s)) mm) shadow_pt
  end.

(** ** Releasing a table *)
Fixpoint free_entries (disconnected : bool) (curr_iteration : Z) (l : list (Z * loc)) : M host unit :=
  match l with
  | [] => mret tt
  | (_, entry) :: l' =>
    it ← get_kitem entry;
    match ki_page it with
    | None => mret tt
    | Some page =>
      fr ← get_frame page;
      (if PageKsm fr then mret tt else put_page page) ;;
      whenM disconnected (upd_kitem entry (set_word (ScanFields 0 (wrap_u 8 (curr_iteration - 1)) 0)))
    end ;;
    free_entries disconnected curr_iteration l'
  end.

Definition free_shadow_mm (disconnected : bool) (curr_iteration : Z) (sgts : list (list (list sg_entry))) (sm : shadow_mm) : M host unit :=
  free_entries disconnected curr_iteration (xa_order (page_xa sm)) ;;
  _ ← liftO (free_shadow_sgls sm sgts);
  mret tt.

(** ** [prepare_metadata] *)
Definition init_shadow_for_mm (mm : Z) : M scan_st bool :=
  s ← get;
  if ksm_test_exit (h_mem (sc_host s)) mm then mret false else
  shadow_mm ← create_shadow_mm mm;
  if tb_cnt (pt_map shadow_mm) =? 0 then on_host (free_shadow_mm false 0 [] shadow_mm) ;; mret false
  else s ← get; modify (with_shadows (shadow_mm :: shadow_pt_list s)) ;; mret true.

(** One slot: whether it stays in the list, and whether its table was filled. *)
Definition prepare_mm (slot : mm_slot) : M scan_st (option mm_slot * bool) :=
  let mm := slot_mm slot in
  modify (with_scan (λ _, KsmScan 0 [] (rmap_list slot))) ;;
  on_host interfere ;;
  ok ← init_shadow_for_mm mm;
  if (ok : bool) then
    s ← get; mret (Some (MmSlot mm (passed (scan s) ++ ahead (scan s))), true)
  else
    s ← get;
    (if ksm_test_exit (h_mem (sc_host s)) mm
     then modify (with_scan (λ c, KsmScan 0 [] (passed c ++ ahead c))) else mret tt) ;;
    s ← get;
    remove_trailing_rmap_items (ahead (scan s)) ;;
    set_ahead [] ;;
    s ← get;
    if scan_address (scan s) =? 0 then
      modify (with_mergeable (λ S, S ∖ {[ mm ]})) ;; mret (None, false)
    else mret (Some (MmSlot mm (passed (scan s))), false).

Fixpoint prepare_mms (slots : list mm_slot) : M scan_st (list mm_slot * bool) :=
  match slots with
  | [] => mret ([], false)
  | slot :: slots' =>
    r ← prepare_mm slot;
    rest ← prepare_mms slots';
    mret (option_list (fst r) ++ fst rest, snd r || snd rest)
  end.

(** Memory regions as the network card registers them. *)
Context (mr_of : list (list sg_entry) → desc_entry) (map_mr : list (Z * Z) → desc_entry).
Context (array_page : Z → Z) (et_mr_of : list (list sg_entry) → error_table_desc_entry).

Definition kernel_view (h : host) (i : loc) : option kernel_item :=
  (λ it, KernelItem (HostMem.ki_address it) (default 0 (HostMem.ki_page it))) <$> kitems (h_ksm h) !! i.

(** [pt_descs] has room for [MAX_MM_DESCS] tables, [desc_entries] for
    [MAX_PAGES_DESCS] chunks; neither bound stops the loop. *)
Fixpoint rdma_register_shadow_mms (pt_cnt : Z) (l : list shadow_mm) : M scan_st (list registration) :=
  match l with
  | [] => mret []
  | sm :: l' =>
    s ← get;
    (if MAX_MM_DESCS <=? pt_cnt then fault "pt_descs" else mret tt) ;;
    r ← liftO (register_shadow_mm (kernel_view (sc_host s)) mr_of map_mr sm);
    (if MAX_PAGES_DESCS <? Z.of_nat (length (fst (fst r))) then fault "desc_entries" else mret tt) ;;
    rest ← rdma_register_shadow_mms (pt_cnt + 1) l';
    mret (r :: rest)
  end.

Definition register_tables : M scan_st unit :=
  s ← get;
  regs ← rdma_register_shadow_mms 0 (shadow_pt_list s);
  tbl ← deref (ksm_error_table (sc_host s)) "ksm_error_table";
  let '(tbl', sgts, _) := rdma_register_error_table array_page et_mr_of tbl in
  on_host (modify (λ h, with_errors (Some tbl') (kallocs h) h)) ;;
  modify (with_registered regs sgts).

Definition prepare_metadata : M scan_st bool :=
  s ← get;
  r ← prepare_mms (mm_slots s);
  let '(slots, any_registered) := r in
  modify (with_slots slots) ;;
  (if any_registered : bool then register_tables else mret tt) ;;
  modify (with_scan (λ _, KsmScan 0 [] [])) ;;
  mret any_registered.

(** ** One iteration *)
Definition retire_error_table : M scan_st unit :=
  s ← get;
  tbl ← deref (ksm_error_table (sc_host s)) "ksm_error_table";
  _ ← liftO (rdma_unregister_error_table tbl (error_sgts s));
  tbl' ← liftO (clear_error_table tbl);
  on_host (modify (λ h, with_errors (Some tbl') (kallocs h) h)).

(** [destroy_metadata], that is [rdma_unregister_shadow_mms]. *)
Fixpoint destroy_metadata (disconnected : bool) (curr_iteration : Z) (l : list shadow_mm) (regs : list registration) : M host unit :=
  match l with
  | [] => mret tt
  | sm :: l' =>
    free_shadow_mm disconnected curr_iteration (from_option (λ r, fst (fst r)) [] (head regs)) sm ;;
    destroy_metadata disconnected curr_iteration l' (tail regs)
  end.

(** Without an answer the daemon goes on alone, and looks at every page. *)
Definition disconnect : M host unit :=
  modify (with_ksm (on_offload (λ _, false))) ;;
  modify (with_ksm (on_smart_scan (λ _, false))).

(** [iter_cnt++] *)
Definition next_iteration : M host unit := modify (with_ksm (on_iter_cnt (λ n, s32 (n + 1)))).

(** The offload branch of [ksm_do_scan].  [serve] is the server: what it sends
    back for the tables and the error table it reads, if it is alive.  The
    result is whether pages were offered and the server answered. *)
Definition ksm_do_scan (serve : list shadow_mm → option error_table → option (list ksm_event_log)) : M scan_st bool :=
  any ← prepare_metadata;
  if negb (any : bool) then on_host next_iteration ;; mret false else
  s ← get;
  on_host interfere ;;
  let result := serve (shadow_pt_list s) (ksm_error_table (sc_host s)) in
  retire_error_table ;;
  (match result with
   | Some log => _ ← on_host (apply_result (shadow_pt_list s) log); mret tt
   | None => on_host disconnect
   end) ;;
  s ← get;
  on_host (destroy_metadata (bool_decide (result = None)) (iter_cnt (h_ksm (sc_host s))) (shadow_pt_list s) (registered s)) ;;
  modify (with_shadows []) ;;
  modify (with_registered [] []) ;;
  on_host next_iteration ;;
  mret (bool_decide (result ≠ None)).
End scan.
