(* ===== verification/HostLocal.v ===== *)
(** * HostLocal: comparing pages without a server

    [codes/mm/ksm.c], the path taken once the server is gone:
    [stable_tree_search] with the pruning of chains,
    [unstable_tree_search_insert], [cmp_and_merge_page] and the smart scan's
    [should_skip_rmap_item].

    - No page is ever migrated and there is one tree, so the branches for
      [migrate_nodes] and for other NUMA nodes are not taken.
    - [do_memcmp_pages] is [memcmp], [do_calc_checksum] the argument
      [calc_checksum].
    - [chains_prune] is [msecs_to_jiffies] of
      [ksm_stable_node_chains_prune_millisecs], [page_struct] the address of a
      [struct page]. *)
From S2P Require Import Prelude Wire HashPair Growable Shadow Server HostMem HostTree HostMerge HostApply HostScan.
Open Scope Z_scope.

#[export] Instance gotten_eq_dec : EqDecision gotten.
Proof. solve_decision. Defined.

(** ** The word an item shares between its uses

    [oldchecksum] is the low half of the word, [age] and [remaining_skips] are
    the next two bytes. *)
Section word.
Context (page_struct : Z → Z).

Definition scan_word (it : kitem) : Z * Z * Z :=
  match ki_word it with
  | ScanFields c a s => (c, a, s)
  | PageField None => (0, 0, 0)
  | PageField (Some p) =>
    (wrap_u 32 (page_struct p), wrap_u 8 (Z.shiftr (page_struct p) 32), wrap_u 8 (Z.shiftr (page_struct p) 40))
  end.

Definition oldchecksum (it : kitem) : Z := fst (fst (scan_word it)).
Definition age (it : kitem) : Z := snd (fst (scan_word it)).
Definition remaining_skips (it : kitem) : Z := snd (scan_word it).

Definition set_oldchecksum (c : Z) (it : kitem) : kitem := set_word (ScanFields c (age it) (remaining_skips it)) it.
Definition set_age (a : Z) (it : kitem) : kitem := set_word (ScanFields (oldchecksum it) a (remaining_skips it)) it.
Definition set_remaining_skips (n : Z) (it : kitem) : kitem := set_word (ScanFields (oldchecksum it) (age it) n) it.
End word.

(** ** Pages of items *)

(** [follow_page] with [FOLL_GET]: the page of a present entry, with a
    reference. *)
Definition follow_page (mm addr : Z) : M host (option Z) :=
  h ← get;
  match ptes (h_mem h) !! (mm, page_of addr) with
  | None => mret None
  | Some e => HostMem.get_page (pte_pfn e) ;; mret (Some (pte_pfn e))
  end.

Definition get_mergeable_page (rmap_item : loc) : M host (option Z) :=
  it ← get_kitem rmap_item;
  interfere ;;
  h ← get;
  match find_mergeable_vma (h_mem h) (ki_mm it) (ki_address it) with
  | None => mret None
  | Some _ =>
    page ← follow_page (ki_mm it) (ki_address it);
    match page with
    | None => mret None
    | Some page =>
      fr ← get_frame page;
      if PageAnon fr then mret (Some page) else put_page page ;; mret None
    end
  end.

Section local.
Context `{RbTree} `{Memcmp} `{MmFault}.

(** ** Chains, with pruning *)
Section prune.
Context (chains_prune : Z).

(** The walk of [stable_node_dup] over all the duplicates: the one with most
    items among those with room, its page and its length then, and the number
    of duplicates left. *)
Fixpoint best_dup (dups : list loc) (found : option (loc * Z * Z)) (nr : Z) : M host (option (loc * Z * Z) * Z) :=
  match dups with
  | [] => mret (found, nr)
  | dup :: dups' =>
    r ← get_ksm_page dup GET_KSM_PAGE_NOLOCK;
    match r with
    | Got page =>
      nd ← get_knode dup;
      h ← get;
      let better := match found with Some (_, _, found_rmap_hlist_len) => found_rmap_hlist_len <? kn_len nd | None => true end in
      if is_page_sharing_candidate_at (ksm_max_page_sharing (config h)) nd 0 && better then
        match found with Some (_, tree_page, _) => put_page tree_page | None => mret tt end ;;
        best_dup dups' (Some (dup, page, kn_len nd)) (nr + 1)
      else put_page page ;; best_dup dups' found (nr + 1)
    | _ => best_dup dups' found nr
    end
  end.

(** [time_before] *)
Definition time_before (a b : Z) : bool := wrap_s 64 (a - b) <? 0.

(** The chain, of which one duplicate is left, gives it its place in the tree. *)
Definition collapse_chain (stable_node found : loc) : M host unit :=
  nd ← get_knode stable_node;
  halt_if (1 <? Z.of_nat (length (kn_hlist nd))) "BUG_ON" ;;
  modify (with_ksm (on_root (rb_replace_node stable_node found))) ;;
  upd_knode found (set_link InTree) ;;
  free_stable_node stable_node ;;
  count_nodes (-1) (-1).

Definition dup_to_head (stable_node found : loc) : M host unit :=
  nd ← get_knode stable_node;
  fnd ← get_knode found;
  h ← get;
  whenM (negb (bool_decide (head (kn_hlist nd) = Some found)) &&
         is_page_sharing_candidate_at (ksm_max_page_sharing (config h)) fnd 1)
    (upd_knode stable_node (λ nd, set_hlist (kn_len nd) (found :: filter (λ y, y ≠ found) (kn_hlist nd)) nd)).

(** [stable_node_dup] with [prune_stale_stable_nodes]: the duplicate and its
    page, and what became of [*_stable_node]. *)
Definition stable_node_dup_prune (stable_node : loc) : M host (option (loc * Z) * loc) :=
  nd ← get_knode stable_node;
  h ← get;
  let now := jiffies (config h) (length (env h)) in
  if time_before now (u64 (kn_kpfn nd + chains_prune)) then
    r ← stable_node_dup stable_node; mret (r, stable_node)
  else
    upd_knode stable_node (set_kpfn now) ;;
    r ← best_dup (kn_hlist nd) None 0;
    match r with
    | (None, _) => mret (None, stable_node)
    | (Some (found, page, _), nr) =>
      if nr =? 1 then collapse_chain stable_node found ;; mret (Some (found, page), found)
      else dup_to_head stable_node found ;; mret (Some (found, page), stable_node)
    end.

(** [chain_prune]: [*s_n_d], the page, and [*s_n]. *)
Definition chain_prune (s_n : loc) : M host (option loc * option Z * loc) :=
  nd ← get_knode s_n;
  if is_stable_node_chain nd then
    r ← stable_node_dup_prune s_n;
    mret (fst <$> fst r, snd <$> fst r, snd r)
  else
    h ← get;
    if is_page_sharing_candidate_at (ksm_max_page_sharing (config h)) nd 0 then
      r ← get_ksm_page s_n GET_KSM_PAGE_NOLOCK;
      mret (Some s_n, match r with Got page => Some page | _ => None end, s_n)
    else mret (None, None, s_n).

(** ** [stable_tree_search] *)

(** The page a tree node is compared through, and the duplicate with room. *)
Definition pruned_page_of (stable_node : loc) : M host (option loc * option Z) :=
  c ← chain_prune stable_node;
  let '(dup, tree_page, s_n) := c in
  match dup with
  | Some _ => mret (dup, tree_page)
  | None =>
    any ← stable_node_dup_any s_n;
    match any with
    | None => mret (None, None)
    | Some stable_node_any =>
      r ← get_ksm_page stable_node_any GET_KSM_PAGE_NOLOCK;
      mret (None, match r with Got page => Some page | _ => None end)
    end
  end.

(** At a node of the same content. *)
Definition same_content (dup : option loc) : M host (option gotten) :=
  match dup with
  | None => mret (Some GotNull)
  | Some stable_node_dup =>
    r ← get_ksm_page stable_node_dup GET_KSM_PAGE_TRYLOCK;
    match r with
    | GotBusy => mret (Some GotBusy)
    | GotNull => mret None
    | Got tree_page => unlock_page tree_page ;; mret (Some (Got tree_page))
    end
  end.

(** One descent; [None] is [goto again].  A collapsed chain leaves the subtrees
    of its node where they are; any other change of the tree leads to [again]. *)
Fixpoint search_down (page : Z) (rest : rb_tree) : M host (option gotten) :=
  match rest with
  | RbLeaf => mret (Some GotNull)
  | RbNode l x r =>
    c ← pruned_page_of x;
    match c with
    | (_, None) => mret None
    | (dup, Some tree_page) =>
      fr ← get_frame page;
      tfr ← get_frame tree_page;
      let ret := memcmp (fr_content fr) (fr_content tfr) in
      put_page tree_page ;;
      if ret <? 0 then search_down page l
      else if 0 <? ret then search_down page r
      else same_content dup
    end
  end.

Fixpoint search_stable (fuel : nat) (page : Z) : M host (option gotten) :=
  match fuel with
  | O => mret None
  | S fuel' =>
    h ← get;
    r ← search_down page (root_stable_tree (h_ksm h));
    match r with
    | None => search_stable fuel' page
    | Some g => mret (Some g)
    end
  end.

(** The page found, with a reference; NULL; or [ERR_PTR(-EBUSY)]. *)
Definition stable_tree_search (page : Z) : M host gotten :=
  fr ← get_frame page;
  match page_stable_node fr with
  | Some _ => HostMem.get_page page ;; mret (Got page)
  | None =>
    h ← get;
    r ← search_stable (S (size (knodes (h_ksm h)))) page;
    match r with
    | Some g => mret g
    | None => halt "again: out of fuel"
    end
  end.
End prune.

(** ** The unstable tree *)

(** How a descent ends: at a NULL pointer, at an item with the same content and
    its page, or without a result. *)
Inductive unstable_descent := LinkItemAt (path : list bool) | SamePage (tree_rmap_item : loc) (tree_page : Z) | NoUse.

Fixpoint unstable_down (page : Z) (rest : rb_tree) (path : list bool) : M host unstable_descent :=
  match rest with
  | RbLeaf => mret (LinkItemAt path)
  | RbNode l x r =>
    tree_page ← get_mergeable_page x;
    match tree_page with
    | None => mret NoUse
    | Some tree_page =>
      if page =? tree_page then put_page tree_page ;; mret NoUse else
      fr ← get_frame page;
      tfr ← get_frame tree_page;
      let ret := memcmp (fr_content fr) (fr_content tfr) in
      if ret <? 0 then put_page tree_page ;; unstable_down page l (path ++ [true])
      else if 0 <? ret then put_page tree_page ;; unstable_down page r (path ++ [false])
      else mret (SamePage x tree_page)
    end
  end.

(** [address |= UNSTABLE_FLAG | (seqnr & SEQNR_MASK)]; the link of the tree
    lies over [head]. *)
Definition mark_unstable (seqnr : Z) (it : kitem) : kitem :=
  set_head_ptr None (set_address (Z.lor (Z.lor (ki_address it) UNSTABLE_FLAG) (Z.land seqnr SEQNR_MASK)) it).

Definition link_unstable (rmap_item : loc) (path : list bool) : M host unit :=
  h ← get;
  upd_kitem rmap_item (mark_unstable (scan_seqnr (h_ksm h))) ;;
  modify (with_ksm (on_unstable (λ t, rb_insert_color (rb_link_node rmap_item path t)))) ;;
  count 0 0 1 0.

Definition unstable_tree_search_insert (rmap_item : loc) (page : Z) : M host (option (loc * Z)) :=
  h ← get;
  d ← unstable_down page (root_unstable_tree (h_ksm h)) [];
  match d with
  | LinkItemAt path => link_unstable rmap_item path ;; mret None
  | SamePage tree_rmap_item tree_page => mret (Some (tree_rmap_item, tree_page))
  | NoUse => mret None
  end.

(** ** [cmp_and_merge_page] *)
Context (chains_prune : Z) (page_struct : Z → Z) (calc_checksum : page → Z) (zero_checksum : Z).

(** A page was found in the stable tree. *)
Definition merge_with_kpage (rmap_item : loc) (page kpage : Z) : M host unit :=
  ok ← try_to_merge_with_ksm_page rmap_item page (Some kpage);
  (if (ok : bool) then
     lock_page kpage ;;
     kfr ← get_frame kpage;
     stable_node ← deref (page_stable_node kfr) "stable_node";
     stable_tree_append rmap_item stable_node ;;
     unlock_page kpage
   else mret tt) ;;
  put_page kpage.

(** Whether the page was replaced by the zero page, or its area is gone. *)
Definition try_zero_page (rmap_item : loc) (page checksum : Z) : M host bool :=
  h ← get;
  if ksm_use_zero_pages (config h) && (checksum =? zero_checksum) then
    it ← get_kitem rmap_item;
    interfere ;;
    h ← get;
    match find_mergeable_vma (h_mem h) (ki_mm it) (ki_address it) with
    | Some v => try_to_merge_one_page (ki_mm it) v page (Some (zero_pfn (h_mem h)))
    | None => mret true
    end
  else mret false.

(** The merged page gets its node; without one both copies are broken. *)
Definition insert_merged (rmap_item tree_rmap_item : loc) (kpage : Z) : M host unit :=
  lock_page kpage ;;
  stable_node ← stable_tree_insert kpage;
  (if stable_node is Some n then stable_tree_append tree_rmap_item n ;; stable_tree_append rmap_item n else mret tt) ;;
  unlock_page kpage ;;
  (if stable_node is Some _ then mret tt else break_cow tree_rmap_item ;; break_cow rmap_item).

(** An item of the unstable tree was found. *)
Definition merge_with_item (rmap_item : loc) (page : Z) (tree_rmap_item : loc) (tree_page : Z) : M host unit :=
  kpage ← try_to_merge_two_pages rmap_item page tree_rmap_item tree_page;
  split ← same_compound page tree_page;
  put_page tree_page ;;
  match kpage with
  | Some kpage => insert_merged rmap_item tree_rmap_item kpage
  | None => whenM split (split_after_failure page)
  end.

(** Nothing was found in the stable tree. *)
Definition merge_unstable (rmap_item : loc) (page : Z) : M host unit :=
  fr ← get_frame page;
  let checksum := calc_checksum (fr_content fr) in
  it ← get_kitem rmap_item;
  if negb (oldchecksum page_struct it =? checksum) then upd_kitem rmap_item (set_oldchecksum page_struct checksum) else
  done ← try_zero_page rmap_item page checksum;
  if (done : bool) then mret tt else
  r ← unstable_tree_search_insert rmap_item page;
  match r with
  | Some (tree_rmap_item, tree_page) => merge_with_item rmap_item page tree_rmap_item tree_page
  | None => mret tt
  end.

(** [max_page_sharing_bypass] only silences a warning of [stable_tree_append]. *)
Definition cmp_and_merge_page (page : Z) (rmap_item : loc) : M host unit :=
  it ← get_kitem rmap_item;
  fr ← get_frame page;
  let stable_node := page_stable_node fr in
  if bool_decide (is_Some stable_node ∧ ki_head it = stable_node) then mret tt else
  match stable_node with Some n => _ ← get_knode n; mret tt | None => mret tt end ;;
  kpage ← stable_tree_search chains_prune page;
  it ← get_kitem rmap_item;
  if bool_decide (kpage = Got page ∧ ki_head it = stable_node) then put_page page else
  remove_rmap_item_from_tree rmap_item ;;
  match kpage with
  | GotBusy => mret tt
  | Got kpage => merge_with_kpage rmap_item page kpage
  | GotNull => merge_unstable rmap_item page
  end.

(** ** The smart scan *)
Definition skip_age (age : Z) : Z :=
  if age <=? 3 then 1 else if age <=? 5 then 2 else if age <=? 8 then 4 else 8.

Definition U8_MAX : Z := 255.

Definition should_skip_rmap_item (page : Z) (rmap_item : loc) : M host bool :=
  h ← get;
  if negb (ksm_smart_scan (h_ksm h)) then mret false else
  fr ← get_frame page;
  if PageKsm fr then mret false else
  it ← get_kitem rmap_item;
  let age := age page_struct it in
  whenM (negb (age =? U8_MAX)) (upd_kitem rmap_item (set_age page_struct (age + 1))) ;;
  if age <? 3 then mret false else
  it ← get_kitem rmap_item;
  if remaining_skips page_struct it =? 0 then
    upd_kitem rmap_item (set_remaining_skips page_struct (skip_age age)) ;; mret false
  else
    upd_kitem rmap_item (set_remaining_skips page_struct (remaining_skips page_struct it - 1)) ;;
    remove_rmap_item_from_tree rmap_item ;;
    mret true.
End local.
