(* ===== verification/HostDaemon.v ===== *)
(** * HostDaemon: the processes of the daemon

    [codes/mm/ksm.c]: how processes come to the daemon's list and leave it
    ([ksm_madvise], [__ksm_enter], [__ksm_exit]), the loop of
    [ksm_scan_thread], and the unmerging of everything ([run_store] with 2:
    [unmerge_and_remove_all_rmap_items], [remove_all_stable_nodes]).

    - Between two iterations [ksm_scan.mm_slot] is the head of the list, so
      [__ksm_enter] adds at the end and [__ksm_exit] moves to the front.
    - The hash table of the slots finds the slot of a process; the list holds
      each once.
    - [signals] are the answers of [signal_pending], [compatible] is
      [vma_ksm_compatible], [allocated] whether [mm_slot_alloc] succeeds. *)
From S2P Require Import Prelude Wire HashPair Growable Shadow Scatter Server HostMem HostTree HostMerge HostApply HostScan.
Open Scope Z_scope.

Definition ERESTARTSYS : Z := 512.
Definition EBUSY : Z := 16.
Definition EINVAL : Z := 22.

(** ** [ksm_run] *)
Definition KSM_RUN_STOP : Z := 0.
Definition KSM_RUN_MERGE : Z := 1.
Definition KSM_RUN_UNMERGE : Z := 2.

(** ** Coming and going *)
Definition __ksm_enter (allocated : bool) (mm : Z) : M scan_st Z :=
  if negb allocated then mret (- ENOMEM) else
  s ← get;
  modify (with_slots (mm_slots s ++ [MmSlot mm []])) ;;
  modify (with_mergeable (λ S, {[ mm ]} ∪ S)) ;;
  mret 0.

Definition mm_slot_lookup (slots : list mm_slot) (mm : Z) : option mm_slot :=
  snd <$> list_find (λ sl, slot_mm sl = mm) slots.

(** [list_del] and [hash_del]. *)
Definition del_slot (mm : Z) (slots : list mm_slot) : list mm_slot := filter (λ sl, slot_mm sl ≠ mm) slots.

Definition __ksm_exit (mm : Z) : M scan_st unit :=
  s ← get;
  match mm_slot_lookup (mm_slots s) mm with
  | None => mret tt
  | Some slot =>
    match rmap_list slot with
    | [] =>
      modify (with_slots (del_slot mm (mm_slots s))) ;;
      modify (with_mergeable (λ S, S ∖ {[ mm ]}))
    | _ => modify (with_slots (slot :: del_slot mm (mm_slots s)))
    end
  end.

Section daemon.
Context `{RbTree} `{Memcmp} `{MmFault}.

(** ** Unmerging *)
Fixpoint unmerge_ksm_pages (mm : Z) (addrs : list Z) (signals : list bool) : M host Z :=
  match addrs with
  | [] => mret 0
  | addr :: addrs' =>
    h ← get;
    if ksm_test_exit (h_mem h) mm then mret 0 else
    err ← (if default false (head signals) then mret (- ERESTARTSYS) else break_ksm (S back_outs) (mm, addr));
    if negb (err =? 0) then mret err else
    interfere ;;
    unmerge_ksm_pages mm addrs' (tail signals)
  end.

(** The pages of [start, end). *)
Definition range_pages (s e : Z) : list Z :=
  (λ n, s + Z.of_nat n * PAGE_SIZE) <$> seq 0 (Z.to_nat ((e - s + PAGE_SIZE - 1) / PAGE_SIZE)).

Inductive advice := MADV_MERGEABLE | MADV_UNMERGEABLE.

(** The advice on the area [v] of [mm]: the error, and [VM_MERGEABLE] of
    [*vm_flags]. *)
Definition ksm_madvise (compatible allocated : bool) (signals : list bool) (mm : Z) (v : vma) (s e : Z) (a : advice) (flag : bool)
  : M scan_st (Z * bool) :=
  match a with
  | MADV_MERGEABLE =>
    if vm_mergeable v then mret (0, flag) else
    if negb compatible then mret (0, flag) else
    st ← get;
    err ← (if decide (mm ∈ vm_mergeable_mms st) then mret 0 else __ksm_enter allocated mm);
    mret (if negb (err =? 0) then (err, flag) else (0, true))
  | MADV_UNMERGEABLE =>
    if negb flag then mret (0, flag) else
    err ← (if bool_decide (vm_anon v ≠ None) then on_host (unmerge_ksm_pages mm (range_pages s e) signals) else mret 0);
    mret (if negb (err =? 0) then (err, flag) else (0, false))
  end.

(** ** Dissolving the stable tree *)
Definition remove_stable_node (stable_node : loc) : M host Z :=
  r ← get_ksm_page stable_node GET_KSM_PAGE_LOCK;
  match r with
  | Got page =>
    fr ← get_frame page;
    err ← (if page_mapped fr then mret (- EBUSY) else
             upd_frame page (set_mapping (MapKsm None)) ;;
             remove_node_from_stable_tree stable_node ;;
             mret 0);
    unlock_page page ;;
    put_page page ;;
    mret err
  | _ => mret 0
  end.

(** Whether a duplicate could not be removed. *)
Fixpoint remove_dups (dups : list loc) : M host bool :=
  match dups with
  | [] => mret false
  | dup :: dups' =>
    err ← remove_stable_node dup;
    if negb (err =? 0) then mret true else remove_dups dups'
  end.

Definition remove_stable_node_chain (stable_node : loc) : M host bool :=
  nd ← get_knode stable_node;
  if negb (is_stable_node_chain nd) then
    err ← remove_stable_node stable_node;
    mret (negb (err =? 0))
  else
    busy ← remove_dups (kn_hlist nd);
    if (busy : bool) then mret true else
    nd ← get_knode stable_node;
    halt_if (negb (bool_decide (kn_hlist nd = []))) "BUG_ON" ;;
    free_stable_node_chain stable_node ;;
    mret false.

(** The node at the root of the tree, until there is none or one is busy.
    Every round removes a node; [None] is out of fuel. *)
Fixpoint remove_all_stable_nodes (fuel : nat) : M host (option Z) :=
  h ← get;
  match root_stable_tree (h_ksm h) with
  | RbLeaf => mret (Some 0)
  | RbNode _ stable_node _ =>
    match fuel with
    | O => mret None
    | S fuel' =>
      busy ← remove_stable_node_chain stable_node;
      if (busy : bool) then mret (Some (- EBUSY)) else
      interfere ;;
      remove_all_stable_nodes fuel'
    end
  end.

(** ** [unmerge_and_remove_all_rmap_items] *)
Fixpoint unmerge_areas (mm : Z) (areas : list vma) (signals : list bool) : M host Z :=
  match areas with
  | [] => mret 0
  | v :: areas' =>
    if negb (anon_test_walk v) then unmerge_areas mm areas' signals else
    let addrs := range_pages (vm_start v) (vm_end v) in
    err ← unmerge_ksm_pages mm addrs signals;
    if negb (err =? 0) then mret err else unmerge_areas mm areas' (drop (length addrs) signals)
  end.

(** One slot: what becomes of it, or the error. *)
Definition unmerge_mm (signals : list bool) (slot : mm_slot) : M scan_st (Z + option mm_slot) :=
  let mm := slot_mm slot in
  s ← get;
  let m := h_mem (sc_host s) in
  err ← (if ksm_test_exit m mm then mret 0
         else on_host (unmerge_areas mm (default [] (vmas m !! mm)) signals));
  if negb (err =? 0) then mret (inl err) else
  remove_trailing_rmap_items (rmap_list slot) ;;
  s ← get;
  if ksm_test_exit (h_mem (sc_host s)) mm then
    modify (with_mergeable (λ S, S ∖ {[ mm ]})) ;;
    mret (inr None)
  else mret (inr (Some (MmSlot mm []))).

Fixpoint unmerge_mms (signals : list (list bool)) (slots : list mm_slot) : M scan_st (Z * list mm_slot) :=
  match slots with
  | [] => mret (0, [])
  | slot :: slots' =>
    r ← unmerge_mm (default [] (head signals)) slot;
    match r with
    | inl err => mret (err, slot :: slots')
    | inr kept =>
      on_host interfere ;;
      rest ← unmerge_mms (tail signals) slots';
      mret (fst rest, option_list kept ++ snd rest)
    end
  end.

Definition reset_seqnr (h : host) : host :=
  with_ksm (on_seqnr (λ _, 0)) h.

Definition unmerge_and_remove_all_rmap_items (signals : list (list bool)) : M scan_st Z :=
  s ← get;
  r ← unmerge_mms signals (mm_slots s);
  modify (with_slots (snd r)) ;;
  if negb (fst r =? 0) then mret (fst r) else
  s ← get;
  _ ← on_host (remove_all_stable_nodes (size (knodes (h_ksm (sc_host s)))));
  on_host (modify reset_seqnr) ;;
  mret 0.

(** Writing [flags] to [run]: [ksm_run] and the result. *)
Definition run_store (signals : list (list bool)) (ksm_run flags : Z) : M scan_st (Z * Z) :=
  if KSM_RUN_UNMERGE <? flags then mret (ksm_run, - EINVAL) else
  if ksm_run =? flags then mret (ksm_run, 0) else
  if Z.land flags KSM_RUN_UNMERGE =? 0 then mret (flags, 0) else
  err ← unmerge_and_remove_all_rmap_items signals;
  mret (if err =? 0 then (flags, 0) else (KSM_RUN_STOP, err)).

(** ** The thread *)
Definition ksmd_should_run (ksm_run : Z) (s : scan_st) : bool :=
  negb (Z.land ksm_run KSM_RUN_MERGE =? 0) && negb (bool_decide (mm_slots s = [])).
End daemon.
