(* ===== verification/LocalScan.v ===== *)
(** * LocalScan: the daemon's own scan

    [codes/mm/ksm.c]: [scan_get_next_rmap_item] and the branch of
    [ksm_do_scan] taken without a server.  A pass goes over the slots of the
    list; it is done in batches of [scan_npages] pages, between which the
    cursor [ksm_scan] stays where it is.

    - While the cursor is in a slot, the slot's items are [passed] and [ahead]
      of the cursor; the slot in the list gets its items back when the cursor
      leaves it.
    - The areas of a process are read once, with its [mmap_lock] held; the rest
      of the machine runs between two addresses.
    - [ktime] and [runtime] are the clocks, by the environment steps to come. *)
From S2P Require Import Prelude Wire HashPair Growable Shadow Server Advisor HostMem HostTree HostMerge HostApply HostScan HostLocal HostDaemon.
Open Scope Z_scope.

(** ** State *)
Record local_st := LocalSt {
  lc_scan : scan_st;
  cursor : option Z;                     (* the process of ksm_scan.mm_slot; None for ksm_mm_head *)
  lc_pace : pace;
  ksm_pages_skipped : Z;
  ksm_pages_scanned : Z }.

Definition with_local (f : scan_st → scan_st) (s : local_st) : local_st :=
  LocalSt (f (lc_scan s)) (cursor s) (lc_pace s) (ksm_pages_skipped s) (ksm_pages_scanned s).
Definition with_cursor (c : option Z) (s : local_st) : local_st :=
  LocalSt (lc_scan s) c (lc_pace s) (ksm_pages_skipped s) (ksm_pages_scanned s).
Definition with_pace (f : pace → pace) (s : local_st) : local_st :=
  LocalSt (lc_scan s) (cursor s) (f (lc_pace s)) (ksm_pages_skipped s) (ksm_pages_scanned s).
Definition with_skipped (n : Z) (s : local_st) : local_st :=
  LocalSt (lc_scan s) (cursor s) (lc_pace s) n (ksm_pages_scanned s).
Definition with_scanned (n : Z) (s : local_st) : local_st :=
  LocalSt (lc_scan s) (cursor s) (lc_pace s) (ksm_pages_skipped s) n.

Definition on_scan {A} (m : M scan_st A) : M local_st A := λ s,
  match m (lc_scan s) with
  | Ok (a, sc) => Ok (a, with_local (λ _, sc) s)
  | Halt w => Halt w
  | Fault w => Fault w
  end.

Definition lc_host (s : local_st) : host := sc_host (lc_scan s).

Section scan.
Context `{RbTree} `{Memcmp} `{MmFault}.
Context (chains_prune : Z) (page_struct : Z → Z) (calc_checksum : page → Z) (zero_checksum : Z).
Context (ktime runtime : nat → Z).

Definition set_scan_address (a : Z) : M scan_st unit :=
  modify (with_scan (λ c, KsmScan a (passed c) (ahead c))).

(** [ksm_scan.rmap_list = &rmap_item->rmap_list] *)
Definition pass_item (rmap_item : loc) : M scan_st unit :=
  modify (with_scan (λ c, KsmScan (scan_address c) (passed c ++ [rmap_item]) (tail (ahead c)))).

(** ** One area

    The addresses still to visit; the result is what
    [scan_get_next_rmap_item] returns, if it returns here. *)
Fixpoint scan_area (mm : Z) (addrs : list Z) : M local_st (option (option (loc * Z))) :=
  match addrs with
  | [] => mret None
  | addr :: addrs' =>
    s ← get;
    if ksm_test_exit (h_mem (lc_host s)) mm then mret None else
    let next := on_scan (set_scan_address (addr + PAGE_SIZE)) ;; on_scan (on_host interfere) ;; scan_area mm addrs' in
    page ← on_scan (on_host (follow_page mm addr));
    match page with
    | None => next
    | Some page =>
      fr ← on_scan (on_host (get_frame page));
      if PageAnon fr then
        r ← on_scan (get_next_rmap_item mm addr);
        match r with
        | None => on_scan (on_host (put_page page)) ;; mret (Some None)
        | Some rmap_item =>
          on_scan (pass_item rmap_item) ;;
          skip ← on_scan (on_host (should_skip_rmap_item page_struct page rmap_item));
          if (skip : bool) then
            s ← get;
            modify (with_skipped (u64 (ksm_pages_skipped s + 1))) ;;
            on_scan (on_host (put_page page)) ;; next
          else
            on_scan (set_scan_address (addr + PAGE_SIZE)) ;; mret (Some (Some (rmap_item, page)))
        end
      else on_scan (on_host (put_page page)) ;; next
    end
  end.

(** The pages from [a] to the end of [v]. *)
Definition addresses_from (a : Z) (v : vma) : list Z :=
  (λ n, a + Z.of_nat n * PAGE_SIZE) <$> seq 0 (Z.to_nat ((vm_end v - a) / PAGE_SIZE)).

(** Where the scan of [v] begins. *)
Definition area_start (a : Z) (v : vma) : Z :=
  if bool_decide (vm_anon v = None) then vm_end v else if a <? vm_start v then vm_start v else a.

Fixpoint scan_areas (mm : Z) (areas : list vma) : M local_st (option (option (loc * Z))) :=
  match areas with
  | [] => mret None
  | v :: areas' =>
    if negb (vm_mergeable v) then scan_areas mm areas' else
    s ← get;
    let a := area_start (scan_address (scan (lc_scan s))) v in
    on_scan (set_scan_address a) ;;
    r ← scan_area mm (addresses_from a v);
    match r with
    | Some res => mret (Some res)
    | None => scan_areas mm areas'
    end
  end.

(** ** One process *)
Definition begin_mm (slot : mm_slot) : M local_st unit :=
  modify (with_cursor (Some (slot_mm slot))) ;;
  on_scan (modify (with_scan (λ _, KsmScan 0 [] (rmap_list slot)))).

(** [no_vmas:] *)
Definition cursor_to_head : M scan_st unit :=
  modify (with_scan (λ c, KsmScan 0 [] (passed c ++ ahead c))).

Definition put_back (mm : Z) (l : list loc) (slots : list mm_slot) : list mm_slot :=
  (λ sl, if slot_mm sl =? mm then MmSlot mm l else sl) <$> slots.

(** The slot the cursor leaves: it leaves the list if it had nothing to scan. *)
Definition leave_mm (mm : Z) : M local_st unit :=
  on_scan (s ← get;
    remove_trailing_rmap_items (ahead (scan s)) ;;
    set_ahead [] ;;
    s ← get;
    if scan_address (scan s) =? 0 then
      modify (with_slots (del_slot mm (mm_slots s))) ;;
      modify (with_mergeable (λ S, S ∖ {[ mm ]}))
    else modify (with_slots (put_back mm (passed (scan s)) (mm_slots s)))).

Definition scan_slot (mm : Z) : M local_st (option (option (loc * Z))) :=
  on_scan (on_host interfere) ;;
  s ← get;
  let m := h_mem (lc_host s) in
  r ← (if ksm_test_exit m mm then on_scan cursor_to_head ;; mret None else
       r ← scan_areas mm (filter (λ v, scan_address (scan (lc_scan s)) < vm_end v) (default [] (vmas m !! mm)));
       match r with
       | Some res => mret (Some res)
       | None =>
         s ← get;
         whenM (ksm_test_exit (h_mem (lc_host s)) mm) (on_scan cursor_to_head) ;; mret None
       end);
  match r with
  | Some res => mret (Some res)
  | None => leave_mm mm ;; mret None
  end.

(** ** The pass *)
Definition end_pass : M local_st unit :=
  s ← get;
  let n := length (env (lc_host s)) in
  p ← deref (advisor_stop_scan (ktime n) (runtime n) (lc_pace s)) "division by zero";
  modify (with_pace (λ _, p)) ;;
  on_scan (on_host (modify (with_ksm (on_seqnr (λ q, u64 (q + 1)))))).

(** The slots from the cursor on. *)
Fixpoint scan_slots (slots : list mm_slot) : M local_st (option (loc * Z)) :=
  match slots with
  | [] => mret None
  | slot :: slots' =>
    r ← scan_slot (slot_mm slot);
    match r with
    | Some res => mret res
    | None =>
      match slots' with
      | [] => modify (with_cursor None) ;; on_scan (modify (with_scan (λ _, KsmScan 0 [] []))) ;; end_pass ;; mret None
      | next :: _ => begin_mm next ;; scan_slots slots'
      end
    end
  end.

Definition begin_pass : M local_st unit :=
  s ← get;
  modify (with_pace (advisor_start_scan (ktime (length (env (lc_host s)))))) ;;
  on_scan (on_host interfere) ;;
  on_scan (on_host (modify (with_ksm (on_unstable (λ _, RbLeaf))))).

Fixpoint slots_from (mm : Z) (slots : list mm_slot) : list mm_slot :=
  match slots with
  | [] => []
  | slot :: slots' => if slot_mm slot =? mm then slots else slots_from mm slots'
  end.

Definition scan_get_next_rmap_item : M local_st (option (loc * Z)) :=
  s ← get;
  match mm_slots (lc_scan s) with
  | [] => mret None
  | slot :: _ =>
    (match cursor s with
     | None => begin_pass ;; begin_mm slot
     | Some _ => mret tt
     end) ;;
    s ← get;
    scan_slots (slots_from (default (slot_mm slot) (cursor s)) (mm_slots (lc_scan s)))
  end.

(** ** [ksm_do_scan] without a server

    [npages] goes down to -1, an [unsigned int], when the loop is not left
    early; the result is the number of pages processed. *)
Fixpoint scan_pages (n : nat) (npages : Z) : M local_st (Z * Z) :=
  match n with
  | O => mret (u32 (npages - 1), 0)
  | S n' =>
    r ← scan_get_next_rmap_item;
    match r with
    | None => mret (u32 (npages - 1), 0)
    | Some (rmap_item, page) =>
      on_scan (on_host (cmp_and_merge_page chains_prune page_struct calc_checksum zero_checksum page rmap_item)) ;;
      on_scan (on_host (put_page page)) ;;
      r ← scan_pages n' (u32 (npages - 1));
      mret (fst r, snd r + 1)
    end
  end.

Definition local_do_scan (scan_npages : Z) : M local_st Z :=
  r ← scan_pages (Z.to_nat scan_npages) scan_npages;
  s ← get;
  modify (with_scanned (u64 (ksm_pages_scanned s + u32 (scan_npages - fst r)))) ;;
  mret (snd r).
End scan.
