(* ===== verification/HostSafe.v ===== *)
(** * HostSafe: what the daemon does to memory, for any log

    The relation [from h0 held locked h]: the daemon went from [h0] to [h],
    whatever ran in between, and holds the references [held] and the locks
    [locked] more than at [h0].  It contains the safety of memory ([mem_ok],
    [coherent]), and that a page frozen at [h0] still has its content.  Every
    operation of the application of the log keeps it. *)
From S2P Require Import Prelude Wire HashPair Growable Shadow Server HostMem HostTree HostTreeInv HostMerge HostApply.
Open Scope Z_scope.

Definition occ (p : Z) (l : list Z) : Z := Z.of_nat (length (filter (λ q, q = p) l)).

Record frame_from (d : Z) (lk : Prop) (fr0 fr : frame) : Prop := FrameFrom {
  ff_kref : fr_kref fr = fr_kref fr0 + d;
  ff_lock : fr_lock fr = LockedByKsmd ↔ fr_lock fr0 = LockedByKsmd ∨ lk;
  ff_frozen : frozen fr0 → fr_content fr = fr_content fr0 ∧ fr_excl fr = false ∧ fr_writers fr = false ∧
    (PageKsm fr0 = true → PageKsm fr = true) }.

Record from (h0 : host) (held locked : list Z) (h : host) : Prop := From {
  fm_base : mem_ok (h_mem h0);
  fm_ok : mem_ok (h_mem h);
  fm_coherent : coherent (h_mem h) (user h);
  fm_env : Forall rely (env h);
  fm_zero : zero_pfn (h_mem h) = zero_pfn (h_mem h0);
  fm_dom : dom (frames (h_mem h)) = dom (frames (h_mem h0));
  fm_frames : ∀ p fr0 fr, frames (h_mem h0) !! p = Some fr0 → frames (h_mem h) !! p = Some fr →
    frame_from (occ p held) (p ∈ locked) fr0 fr;
  fm_items : ∀ i it0, kitems (h_ksm h0) !! i = Some it0 → ∃ it, kitems (h_ksm h) !! i = Some it ∧
    ki_page it = ki_page it0 ∧ ki_mm it = ki_mm it0 ∧ page_of (ki_address it) = page_of (ki_address it0);
  fm_config : config h = config h0 }.

(** Memory is as it should be. *)
Record safe (h : host) : Prop := Safe {
  sf_ok : mem_ok (h_mem h);
  sf_coherent : coherent (h_mem h) (user h);
  sf_env : Forall rely (env h) }.

(** The daemon holds no page lock. *)
Definition unlocked (h : host) : Prop := ∀ p fr, frames (h_mem h) !! p = Some fr → fr_lock fr ≠ LockedByKsmd.

(** ** Occurrences *)
Lemma occ_nil p : occ p [] = 0.
Proof. done. Qed.
Lemma occ_cons p q l : occ p (q :: l) = (if decide (q = p) then 1 else 0) + occ p l.
Proof. unfold occ. rewrite filter_cons. case_decide; simpl length; lia. Qed.
Lemma occ_app p l1 l2 : occ p (l1 ++ l2) = occ p l1 + occ p l2.
Proof. unfold occ. rewrite filter_app, length_app. lia. Qed.
Lemma occ_nonneg p l : 0 ≤ occ p l.
Proof. unfold occ. lia. Qed.

(** ** The relation *)
Lemma frame_from_refl fr : frame_from 0 False fr fr.
Proof. split; [lia|tauto|]. intros (_ & H1 & H2 & _). tauto. Qed.

Lemma from_refl h : safe h → from h [] [] h.
Proof.
  intros []. split; try done.
  - intros p fr0 fr H1 H2. rewrite H1 in H2. injection H2 as <-.
    destruct (frame_from_refl fr0) as [F1 F2 F3]. split; [by rewrite occ_nil|set_solver|done].
  - intros i it0 ?. by exists it0.
Qed.

Lemma from_safe h0 δ Λ h : from h0 δ Λ h → safe h.
Proof. by intros []. Qed.

Lemma frame_from_frozen d lk fr0 fr : 0 ≤ d → frame_from d lk fr0 fr → frozen fr0 → frozen fr.
Proof.
  intros Hd [F1 F2 F3] Hf. destruct (F3 Hf) as (_ & E1 & E2 & E3). destruct Hf as (K & _ & _ & P).
  split_and!; [lia|done|done|]. destruct P as [P|P]; [left; by apply E3|right; apply F2; by left].
Qed.

Lemma from_frame h0 δ Λ h p fr0 :
  from h0 δ Λ h → frames (h_mem h0) !! p = Some fr0 →
  ∃ fr, frames (h_mem h) !! p = Some fr ∧ frame_from (occ p δ) (p ∈ Λ) fr0 fr.
Proof.
  intros Hf Hp. assert (is_Some (frames (h_mem h) !! p)) as [fr Hfr].
  { apply elem_of_dom. rewrite (fm_dom _ _ _ _ Hf). by apply elem_of_dom. }
  exists fr. split; [done|]. by apply (fm_frames _ _ _ _ Hf p fr0 fr).
Qed.

Lemma from_frame_inv h0 δ Λ h p fr :
  from h0 δ Λ h → frames (h_mem h) !! p = Some fr →
  ∃ fr0, frames (h_mem h0) !! p = Some fr0 ∧ frame_from (occ p δ) (p ∈ Λ) fr0 fr.
Proof.
  intros Hf Hp. assert (is_Some (frames (h_mem h0) !! p)) as [fr0 Hfr].
  { apply elem_of_dom. rewrite <- (fm_dom _ _ _ _ Hf). by apply elem_of_dom. }
  exists fr0. split; [done|]. by apply (fm_frames _ _ _ _ Hf p fr0 fr).
Qed.

Lemma unlocked_from h0 held h : unlocked h0 → from h0 held [] h → unlocked h.
Proof.
  intros Hu Hf p fr Hp E. destruct (from_frame_inv _ _ _ _ _ _ Hf Hp) as (fr0 & Hp0 & [_ F2 _]).
  destruct (proj1 F2 E) as [E0|E0]; [exact (Hu p fr0 Hp0 E0)|by apply elem_of_nil in E0].
Qed.

Lemma from_frozen h0 δ Λ h p fr0 :
  from h0 δ Λ h → frames (h_mem h0) !! p = Some fr0 → frozen fr0 →
  ∃ fr, frames (h_mem h) !! p = Some fr ∧ frozen fr ∧ fr_content fr = fr_content fr0 ∧
    (PageKsm fr0 = true → PageKsm fr = true).
Proof.
  intros Hf Hp Hz. destruct (from_frame _ _ _ _ _ _ Hf Hp) as (fr & Hfr & F).
  exists fr. pose proof (occ_nonneg p δ) as Ho. pose proof (frame_from_frozen _ _ _ _ Ho F Hz).
  destruct (ff_frozen _ _ _ _ F Hz) as (? & _ & _ & ?). done.
Qed.

Lemma from_trans h0 δ1 Λ1 h1 δ2 Λ2 h2 :
  from h0 δ1 Λ1 h1 → from h1 δ2 Λ2 h2 → from h0 (δ2 ++ δ1) (Λ2 ++ Λ1) h2.
Proof.
  intros F1 F2. destruct F2 as [_ G1 G2 G3 G4 G5 G6 G7 G8]. split; [apply F1|done..|by rewrite G4; apply F1|by rewrite G5; apply F1| | |by rewrite G8; apply F1].
  - intros p fr0 fr2 H0 H2. destruct (from_frame _ _ _ _ _ _ F1 H0) as (fr1 & H1 & A).
    specialize (G6 p fr1 fr2 H1 H2). destruct G6 as [B1 B2 B3]. pose proof A as [A1 A2 A3]. split.
    + rewrite occ_app. lia.
    + rewrite elem_of_app. tauto.
    + intros Hz. pose proof (frame_from_frozen _ _ _ _ (occ_nonneg p δ1) A Hz) as Hz1.
      destruct (A3 Hz) as (? & _ & _ & K1). destruct (B3 Hz1) as (? & ? & ? & K2).
      split_and!; [congruence|done|done|auto].
  - intros i it0 H0. destruct (fm_items _ _ _ _ F1 i it0 H0) as (it1 & H1 & ? & ? & ?).
    destruct (G7 i it1 H1) as (it2 & Hit2 & ? & ? & ?). exists it2. split_and!; congruence.
Qed.

(** References and locks taken and given back. *)
Lemma from_perm h0 δ Λ δ' Λ' h :
  (∀ p, occ p δ = occ p δ') → (∀ p, p ∈ Λ ↔ p ∈ Λ') → from h0 δ Λ h → from h0 δ' Λ' h.
Proof.
  intros Hd Hl []. split; try done. intros p fr0 fr H0 H1.
  destruct (fm_frames0 p fr0 fr H0 H1) as [F1 F2 F3]. split; [by rewrite <- Hd|by rewrite <- Hl|done].
Qed.

(** ** Updates *)

(** What only concerns KSM's own structures. *)
Lemma from_ksm h0 δ Λ h f :
  from h0 δ Λ h →
  (∀ i it, kitems (h_ksm h) !! i = Some it → ∃ it', kitems (f (h_ksm h)) !! i = Some it' ∧
     ki_page it' = ki_page it ∧ ki_mm it' = ki_mm it ∧ page_of (ki_address it') = page_of (ki_address it)) →
  from h0 δ Λ (with_ksm f h).
Proof.
  intros [] Hf. split; try done. simpl. intros i it0 H0. destruct (fm_items0 i it0 H0) as (it & H1 & ? & ? & ?).
  destruct (Hf i it H1) as (it' & Hit' & ? & ? & ?). exists it'. split_and!; congruence.
Qed.

Lemma from_ksm_same h0 δ Λ h f :
  from h0 δ Λ h → kitems (f (h_ksm h)) = kitems (h_ksm h) → from h0 δ Λ (with_ksm f h).
Proof. intros Hf E. apply from_ksm; [done|]. rewrite E. intros i it ?. by exists it. Qed.

Lemma from_hstats h0 δ Λ h f : from h0 δ Λ h → from h0 δ Λ (with_hstats f h).
Proof. intros []. by split. Qed.

Lemma from_errors h0 δ Λ h t a : from h0 δ Λ h → from h0 δ Λ (with_errors t a h).
Proof. intros []. by split. Qed.

(** A frame replaced by one that maps and reads the same; [nz]: it is not the
    zero page. *)
Record same_page (nz : Prop) (fr fr' : frame) : Prop := SamePage {
  sp_content : fr_content fr' = fr_content fr;
  sp_excl : fr_excl fr' = fr_excl fr;
  sp_writers : fr_writers fr' = fr_writers fr;
  sp_pinned : fr_pinned fr' = fr_pinned fr;
  sp_extra : fr_extra fr' = fr_extra fr;
  sp_anon : fr_mapping fr' = MapOther ∨ fr_mapping fr' = fr_mapping fr ∨ nz;
  sp_ksm : PageKsm fr' = true → fr_excl fr = false ∧ 0 < page_count fr';
  sp_mapcount : fr_mapcount fr' = fr_mapcount fr;
  sp_refs : 0 ≤ fr_kref fr' }.

Lemma mem_ok_update m p fr fr' :
  mem_ok m → frames m !! p = Some fr → same_page (p ≠ zero_pfn m) fr fr' → mem_ok (on_frames (<[p := fr']>) m).
Proof.
  intros [W X D K R MC SZ Z AR] Hp [S1 S2 S3 S4 S5 S6 S7 S9 S8]. split; simpl.
  - intros k e fr1 Hk Hfr Hw. destruct (decide (pte_pfn e = p)) as [<-|Hne].
    + rewrite lookup_insert_eq in Hfr. injection Hfr as <-. rewrite S2. by eapply W.
    + rewrite lookup_insert_ne in Hfr by done. by eapply W.
  - intros k1 k2 e1 e2 fr1 H1 H2 E Hfr Hx. destruct (decide (pte_pfn e1 = p)) as [Hpp|Hne].
    + rewrite Hpp, lookup_insert_eq in Hfr. injection Hfr as <-. rewrite S2 in Hx. eapply X; [exact H1|exact H2|done| |done]. by rewrite Hpp.
    + rewrite lookup_insert_ne in Hfr by done. by eapply X.
  - intros q fr1 Hq. destruct (decide (q = p)) as [->|Hne].
    + rewrite lookup_insert_eq in Hq. injection Hq as <-. rewrite S2, S3, S4, S5. by apply (D p).
    + rewrite lookup_insert_ne in Hq by done. by apply (D q).
  - intros q fr1 Hq Hks. destruct (decide (q = p)) as [->|Hne].
    + rewrite lookup_insert_eq in Hq. injection Hq as <-. rewrite S2. by apply S7.
    + rewrite lookup_insert_ne in Hq by done. by apply (K q).
  - intros q fr1 Hq. destruct (decide (q = p)) as [->|Hne].
    + rewrite lookup_insert_eq in Hq. injection Hq as <-. rewrite S5, S9. destruct (R p fr Hp) as (? & ? & ?). tauto.
    + rewrite lookup_insert_ne in Hq by done. by apply (R q).
  - intros q fr1 Hq Hne0. destruct (decide (q = p)) as [->|Hne].
    + rewrite lookup_insert_eq in Hq. injection Hq as <-. rewrite S9. by apply MC.
    + rewrite lookup_insert_ne in Hq by done. by apply MC.
  - assert (∀ q fr1, <[p:=fr']> (frames m) !! q = Some fr1 → ∃ fr2, frames m !! q = Some fr2 ∧ fr_content fr1 = fr_content fr2) as Hc.
    { intros q fr1 Hq. destruct (decide (q = p)) as [->|Hne].
      - rewrite lookup_insert_eq in Hq. injection Hq as <-. by exists fr.
      - rewrite lookup_insert_ne in Hq by done. by exists fr1. }
    intros q1 q2 fr1 fr2 H1 H2. destruct (Hc _ _ H1) as (f1 & H3 & ->). destruct (Hc _ _ H2) as (f2 & H4 & ->). by eapply SZ.
  - intros fr1 Hq. destruct (decide (zero_pfn m = p)) as [<-|Hne].
    + rewrite lookup_insert_eq in Hq. injection Hq as <-. specialize (Z fr Hp).
      destruct S6 as [?|[?|?]]; [done|congruence|done].
    + rewrite lookup_insert_ne in Hq by done. by apply Z.
  - exact AR.
Qed.

Lemma coherent_update m u p fr fr' :
  coherent m u → frames m !! p = Some fr → fr_content fr' = fr_content fr → coherent (on_frames (<[p := fr']>) m) u.
Proof.
  intros C Hp E k e Hk. destruct (C k e Hk) as (fr1 & H1 & H2). simpl. destruct (decide (pte_pfn e = p)) as [Hpp|Hne].
  - rewrite Hpp in H1 |- *. exists fr'. rewrite lookup_insert_eq. split; [done|]. congruence.
  - exists fr1. by rewrite lookup_insert_ne by done.
Qed.

Lemma from_update h0 δ Λ δ' Λ' h p fr fr' :
  from h0 δ Λ h → frames (h_mem h) !! p = Some fr → same_page (p ≠ zero_pfn (h_mem h)) fr fr' →
  (∀ q, q ≠ p → occ q δ' = occ q δ ∧ (q ∈ Λ' ↔ q ∈ Λ)) →
  (∀ fr0, frames (h_mem h0) !! p = Some fr0 → frame_from (occ p δ) (p ∈ Λ) fr0 fr → frame_from (occ p δ') (p ∈ Λ') fr0 fr') →
  from h0 δ' Λ' (with_mem (on_frames (<[p := fr']>)) h).
Proof.
  intros Hf Hp Hs Ho Hfr. pose proof Hf as [F0 F1 F2 F3 F4 F5 F6 F7 F8]. split; simpl; try done.
  - by eapply mem_ok_update.
  - eapply coherent_update; [done|exact Hp|apply Hs].
  - rewrite dom_insert_L, <- F5. assert (p ∈ dom (frames (h_mem h))) by by apply elem_of_dom. set_solver.
  - intros q fr0 fr1 H0 H1. destruct (decide (q = p)) as [->|Hne].
    + rewrite lookup_insert_eq in H1. injection H1 as <-. apply Hfr; [done|]. by apply F6.
    + rewrite lookup_insert_ne in H1 by done. destruct (Ho q Hne) as [E1 E2]. specialize (F6 q fr0 fr1 H0 H1).
      destruct F6 as [G1 G2 G3]. split; [by rewrite E1|by rewrite E2|done].
Qed.

(** ** Primitives *)
Create HintDb keeps.

(** One step of a proof that an operation keeps [from]: a structural rule, or
    the lemma of the operation called. *)
Ltac keep_step :=
  first
  [ pwp_step
  | match goal with
    | |- pwp (if ?b then _ else _) _ _ => destruct b eqn:?
    | |- pwp (match ?x with _ => _ end) _ _ => destruct x eqn:?
    | |- pwp (whenM _ _) _ _ => apply pwp_whenM; intros ?
    | |- pwp (let _ := _ in _) _ _ => intro
    end
  | eapply pwp_mono; [solve [eauto 3 with keeps]|cbv beta; intros ? ? ?] ].
Ltac keep := repeat (simpl negb; cbv iota; keep_step); eauto with keeps.

Lemma pwp_get_frame p h (Q : frame → host → Prop) :
  (∀ fr, frames (h_mem h) !! p = Some fr → Q fr h) → pwp (get_frame p) h Q.
Proof. intros HQ. unfold get_frame. pwp_steps. by apply HQ. Qed.

Lemma pwp_upd_frame p f h (Q : unit → host → Prop) :
  (∀ fr, frames (h_mem h) !! p = Some fr → Q tt (with_mem (on_frames (<[p := f fr]>)) h)) → pwp (upd_frame p f) h Q.
Proof. intros HQ. unfold upd_frame. pwp_step. apply pwp_get_frame. intros fr Hp. pwp_step. by apply HQ. Qed.

Lemma pwp_get_kitem i h (Q : kitem → host → Prop) :
  (∀ it, kitems (h_ksm h) !! i = Some it → Q it h) → pwp (get_kitem i) h Q.
Proof. intros HQ. unfold get_kitem. pwp_steps. by apply HQ. Qed.

Lemma pwp_upd_kitem i f h (Q : unit → host → Prop) :
  (∀ it, kitems (h_ksm h) !! i = Some it → Q tt (with_ksm (on_items (<[i := f it]>)) h)) → pwp (upd_kitem i f) h Q.
Proof. intros HQ. unfold upd_kitem. pwp_step. apply pwp_get_kitem. intros it Hi. pwp_step. by apply HQ. Qed.

Lemma pwp_get_knode n h (Q : knode → host → Prop) :
  (∀ nd, knodes (h_ksm h) !! n = Some nd → Q nd h) → pwp (get_knode n) h Q.
Proof. intros HQ. unfold get_knode. pwp_steps. by apply HQ. Qed.

Lemma pwp_upd_knode n f h (Q : unit → host → Prop) :
  (∀ nd, knodes (h_ksm h) !! n = Some nd → Q tt (with_ksm (on_nodes (<[n := f nd]>)) h)) → pwp (upd_knode n f) h Q.
Proof. intros HQ. unfold upd_knode. pwp_step. apply pwp_get_knode. intros nd Hn. pwp_step. by apply HQ. Qed.

Section keeps.
Context (h0 : host) (δ Λ : list Z).
Abbreviation kept := (from h0 δ Λ).

Lemma keeps_get_frame p h : kept h → pwp (get_frame p) h (λ fr h', frames (h_mem h') !! p = Some fr ∧ h' = h ∧ kept h').
Proof. intros Hk. by apply pwp_get_frame. Qed.

Lemma keeps_get_kitem i h : kept h → pwp (get_kitem i) h (λ it h', h' = h ∧ kitems (h_ksm h) !! i = Some it ∧ kept h').
Proof. intros Hk. by apply pwp_get_kitem. Qed.

Lemma keeps_get_knode n h : kept h → pwp (get_knode n) h (λ nd h', h' = h ∧ knodes (h_ksm h) !! n = Some nd ∧ kept h').
Proof. intros Hk. by apply pwp_get_knode. Qed.

Lemma keeps_upd_kitem i f h :
  (∀ it, ki_page (f it) = ki_page it ∧ ki_mm (f it) = ki_mm it ∧ page_of (ki_address (f it)) = page_of (ki_address it)) →
  kept h → pwp (upd_kitem i f) h (λ _ h', kept h').
Proof.
  intros Hf Hk. apply pwp_upd_kitem. intros it Hi. apply from_ksm; [done|]. simpl. intros j jt Hj.
  destruct (decide (j = i)) as [->|Hne].
  - exists (f it). rewrite lookup_insert_eq. split; [done|]. rewrite Hi in Hj. injection Hj as <-. apply Hf.
  - exists jt. by rewrite lookup_insert_ne by done.
Qed.

Lemma keeps_modify_ksm f h :
  (∀ k, kitems (f k) = kitems k) → kept h → pwp (modify (with_ksm f)) h (λ _ h', kept h').
Proof. intros Hf Hk. pwp_step. by apply from_ksm_same. Qed.

Lemma keeps_upd_knode n f h : kept h → pwp (upd_knode n f) h (λ _ h', kept h').
Proof. intros Hk. apply pwp_upd_knode. intros nd Hn. by apply from_ksm_same. Qed.

Lemma keeps_count a b c d h : kept h → pwp (count a b c d) h (λ _ h', kept h').
Proof. intros Hk. unfold count. pwp_step. by apply from_ksm_same. Qed.
Lemma keeps_count_nodes a b h : kept h → pwp (count_nodes a b) h (λ _ h', kept h').
Proof. intros Hk. unfold count_nodes. pwp_step. by apply from_ksm_same. Qed.
Lemma keeps_count_merging mm d h : kept h → pwp (count_merging mm d) h (λ _ h', kept h').
Proof. intros Hk. unfold count_merging. pwp_step. by apply from_ksm_same. Qed.
Lemma keeps_count_fail r h : kept h → pwp (count_fail r) h (λ _ h', kept h').
Proof. intros Hk. unfold count_fail. pwp_step. by apply from_hstats. Qed.
Lemma keeps_count_zero_page mm h : kept h → pwp (count_zero_page mm) h (λ _ h', kept h').
Proof. intros Hk. unfold count_zero_page. pwp_step. by apply from_hstats. Qed.
Lemma keeps_report t e h : kept h → pwp (report t e) h (λ _ h', kept h').
Proof.
  intros Hk. unfold report, pwp. destruct (insert_error_log _ _ _ _) as [[[? ?] ?]| |]; [|done..]. by apply from_errors.
Qed.

Lemma from_interfere h h' :
  kept h → interfere h = Ok (tt, h') →
  kept h' ∧ h_ksm h' = h_ksm h ∧ mem_rely (h_mem h) (h_mem h').
Proof.
  intros [F0 F1 F2 F3 F4 F5 F6 F7 F8]. unfold interfere. destruct (env h) as [|f fs] eqn:E.
  - intros [= <-]. split_and!; [split; try done; by rewrite E|done|]. split; [done|]. split; [done|].
    intros p fr fr' H1 H2. rewrite H1 in H2. injection H2 as <-. split; [done|tauto|done].
  - apply Forall_cons in F3 as [Hf Hfs]. destruct (Hf (h_mem h) (user h)) as [_ Hf']. destruct (Hf' F1 F2) as (G1 & G2 & G3). destruct (f (h_mem h, user h)) as [m u].
    simpl in *. intros [= <-]. simpl. split_and!; [|done|done]. destruct G3 as (G3 & G4 & G5). split; simpl; try done.
    + congruence.
    + congruence.
    + intros p fr0 fr' H0 H1. assert (is_Some (frames (h_mem h) !! p)) as [fr Hp].
      { apply elem_of_dom. rewrite <- G4. by apply elem_of_dom. }
      destruct (F6 p fr0 fr H0 Hp) as [A1 A2 A3]. destruct (G5 p fr fr' Hp H1) as [B1 B2 B4].
      split; [lia|tauto|]. intros Hz. destruct (A3 Hz) as (C1 & C2 & C3 & C4).
      assert (frozen fr) as Hz'. { eapply frame_from_frozen; [apply (occ_nonneg p δ)| |exact Hz]. by split. }
      destruct (B4 Hz') as ((_ & D1 & D2 & _) & D4 & D5). split_and!; [congruence|done|done|].
      intros Hks. specialize (C4 Hks). unfold PageKsm in *. by rewrite D5.
Qed.

Lemma keeps_interfere h : kept h → pwp interfere h (λ _ h', kept h').
Proof.
  intros Hk. unfold pwp. destruct (interfere h) as [[[] h']| |] eqn:E; [|done..].
  by eapply from_interfere.
Qed.
End keeps.

#[export] Hint Resolve keeps_upd_knode keeps_count keeps_count_nodes keeps_count_merging keeps_count_fail
  keeps_count_zero_page keeps_report keeps_interfere : keeps.
#[export] Hint Extern 1 (pwp (upd_kitem _ _) _ _) => apply keeps_upd_kitem; [intros; simpl; by rewrite ?page_of_flag, ?page_of_idemp|] : keeps.
#[export] Hint Extern 1 (from _ _ _ (with_ksm _ _)) => apply from_ksm_same; [|done] : keeps.
#[export] Hint Extern 1 (pwp (modify (with_ksm _)) _ _) => apply keeps_modify_ksm; [done|] : keeps.

(** ** References and locks *)
Lemma same_page_kref m p fr d :
  mem_ok m → frames m !! p = Some fr → 0 ≤ fr_kref fr + d → (PageKsm fr = true → 0 < page_count fr + d) →
  same_page (p ≠ zero_pfn m) fr (add_kref d fr).
Proof.
  intros Hok Hp Hd Hc. destruct (mo_refs _ Hok p fr Hp) as (? & ? & ?). split; try done; simpl.
  - by (right; left).
  - intros Hks. split; [by apply (mo_ksm _ Hok p)|]. specialize (Hc Hks). unfold page_count in *. simpl. lia.
Qed.

Lemma from_get_page h0 δ Λ h p fr :
  from h0 δ Λ h → frames (h_mem h) !! p = Some fr →
  from h0 (p :: δ) Λ (with_mem (on_frames (<[p := add_kref 1 fr]>)) h).
Proof.
  intros Hf Hp. pose proof (fm_ok _ _ _ _ Hf) as Hok. eapply from_update; [exact Hf|exact Hp| | |].
  - eapply same_page_kref; [done|done| |].
    + destruct (mo_refs _ Hok p fr Hp). lia.
    + intros Hks. destruct (mo_ksm _ Hok p fr Hp Hks). lia.
  - intros q Hq. rewrite occ_cons, decide_False by done. split; [lia|done].
  - intros fr0 Hp0 [F1 F2 F3]. split; simpl; [rewrite occ_cons, decide_True by done; lia|done|done].
Qed.

Lemma from_put_page h0 δ Λ h p fr :
  from h0 (p :: δ) Λ h → frames (h_mem h) !! p = Some fr →
  from h0 δ Λ (with_mem (on_frames (<[p := drop_ref fr]>)) h).
Proof.
  intros Hf Hp. pose proof (fm_ok _ _ _ _ Hf) as Hok. destruct (mo_refs _ Hok p fr Hp) as (R1 & R2 & R3).
  destruct (from_frame_inv _ _ _ _ _ _ Hf Hp) as (fr0 & Hp0 & [F1 F2 F3]).
  rewrite occ_cons, decide_True in F1 by done. pose proof (occ_nonneg p δ).
  destruct (mo_refs _ (fm_base _ _ _ _ Hf) p fr0 Hp0) as (R4 & _).
  assert (0 ≤ page_count (add_kref (-1) fr)) as Hc.
  { unfold page_count. simpl. destruct (fr_swapcache fr); lia. }
  eapply from_update; [exact Hf|exact Hp| | |].
  - unfold drop_ref. destruct (Z.eqb_spec (page_count (add_kref (-1) fr)) 0).
    + split; try done; simpl; [by left|lia].
    + eapply same_page_kref; [done|done|lia|]. intros _. unfold page_count in *. simpl in *. lia.
  - intros q Hq. rewrite occ_cons, decide_False by done. split; [lia|done].
  - intros fr1 Hp1 _. rewrite Hp0 in Hp1. injection Hp1 as <-. unfold drop_ref.
    destruct (Z.eqb_spec (page_count (add_kref (-1) fr)) 0) as [E|_]; (split; simpl; [lia|done|]).
    + intros (Hz & _). unfold page_count in E. simpl in E. destruct (fr_swapcache fr); lia.
    + done.
Qed.

(** Nobody of the daemon holds the lock of [p]. *)
Definition not_held (h0 : host) (Λ : list Z) (p : Z) : Prop :=
  (p ∉ Λ) ∧ (∀ fr0, frames (h_mem h0) !! p = Some fr0 → fr_lock fr0 ≠ LockedByKsmd).

Lemma same_page_lock m p fr v : mem_ok m → frames m !! p = Some fr → same_page (p ≠ zero_pfn m) fr (set_lock v fr).
Proof.
  intros Hok Hp. destruct (mo_refs _ Hok p fr Hp) as (? & ? & ?). split; try done; simpl; [by (right; left)|].
  intros Hks. exact (mo_ksm _ Hok p fr Hp Hks).
Qed.

Lemma from_lock h0 δ Λ h p fr :
  from h0 δ Λ h → frames (h_mem h) !! p = Some fr →
  from h0 δ (p :: Λ) (with_mem (on_frames (<[p := set_lock LockedByKsmd fr]>)) h).
Proof.
  intros Hf Hp. eapply from_update; [exact Hf|exact Hp|eapply same_page_lock; [exact (fm_ok _ _ _ _ Hf)|done]| |].
  - intros q Hq. split; [done|]. set_solver.
  - intros fr0 Hp0 [F1 F2 F3]. split; simpl; [done| |done]. set_solver.
Qed.

Lemma from_unlock h0 δ Λ h p fr :
  from h0 δ (p :: Λ) h → not_held h0 Λ p → frames (h_mem h) !! p = Some fr →
  from h0 δ Λ (with_mem (on_frames (<[p := set_lock Unlocked fr]>)) h).
Proof.
  intros Hf [Hn1 Hn2] Hp. eapply from_update; [exact Hf|exact Hp|eapply same_page_lock; [exact (fm_ok _ _ _ _ Hf)|done]| |].
  - intros q Hq. split; [done|]. set_solver.
  - intros fr0 Hp0 [F1 F2 F3]. split; simpl; [done| |].
    + specialize (Hn2 fr0 Hp0). split; [done|]. intros [?|?]; done.
    + done.
Qed.

Section refs.
Context (h0 : host) (δ Λ : list Z).

Lemma keeps_get_page p h : from h0 δ Λ h → pwp (get_page p) h (λ _ h', from h0 (p :: δ) Λ h').
Proof. intros Hk. unfold get_page. apply pwp_upd_frame. intros fr Hp. by apply from_get_page. Qed.

Lemma keeps_put_page p h : from h0 (p :: δ) Λ h → pwp (put_page p) h (λ _ h', from h0 δ Λ h').
Proof. intros Hk. unfold put_page. apply pwp_upd_frame. intros fr Hp. by apply from_put_page. Qed.

Lemma keeps_trylock_page p h :
  from h0 δ Λ h → pwp (trylock_page p) h (λ b h', if b then from h0 δ (p :: Λ) h' ∧ not_held h0 Λ p else from h0 δ Λ h').
Proof.
  intros Hk. unfold trylock_page. pwp_step. apply pwp_get_frame. intros fr Hp. case_bool_decide as Hl.
  - pwp_step. apply pwp_upd_frame. intros fr1 Hp1. rewrite Hp in Hp1. injection Hp1 as <-. pwp_step.
    split; [by apply from_lock|]. destruct (from_frame_inv _ _ _ _ _ _ Hk Hp) as (fr0 & Hp0 & [_ F2 _]).
    rewrite Hl in F2. assert (Unlocked ≠ LockedByKsmd) by done. split; [tauto|]. intros fr1 Hp1. rewrite Hp0 in Hp1. injection Hp1 as <-. tauto.
  - by pwp_step.
Qed.

Lemma keeps_lock_page p h :
  from h0 δ Λ h → pwp (lock_page p) h (λ _ h', from h0 δ (p :: Λ) h' ∧ not_held h0 Λ p).
Proof.
  intros Hk. unfold lock_page. pwp_step. apply pwp_get_frame. intros fr Hp. pwp_step. apply pwp_halt_if. intros Hl.
  pwp_step. eapply pwp_mono; [by apply keeps_interfere|]. intros [] h1 Hk1.
  apply pwp_upd_frame. intros fr1 Hp1. split; [by apply from_lock|].
  apply bool_decide_eq_false in Hl. destruct (from_frame_inv _ _ _ _ _ _ Hk Hp) as (fr0 & Hp0 & [_ F2 _]).
  split; [tauto|]. intros fr2 Hp2. rewrite Hp0 in Hp2. injection Hp2 as <-. tauto.
Qed.

Lemma keeps_unlock_page p h :
  not_held h0 Λ p → from h0 δ (p :: Λ) h → pwp (unlock_page p) h (λ _ h', from h0 δ Λ h').
Proof. intros Hn Hk. unfold unlock_page. apply pwp_upd_frame. intros fr Hp. by apply from_unlock. Qed.
End refs.

(** ** The tree *)
Section tree.
Context `{RbTree} `{Memcmp} (h0 : host) (δ Λ : list Z).
Abbreviation kept := (from h0 δ Λ).

Lemma keeps_hlist_del x n h : kept h → pwp (hlist_del x n) h (λ _ h', kept h').
Proof. intros Hk. unfold hlist_del. keep. Qed.
Lemma keeps_free_stable_node n h : kept h → pwp (free_stable_node n) h (λ _ h', kept h').
Proof. intros Hk. unfold free_stable_node. pwp_step. apply pwp_get_knode. intros. by apply keeps_modify_ksm. Qed.
Lemma keeps_stable_node_dup_del n h : kept h → pwp (stable_node_dup_del n) h (λ _ h', kept h').
Proof.
  intros Hk. unfold stable_node_dup_del. pwp_step. apply pwp_get_knode. intros nd _.
  destruct (kn_link nd) as [|c]; [by apply keeps_modify_ksm|]. pwp_step. eapply pwp_mono; [by apply keeps_hlist_del|].
  intros. keep.
Qed.

Lemma keeps_clear_items n l h : kept h → pwp (clear_items n l) h (λ _ h', kept h').
Proof.
  revert h. induction l as [|i l IH]; intros h Hk; simpl; [by pwp_step|].
  pwp_step. apply pwp_get_kitem. intros it _. keep.
Qed.

Lemma keeps_remove_node n h : kept h → pwp (remove_node_from_stable_tree n) h (λ _ h', kept h').
Proof.
  intros Hk. unfold remove_node_from_stable_tree. pwp_step. apply pwp_get_knode. intros nd _. do 2 pwp_step.
  pwp_step. eapply pwp_mono; [by apply keeps_clear_items|]. intros [] h1 Hk1. pwp_step.
  eapply pwp_mono; [by apply keeps_stable_node_dup_del|]. intros [] h2 Hk2. by apply keeps_free_stable_node.
Qed.

Lemma keeps_stale_node n p h : kept h → pwp (stale_node n p) h (λ r h', r = GotNull ∧ kept h').
Proof.
  intros Hk. unfold stale_node. pwp_step. eapply pwp_mono; [by apply keeps_remove_node|]. intros [] h1 Hk1. keep.
Qed.

(** What the caller gets: a reference, the lock if asked for, and a page that
    is still the node's. *)
Definition got_page (n : loc) (flags : get_ksm_page_flags) (r : gotten) (h' : host) : Prop :=
  match r with
  | Got p =>
    from h0 (p :: δ) (match flags with GET_KSM_PAGE_NOLOCK => Λ | _ => p :: Λ end) h' ∧
    (flags ≠ GET_KSM_PAGE_NOLOCK → not_held h0 Λ p) ∧
    ∃ fr, frames (h_mem h') !! p = Some fr ∧ fr_mapping fr = MapKsm (Some n)
  | _ => kept h'
  end.

Lemma keeps_get_ksm_page n flags h : kept h → pwp (get_ksm_page n flags) h (got_page n flags).
Proof.
  intros Hk. unfold get_ksm_page. pwp_step. apply pwp_get_knode. intros nd _. pwp_step. apply pwp_get_frame. intros fr1 _.
  assert (Hstale : ∀ h', kept h' → pwp (stale_node n (kn_kpfn nd)) h' (got_page n flags)).
  { intros h' Hk'. eapply pwp_mono; [by apply keeps_stale_node|]. by intros r h2 [-> ?]. }
  destruct (is_expected n fr1); simpl; [|by apply Hstale]. pwp_step. eapply pwp_mono; [by apply keeps_interfere|].
  intros [] h1 Hk1. pwp_step. apply pwp_get_frame. intros fr2 Hp2.
  destruct (page_count fr2 =? 0); [by apply Hstale|]. pwp_step. unfold get_page. apply pwp_upd_frame.
  intros fr2' Hp2'. rewrite Hp2 in Hp2'. injection Hp2' as <-.
  pose proof (from_get_page _ _ _ _ _ _ Hk1 Hp2) as Hk2. set (h2 := with_mem _ h1) in *.
  destruct (is_expected n fr2) eqn:Hexp; simpl; cycle 1.
  { pwp_step. eapply pwp_mono; [by apply keeps_put_page|]. intros [] h3 Hk3. by apply Hstale. }
  apply bool_decide_eq_true in Hexp.
  assert (Hagain : ∀ h3, flags ≠ GET_KSM_PAGE_NOLOCK → not_held h0 Λ (kn_kpfn nd) → from h0 (kn_kpfn nd :: δ) (kn_kpfn nd :: Λ) h3 →
    pwp (fr ← get_frame (kn_kpfn nd);
         if negb (is_expected n fr) then unlock_page (kn_kpfn nd) ;; put_page (kn_kpfn nd) ;; stale_node n (kn_kpfn nd)
         else mret (Got (kn_kpfn nd))) h3 (got_page n flags)).
  { intros h3 Hfl Hn Hk3. pwp_step. apply pwp_get_frame. intros fr3 Hp3. destruct (is_expected n fr3) eqn:He; simpl.
    - pwp_step. split; [by destruct flags|]. split; [done|]. exists fr3. split; [done|]. by apply bool_decide_eq_true in He.
    - pwp_step. eapply pwp_mono; [by apply keeps_unlock_page|]. intros [] h4 Hk4.
      pwp_step. eapply pwp_mono; [by apply keeps_put_page|]. intros [] h5 Hk5. by apply Hstale. }
  destruct flags.
  - pwp_step. split; [done|]. split; [done|]. exists (add_kref 1 fr2). simpl. by rewrite lookup_insert_eq.
  - pwp_step. eapply pwp_mono; [by apply keeps_lock_page|]. intros [] h3 [Hk3 Hn]. by apply Hagain.
  - pwp_step. eapply pwp_mono; [by apply keeps_trylock_page|]. intros ok h3 Hk3. destruct ok; simpl.
    + destruct Hk3 as [Hk3 Hn]. by apply Hagain.
    + pwp_step. eapply pwp_mono; [by apply keeps_put_page|]. intros [] h4 Hk4. by pwp_step.
Qed.

Lemma keeps_remove_rmap_item i h : kept h → pwp (remove_rmap_item_from_tree i) h (λ _ h', kept h').
Proof.
  intros Hk. unfold remove_rmap_item_from_tree. pwp_step. apply pwp_get_kitem. intros it _.
  destruct (has_flag STABLE_FLAG (ki_address it)).
  - do 2 pwp_step. pwp_step. eapply pwp_mono; [by apply keeps_get_ksm_page|]. intros r h1 Hr.
    destruct r as [p| |]; [|by pwp_step..]. simpl in Hr. destruct Hr as (Hk1 & Hn & _). specialize (Hn ltac:(done)).
    pwp_step. unfold hlist_del. eapply pwp_mono; [by apply (keeps_upd_knode h0 (p :: δ) (p :: Λ))|]. intros [] h2 Hk2.
    pwp_step. eapply pwp_mono; [by apply keeps_unlock_page|]. intros [] h3 Hk3.
    pwp_step. eapply pwp_mono; [by apply keeps_put_page|]. intros [] h4 Hk4.
    pwp_step. apply pwp_get_knode. intros nd _. keep.
  - destruct (has_flag UNSTABLE_FLAG (ki_address it)); [|by pwp_step]. keep.
Qed.
End tree.

#[export] Hint Resolve keeps_hlist_del keeps_free_stable_node keeps_stable_node_dup_del keeps_clear_items
  keeps_remove_node keeps_remove_rmap_item : keeps.

Section insert.
Context `{RbTree} `{Memcmp} (h0 : host) (δ Λ : list Z).
Abbreviation kept := (from h0 δ Λ).

Lemma keeps_stable_tree_append i n h : kept h → pwp (stable_tree_append i n) h (λ _ h', kept h').
Proof.
  intros Hk. unfold stable_tree_append. pwp_step. apply pwp_get_knode. intros nd _. pwp_step. apply pwp_get_kitem. intros it _. keep.
Qed.

Lemma keeps_alloc_stable_node h : kept h → pwp alloc_stable_node h (λ _ h', kept h').
Proof.
  intros Hk. unfold alloc_stable_node, pwp. destruct (kmalloc (kallocs h)) as [[[] a]| |]; [|by apply from_errors|done..].
  apply from_errors. by apply from_ksm_same.
Qed.

Lemma keeps_chain_add_dup d c h : kept h → pwp (stable_node_chain_add_dup d c) h (λ _ h', kept h').
Proof. intros Hk. unfold stable_node_chain_add_dup. keep. Qed.

Lemma keeps_alloc_chain d h : kept h → pwp (alloc_stable_node_chain d) h (λ _ h', kept h').
Proof.
  intros Hk. unfold alloc_stable_node_chain. pwp_step. eapply pwp_mono; [by apply keeps_alloc_stable_node|].
  intros [c|] h1 Hk1; [|by pwp_step]. do 2 pwp_step.
  pwp_step. eapply pwp_mono; [by apply keeps_upd_knode|]. intros [] h2 Hk2.
  pwp_step. eapply pwp_mono; [by apply keeps_count_nodes|]. intros [] h3 Hk3.
  pwp_step. eapply pwp_mono; [by apply keeps_modify_ksm|]. intros [] h4 Hk4.
  pwp_step. eapply pwp_mono; [by apply keeps_chain_add_dup|]. intros [] h5 Hk5. by pwp_step.
Qed.

Lemma keeps_free_chain c h : kept h → pwp (free_stable_node_chain c) h (λ _ h', kept h').
Proof.
  intros Hk. unfold free_stable_node_chain. pwp_step. eapply pwp_mono; [by apply keeps_modify_ksm|]. intros [] h1 Hk1.
  pwp_step. eapply pwp_mono; [by apply keeps_free_stable_node|]. intros [] h2 Hk2. keep.
Qed.

(** A page held by the result, if there is one. *)
Definition holding (p : option Z) (h' : host) : Prop :=
  match p with Some p => from h0 (p :: δ) Λ h' | None => kept h' end.

Lemma keeps_get_nolock n h :
  kept h → pwp (get_ksm_page n GET_KSM_PAGE_NOLOCK) h (λ r, holding (if r is Got p then Some p else None)).
Proof.
  intros Hk. eapply pwp_mono; [by apply (keeps_get_ksm_page h0 δ Λ)|]. intros [p| |] h1 Hr; simpl in *; [|done..]. by destruct Hr.
Qed.

Lemma keeps_first_dup l h : kept h → pwp (first_dup l) h (λ r, holding (snd <$> r)).
Proof.
  revert h. induction l as [|d l IH]; intros h Hk; simpl; [by pwp_step|].
  pwp_step. eapply pwp_mono; [by apply keeps_get_nolock|]. intros [p| |] h1 Hr; simpl in Hr; [|by apply IH..].
  pwp_step. apply pwp_get_knode. intros nd _. do 2 pwp_step. destruct (is_page_sharing_candidate_at _ _ _); [by pwp_step|].
  pwp_step. eapply pwp_mono; [by apply keeps_put_page|]. intros [] h2 Hk2. by apply IH.
Qed.

Lemma keeps_stable_node_dup n h : kept h → pwp (stable_node_dup n) h (λ r, holding (snd <$> r)).
Proof.
  intros Hk. unfold stable_node_dup. pwp_step. apply pwp_get_knode. intros nd _.
  pwp_step. eapply pwp_mono; [by apply keeps_first_dup|]. intros [[f p]|] h1 Hr; simpl in Hr; [|by pwp_step].
  pwp_step. apply pwp_get_knode. intros nd1 _. pwp_step. apply pwp_get_knode. intros nd2 _. do 2 pwp_step.
  pwp_step. apply pwp_whenM; intros _; [|by pwp_step].
  eapply pwp_mono; [by apply (keeps_upd_knode h0 (p :: δ))|]. intros [] h2 Hk2. by pwp_step.
Qed.

Lemma keeps_chain n h : kept h → pwp (chain n) h (λ r, holding r.2).
Proof.
  intros Hk. unfold chain. pwp_step. apply pwp_get_knode. intros nd _. destruct (is_stable_node_chain nd).
  - pwp_step. eapply pwp_mono; [by apply keeps_stable_node_dup|]. intros [[f p]|] h1 Hr; by pwp_step.
  - do 2 pwp_step. destruct (is_page_sharing_candidate_at _ _ _); [|by pwp_step].
    pwp_step. eapply pwp_mono; [by apply keeps_get_nolock|]. intros [p| |] h1 Hr; by pwp_step.
Qed.

(** Only [chain] with a duplicate found holds a page. *)
Lemma keeps_chain_none n h : kept h → pwp (chain n) h (λ r h', r.1 = false → kept h').
Proof.
  intros Hk. unfold chain. pwp_step. apply pwp_get_knode. intros nd _. destruct (is_stable_node_chain nd).
  - pwp_step. eapply pwp_mono; [by apply keeps_stable_node_dup|]. intros [[f p]|] h1 Hr; by pwp_step.
  - do 2 pwp_step. destruct (is_page_sharing_candidate_at _ _ _); [|by pwp_step].
    pwp_step. eapply pwp_mono; [by apply keeps_get_nolock|]. intros [p| |] h1 Hr; by pwp_step.
Qed.

Lemma keeps_tree_page_of n h : kept h → pwp (tree_page_of n) h holding.
Proof.
  intros Hk. unfold tree_page_of. pwp_step. eapply pwp_mono; [apply pwp_and; [by apply keeps_chain|by apply keeps_chain_none]|].
  intros [found tp] h1 [Hr Hn]. simpl in *. destruct found; [by pwp_step|]. specialize (Hn eq_refl).
  pwp_step. unfold stable_node_dup_any.
  pwp_step. apply pwp_get_knode. intros nd _. destruct (negb (is_stable_node_chain nd)).
  - do 2 pwp_step. eapply pwp_mono; [by apply keeps_get_nolock|]. intros [p| |] h2 Hr2; by pwp_step.
  - destruct (kn_hlist nd) as [|d l].
    + pwp_step. eapply pwp_mono; [by apply keeps_free_chain|]. intros [] h2 Hk2. by do 2 pwp_step.
    + do 2 pwp_step. eapply pwp_mono; [by apply keeps_get_nolock|]. intros [p| |] h2 Hr2; by pwp_step.
Qed.

Lemma keeps_descend kpage t path h : kept h → pwp (descend kpage t path) h (λ _ h', kept h').
Proof.
  revert path h. induction t as [|l IHl x r IHr]; intros path h Hk; simpl; [by pwp_step|].
  pwp_step. eapply pwp_mono; [by apply keeps_tree_page_of|]. intros [tp|] h1 Hr; simpl in Hr; [|by pwp_step].
  pwp_step. apply pwp_get_frame. intros kfr _. pwp_step. apply pwp_get_frame. intros tfr _.
  pwp_step. eapply pwp_mono; [by apply keeps_put_page|]. intros [] h2 Hk2.
  destruct (_ <? 0); [by apply IHl|]. destruct (0 <? _); [by apply IHr|by pwp_step].
Qed.

Lemma keeps_search_place fuel kpage h : kept h → pwp (search_place fuel kpage) h (λ _ h', kept h').
Proof.
  revert h. induction fuel as [|fuel IH]; intros h Hk; simpl; [by pwp_step|].
  do 2 pwp_step. pwp_step. eapply pwp_mono; [by apply keeps_descend|]. intros [| |] h1 Hk1; [by apply IH|by pwp_step..].
Qed.

(** The page promoted by the insertion is already a KSM page. *)
Definition ksm_held (p : Z) : Prop := ∃ fr0, frames (h_mem h0) !! p = Some fr0 ∧ frozen fr0 ∧ PageKsm fr0 = true.

Lemma from_set_ksm p fr n h :
  ksm_held p → kept h → frames (h_mem h) !! p = Some fr →
  kept (with_mem (on_frames (<[p := set_mapping (MapKsm n) fr]>)) h).
Proof.
  intros (fr0 & Hp0 & Hz & Hks) Hk Hp. destruct (from_frozen _ _ _ _ _ _ Hk Hp0 Hz) as (fr1 & Hp1 & Hz1 & _ & Hks1).
  rewrite Hp in Hp1. injection Hp1 as <-. specialize (Hks1 Hks). pose proof (fm_ok _ _ _ _ Hk) as Hok.
  destruct (mo_ksm _ Hok p fr Hp Hks1) as [K1 K2]. destruct (mo_refs _ Hok p fr Hp) as (R1 & R2 & R3).
  eapply from_update; [exact Hk|exact Hp| |done|].
  - split; try done. right; right. intros ->. pose proof (mo_zero _ Hok fr Hp) as E. unfold PageKsm in Hks1. by rewrite E in Hks1.
  - intros fr2 _ [F1 F2 F3]. split; [done|done|]. intros Hz2. destruct (F3 Hz2) as (? & ? & ? & _). done.
Qed.

Lemma keeps_link_new_node kpage d h : ksm_held kpage → kept h → pwp (link_new_node kpage d) h (λ _ h', kept h').
Proof.
  intros Hh Hk. unfold link_new_node. pwp_step. eapply pwp_mono; [by apply keeps_alloc_stable_node|].
  intros [dup|] h1 Hk1; [|by pwp_step]. pwp_step. eapply pwp_mono; [by apply keeps_upd_knode|]. intros [] h2 Hk2.
  pwp_step. apply pwp_upd_frame. intros fr Hp. pose proof (from_set_ksm _ _ (Some dup) _ Hh Hk2 Hp) as Hk3.
  destruct d as [|path|n]; [by pwp_step| |].
  - pwp_step. eapply pwp_mono; [by apply keeps_modify_ksm|]. intros [] h4 Hk4. by pwp_step.
  - pwp_step. apply pwp_get_knode. intros nd _. pwp_step.
    eapply (pwp_mono _ _ (λ _ h', kept h')).
    { destruct (is_stable_node_chain nd); [by pwp_step|by apply keeps_alloc_chain]. }
    intros [c|] h4 Hk4.
    + pwp_step. eapply pwp_mono; [by apply keeps_chain_add_dup|]. intros [] h5 Hk5. by pwp_step.
    + pwp_step. eapply pwp_mono; [by apply keeps_free_stable_node|]. intros [] h5 Hk5. by pwp_step.
Qed.

Lemma keeps_stable_tree_insert kpage h : ksm_held kpage → kept h → pwp (stable_tree_insert kpage) h (λ _ h', kept h').
Proof.
  intros Hh Hk. unfold stable_tree_insert. do 2 pwp_step. pwp_step.
  eapply pwp_mono; [by apply keeps_search_place|]. intros [d|] h1 Hk1; [by apply keeps_link_new_node|by pwp_step].
Qed.
End insert.

#[export] Hint Resolve keeps_stable_tree_append : keeps.
