(* ===== verification/HostMergeSafe.v ===== *)
(** * HostMergeSafe: merging pages is invisible to the processes

    The operations of HostMerge and HostApply keep [from]: at each step under
    a page-table lock, what an address maps has the content the process stored
    last; between the steps everything [rely] allows may happen. *)
From S2P Require Import Prelude Wire HashPair Growable Shadow Server HostMem HostTree HostMerge HostApply HostSafe.
Open Scope Z_scope.

Lemma mappings_update t k e e' p :
  t !! k = Some e →
  mappings (<[k := e']> t) p = mappings t p - (if pte_pfn e =? p then 1 else 0) + (if pte_pfn e' =? p then 1 else 0).
Proof. intros Hk. unfold mappings. by rewrite (msum_update _ _ _ _ _ Hk). Qed.

Lemma mappings_pos t k e : t !! k = Some e → 0 < mappings t (pte_pfn e).
Proof.
  intros Hk. unfold mappings. assert (∀ k' (e' : pte), t !! k' = Some e' → 0 ≤ (if pte_pfn e' =? pte_pfn e then 1 else 0)) as Hnn.
  { intros. by case_match. }
  pose proof (msum_le _ t k e Hnn Hk) as Hle. simpl in Hle. rewrite Z.eqb_refl in Hle. lia.
Qed.

(** ** Splitting *)
Lemma from_split h0 δ Λ h (sel : frame → bool) :
  from h0 δ Λ h → from h0 δ Λ (with_mem (on_frames (fmap (λ fr, if sel fr then set_head None fr else fr))) h).
Proof.
  intros [F0 F1 F2 F3 F4 F5 F6 F7 F8]. set (g := λ fr : frame, if sel fr then set_head None fr else fr).
  assert (Hg : ∀ fr, fr_content (g fr) = fr_content fr ∧ fr_excl (g fr) = fr_excl fr ∧ fr_writers (g fr) = fr_writers fr ∧
    fr_pinned (g fr) = fr_pinned fr ∧ fr_extra (g fr) = fr_extra fr ∧ fr_kref (g fr) = fr_kref fr ∧
    fr_mapcount (g fr) = fr_mapcount fr ∧ fr_mapping (g fr) = fr_mapping fr ∧ fr_lock (g fr) = fr_lock fr ∧
    page_count (g fr) = page_count fr ∧ PageKsm (g fr) = PageKsm fr).
  { intros fr. unfold g. by destruct (sel fr). }
  assert (Hl : ∀ p fr', (g <$> frames (h_mem h)) !! p = Some fr' → ∃ fr, frames (h_mem h) !! p = Some fr ∧ fr' = g fr).
  { intros p fr' Hp. rewrite lookup_fmap in Hp. destruct (frames (h_mem h) !! p) as [fr|] eqn:E; [|done].
    injection Hp as <-. by exists fr. }
  split; simpl; try done; fold g.
  - destruct F1 as [W X D K R MC SZ Z AR]. split; simpl.
    + intros k e fr' Hk Hp. destruct (Hl _ _ Hp) as (fr & Hp' & ->). destruct (Hg fr) as (_ & -> & _). by eapply W.
    + intros k1 k2 e1 e2 fr' H1 H2 E Hp. destruct (Hl _ _ Hp) as (fr & Hp' & ->). destruct (Hg fr) as (_ & -> & _). by eapply X.
    + intros p fr' Hp. destruct (Hl _ _ Hp) as (fr & Hp' & ->). destruct (Hg fr) as (_ & -> & -> & -> & -> & _). by eapply D.
    + intros p fr' Hp. destruct (Hl _ _ Hp) as (fr & Hp' & ->). destruct (Hg fr) as (_ & -> & _ & _ & _ & _ & _ & _ & _ & -> & ->). by eapply K.
    + intros p fr' Hp. destruct (Hl _ _ Hp) as (fr & Hp' & ->). destruct (Hg fr) as (_ & _ & _ & _ & -> & -> & -> & _). by eapply R.
    + intros p fr' Hp Hz. destruct (Hl _ _ Hp) as (fr & Hp' & ->). destruct (Hg fr) as (_ & _ & _ & _ & _ & _ & -> & _). by eapply MC.
    + intros p q fr' fq' Hp Hq. destruct (Hl _ _ Hp) as (fr & Hp' & ->). destruct (Hl _ _ Hq) as (fq & Hq' & ->).
      destruct (Hg fr) as (-> & _). destruct (Hg fq) as (-> & _). by eapply SZ.
    + intros fr' Hp. destruct (Hl _ _ Hp) as (fr & Hp' & ->). destruct (Hg fr) as (_ & _ & _ & _ & _ & _ & _ & -> & _). by eapply Z.
    + exact AR.
  - intros k e Hk. destruct (F2 k e Hk) as (fr & Hp & Hu). exists (g fr). simpl. fold g. rewrite lookup_fmap, Hp. split; [done|].
    destruct (Hg fr) as (-> & _). done.
  - by rewrite dom_fmap_L.
  - intros p fr0 fr' Hp0 Hp. destruct (Hl _ _ Hp) as (fr & Hp' & ->). destruct (F6 p fr0 fr Hp0 Hp') as [A1 A2 A3].
    destruct (Hg fr) as (E1 & E2 & E3 & _ & _ & E6 & _ & _ & E9 & _ & E11). split; [lia|by rewrite E9|].
    intros Hz. rewrite E1, E2, E3, E11. by apply A3.
Qed.

(** ** Write protection *)

(** The page is locked by the daemon, which holds a reference. *)
Definition locked_held (h0 : host) (Λ : list Z) (p : Z) : Prop :=
  p ∈ Λ ∧ ∃ fr0, frames (h_mem h0) !! p = Some fr0 ∧ 0 < fr_kref fr0.

(** Nobody can write to the page any more. *)
Definition unwritable (p : Z) (h : host) : Prop :=
  ∃ fr, frames (h_mem h) !! p = Some fr ∧ frozen fr ∧ p ≠ zero_pfn (h_mem h).

Lemma from_protect h0 δ Λ h p k e fr (b : bool) :
  from h0 δ Λ h → p ≠ zero_pfn (h_mem h) → frames (h_mem h) !! p = Some fr →
  ptes (h_mem h) !! k = Some e → pte_pfn e = p → PageKsm fr = false →
  (fr_writers fr = true → False) →
  from h0 δ Λ (with_mem (on_ptes (<[k := protect e]>))
    (with_mem (on_frames (<[p := (if b then set_dirty true else id) (set_excl false fr)]>)) h)).
Proof.
  intros [F0 F1 F2 F3 F4 F5 F6 F7 F8] Hnz Hp Hk He Hks Hw.
  set (fr' := (if b then set_dirty true else id) (set_excl false fr)).
  assert (fr_content fr' = fr_content fr ∧ fr_excl fr' = false ∧ fr_writers fr' = fr_writers fr ∧ fr_pinned fr' = fr_pinned fr ∧
    fr_extra fr' = fr_extra fr ∧ fr_kref fr' = fr_kref fr ∧ fr_mapcount fr' = fr_mapcount fr ∧ fr_mapping fr' = fr_mapping fr ∧
    fr_lock fr' = fr_lock fr) as (G1 & G2 & G3 & G4 & G5 & G6 & G7 & G8 & G9) by (unfold fr'; by destruct b).
  assert (fr_writers fr = false) as Hw' by (destruct (fr_writers fr); [by destruct Hw|done]).
  assert (PageKsm fr' = false) as Hks' by (unfold PageKsm in *; by rewrite G8).
  assert (Hl : ∀ q f, <[p := fr']> (frames (h_mem h)) !! q = Some f → (q = p ∧ f = fr') ∨ (q ≠ p ∧ frames (h_mem h) !! q = Some f)).
  { intros q f Hq. destruct (decide (q = p)) as [->|Hne].
    - rewrite lookup_insert_eq in Hq. injection Hq as <-. by left.
    - rewrite lookup_insert_ne in Hq by done. by right. }
  assert (Hl2 : ∀ k1 e1, <[k := protect e]> (ptes (h_mem h)) !! k1 = Some e1 →
    ∃ e2, ptes (h_mem h) !! k1 = Some e2 ∧ pte_pfn e2 = pte_pfn e1 ∧ (pte_write e1 = true → pte_write e2 = true ∧ k1 ≠ k)).
  { intros k1 e1 Hk1. destruct (decide (k1 = k)) as [->|Hne].
    - rewrite lookup_insert_eq in Hk1. injection Hk1 as <-. by exists e.
    - rewrite lookup_insert_ne in Hk1 by done. by exists e1. }
  split; simpl; try done.
  - pose proof F1 as [W X D K R MC SZ Z AR]. split; simpl.
    + intros k1 e1 f Hk1 Hq Hw1. destruct (Hl2 _ _ Hk1) as (e2 & Hk2 & E2 & Hw2). destruct (Hw2 Hw1) as [Hw3 Hne].
      destruct (Hl _ _ Hq) as [[Hpp ->]|[_ Hq']]; [|rewrite <- E2 in Hq'; by eapply W].
      exfalso. apply Hne. rewrite <- E2 in Hpp. eapply (X k1 k e2 e fr); [done|done|congruence|congruence|].
      eapply (W k1 e2); [done|congruence|done].
    + intros k1 k2 e1 e2 f H1 H2 E Hq Hx. destruct (Hl _ _ Hq) as [[_ ->]|[_ Hq']]; [congruence|].
      destruct (Hl2 _ _ H1) as (e1' & H1' & E1 & _). destruct (Hl2 _ _ H2) as (e2' & H2' & E2 & _).
      rewrite <- E1 in Hq'. eapply X; [exact H1'|exact H2'|congruence|exact Hq'|done].
    + intros q f Hq Hwr. destruct (Hl _ _ Hq) as [[-> ->]|[_ Hq']]; [congruence|by eapply D].
    + intros q f Hq Hk1. destruct (Hl _ _ Hq) as [[-> ->]|[_ Hq']]; [congruence|by eapply K].
    + intros q f Hq. destruct (Hl _ _ Hq) as [[-> ->]|[_ Hq']]; [rewrite G5, G6, G7; by eapply R|by eapply R].
    + intros q f Hq Hz. rewrite (mappings_update _ _ e) by done. simpl.
      replace (mappings (ptes (h_mem h)) q - _ + _) with (mappings (ptes (h_mem h)) q) by lia.
      destruct (Hl _ _ Hq) as [[-> ->]|[_ Hq']]; [rewrite G7; by apply MC|by apply MC].
    + intros q1 q2 f1 f2 H1 H2. destruct (Hl _ _ H1) as [[-> ->]|[_ H1']], (Hl _ _ H2) as [[-> ->]|[_ H2']]; rewrite ?G1; [done|by eapply SZ..].
    + intros f Hq. destruct (Hl _ _ Hq) as [[Hz _]|[_ Hq']]; [by rewrite Hz in Hnz|by apply Z].
    + exact AR.
  - intros k1 e1 Hk1. destruct (Hl2 _ _ Hk1) as (e2 & Hk2 & E2 & _). destruct (F2 _ _ Hk2) as (f & Hf & Hu). rewrite <- E2.
    destruct (decide (pte_pfn e2 = p)) as [Hpp|Hne].
    + exists fr'. simpl. fold fr'. rewrite Hpp, lookup_insert_eq. split; [done|]. rewrite Hpp in Hf. rewrite G1. congruence.
    + exists f. simpl. by rewrite lookup_insert_ne by done.
  - rewrite dom_insert_L, <- F5. assert (p ∈ dom (frames (h_mem h))) by by apply elem_of_dom. set_solver.
  - intros q fr0 f H0 Hq. destruct (Hl _ _ Hq) as [[-> ->]|[_ Hq']]; [|by apply F6].
    destruct (F6 p fr0 fr H0 Hp) as [A1 A2 A3]. split; [lia|by rewrite G9|]. intros Hz.
    destruct (A3 Hz) as (B1 & B2 & B3 & B4). split_and!; [congruence|done|congruence|]. intros Hk0. specialize (B4 Hk0). congruence.
Qed.

Section merge.
Context `{RbTree} `{Memcmp} `{MmFault} (h0 : host) (δ Λ : list Z).
Abbreviation kept := (from h0 δ Λ).

Lemma keeps_split_huge_page p h : kept h → pwp (split_huge_page p) h (λ _ h', kept h').
Proof.
  intros Hk. unfold split_huge_page. pwp_step. apply pwp_get_frame. intros fr Hp. destruct (fr_splittable fr); [|by pwp_step].
  do 3 pwp_step. by apply (from_split h0 δ Λ h (λ fr', bool_decide (fr_head fr' = fr_head fr))).
Qed.

Lemma locked_held_now p h fr :
  locked_held h0 Λ p → kept h → frames (h_mem h) !! p = Some fr → 0 < fr_kref fr ∧ fr_lock fr = LockedByKsmd.
Proof.
  intros (Hin & fr0 & Hp0 & Hk0) Hk Hp. destruct (from_frame _ _ _ _ _ _ Hk Hp0) as (fr1 & Hp1 & [F1 F2 _]).
  rewrite Hp in Hp1. injection Hp1 as <-. pose proof (occ_nonneg p δ). split; [lia|]. apply F2. by right.
Qed.

Lemma page_address_anon fr v a : page_address_in_vma fr v = Some a → fr_mapping fr = MapAnon.
Proof. unfold page_address_in_vma. by destruct (fr_mapping fr). Qed.

Lemma keeps_write_protect_page mm v p h :
  locked_held h0 Λ p → kept h →
  pwp (write_protect_page mm v p) h (λ r h', kept h' ∧ match r with Some e => pte_pfn e = p ∧ unwritable p h' | None => True end).
Proof.
  intros Hl Hk. unfold write_protect_page. pwp_step. apply pwp_get_frame. intros fr Hp.
  assert (Hfail : ∀ r, pwp (count_fail r ;; mret (None : option pte)) h
    (λ r h', kept h' ∧ match r with Some e => pte_pfn e = p ∧ unwritable p h' | None => True end)).
  { intros r. pwp_step. eapply pwp_mono; [by apply keeps_count_fail|]. intros [] h1 Hk1. by pwp_step. }
  destruct (page_address_in_vma fr v) as [a|] eqn:Ha; [|apply Hfail]. apply page_address_anon in Ha.
  do 4 pwp_step. destruct (ptes (h_mem h) !! (mm, a)) as [e|] eqn:He; [|by pwp_step].
  destruct (Z.eqb_spec (pte_pfn e) p) as [Hpp|]; simpl; [|by pwp_step].
  destruct (locked_held_now p h fr Hl Hk Hp) as [Hkr Hlk]. pose proof (fm_ok _ _ _ _ Hk) as Hok.
  assert (p ≠ zero_pfn (h_mem h)) as Hnz.
  { intros ->. pose proof (mo_zero _ Hok fr Hp). congruence. }
  destruct (pte_write e || pte_dirty e || fr_excl fr || _) eqn:Hc.
  - destruct (Z.eqb_spec (fr_mapcount fr + 1 + (if fr_swapcache fr then 1 else 0)) (page_count fr)) as [Hcnt|]; simpl; [|apply Hfail].
    destruct (fr_excl fr && fr_pinned fr) eqn:Hpin; [apply Hfail|].
    assert (fr_writers fr = true → False) as Hnw.
    { intros Hw. destruct (mo_writers _ Hok p fr Hp Hw) as [Hx Hy]. rewrite Hx in Hpin. simpl in Hpin.
      destruct (mo_refs _ Hok p fr Hp) as (R1 & R2 & R3). destruct Hy as [Hy|Hy]; [congruence|].
      unfold page_count in Hcnt. lia. }
    pwp_step. apply pwp_upd_frame. intros fr1 Hp1. rewrite Hp in Hp1. injection Hp1 as <-.
    unfold set_pte. do 3 pwp_step. split; [|split; [done|]].
    + apply from_protect; try done. by unfold PageKsm; rewrite Ha.
    + eexists. simpl. rewrite lookup_insert_eq. split; [done|]. assert (fr_writers fr = false) by (destruct (fr_writers fr); [by destruct Hnw|done]).
      destruct (pte_dirty e); (split; [split_and!; [done|done|done|by right]|done]).
  - pwp_step. split; [done|]. split; [done|]. exists fr. split; [done|].
    apply orb_false_iff in Hc as [Hc _]. apply orb_false_iff in Hc as [_ Hx]. split; [|done].
    split_and!; [done|done| |by right]. destruct (fr_writers fr) eqn:Hw; [|done].
    destruct (mo_writers _ Hok p fr Hp Hw). congruence.
Qed.
End merge.

(** ** Replacement *)
Definition unmap_frame (fr : frame) : frame :=
  let fr' := add_mapcount (-1) fr in if page_mapped fr' then fr' else set_swapcache false fr'.

(** An entry mapping [p] is made to map [q], read-only; both pages are frozen
    and read the same. *)
Lemma from_replace h0 δ Λ h p q k e fr qfr :
  from h0 δ Λ h → p ≠ zero_pfn (h_mem h) → q ≠ zero_pfn (h_mem h) →
  frames (h_mem h) !! p = Some fr → frames (h_mem h) !! q = Some qfr →
  ptes (h_mem h) !! k = Some e → pte_pfn e = p → PageKsm fr = false → PageKsm qfr = true →
  fr_content fr = fr_content qfr →
  from h0 δ Λ (with_mem (on_frames (<[p := unmap_frame fr]>)) (with_mem (on_ptes (<[k := Pte q false false 0]>))
    (with_mem (on_frames (<[q := add_mapcount 1 qfr]>)) h))).
Proof.
  intros [F0 F1 F2 F3 F4 F5 F6 F7 F8] Hnzp Hnzq Hp Hq Hk He Hks Hqks Heq.
  set (fr' := unmap_frame fr). set (qfr' := add_mapcount 1 qfr).
  assert (p ≠ q) as Hpq by congruence.
  assert (fr_content fr' = fr_content fr ∧ fr_excl fr' = fr_excl fr ∧ fr_writers fr' = fr_writers fr ∧ fr_pinned fr' = fr_pinned fr ∧
    fr_extra fr' = fr_extra fr ∧ fr_kref fr' = fr_kref fr ∧ fr_mapcount fr' = fr_mapcount fr - 1 ∧ fr_mapping fr' = fr_mapping fr ∧
    fr_lock fr' = fr_lock fr) as (G1 & G2 & G3 & G4 & G5 & G6 & G7 & G8 & G9)
    by (unfold fr', unmap_frame; by destruct (page_mapped _)).
  assert (PageKsm fr' = false) as Hks' by (unfold PageKsm in *; by rewrite G8).
  pose proof F1 as [W X D K R MC SZ Z AR]. destruct (K q qfr Hq Hqks) as [Hqx Hqc].
  assert (0 < fr_mapcount fr) as Hmc.
  { rewrite (MC p fr Hp Hnzp), <- He. by eapply mappings_pos. }
  assert (Hl : ∀ r f, <[p := fr']> (<[q := qfr']> (frames (h_mem h))) !! r = Some f →
    (r = p ∧ f = fr') ∨ (r = q ∧ f = qfr') ∨ (r ≠ p ∧ r ≠ q ∧ frames (h_mem h) !! r = Some f)).
  { intros r f Hr. destruct (decide (r = p)) as [->|Hne].
    - rewrite lookup_insert_eq in Hr. injection Hr as <-. by left.
    - rewrite lookup_insert_ne in Hr by done. right. destruct (decide (r = q)) as [->|Hne2].
      + rewrite lookup_insert_eq in Hr. injection Hr as <-. by left.
      + rewrite lookup_insert_ne in Hr by done. by right. }
  assert (Hl2 : ∀ k1 e1, <[k := Pte q false false 0]> (ptes (h_mem h)) !! k1 = Some e1 →
    (k1 = k ∧ pte_pfn e1 = q ∧ pte_write e1 = false) ∨ (k1 ≠ k ∧ ptes (h_mem h) !! k1 = Some e1)).
  { intros k1 e1 Hk1. destruct (decide (k1 = k)) as [->|Hne].
    - rewrite lookup_insert_eq in Hk1. injection Hk1 as <-. by left.
    - rewrite lookup_insert_ne in Hk1 by done. by right. }
  split; simpl; try done.
  - split; simpl.
    + intros k1 e1 f Hk1 Hr Hw1. destruct (Hl2 _ _ Hk1) as [(_ & _ & E)|[Hne Hk1']]; [congruence|].
      destruct (Hl _ _ Hr) as [[Hpp ->]|[[Hqq ->]|(_ & _ & Hr')]].
      * rewrite G2. eapply W; [exact Hk1'|congruence|done].
      * eapply (W k1 e1 qfr); [exact Hk1'|congruence|done].
      * by eapply W.
    + intros k1 k2 e1 e2 f H1 H2 E Hr Hx.
      assert (pte_pfn e1 ≠ q) as Hnq.
      { intros Hq1. rewrite Hq1 in Hr. destruct (Hl _ _ Hr) as [[? _]|[[_ ->]|(_ & ? & _)]]; [by destruct Hpq| |done].
        unfold qfr' in Hx. simpl in Hx. congruence. }
      destruct (Hl2 _ _ H1) as [(_ & ? & _)|[Hne1 H1']]; [done|]. destruct (Hl2 _ _ H2) as [(_ & ? & _)|[Hne2 H2']]; [congruence|].
      destruct (Hl _ _ Hr) as [[Hpp ->]|[[Hqq ->]|(_ & _ & Hr')]]; [|done|].
      * rewrite G2 in Hx. eapply (X k1 k2 e1 e2 fr); try done. by rewrite Hpp.
      * by eapply (X k1 k2 e1 e2 f).
    + intros r f Hr Hwr. destruct (Hl _ _ Hr) as [[-> ->]|[[-> ->]|(_ & _ & Hr')]].
      * rewrite G2, G4, G5. rewrite G3 in Hwr. by eapply D.
      * by apply (D q qfr).
      * by eapply D.
    + intros r f Hr Hk1. destruct (Hl _ _ Hr) as [[-> ->]|[[-> ->]|(_ & _ & Hr')]]; [congruence| |by eapply K].
      split; [done|]. unfold page_count in *. simpl. lia.
    + intros r f Hr. destruct (Hl _ _ Hr) as [[-> ->]|[[-> ->]|(_ & _ & Hr')]]; [| |by eapply R].
      * rewrite G5, G6, G7. destruct (R p fr Hp) as (? & ? & ?). lia.
      * destruct (R q qfr Hq) as (? & ? & ?). simpl. lia.
    + intros r f Hr Hz. rewrite (mappings_update _ _ e) by done. simpl. rewrite He.
      destruct (Hl _ _ Hr) as [[-> ->]|[[-> ->]|(Hrp & Hrq & Hr')]].
      * rewrite Z.eqb_refl. destruct (Z.eqb_spec q p); [congruence|]. rewrite G7, (MC p fr Hp Hz). lia.
      * rewrite Z.eqb_refl. destruct (Z.eqb_spec p q); [congruence|]. simpl. rewrite (MC q qfr Hq Hz). lia.
      * destruct (Z.eqb_spec p r); [congruence|]. destruct (Z.eqb_spec q r); [congruence|]. rewrite (MC r f Hr' Hz). lia.
    + intros r1 r2 f1 f2 H1 H2.
      assert (∀ r f, <[p := fr']> (<[q := qfr']> (frames (h_mem h))) !! r = Some f →
        ∃ r' f', frames (h_mem h) !! r' = Some f' ∧ fr_content f = fr_content f') as Hc.
      { intros r f Hr. destruct (Hl _ _ Hr) as [[-> ->]|[[-> ->]|(_ & _ & Hr')]]; [by exists p, fr|by exists q, qfr|by exists r, f]. }
      destruct (Hc _ _ H1) as (? & ? & ? & ->), (Hc _ _ H2) as (? & ? & ? & ->). by eapply SZ.
    + intros f Hr. destruct (Hl _ _ Hr) as [[E _]|[[E _]|(_ & _ & Hr')]]; [by rewrite E in Hnzp|by rewrite E in Hnzq|by apply Z].
    + exact AR.
  - intros k1 e1 Hk1. simpl. fold fr' qfr'. destruct (Hl2 _ _ Hk1) as [(-> & E & _)|[Hne Hk1']].
    + rewrite E. exists qfr'. rewrite lookup_insert_ne, lookup_insert_eq by done. split; [done|].
      destruct (F2 _ _ Hk) as (f & Hf & Hu). rewrite He, Hp in Hf. injection Hf as <-. unfold qfr'. simpl. congruence.
    + destruct (F2 _ _ Hk1') as (f & Hf & Hu). destruct (decide (pte_pfn e1 = p)) as [Hpp|Hnp].
      * exists fr'. rewrite Hpp, lookup_insert_eq. split; [done|]. rewrite G1. congruence.
      * rewrite lookup_insert_ne by done. destruct (decide (pte_pfn e1 = q)) as [Hqq|Hnq].
        -- exists qfr'. rewrite Hqq, lookup_insert_eq. split; [done|]. unfold qfr'. simpl. congruence.
        -- exists f. by rewrite lookup_insert_ne by done.
  - rewrite !dom_insert_L, <- F5. assert (p ∈ dom (frames (h_mem h)) ∧ q ∈ dom (frames (h_mem h))) as [? ?].
    { split; by apply elem_of_dom. } set_solver.
  - intros r fr0 f H0 Hr. destruct (Hl _ _ Hr) as [[-> ->]|[[-> ->]|(_ & _ & Hr')]]; [| |by apply F6].
    + destruct (F6 p fr0 fr H0 Hp) as [A1 A2 A3]. split; [lia|by rewrite G9|]. intros Hz.
      destruct (A3 Hz) as (B1 & B2 & B3 & B4). split_and!; [congruence..|]. intros Hk0. specialize (B4 Hk0). congruence.
    + destruct (F6 q fr0 qfr H0 Hq) as [A1 A2 A3]. by split.
Qed.

Lemma ksm_not_zero h p fr : safe h → frames (h_mem h) !! p = Some fr → PageKsm fr = true → p ≠ zero_pfn (h_mem h).
Proof. intros [Hok _ _] Hp Hks ->. pose proof (mo_zero _ Hok fr Hp) as E. unfold PageKsm in Hks. by rewrite E in Hks. Qed.

Section replace.
Context `{RbTree} `{Memcmp} `{MmFault} (h0 : host) (δ Λ : list Z).
Abbreviation kept := (from h0 δ Λ).

Lemma keeps_replace_page mm v p q orig h fr0 qfr0 :
  frames (h_mem h0) !! p = Some fr0 → frozen fr0 → frames (h_mem h0) !! q = Some qfr0 → frozen qfr0 → PageKsm qfr0 = true →
  fr_content fr0 = fr_content qfr0 → pte_pfn orig = p → kept h →
  pwp (replace_page mm v p q orig) h (λ _ h', kept h').
Proof.
  intros Hp0 Hz0 Hq0 Hqz0 Hqk0 Heq0 Hop Hk. unfold replace_page. pwp_step. apply pwp_get_frame. intros fr Hp.
  destruct (page_address_in_vma fr v) as [a|] eqn:Ha; [|by pwp_step]. apply page_address_anon in Ha.
  do 2 pwp_step. destruct (ptes (h_mem h) !! (mm, a)) as [e|] eqn:He; [|by pwp_step].
  case_bool_decide as Hee; simpl; [|by pwp_step]. rewrite Hee in He. clear Hee e.
  destruct (from_frozen _ _ _ _ _ _ Hk Hp0 Hz0) as (fr1 & Hp1 & Hz1 & Hc1 & _). rewrite Hp in Hp1. injection Hp1 as <-.
  destruct (from_frozen _ _ _ _ _ _ Hk Hq0 Hqz0) as (qfr & Hq & Hqz & Hqc & Hqk). specialize (Hqk Hqk0).
  assert (PageKsm fr = false) as Hks by (unfold PageKsm; by rewrite Ha).
  assert (p ≠ q) as Hpq by congruence.
  pose proof (ksm_not_zero _ _ _ (from_safe _ _ _ _ Hk) Hq Hqk) as Hnzq.
  assert (p ≠ zero_pfn (h_mem h)) as Hnzp.
  { intros ->. pose proof (mo_zero _ (fm_ok _ _ _ _ Hk) fr Hp). congruence. }
  destruct (Z.eqb_spec q (zero_pfn (h_mem h))) as [|_]; [done|]. simpl.
  pwp_step. pwp_step. apply pwp_upd_frame. intros qfr' Hq'. rewrite Hq in Hq'. injection Hq' as <-. pwp_step.
  unfold set_pte. do 2 pwp_step. pwp_step. apply pwp_upd_frame. simpl. rewrite lookup_insert_ne by done.
  intros fr2 Hp2. rewrite Hp in Hp2. injection Hp2 as <-. pwp_step.
  apply (from_replace _ _ _ _ _ _ _ orig); try done. congruence.
Qed.

Lemma pwp_pages_identical p q h (Q : bool → host → Prop) :
  (∀ fr qfr, frames (h_mem h) !! p = Some fr → frames (h_mem h) !! q = Some qfr →
     Q (memcmp (fr_content fr) (fr_content qfr) =? 0) h) → pwp (pages_identical p q) h Q.
Proof.
  intros HQ. unfold pages_identical. pwp_step. apply pwp_get_frame. intros fr Hp. pwp_step. apply pwp_get_frame. intros qfr Hq.
  pwp_step. by apply HQ.
Qed.

End replace.

Section merge_one.
Context `{RbTree} `{Memcmp} `{MmFault} (h0 : host) (δ Λ : list Z).
Abbreviation kept := (from h0 δ Λ).

(** The page has become a KSM page. *)
Definition promoted (p : Z) (h : host) : Prop := ∃ fr, frames (h_mem h) !! p = Some fr ∧ PageKsm fr = true.

(** The page the others are replaced by, if one is given. *)
Definition target_ok (kpage : option Z) : Prop := match kpage with Some q => ksm_held h0 q | None => True end.

Lemma from_rebase h1 h : kept h1 → from h1 [] [] h → kept h.
Proof. intros F1 F2. by apply (from_trans _ _ _ _ _ _ _ F1 F2). Qed.

Lemma keeps_merge_locked mm v p kpage h :
  locked_held h0 Λ p → target_ok kpage → kept h →
  pwp (merge_locked mm v p kpage) h (λ r h', kept h' ∧ (r = true → kpage = None → promoted p h')).
Proof.
  intros Hl Ht Hk. unfold merge_locked. pwp_step. apply pwp_get_frame. intros fr _. pwp_step.
  eapply (pwp_mono _ _ (λ _ h', kept h')).
  { destruct (PageTransCompound fr); [by apply keeps_split_huge_page|by pwp_step]. }
  intros split h1 Hk1. destruct split; simpl; cycle 1.
  { pwp_step. eapply pwp_mono; [by apply keeps_count_fail|]. intros [] h2 Hk2. by pwp_step. }
  pwp_step. eapply pwp_mono; [by apply keeps_write_protect_page|]. intros w h2 [Hk2 Hw].
  pwp_step. eapply pwp_mono; [apply (keeps_interfere h2 [] []); apply from_refl; by eapply from_safe|].
  intros [] h3 Hk3. destruct w as [orig|]; [|pwp_step; split; [by eapply from_rebase|done]].
  destruct Hw as (Hop & fr2 & Hp2 & Hz2 & Hm2). destruct kpage as [q|].
  - destruct Ht as (qfr0 & Hq0 & Hqz0 & Hqk0). pose proof (from_rebase _ _ Hk2 Hk3) as Hk3'.
    destruct (from_frozen _ _ _ _ _ _ Hk3 Hp2 Hz2) as (fr3 & Hp3 & Hz3 & _).
    destruct (from_frozen _ _ _ _ _ _ Hk3' Hq0 Hqz0) as (qfr3 & Hq3 & Hqz3 & _ & Hqk3). specialize (Hqk3 Hqk0).
    pwp_step. apply pwp_pages_identical. intros fr3' qfr3' Hp3' Hq3'.
    rewrite Hp3 in Hp3'. injection Hp3' as <-. rewrite Hq3 in Hq3'. injection Hq3' as <-.
    pwp_step. eapply pwp_mono; [apply (keeps_interfere h3 [] []); apply from_refl; by eapply from_safe|]. intros [] h4 Hk4.
    destruct (Z.eqb_spec (memcmp (fr_content fr3) (fr_content qfr3)) 0) as [Hc|_].
    + eapply pwp_mono.
      { eapply (keeps_replace_page h3 [] []); [exact Hp3|done|exact Hq3|done|done| |done|done].
        apply memcmp_zero; [|done]. by eapply (mo_size _ (fm_ok _ _ _ _ Hk3')). }
      intros r h5 Hk5. split; [|done]. by eapply from_rebase.
    + pwp_step. eapply pwp_mono; [eapply keeps_count_fail; by eapply from_rebase|]. intros [] h5 Hk5. by pwp_step.
  - destruct (from_frozen _ _ _ _ _ _ Hk3 Hp2 Hz2) as (fr3 & Hp3 & Hz3 & _). pose proof (from_rebase _ _ Hk2 Hk3) as Hk3'.
    pwp_step. apply pwp_upd_frame. intros fr3' Hp3'. rewrite Hp3 in Hp3'. injection Hp3' as <-. pwp_step. split.
    + pose proof (fm_ok _ _ _ _ Hk3') as Hok. destruct Hz3 as (Z1 & Z2 & Z3 & Z4). eapply from_update; [exact Hk3'|exact Hp3| |done|].
      * destruct (mo_refs _ Hok p fr3 Hp3) as (R1 & R2 & R3). split; try done; simpl.
        -- right; right. by rewrite (fm_zero _ _ _ _ Hk3).
        -- intros _. split; [done|]. unfold page_count. simpl. destruct (fr_swapcache fr3); lia.
      * intros fr0 _ [A1 A2 A3]. split; [done|done|]. intros Hz. destruct (A3 Hz) as (B1 & B2 & B3 & _). done.
    + intros _ _. exists (set_dirty true (set_mapping (MapKsm None) fr3)). simpl. by rewrite lookup_insert_eq.
Qed.
End merge_one.

(** ** Whole merges *)
Definition page_held (h0 : host) (p : Z) : Prop := ∃ fr0, frames (h_mem h0) !! p = Some fr0 ∧ 0 < fr_kref fr0.

Lemma page_held_from h0 δ Λ h p : from h0 δ Λ h → page_held h0 p → page_held h p.
Proof.
  intros Hk (fr0 & Hp0 & Hk0). destruct (from_frame _ _ _ _ _ _ Hk Hp0) as (fr & Hp & [F1 _ _]).
  exists fr. split; [done|]. pose proof (occ_nonneg p δ). lia.
Qed.

Lemma ksm_held_from h0 δ Λ h p : from h0 δ Λ h → ksm_held h0 p → ksm_held h p.
Proof.
  intros Hk (fr0 & Hp0 & Hz & Hks). destruct (from_frozen _ _ _ _ _ _ Hk Hp0 Hz) as (fr & Hp & Hz' & _ & Hks').
  exists fr. split_and!; [done|done|by apply Hks'].
Qed.

(** A KSM page the daemon holds is frozen. *)
Lemma held_ksm_frozen h p fr :
  safe h → frames (h_mem h) !! p = Some fr → 0 < fr_kref fr → PageKsm fr = true → ksm_held h p.
Proof.
  intros [Hok _ _] Hp Hk Hks. exists fr. split; [done|]. split; [|done]. destruct (mo_ksm _ Hok p fr Hp Hks) as [Hx _].
  split_and!; [done|done| |by left]. destruct (fr_writers fr) eqn:Hw; [|done]. destruct (mo_writers _ Hok p fr Hp Hw). congruence.
Qed.

Lemma promoted_held h0 δ Λ h p : from h0 δ Λ h → page_held h0 p → promoted p h → ksm_held h p.
Proof.
  intros Hk Hh (fr & Hp & Hks). destruct (page_held_from _ _ _ _ _ Hk Hh) as (fr1 & Hp1 & Hk1).
  rewrite Hp in Hp1. injection Hp1 as <-. eapply held_ksm_frozen; [by eapply from_safe|done..].
Qed.

Section try_merge.
Context `{RbTree} `{Memcmp} `{MmFault} (h0 : host) (δ Λ : list Z).
Abbreviation kept := (from h0 δ Λ).

Lemma keeps_try_to_merge_one_page mm v p kpage h :
  page_held h0 p → target_ok h0 kpage → kept h →
  pwp (try_to_merge_one_page mm v p kpage) h (λ r h', kept h' ∧ (r = true → kpage = None → promoted p h')).
Proof.
  intros Hh Ht Hk. unfold try_to_merge_one_page. case_bool_decide as E; [pwp_step; split; [done|congruence]|].
  pwp_step. apply pwp_get_frame. intros fr _. destruct (PageAnon fr); simpl; cycle 1.
  { pwp_step. eapply pwp_mono; [by apply keeps_count_fail|]. intros [] h1 Hk1. by pwp_step. }
  pwp_step. eapply pwp_mono; [by apply keeps_trylock_page|]. intros locked h1 Hk1. destruct locked; simpl; cycle 1.
  { pwp_step. eapply pwp_mono; [by apply keeps_count_fail|]. intros [] h2 Hk2. by pwp_step. }
  destruct Hk1 as [Hk1 Hn]. pwp_step. eapply pwp_mono; [by apply keeps_interfere|]. intros [] h2 Hk2.
  pwp_step. eapply pwp_mono.
  { eapply (keeps_merge_locked h0 δ (p :: Λ)); [|done|done]. split; [set_solver|]. done. }
  intros r h3 [Hk3 Hr]. pwp_step. unfold unlock_page. apply pwp_upd_frame. intros fr3 Hp3. pwp_step. split.
  - by apply from_unlock.
  - intros -> ->. destruct (Hr eq_refl eq_refl) as (fr4 & Hp4 & Hks). rewrite Hp3 in Hp4. injection Hp4 as <-.
    exists (set_lock Unlocked fr3). simpl. by rewrite lookup_insert_eq.
Qed.

Lemma keeps_try_to_merge_with_ksm_page i p kpage h :
  page_held h0 p → target_ok h0 kpage → kept h →
  pwp (try_to_merge_with_ksm_page i p kpage) h (λ r h', kept h' ∧ (r = true → kpage = None → promoted p h')).
Proof.
  intros Hh Ht Hk. unfold try_to_merge_with_ksm_page. pwp_step. apply pwp_get_kitem. intros it _.
  pwp_step. eapply pwp_mono; [by apply keeps_interfere|]. intros [] h1 Hk1. do 2 pwp_step.
  destruct (find_mergeable_vma _ _ _) as [v|]; cycle 1.
  { pwp_step. eapply pwp_mono; [by apply keeps_count_fail|]. intros [] h2 Hk2. by pwp_step. }
  pwp_step. eapply pwp_mono; [by apply keeps_try_to_merge_one_page|]. intros ok h2 [Hk2 Hr]. destruct ok; simpl; [|by pwp_step].
  pwp_step. eapply pwp_mono.
  { apply (keeps_remove_rmap_item h2 [] []). apply from_refl. by eapply from_safe. }
  intros [] h3 Hk3. pwp_step. eapply pwp_mono; [by apply (keeps_upd_kitem h2 [] [])|]. intros [] h4 Hk4.
  pwp_step. eapply pwp_mono; [by apply (keeps_count h2 [] [])|]. intros [] h5 Hk5. pwp_step.
  split; [by eapply from_rebase|]. intros _ E. specialize (Hr eq_refl E).
  pose proof (promoted_held _ _ _ _ _ Hk2 Hh Hr) as Hp2. destruct (ksm_held_from _ _ _ _ _ Hk5 Hp2) as (fr & Hp & _ & Hks).
  by exists fr.
Qed.

Lemma from_mem_rely h m :
  kept h → mem_ok m → coherent m (user h) → mem_rely (h_mem h) m → kept (with_mem (λ _, m) h).
Proof.
  intros [F0 F1 F2 F3 F4 F5 F6 F7 F8] G1 G2 (G3 & G4 & G5). split; simpl; try done; [congruence..|].
  intros p fr0 fr' Hp0 Hp'. assert (is_Some (frames (h_mem h) !! p)) as [fr Hp].
  { apply elem_of_dom. rewrite <- G4. by apply elem_of_dom. }
  destruct (F6 p fr0 fr Hp0 Hp) as [A1 A2 A3]. destruct (G5 p fr fr' Hp Hp') as [B1 B2 B4].
  split; [lia|tauto|]. intros Hz. destruct (A3 Hz) as (C1 & C2 & C3 & C4).
  assert (frozen fr) as Hz'. { eapply frame_from_frozen; [apply (occ_nonneg p δ)| |exact Hz]. by split. }
  destruct (B4 Hz') as ((_ & D1 & D2 & _) & D4 & D5). split_and!; [congruence|done|done|].
  intros Hks. specialize (C4 Hks). unfold PageKsm in *. by rewrite D5.
Qed.

Lemma keeps_break_ksm fuel k h : kept h → pwp (break_ksm fuel k) h (λ _ h', kept h').
Proof.
  revert h. induction fuel as [|fuel IH]; intros h Hk; cbn [break_ksm]; do 2 pwp_step; destruct (maps_ksm _ _); simpl; try (by pwp_step).
  destruct (unshares _ _ k (fm_ok _ _ _ _ Hk) (fm_coherent _ _ _ _ Hk)) as (U1 & U2 & U3).
  destruct (handle_mm_fault (h_mem h) k) as [m r]. simpl in *. do 2 pwp_step.
  pose proof (from_mem_rely h m Hk U1 U2 U3) as Hk1. destruct r; [by apply IH|by pwp_step..].
Qed.

Lemma keeps_break_cow i h : kept h → pwp (break_cow i) h (λ _ h', kept h').
Proof.
  intros Hk. unfold break_cow. pwp_step. apply pwp_get_kitem. intros it _.
  pwp_step. eapply pwp_mono; [by apply keeps_count|]. intros [] h1 Hk1.
  pwp_step. eapply pwp_mono; [by apply keeps_interfere|]. intros [] h2 Hk2. do 2 pwp_step.
  destruct (find_mergeable_vma _ _ _); [|by pwp_step].
  pwp_step. eapply pwp_mono; [by apply keeps_break_ksm|]. intros. by pwp_step.
Qed.
End try_merge.

Section two_pages.
Context `{RbTree} `{Memcmp} `{MmFault} (h0 : host) (δ Λ : list Z).
Abbreviation kept := (from h0 δ Λ).

Lemma keeps_try_to_merge_two_pages i p j q h :
  page_held h0 p → page_held h0 q → kept h →
  pwp (try_to_merge_two_pages i p j q) h (λ r h', kept h' ∧ match r with Some p' => p' = p ∧ ksm_held h' p | None => True end).
Proof.
  intros Hp Hq Hk. unfold try_to_merge_two_pages.
  pwp_step. eapply pwp_mono; [by apply (keeps_try_to_merge_with_ksm_page h0 δ Λ i p None)|].
  intros ok h1 [Hk1 Hr]. destruct ok; simpl; [|by pwp_step]. specialize (Hr eq_refl eq_refl).
  pose proof (promoted_held _ _ _ _ _ Hk1 Hp Hr) as Hp1.
  pwp_step. eapply pwp_mono.
  { apply (keeps_try_to_merge_with_ksm_page h1 [] [] j q (Some p)); [by eapply page_held_from|done|].
    apply from_refl. by eapply from_safe. }
  intros ok h2 [Hk2 _]. pose proof (from_rebase _ _ _ _ _ Hk1 Hk2) as Hk2'. destruct ok.
  - pwp_step. split; [done|]. split; [done|]. exact (ksm_held_from _ _ _ _ _ Hk2 Hp1).
  - pwp_step. eapply pwp_mono; [by apply keeps_break_cow|]. intros [] h3 Hk3. by pwp_step.
Qed.
End two_pages.
