(* ===== verification/HostApplySafe.v ===== *)
(** * HostApplySafe: whatever the server reports, no process sees a change

    [apply_result] keeps [from] for every log: the items it may touch are those
    of the shadow tables, whose pages were taken by the scan ([scanned]). *)
From S2P Require Import Prelude Wire HashPair Growable Shadow Server HostMem HostTree HostMerge HostApply HostSafe HostMergeSafe.
Open Scope Z_scope.

(** The items of the shadow tables exist, and the daemon holds a reference to
    the page each was found with. *)
Definition scanned (shadow_pt_list : list shadow_mm) (h : host) : Prop :=
  ∀ sm n i, sm ∈ shadow_pt_list → page_xa sm !! n = Some i →
    ∃ it p, kitems (h_ksm h) !! i = Some it ∧ ki_page it = Some p ∧ page_held h p.

Lemma scanned_from l h0 δ Λ h : from h0 δ Λ h → scanned l h0 → scanned l h.
Proof.
  intros Hk Hs sm n i Hsm Hx. destruct (Hs sm n i Hsm Hx) as (it & p & Hi & Hp & Hh).
  destruct (fm_items _ _ _ _ Hk i it Hi) as (it' & Hi' & E1 & E2). exists it', p.
  split_and!; [done|congruence|by eapply page_held_from].
Qed.

Lemma get_shadow_mm_elem l mm sm : get_shadow_mm l mm = Some sm → sm ∈ l ∧ sm_mm_id sm = mm.
Proof.
  induction l as [|x l IH]; simpl; [done|]. destruct (Z.eqb_spec (sm_mm_id x) mm); [|intros ?%IH; set_solver].
  intros [= ->]. set_solver.
Qed.

Section apply.
Context `{RbTree} `{Memcmp} `{MmFault} (shadow_pt_list : list shadow_mm) (h0 : host) (Hs : scanned shadow_pt_list h0).
Abbreviation kept := (from h0 [] []).

(** An item the log may name. *)
Definition listed (i : loc) : Prop :=
  ∃ it p, kitems (h_ksm h0) !! i = Some it ∧ ki_page it = Some p ∧ page_held h0 p.

Lemma pwp_lookup_shadow mm v h (Q : option loc → host → Prop) :
  (∀ r, (∀ i, r = Some i → listed i) → Q r h) → pwp (lookup_shadow shadow_pt_list mm v) h Q.
Proof using Hs.
  intros HQ. unfold lookup_shadow. pwp_step. pwp_step. pwp_step. apply HQ. intros i Hi.
  apply get_shadow_mm_elem in H2 as [Hsm _]. exact (Hs _ _ _ Hsm Hi).
Qed.

(** The page of a listed item, at any later moment. *)
Lemma listed_page δ Λ i it p h :
  listed i → from h0 δ Λ h → kitems (h_ksm h) !! i = Some it → ki_page it = Some p → page_held h0 p.
Proof.
  intros (it0 & p0 & Hi0 & Hp0 & Hh) Hk Hi Hp. destruct (fm_items _ _ _ _ Hk i it0 Hi0) as (it1 & Hi1 & E & _).
  rewrite Hi in Hi1. injection Hi1 as <-. congruence.
Qed.

Lemma from_push h1 δ Λ h δ' Λ' : from h0 δ Λ h1 → from h1 δ' Λ' h → from h0 (δ' ++ δ) (Λ' ++ Λ) h.
Proof. intros F1 F2. exact (from_trans _ _ _ _ _ _ _ F1 F2). Qed.

Lemma keeps_apply_stable_merge e h : kept h → pwp (apply_stable_merge shadow_pt_list e) h (λ _ h', kept h').
Proof using Hs.
  intros Hk. unfold apply_stable_merge. pwp_step. apply pwp_lookup_shadow. intros r Hr.
  pwp_step. apply pwp_get_frame. intros fr _. destruct (page_stable_node fr) as [n|]; [|by pwp_step].
  pwp_step. apply pwp_get_knode. intros nd _. do 2 pwp_step. do 2 pwp_step.
  pwp_step. eapply pwp_mono; [by apply (keeps_get_ksm_page h0 [] [])|]. intros [q| |] h1 Hg; [|by pwp_step..].
  destruct Hg as (Hk1 & _ & qfr & Hq & Hqm). assert (ksm_held h1 q) as Hq1.
  { destruct (from_frame_inv _ _ _ _ _ _ Hk1 Hq) as (qfr0 & Hq0 & [F1 _ _]). rewrite occ_cons, decide_True in F1 by done.
    destruct (mo_refs _ (fm_base _ _ _ _ Hk1) q qfr0 Hq0) as (? & _). rewrite occ_nil in F1.
    apply (held_ksm_frozen h1 q qfr); [by eapply from_safe|done|lia|by unfold PageKsm; rewrite Hqm]. }
  pwp_step. pwp_step. specialize (Hr a ltac:(done)).
  assert (Hk1' : from h1 [] [] h1) by (apply from_refl; by eapply from_safe).
  pwp_step. eapply pwp_mono; [by apply keeps_remove_rmap_item|]. intros [] h2 Hk2.
  pwp_step. apply pwp_get_kitem. intros it Hit. pwp_step. pwp_step.
  pose proof (from_push _ _ _ _ _ _ Hk1 Hk2) as Hk2'. simpl in Hk2'.
  assert (page_held h1 a0) as Hp1. { eapply page_held_from; [exact Hk1|]. by eapply listed_page. }
  pwp_step. eapply pwp_mono; [by apply (keeps_try_to_merge_with_ksm_page h1 [] [] a a0 (Some q))|].
  intros ok h3 [Hk3 _]. pwp_step. eapply (pwp_mono _ _ (λ _ h', from h1 [] [] h')).
  - destruct ok.
    + pwp_step. eapply pwp_mono; [by apply keeps_lock_page|]. intros [] h4 [Hk4 Hn].
      pwp_step. apply pwp_get_frame. intros kfr _. pwp_step. pwp_step.
      pwp_step. eapply pwp_mono; [by apply keeps_stable_tree_append|]. intros [] h5 Hk5.
      pwp_step. eapply pwp_mono; [by apply keeps_unlock_page|]. intros [] h6 Hk6. by pwp_step.
    + pwp_step. eapply pwp_mono; [by apply keeps_upd_kitem|]. intros [] h4 Hk4.
      pwp_step. eapply pwp_mono; [by apply keeps_report|]. intros [] h5 Hk5. by pwp_step.
  - intros res h4 Hk4. pose proof (from_push _ _ _ _ _ _ Hk1 Hk4) as Hk4'. simpl in Hk4'.
    pwp_step. eapply pwp_mono; [by apply keeps_put_page|]. intros [] h5 Hk5. by pwp_step.
Qed.

Lemma keeps_same_compound p q h : kept h → pwp (same_compound p q) h (λ _ h', kept h').
Proof.
  intros Hk. unfold same_compound. pwp_step. apply pwp_get_frame. intros fr _. destruct (negb _); [by pwp_step|].
  pwp_step. apply pwp_get_frame. intros tfr _. by pwp_step.
Qed.

Lemma keeps_split_after_failure p h : kept h → pwp (split_after_failure p) h (λ _ h', kept h').
Proof.
  intros Hk. unfold split_after_failure. pwp_step. eapply pwp_mono; [by apply (keeps_trylock_page h0 [] [])|].
  intros [] h1 Hk1; [|by pwp_step]. destruct Hk1 as [Hk1 Hn].
  pwp_step. eapply pwp_mono; [by apply keeps_split_huge_page|]. intros b h2 Hk2. by apply keeps_unlock_page.
Qed.

Lemma keeps_apply_unstable_merge e h : kept h → pwp (apply_unstable_merge shadow_pt_list e) h (λ _ h', kept h').
Proof using Hs.
  intros Hk. unfold apply_unstable_merge. do 2 pwp_step. do 2 pwp_step. pwp_step. apply pwp_lookup_shadow. intros r Hr.
  pwp_step. apply pwp_lookup_shadow. intros r' Hr'. do 2 pwp_step. specialize (Hr a ltac:(done)).
  pwp_step. eapply pwp_mono; [by apply keeps_remove_rmap_item|]. intros [] h1 Hk1.
  do 2 pwp_step. specialize (Hr' a0 ltac:(done)).
  pwp_step. eapply pwp_mono; [by apply keeps_remove_rmap_item|]. intros [] h2 Hk2.
  pwp_step. apply pwp_get_kitem. intros it Hit. do 2 pwp_step. pwp_step. apply pwp_get_kitem. intros it' Hit'. do 2 pwp_step.
  assert (page_held h0 a1) as Hp by exact (listed_page _ _ _ _ _ _ Hr Hk2 Hit ltac:(done)).
  assert (page_held h0 a2) as Hq by exact (listed_page _ _ _ _ _ _ Hr' Hk2 Hit' ltac:(done)).
  pwp_step. eapply pwp_mono; [by apply (keeps_try_to_merge_two_pages h0 [] [])|]. intros kp h3 [Hk3 Hkp].
  pwp_step. eapply (pwp_mono _ _ (λ _ h', kept h' ∧ (is_Some kp → ksm_held h' a1))).
  { apply pwp_and; [by apply keeps_same_compound|]. unfold same_compound. pwp_step. apply pwp_get_frame. intros fr _.
    destruct kp as [k|]; destruct (negb _); try (pwp_step; intros [? ?]; try done; by destruct Hkp).
    - pwp_step. apply pwp_get_frame. intros tfr _. pwp_step. intros _. by destruct Hkp.
    - pwp_step. apply pwp_get_frame. intros tfr _. pwp_step. by intros [? ?]. }
  intros split h4 [Hk4 Hkp4]. destruct kp as [k|].
  - destruct Hkp as [-> _]. specialize (Hkp4 ltac:(by eexists)).
    assert (Hk4' : from h4 [] [] h4) by (apply from_refl; by eapply from_safe).
    pwp_step. eapply pwp_mono; [by apply keeps_lock_page|]. intros [] h5 [Hk5 Hn].
    pwp_step. eapply pwp_mono; [by apply (keeps_stable_tree_insert h4 [] [a1])|]. intros n h6 Hk6.
    pwp_step. eapply (pwp_mono _ _ (λ _ h', from h4 [] [a1] h')).
    { destruct n as [n|]; [|by pwp_step]. pwp_step. eapply pwp_mono; [by apply keeps_stable_tree_append|]. intros [] h7 Hk7.
      by apply keeps_stable_tree_append. }
    intros [] h7 Hk7. pwp_step. eapply pwp_mono; [by apply keeps_unlock_page|]. intros [] h8 Hk8.
    pwp_step. pwp_step. pwp_step. exact (from_push _ _ _ _ _ _ Hk4 Hk8).
  - pwp_step. apply pwp_whenM; intros _.
    + eapply pwp_mono; [by apply keeps_split_after_failure|]. intros [] h5 Hk5.
      pwp_step. eapply pwp_mono; [by apply keeps_report|]. intros [] h6 Hk6. by pwp_step.
    + pwp_step. eapply pwp_mono; [by apply keeps_report|]. intros [] h6 Hk6. by pwp_step.
Qed.

(** The page of a node loses it, and the node goes. *)
Lemma keeps_forget_node n q h :
  from h0 [q] [q] h → (∃ qfr, frames (h_mem h) !! q = Some qfr ∧ fr_mapping qfr = MapKsm (Some n)) →
  pwp (upd_frame q (set_mapping (MapKsm None)) ;; remove_node_from_stable_tree n) h (λ _ h', from h0 [q] [q] h').
Proof using.
  intros Hk1 (qfr & Hq & Hqm). assert (ksm_held h q) as Hq1.
  { destruct (from_frame_inv _ _ _ _ _ _ Hk1 Hq) as (qfr0 & Hq0 & [F1 _ _]). rewrite occ_cons, decide_True in F1 by done.
    destruct (mo_refs _ (fm_base _ _ _ _ Hk1) q qfr0 Hq0) as (? & _). rewrite occ_nil in F1.
    apply (held_ksm_frozen h q qfr); [by eapply from_safe|done|lia|by unfold PageKsm; rewrite Hqm]. }
  pwp_step. apply pwp_upd_frame. intros qfr' Hq'. rewrite Hq in Hq'. injection Hq' as <-.
  assert (Hk2 : from h0 [q] [q] (with_mem (on_frames (<[q:=set_mapping (MapKsm None) qfr]>)) h)).
  { apply (from_push h [q] [q] _ [] []); [done|]. apply from_set_ksm; [done|apply from_refl; by eapply from_safe|done]. }
  by apply keeps_remove_node.
Qed.

Lemma keeps_apply_stale_node e h : kept h → pwp (apply_stale_node shadow_pt_list e) h (λ _ h', kept h').
Proof using Hs.
  intros Hk. unfold apply_stale_node. pwp_step. apply pwp_lookup_shadow. intros r Hr. do 2 pwp_step. do 2 pwp_step.
  pwp_step. apply pwp_get_kitem. intros it _. do 2 pwp_step. do 2 pwp_step. pwp_step. apply pwp_get_knode. intros nd _. do 2 pwp_step.
  pwp_step. eapply pwp_mono; [by apply (keeps_get_ksm_page h0 [] [])|]. intros [q| |] h1 Hg; [|by pwp_step..].
  destruct Hg as (Hk1 & Hn & qfr & Hq & Hqm). specialize (Hn ltac:(done)).
  pwp_step. apply pwp_get_frame. intros fr _. do 2 pwp_step. apply pwp_seq.
  pwp_step. eapply pwp_mono; [apply (keeps_forget_node _ q h1 Hk1); by exists qfr|]. intros [] h3 Hk3.
  pwp_step. eapply pwp_mono; [by apply keeps_unlock_page|]. intros [] h4 Hk4.
  pwp_step. eapply pwp_mono; [by apply keeps_put_page|]. intros [] h5 Hk5. by pwp_step.
Qed.

Lemma keeps_apply_item_state_change e h : kept h → pwp (apply_item_state_change shadow_pt_list e) h (λ _ h', kept h').
Proof using Hs.
  intros Hk. unfold apply_item_state_change. pwp_step. apply pwp_lookup_shadow. intros r Hr. do 2 pwp_step. do 2 pwp_step.
  pwp_step. apply pwp_get_kitem. intros it _. do 2 pwp_step. pwp_step. eapply pwp_mono; [by apply keeps_remove_rmap_item|].
  intros [] h1 Hk1. by pwp_step.
Qed.

Lemma keeps_apply_event e h : kept h → pwp (apply_event shadow_pt_list e) h (λ _ h', kept h').
Proof using Hs.
  intros Hk. unfold apply_event. destruct (log_type e);
    first [by apply keeps_apply_stable_merge|by apply keeps_apply_unstable_merge|by apply keeps_apply_stale_node
          |by apply keeps_apply_item_state_change|by pwp_step].
Qed.

Lemma keeps_apply_events L h : kept h → pwp (apply_events shadow_pt_list L) h (λ _ h', kept h').
Proof using Hs.
  revert h. induction L as [|e L IH]; intros h Hk; simpl; [by pwp_step|].
  pwp_step. eapply pwp_mono; [by apply keeps_apply_event|]. intros a h1 Hk1.
  pwp_step. eapply (pwp_mono _ _ (λ _ h', kept h')).
  { case_bool_decide; [by pwp_step|by apply keeps_interfere]. }
  intros [] h2 Hk2. pwp_step. eapply pwp_mono; [by apply IH|]. intros rest h3 Hk3. by pwp_step.
Qed.

Lemma keeps_apply_result L h : kept h → pwp (apply_result shadow_pt_list L) h (λ _ h', kept h').
Proof using Hs.
  intros Hk. unfold apply_result. do 2 pwp_step. pwp_step.
  eapply pwp_mono; [apply keeps_apply_events; by apply from_hstats|]. intros a h1 Hk1. by pwp_step.
Qed.
End apply.
