(* ===== verification/HostTrack.v ===== *)
(** * HostTrack: the stable tree while the log is applied

    The relation [track L0 es V r h]: the structures are [ksm_ok], a KSM page
    points to the live node of its frame, and with a server ([L0] is what the
    error table held) the table has grown from [L0] by [es] and the items are
    shared as [V] -- unless the table has got a [HOST_STALE_STABLE_NODE]
    meanwhile, that is a shared page was freed under the daemon.  The operations
    of HostTree are followed through it. *)
From S2P Require Import Prelude Wire HashPair Growable Shadow Server HostMem HostTree HostTreeInv HostMerge HostApply HostSafe.
Open Scope Z_scope.

Definition is_stale (e : ksm_event_log) : Prop := log_type e = HOST_STALE_STABLE_NODE.

(** Who compares: a server, [L] being what the error table held; or the daemon
    alone, in the course of a pass or not. *)
Inductive mode := Served (L : list ksm_event_log) | Alone (in_pass : bool).
Definition with_server (L0 : mode) : bool := match L0 with Served _ => true | Alone _ => false end.
Definition passing (L0 : mode) : bool := match L0 with Served _ => false | Alone b => b end.

(** The error table, with a server. *)
Definition logged (L0 : mode) (es : list ksm_event_log) (V : gmap loc (loc * Z)) (h : host) : Prop :=
  match L0 with
  | Alone _ => True
  | Served L0 => ∃ t new, ksm_error_table h = Some t ∧ log_tbl_repr (et_table t) (L0 ++ new) ∧
      (Exists is_stale new ∨ (new = es ∧ sharing (h_ksm h) = V))
  end.

Record track (L0 : mode) (es : list ksm_event_log) (V : gmap loc (loc * Z)) (r : Z) (h : host) : Prop := Track {
  tk_ksm : ksm_ok r (h_ksm h);
  tk_frames : ∀ p fr n, frames (h_mem h) !! p = Some fr → fr_mapping fr = MapKsm (Some n) →
    ∃ nd, knodes (h_ksm h) !! n = Some nd ∧ is_stable_node_chain nd = false ∧ kn_kpfn nd = p;
  tk_env : Forall rely (env h);
  tk_log : logged L0 es V h;
  tk_alloc : false ∉ kallocs h;
  tk_offload : is_ksm_offload (h_ksm h) = with_server L0;
  tk_unstable : unstable_ok (passing L0) (h_ksm h);
  tk_nodes : ∀ n nd, knodes (h_ksm h) !! n = Some nd → is_stable_node_chain nd = false → is_Some (frames (h_mem h) !! kn_kpfn nd) }.

(** Every node's page is the page of a node there was. *)
Definition no_new_pages (N N' : gmap loc knode) : Prop :=
  ∀ n nd, N' !! n = Some nd → is_stable_node_chain nd = false →
    ∃ m md, N !! m = Some md ∧ is_stable_node_chain md = false ∧ kn_kpfn md = kn_kpfn nd.

Lemma no_new_pages_refl N N' : N' = N → no_new_pages N N'.
Proof. intros -> n nd Hn Hc. by exists n, nd. Qed.

Lemma no_new_pages_delete N n : no_new_pages N (delete n N).
Proof. intros m md [_ Hm]%lookup_delete_Some Hc. by exists m, md. Qed.

(** One node changed. *)
Lemma no_new_pages_insert N n nd nd' :
  N !! n = Some nd → kn_kpfn nd' = kn_kpfn nd → (is_stable_node_chain nd' = false → is_stable_node_chain nd = false) →
  no_new_pages N (<[n := nd']> N).
Proof.
  intros Hn Hp Hc m md Hm Hmc. destruct (decide (m = n)) as [->|Hne].
  - rewrite lookup_insert_eq in Hm. injection Hm as <-. exists n, nd. by auto.
  - rewrite lookup_insert_ne in Hm by done. by exists m, md.
Qed.

(** Both relations through a call. *)
Lemma pwp_both {A B} (m : M host A) (f : A → M host B) h (P Q : A → host → Prop) (R : B → host → Prop) :
  pwp m h P → pwp m h Q → (∀ a h', P a h' → Q a h' → pwp (f a) h' R) → pwp (m ≫= f) h R.
Proof. intros HP HQ HR. apply pwp_bind. eapply pwp_mono; [exact (pwp_and _ _ _ _ HP HQ)|]. intros a h' [? ?]. by apply HR. Qed.

Lemma safe_from h : safe h → from h [] [] h.
Proof. apply from_refl. Qed.

(** ** What does not concern KSM *)
Section track.
Context (L0 : mode).

Lemma track_mem es V r h m :
  track L0 es V r h →
  (∀ p fr n, frames m !! p = Some fr → fr_mapping fr = MapKsm (Some n) →
     ∃ fr0, frames (h_mem h) !! p = Some fr0 ∧ fr_mapping fr0 = MapKsm (Some n)) →
  dom (frames m) = dom (frames (h_mem h)) →
  track L0 es V r (with_mem (λ _, m) h).
Proof.
  intros [T1 T2 T3 T4 T5 T6 T7 T8] Hm Hd. split; try done; simpl.
  - intros p fr n Hp Hmp. destruct (Hm p fr n Hp Hmp) as (fr0 & Hp0 & Hm0). by eapply T2.
  - intros n nd Hn Hc. apply elem_of_dom. rewrite Hd. apply elem_of_dom. by eapply T8.
Qed.

Lemma track_frame es V r h p fr fr' :
  track L0 es V r h → frames (h_mem h) !! p = Some fr →
  (∀ n, fr_mapping fr' = MapKsm (Some n) → fr_mapping fr = MapKsm (Some n)) →
  track L0 es V r (with_mem (on_frames (<[p := fr']>)) h).
Proof.
  intros Ht Hp Hf. apply (track_mem es V r h (on_frames (<[p := fr']>) (h_mem h))); [done| |].
  2: { simpl. rewrite dom_insert_L. apply elem_of_dom_2 in Hp. set_solver. }
  simpl. intros q fr1 n Hq Hmq. destruct (decide (q = p)) as [->|Hne].
  - rewrite lookup_insert_eq in Hq. injection Hq as <-. exists fr. auto.
  - rewrite lookup_insert_ne in Hq by done. by exists fr1.
Qed.

Lemma track_ptes es V r h f : track L0 es V r h → track L0 es V r (with_mem (on_ptes f) h).
Proof. intros []. by split. Qed.

Lemma track_hstats es V r h f : track L0 es V r h → track L0 es V r (with_hstats f h).
Proof. intros []. by split. Qed.

Lemma track_upd_frame es V r p f h :
  (∀ fr n, fr_mapping (f fr) = MapKsm (Some n) → fr_mapping fr = MapKsm (Some n)) →
  track L0 es V r h → pwp (upd_frame p f) h (λ _ h', track L0 es V r h' ∧ h_ksm h' = h_ksm h).
Proof. intros Hf Ht. apply pwp_upd_frame. intros fr Hp. split; [|done]. eapply track_frame; [done|exact Hp|]. apply Hf. Qed.

Lemma drop_ref_mapping fr n : fr_mapping (drop_ref fr) = MapKsm n → fr_mapping fr = MapKsm n.
Proof. unfold drop_ref. by destruct (_ =? 0). Qed.

Lemma track_get_page es V r p h : track L0 es V r h → pwp (get_page p) h (λ _ h', track L0 es V r h' ∧ h_ksm h' = h_ksm h).
Proof. by apply track_upd_frame. Qed.
Lemma track_put_page es V r p h : track L0 es V r h → pwp (put_page p) h (λ _ h', track L0 es V r h' ∧ h_ksm h' = h_ksm h).
Proof. apply track_upd_frame. intros fr n. apply drop_ref_mapping. Qed.
Lemma track_unlock_page es V r p h : track L0 es V r h → pwp (unlock_page p) h (λ _ h', track L0 es V r h' ∧ h_ksm h' = h_ksm h).
Proof. by apply track_upd_frame. Qed.

Lemma track_interfere es V r h : track L0 es V r h → pwp interfere h (λ _ h', track L0 es V r h' ∧ h_ksm h' = h_ksm h).
Proof.
  intros Ht. unfold interfere, pwp. destruct (env h) as [|f fs] eqn:E; [done|].
  pose proof (tk_env _ _ _ _ _ Ht) as He. rewrite E in He. apply Forall_cons in He as [Hf Hfs].
  destruct (Hf (h_mem h) (user h)) as [[Hd Hn] _]. destruct (f (h_mem h, user h)) as [m u]. simpl in *. split; [|done].
  apply (track_mem es V r h m) in Ht as [T1 T2 T3 T4 T5 T6 T7 T8]; [|by intros p fr n Hp Hmp; eapply Hn|done]. by split.
Qed.

Lemma track_trylock_page es V r p h :
  track L0 es V r h → pwp (trylock_page p) h (λ _ h', track L0 es V r h' ∧ h_ksm h' = h_ksm h).
Proof.
  intros Ht. unfold trylock_page. pwp_step. apply pwp_get_frame. intros fr Hp. case_bool_decide; [|by pwp_step].
  pwp_step. eapply pwp_mono; [by apply track_upd_frame|]. intros [] h1 Ht1. by pwp_step.
Qed.

Lemma track_lock_page es V r p h :
  track L0 es V r h → pwp (lock_page p) h (λ _ h', track L0 es V r h' ∧ h_ksm h' = h_ksm h).
Proof.
  intros Ht. unfold lock_page. pwp_step. apply pwp_get_frame. intros fr Hp. pwp_step. apply pwp_halt_if. intros _.
  pwp_step. eapply pwp_mono; [by apply track_interfere|]. intros [] h1 [Ht1 E1].
  eapply pwp_mono; [by apply track_upd_frame|]. intros [] h2 [Ht2 E2]. split; [done|congruence].
Qed.

(** ** Reports *)
Lemma pwp_report tag e h t L (Q : unit → host → Prop) :
  ksm_error_table h = Some t → log_tbl_repr (et_table t) L → false ∉ kallocs h →
  (∀ t' a, log_tbl_repr (et_table t') (L ++ [retag tag e]) → false ∉ a → Q tt (with_errors (Some t') a h)) →
  pwp (report tag e) h Q.
Proof.
  intros Ht HL Ha HQ. unfold report, pwp. rewrite Ht.
  assert (wp (insert_error_log (Some t) tag e) (kallocs h) (λ r a, match r.2 with
    Some t' => log_tbl_repr (et_table t') (L ++ [retag tag e]) ∧ false ∉ a | None => False end)) as Hw.
  { by eapply wp_insert_error_log. }
  unfold wp in Hw. destruct (insert_error_log (Some t) tag e (kallocs h)) as [[[x t'] a]| |]; [|done..].
  simpl in Hw. destruct t' as [t'|]; [|done]. apply HQ; apply Hw.
Qed.

(** Without a server nothing is said of the history. *)
Lemma track_any es V r h : with_server L0 = false → track L0 es V r h → ∀ es' V', track L0 es' V' r h.
Proof. intros HL [] es' V'. split; try done. by destruct L0. Qed.

Lemma track_report es V r tag e h :
  with_server L0 = true → track L0 es V r h → pwp (report tag e) h (λ _ h', track L0 (es ++ [retag tag e]) V r h' ∧ h_ksm h' = h_ksm h).
Proof.
  intros HL [T1 T2 T3 T4 T5 T6 T7 T8]. destruct L0 as [L|]; [|done]. destruct T4 as (t & new & T4 & T4' & T4'').
  eapply pwp_report; [exact T4|exact T4'|done|].
  intros t' a Ht' Ha'. split; [|done]. split; try done. exists t', (new ++ [retag tag e]). rewrite app_assoc.
  split_and!; [done|done|]. destruct T4'' as [Hs|[-> Hv]]; [left; apply Exists_app; by left|by right].
Qed.

(** A stale report makes the rest unspecified. *)
Lemma track_report_stale es V r e h :
  with_server L0 = true → track L0 es V r h →
  pwp (report HOST_STALE_STABLE_NODE e) h (λ _ h', (∀ es' V', track L0 es' V' r h') ∧ h_ksm h' = h_ksm h).
Proof.
  intros HL [T1 T2 T3 T4 T5 T6 T7 T8]. destruct L0 as [L|]; [|done]. destruct T4 as (t & new & T4 & T4' & T4'').
  eapply pwp_report; [exact T4|exact T4'|done|].
  intros t' a Ht' Ha'. split; [|done]. intros es' V'. split; try done.
  exists t', (new ++ [retag HOST_STALE_STABLE_NODE e]).
  rewrite app_assoc. split_and!; [done|done|]. left. apply Exists_app. right. by apply Exists_cons; left.
Qed.

(** Either the table tells of a stale node, or everything is as stated. *)
Lemma track_cases es V r h : track L0 es V r h → (∀ es' V', track L0 es' V' r h) ∨ sharing (h_ksm h) = V.
Proof.
  intros [T1 T2 T3 T4 T5 T6 T7 T8]. destruct L0 as [L|]; [|left; by split].
  destruct T4 as (t & new & T4 & T4' & T4''). destruct T4'' as [Hst|[_ ?]]; [left|by right].
  intros es' V'. split; try done. exists t, new. split_and!; [done..|by left].
Qed.

(** Two histories: only after a stale node. *)
Lemma track_both es1 V1 es2 V2 r h :
  track L0 es1 V1 r h → track L0 es2 V2 r h → es1 ≠ es2 → ∀ es V, track L0 es V r h.
Proof.
  intros [T1 T2 T3 T4 T5 T6 T7 T8] [_ _ _ U4 _ _ _ _] Hne es V. split; try done. destruct L0 as [L|]; [|done].
  destruct T4 as (t & new & T4 & T4' & T4''). destruct U4 as (t2 & new2 & U4 & U4' & U4'').
  rewrite T4 in U4. injection U4 as <-. exists t, new. split_and!; [done..|left].
  assert (new2 = new) as -> by (apply (app_inv_head L); by eapply table_repr_inj).
  destruct T4'' as [?|[-> _]]; [done|]. destruct U4'' as [?|[-> _]]; done.
Qed.

(** The history, after a step that moved no item. *)
Lemma logged_move es V V' h h' :
  logged L0 es V h → ksm_error_table h' = ksm_error_table h →
  (sharing (h_ksm h) = V → sharing (h_ksm h') = V') → logged L0 es V' h'.
Proof.
  unfold logged. destruct L0 as [L|]; [|done]. intros (t & new & T4 & T4' & T4'') -> HV.
  exists t, new. split_and!; [done|done|]. destruct T4'' as [?|[-> Hv]]; [by left|right; auto].
Qed.

(** A change of the structures. *)
Lemma track_change es V r h r' V' f :
  track L0 es V r h → ksm_ok r' (f (h_ksm h)) → unstable_ok (passing L0) (f (h_ksm h)) →
  is_ksm_offload (f (h_ksm h)) = is_ksm_offload (h_ksm h) →
  (sharing (h_ksm h) = V → sharing (f (h_ksm h)) = V') →
  (∀ n nd, knodes (h_ksm h) !! n = Some nd → is_stable_node_chain nd = false →
     (∃ p fr, frames (h_mem h) !! p = Some fr ∧ fr_mapping fr = MapKsm (Some n)) →
     ∃ nd', knodes (f (h_ksm h)) !! n = Some nd' ∧ is_stable_node_chain nd' = false ∧ kn_kpfn nd' = kn_kpfn nd) →
  no_new_pages (knodes (h_ksm h)) (knodes (f (h_ksm h))) →
  track L0 es V' r' (with_ksm f h).
Proof.
  intros [T1 T2 T3 T4 T5 T6 T7 T8] Hk Hu Ho Hv Hn Hnew. split; try done.
  - simpl. intros p fr n Hp Hm. destruct (T2 p fr n Hp Hm) as (nd & A & B & C).
    destruct (Hn n nd A B ltac:(by exists p, fr)) as (nd' & D & E & F). exists nd'. split_and!; [done|done|congruence].
  - by eapply logged_move.
  - simpl. congruence.
  - intros n nd Hd Hc. destruct (Hnew n nd Hd Hc) as (m & md & A & B & <-). by eapply T8.
Qed.

Lemma track_ksm es V r h r' V' f :
  track L0 es V r h → ksm_ok r' (f (h_ksm h)) → scan_same (h_ksm h) (f (h_ksm h)) →
  (sharing (h_ksm h) = V → sharing (f (h_ksm h)) = V') →
  (∀ n nd, knodes (h_ksm h) !! n = Some nd → is_stable_node_chain nd = false →
     (∃ p fr, frames (h_mem h) !! p = Some fr ∧ fr_mapping fr = MapKsm (Some n)) →
     ∃ nd', knodes (f (h_ksm h)) !! n = Some nd' ∧ is_stable_node_chain nd' = false ∧ kn_kpfn nd' = kn_kpfn nd) →
  no_new_pages (knodes (h_ksm h)) (knodes (f (h_ksm h))) →
  track L0 es V' r' (with_ksm f h).
Proof.
  intros Ht Hk Hs. eapply track_change; [exact Ht|exact Hk|eapply unstable_ok_same; [exact Hs|apply Ht]|apply Hs].
Qed.
End track.

(** ** Removing a node *)

(** What the loop over the items of a node leaves. *)
Record cleared (n : loc) (nd : knode) (l : list loc) (k k' : ksm) : Prop := Cleared {
  cl_items : kitems k' = mask_all l (kitems k);
  cl_nodes : ∃ len, knodes k' = <[n := set_hlist len (kn_hlist nd) nd]> (knodes k);
  cl_root : root_stable_tree k' = root_stable_tree k;
  cl_shared : ∀ X, ksm_pages_shared (counters k) = u64 X →
    ksm_pages_shared (counters k') = u64 (X - match l with [] => 0 | _ => 1 end);
  cl_sharing : ∀ X, ksm_pages_sharing (counters k) = u64 X →
    ksm_pages_sharing (counters k') = u64 (X - match l with [] => 0 | _ :: l' => Z.of_nat (length l') end);
  cl_chains : ksm_stable_node_chains (counters k') = ksm_stable_node_chains (counters k);
  cl_dups : ksm_stable_node_dups (counters k') = ksm_stable_node_dups (counters k);
  cl_refs : anon_vma_refs (counters k') = anon_vma_refs (counters k) - Z.of_nat (length l);
  cl_scan : (∀ i it, i ∈ l → kitems k !! i = Some it → unstable_item it = false) → scan_same k k' }.

Lemma pwp_clear_items n l h nd :
  knodes (h_ksm h) !! n = Some nd → NoDup l →
  pwp (clear_items n l) h (λ _ h', ∃ k', h' = with_ksm (λ _, k') h ∧ cleared n nd l (h_ksm h) k').
Proof.
  revert h nd. induction l as [|i l IH]; intros h nd Hn Hnd; simpl.
  - pwp_step. exists (h_ksm h). split; [by destruct h|]. split; try done.
    + by rewrite mask_all_nil.
    + exists (kn_len nd). rewrite insert_id; [done|]. rewrite Hn. by destruct nd.
    + intros X ->. f_equal. lia.
    + intros X ->. f_equal. lia.
    + simpl. lia.
  - apply NoDup_cons in Hnd as [Hi Hnd]. pwp_step. apply pwp_get_kitem. intros it Hit. pwp_step.
    assert (∀ (a b : Z) (Q : unit → host → Prop), Q tt (with_ksm (on_counters (λ c, KsmCounters (u64 (ksm_pages_shared c + a))
      (u64 (ksm_pages_sharing c + b)) (u64 (ksm_pages_unshared c + 0)) (ksm_stable_node_chains c) (ksm_stable_node_dups c)
      (anon_vma_refs c + -1) (ksm_merging_pages c))) h) → pwp (count a b 0 (-1)) h Q) as Hcount.
    { intros a b Q HQ. exact HQ. }
    set (a := if bool_decide (l = []) then -1 else 0). set (b := if bool_decide (l = []) then 0 else -1).
    assert ((if bool_decide (l = []) then count (-1) 0 0 (-1) else count 0 (-1) 0 (-1)) = count a b 0 (-1)) as ->.
    { unfold a, b. by case_bool_decide. }
    apply Hcount. unfold count_merging. do 2 pwp_step. pwp_step. apply pwp_upd_knode. simpl. intros nd1 Hn1.
    rewrite Hn in Hn1. injection Hn1 as <-. pwp_step. apply pwp_upd_kitem. simpl. intros it1 Hit1. rewrite Hit in Hit1. injection Hit1 as <-.
    set (nd' := set_hlist (s32 (kn_len nd - 1)) (kn_hlist nd) nd).
    eapply pwp_mono; [apply (IH _ nd'); [simpl; by rewrite lookup_insert_eq|done]|].
    intros [] h' (k' & -> & [D1 D2 D3 D4 D5 D6 D7 D8 D9]). exists k'. split; [done|]. simpl in *. split; simpl.
    + rewrite D1. by apply mask_all_cons.
    + destruct D2 as [len ->]. exists len. rewrite insert_insert_eq. done.
    + done.
    + intros X HX. rewrite (D4 (X + a)) by (rewrite HX; apply u64_add). f_equal. unfold a. case_bool_decide as E; [subst l; lia|].
      destruct l; [done|lia].
    + intros X HX. rewrite (D5 (X + b)) by (rewrite HX; apply u64_add). f_equal. unfold b. case_bool_decide as E; [subst l; simpl; lia|].
      destruct l; [done|simpl; lia].
    + done.
    + done.
    + rewrite D8. lia.
    + intros Hl. eapply scan_same_trans; [|apply D9].
      * split; simpl; try done.
        -- apply unstables_insert. rewrite Hit. simpl. unfold unstable_address.
           by rewrite unstable_masked, (Hl i it ltac:(set_solver) Hit).
        -- intros X ->. by rewrite u64_add, Z.add_0_r.
        -- by apply marks_ok_masked.
      * intros j jt Hj Hjt. rewrite lookup_insert_ne in Hjt by set_solver. apply (Hl j jt); [set_solver|done].
Qed.

Section nodes.
Context `{RbTree} `{Memcmp} (L0 : mode).

(** The state without node [n]. *)
Definition dropped (r : Z) (n : loc) (k k' : ksm) : Prop :=
  ksm_ok r k' ∧ sharing k' = filter (λ kv, kv.2.1 ≠ n) (sharing k) ∧
  knodes k' = delete n (drop_dup n <$> knodes k) ∧
  (∀ nd, knodes k !! n = Some nd → kitems k' = mask_all (kn_hlist nd) (kitems k)) ∧
  (∀ nd c, knodes k !! n = Some nd → kn_link nd = DupOf c → root_stable_tree k' = root_stable_tree k) ∧
  (∀ b, unstable_ok b k → scan_same k k').

Lemma fmap_drop_dup_in_tree r k n nd :
  ksm_ok r k → knodes k !! n = Some nd → kn_link nd = InTree → drop_dup n <$> knodes k = knodes k.
Proof.
  intros Hk Hn Hl. apply map_eq. intros m. rewrite lookup_fmap. destruct (knodes k !! m) as [md|] eqn:Hm; [|done]. simpl. f_equal.
  destruct (is_stable_node_chain md) eqn:Hc; [|unfold drop_dup; by rewrite Hc].
  apply drop_dup_id. intros Hin. destruct (ko_chain _ _ Hk m md Hm Hc) as (_ & _ & Hall).
  destruct (Hall n Hin) as (nd' & A & B & _). congruence.
Qed.

Lemma fmap_drop_dup_of r k n nd c cd :
  ksm_ok r k → knodes k !! n = Some nd → kn_link nd = DupOf c → knodes k !! c = Some cd → is_stable_node_chain cd = true →
  drop_dup n <$> knodes k = <[c := set_hlist (kn_len cd) (filter (λ y, y ≠ n) (kn_hlist cd)) cd]> (knodes k).
Proof.
  intros Hk Hn Hl Hcd Hcc. apply map_eq. intros m. rewrite lookup_fmap. destruct (decide (m = c)) as [->|Hne].
  - rewrite lookup_insert_eq, Hcd. simpl. unfold drop_dup. by rewrite Hcc.
  - rewrite lookup_insert_ne by done. destruct (knodes k !! m) as [md|] eqn:Hm; [|done]. simpl. f_equal.
    destruct (is_stable_node_chain md) eqn:Hc; [|unfold drop_dup; by rewrite Hc].
    apply drop_dup_id. intros Hin. destruct (ko_chain _ _ Hk m md Hm Hc) as (_ & _ & Hall).
    destruct (Hall n Hin) as (nd' & A & B & _). congruence.
Qed.

Lemma pwp_remove_node r n h :
  ksm_ok r (h_ksm h) →
  pwp (remove_node_from_stable_tree n) h (λ _ h', ∃ k', h' = with_ksm (λ _, k') h ∧
    (∀ nd, knodes (h_ksm h) !! n = Some nd → is_stable_node_chain nd = false → dropped r n (h_ksm h) k')).
Proof.
  intros Hk. unfold remove_node_from_stable_tree. pwp_step. apply pwp_get_knode. intros nd Hn.
  pwp_step. apply pwp_halt_if. intros Hlen. apply Z.ltb_ge in Hlen.
  assert (Hc : is_stable_node_chain nd = false) by (unfold is_stable_node_chain, STABLE_NODE_CHAIN; apply Z.eqb_neq; lia).
  destruct (ko_node _ _ Hk n nd Hn Hc) as (Hl & Hnd & Hall).
  pwp_step. eapply pwp_mono; [by apply pwp_clear_items|]. intros [] h1 (k1 & -> & [D1 [len D2] D3 D4 D5 D6 D7 D8 D9]).
  destruct (ko_counted _ _ Hk) as [E1 E2 E3 E4 E5]. specialize (D4 _ E1). specialize (D5 _ E2).
  assert (Hsame : ∀ b, unstable_ok b (h_ksm h) → scan_same (h_ksm h) k1).
  { intros b Hu. apply D9. intros i it Hi Hit. destruct (Hall i Hi) as (it' & A & B & _). simplify_eq. by eapply stable_not_unstable. }
  pwp_step. unfold stable_node_dup_del. pwp_step. apply pwp_get_knode. simpl. rewrite D2, lookup_insert_eq.
  intros nd' [= <-]. simpl. set (nd' := set_hlist len (kn_hlist nd) nd).
  assert (∀ c, kn_link nd = DupOf c → c ≠ n) as Hcn.
  { intros c Hlc ->. destruct (ko_dup _ _ Hk n nd n Hn Hlc) as (cd & A & B & _). congruence. }
  assert (Hsum1 : nshared nd = match kn_hlist nd with [] => 0 | _ => 1 end) by (unfold nshared; by rewrite Hc).
  assert (Hsum2 : nsharing nd = match kn_hlist nd with [] => 0 | _ :: l' => Z.of_nat (length l') end) by (unfold nsharing; by rewrite Hc).
  assert (Hsum3 : nitems nd = Z.of_nat (length (kn_hlist nd))) by (unfold nitems; by rewrite Hc).
  destruct (kn_link nd) as [|c] eqn:Hlk.
  - pwp_step. unfold free_stable_node. pwp_step. apply pwp_get_knode. simpl. intros nd2 _. pwp_step.
    eexists. split; [reflexivity|]. intros nd0 Hn0 _. rewrite Hn in Hn0. injection Hn0 as <-. simpl.
    match goal with |- dropped _ _ _ ?k' => assert (knodes k' = delete n (drop_dup n <$> knodes (h_ksm h))) as HN end.
    { simpl. rewrite (fmap_drop_dup_in_tree r (h_ksm h) n nd Hk Hn Hlk), D2. by rewrite delete_insert_eq. }
    split; [|split; [|split; [exact HN|split; [|split]]]].
    5: { intros b Hu. destruct (Hsame b Hu). by split. }
    3: { intros nd0 Hn0. rewrite Hn in Hn0. by injection Hn0 as <-. }
    3: { intros nd0 c0 Hn0 Hc0. rewrite Hn in Hn0. injection Hn0 as <-. simpl. congruence. }
    all: eapply (ksm_ok_remove_node r (h_ksm h) _ n nd Hk Hn Hc); [exact D1|exact HN| | | | | | |]; simpl;
      rewrite ?D3, ?inorder_erase; first [by apply NoDup_filter, ko_nodup with r|idtac].
    all: first [intros m; by rewrite list_elem_of_filter|idtac].
    all: try done.
    all: first [rewrite D4, E1; unfold Z.sub; by rewrite Hsum1, u64_add | rewrite D5, E2; unfold Z.sub; by rewrite Hsum2, u64_add
      | rewrite D7, E4; assert (ndup nd = 0) as -> by (unfold ndup, is_stable_node_dup; by rewrite Hlk); unfold Z.sub; rewrite u64_add; f_equal; lia
      | rewrite D8, Hsum3; lia ].
  - destruct (ko_dup _ _ Hk n nd c Hn Hlk) as (cd & Hcd & Hcc & Hcin). specialize (Hcn c eq_refl).
    pwp_step. unfold hlist_del. apply pwp_upd_knode. simpl. rewrite D2, lookup_insert_ne by done. intros cd' Hcd'.
    rewrite Hcd in Hcd'. injection Hcd' as <-. unfold count_nodes. pwp_step.
    unfold free_stable_node. pwp_step. apply pwp_get_knode. simpl. intros nd2 _. pwp_step.
    eexists. split; [reflexivity|]. intros nd0 Hn0 _. rewrite Hn in Hn0. injection Hn0 as <-. simpl.
    match goal with |- dropped _ _ _ ?k' => assert (knodes k' = delete n (drop_dup n <$> knodes (h_ksm h))) as HN end.
    { simpl. rewrite (fmap_drop_dup_of r (h_ksm h) n nd c cd Hk Hn Hlk Hcd Hcc), D2.
      rewrite insert_insert_ne by done. by rewrite delete_insert_eq. }
    split; [|split; [|split; [exact HN|split; [|split]]]].
    5: { intros b Hu. destruct (Hsame b Hu). by split. }
    3: { intros nd0 Hn0. rewrite Hn in Hn0. by injection Hn0 as <-. }
    3: { intros nd0 c0 Hn0 Hc0. rewrite Hn in Hn0. injection Hn0 as <-. simpl. congruence. }
    all: eapply (ksm_ok_remove_node r (h_ksm h) _ n nd Hk Hn Hc); [exact D1|exact HN| | | | | | |]; simpl; rewrite ?D3;
      first [by apply ko_nodup with r|idtac].
    all: first [intros m; split; [intros Hm; split; [|done]; intros ->; apply (ko_tree _ _ Hk) in Hm as (md & A & B); congruence|tauto]|idtac].
    all: first [rewrite D4, E1; unfold Z.sub; by rewrite Hsum1, u64_add | rewrite D5, E2; unfold Z.sub; by rewrite Hsum2, u64_add
      | rewrite D7, E4; assert (ndup nd = 1) as -> by (unfold ndup, is_stable_node_dup; by rewrite Hlk); unfold Z.sub; by rewrite !u64_add
      | rewrite D6, E3, u64_add; f_equal; lia | rewrite D8, Hsum3; lia | done ].
Qed.

(** The node of no page leaves with its items. *)
Lemma track_remove_node es V r n nd h :
  track L0 es V r h → knodes (h_ksm h) !! n = Some nd → is_stable_node_chain nd = false →
  (∀ q fr, frames (h_mem h) !! q = Some fr → fr_mapping fr ≠ MapKsm (Some n)) →
  pwp (remove_node_from_stable_tree n) h (λ _ h', track L0 es (filter (λ kv, kv.2.1 ≠ n) V) r h' ∧ dropped r n (h_ksm h) (h_ksm h')).
Proof.
  intros Ht Hn Hc Hm. eapply pwp_mono; [by apply pwp_remove_node, (tk_ksm _ _ _ _ _ Ht)|].
  intros [] h1 (k1 & -> & Hd). specialize (Hd nd Hn Hc). split; [|done]. pose proof Hd as (Hok & Hsh & HN & _ & _ & Hsc).
  eapply track_ksm; [done|exact Hok|eapply Hsc, Ht|by intros <-|..].
  { intros m md Hmd Hmc (q & fr & Hq & Hqm). assert (m ≠ n) as Hmn by (intros ->; by eapply Hm). exists (drop_dup n md).
    rewrite HN, lookup_delete_ne, lookup_fmap, Hmd by done. simpl.
    destruct (drop_dup_same n md) as (_ & _ & E1 & E2 & _). split_and!; [done|congruence|done]. }
  rewrite HN. intros m md (_ & Hm')%lookup_delete_Some Hmc. rewrite lookup_fmap in Hm'. apply fmap_Some in Hm' as (md0 & Hm0 & ->).
  destruct (drop_dup_same n md0) as (_ & _ & E1 & E2 & _). exists m, md0. split_and!; [done|congruence|done].
Qed.

(** The page of a node loses it, and the node goes. *)
Lemma track_forget_node es V r n nd q h :
  track L0 es V r h → knodes (h_ksm h) !! n = Some nd → is_stable_node_chain nd = false → kn_kpfn nd = q →
  pwp (upd_frame q (set_mapping (MapKsm None)) ;; remove_node_from_stable_tree n) h (λ _ h',
    track L0 es (filter (λ kv, kv.2.1 ≠ n) V) r h' ∧ dropped r n (h_ksm h) (h_ksm h')).
Proof.
  intros Ht Hn Hc Hq. pwp_step. apply pwp_upd_frame. intros fr Hfr. match goal with |- pwp _ ?h _ => set (h2 := h) end.
  assert (track L0 es V r h2) as Ht2 by by eapply track_frame.
  eapply (track_remove_node es V r n nd h2 Ht2); [done|done|]. intros p fr2 Hp Hm. simpl in Hp. destruct (decide (p = q)) as [->|Hne].
  - rewrite lookup_insert_eq in Hp. by injection Hp as <-.
  - rewrite lookup_insert_ne in Hp by done. destruct (tk_frames _ _ _ _ _ Ht p fr2 n Hp Hm) as (nd2 & A & _ & B).
    rewrite Hn in A. injection A as <-. congruence.
Qed.

(** A node no page points to is removed and reported. *)
Lemma track_stale_node es V r n p h :
  track L0 es V r h → (∃ nd, knodes (h_ksm h) !! n = Some nd) →
  (∀ q fr, frames (h_mem h) !! q = Some fr → fr_mapping fr ≠ MapKsm (Some n)) →
  pwp (stale_node n p) h (λ g h', g = GotNull ∧ (∀ es' V', track L0 es' V' r h') ∧ dropped r n (h_ksm h) (h_ksm h')).
Proof.
  intros Ht [nd Hn] Hm. unfold stale_node. pwp_step.
  destruct (is_stable_node_chain nd) eqn:Hc.
  { unfold remove_node_from_stable_tree. pwp_step. apply pwp_get_knode. intros nd1 Hn1. rewrite Hn in Hn1. injection Hn1 as <-.
    pwp_step. apply pwp_halt_if. intros Hlt. apply Z.ltb_ge in Hlt. unfold is_stable_node_chain, STABLE_NODE_CHAIN in Hc.
    apply Z.eqb_eq in Hc. lia. }
  eapply pwp_mono; [by eapply track_remove_node|]. intros [] h1 [Ht1 Hd].
  do 2 pwp_step. simpl. rewrite (tk_offload _ _ _ _ _ Ht1). destruct (with_server L0) eqn:HL; pwp_step.
  - eapply pwp_mono; [eapply track_report_stale; [exact HL|exact Ht1]|].
    intros [] h2 [Ht2 E2]. pwp_step. split; [done|]. split; [done|]. by rewrite E2.
  - do 2 pwp_step. split; [done|]. split; [|done]. by eapply track_any.
Qed.

Definition tracked_got (es : list ksm_event_log) (V : gmap loc (loc * Z)) (r : Z) (n : loc) (flags : get_ksm_page_flags)
    (k : ksm) (g : gotten) (h' : host) : Prop :=
  match g with
  | Got p => track L0 es V r h' ∧ h_ksm h' = k ∧ ∃ nd, knodes k !! n = Some nd ∧ is_stable_node_chain nd = false ∧ kn_kpfn nd = p
  | GotNull => (∀ es' V', track L0 es' V' r h') ∧ dropped r n k (h_ksm h')
  | GotBusy => flags = GET_KSM_PAGE_TRYLOCK ∧ track L0 es V r h' ∧ h_ksm h' = k
  end.

Lemma not_expected n fr : is_expected n fr = false → fr_mapping fr ≠ MapKsm (Some n).
Proof. unfold is_expected. intros E. by apply bool_decide_eq_false in E. Qed.

Lemma track_get_ksm_page es V r n flags h :
  safe h → track L0 es V r h → pwp (get_ksm_page n flags) h (tracked_got es V r n flags (h_ksm h)).
Proof.
  intros Hsafe Ht. unfold get_ksm_page. pwp_step. apply pwp_get_knode. intros nd Hn. pwp_step. apply pwp_get_frame. intros fr1 Hp1.
  set (p := kn_kpfn nd) in *.
  assert (Hstale : ∀ h' fr, track L0 es V r h' → h_ksm h' = h_ksm h → frames (h_mem h') !! p = Some fr →
    fr_mapping fr ≠ MapKsm (Some n) → pwp (stale_node n p) h' (tracked_got es V r n flags (h_ksm h))).
  { intros h' fr Ht' E Hp Hne. eapply pwp_mono.
    - eapply track_stale_node; [exact Ht'|exists nd; by rewrite E|].
      intros q fr' Hq Hqm. destruct (tk_frames _ _ _ _ _ Ht' q fr' n Hq Hqm) as (nd' & A & _ & B).
      rewrite E, Hn in A. injection A as <-. fold p in B. subst q. rewrite Hp in Hq. injection Hq as <-. done.
    - intros g h2 (-> & A & B). rewrite E in B. done. }
  destruct (is_expected n fr1) eqn:Hx1; simpl; [|eapply Hstale; [done|done|exact Hp1|by apply not_expected]].
  apply (pwp_both _ _ _ (λ _ h', from h [] [] h') (λ _ h', track L0 es V r h' ∧ h_ksm h' = h_ksm h));
    [by apply keeps_interfere, safe_from|by apply track_interfere|].
  intros [] h1 Hk1 [Ht1 E1]. pwp_step. apply pwp_get_frame. intros fr2 Hp2.
  destruct (Z.eqb_spec (page_count fr2) 0) as [Hz|Hz].
  { eapply Hstale; [done|done|exact Hp2|]. intros Hm.
    destruct (mo_ksm _ (fm_ok _ _ _ _ Hk1) p fr2 Hp2) as [_ ?]; [by unfold PageKsm; rewrite Hm|lia]. }
  assert (Hput : ∀ h', track L0 es V r h' → h_ksm h' = h_ksm h → (∃ fr, frames (h_mem h') !! p = Some fr ∧ fr_mapping fr ≠ MapKsm (Some n)) →
    pwp (put_page p ;; stale_node n p) h' (tracked_got es V r n flags (h_ksm h))).
  { intros h' Ht' E' (fr & Hp & Hm). pwp_step. unfold put_page. apply pwp_upd_frame. intros fr' Hp'. rewrite Hp in Hp'. injection Hp' as <-.
    eapply (Hstale _ (drop_ref fr)); [| |simpl; by rewrite lookup_insert_eq|by intros ?%drop_ref_mapping].
    - eapply track_frame; [done|exact Hp|intros m; apply drop_ref_mapping].
    - done. }
  pwp_step. unfold get_page. apply pwp_upd_frame. intros fr2' Hp2'. rewrite Hp2 in Hp2'. injection Hp2' as <-.
  assert (Ht2 : track L0 es V r (with_mem (on_frames (<[p := add_kref 1 fr2]>)) h1)) by by eapply track_frame.
  set (h2 := with_mem _ h1) in *. assert (E2 : h_ksm h2 = h_ksm h) by done.
  assert (Hp3 : frames (h_mem h2) !! p = Some (add_kref 1 fr2)) by (simpl; by rewrite lookup_insert_eq).
  clearbody h2.
  destruct (is_expected n fr2) eqn:Hx2; simpl; cycle 1.
  { apply Hput; [done|done|]. exists (add_kref 1 fr2). split; [done|]. by apply not_expected in Hx2. }
  assert (Hgot : ∀ h3, track L0 es V r h3 → h_ksm h3 = h_ksm h → (∃ fr, frames (h_mem h3) !! p = Some fr ∧ fr_mapping fr = MapKsm (Some n)) →
    tracked_got es V r n flags (h_ksm h) (Got p) h3).
  { intros h3 Ht3 E3 (fr & Hp & Hm). split; [done|]. split; [done|]. destruct (tk_frames _ _ _ _ _ Ht3 p fr n Hp Hm) as (nd' & A & B & C).
    rewrite E3 in A. by exists nd'. }
  assert (Hagain : ∀ h3, track L0 es V r h3 → h_ksm h3 = h_ksm h →
    pwp (fr ← get_frame p; if negb (is_expected n fr) then unlock_page p ;; put_page p ;; stale_node n p else mret (Got p)) h3
      (tracked_got es V r n flags (h_ksm h))).
  { intros h3 Ht3 E3. pwp_step. apply pwp_get_frame. intros fr3 Hq3. destruct (is_expected n fr3) eqn:He; simpl.
    - pwp_step. apply Hgot; [done|done|]. exists fr3. split; [done|]. by apply bool_decide_eq_true in He.
    - pwp_step. unfold unlock_page. apply pwp_upd_frame. intros fr4 Hq4. rewrite Hq3 in Hq4. injection Hq4 as <-. apply Hput.
      + by eapply track_frame.
      + done.
      + exists (set_lock Unlocked fr3). simpl. rewrite lookup_insert_eq. split; [done|]. by apply not_expected in He. }
  destruct flags.
  - pwp_step. apply Hgot; [done|done|]. exists (add_kref 1 fr2). split; [done|]. by apply bool_decide_eq_true in Hx2.
  - pwp_step. eapply pwp_mono; [by apply track_lock_page|]. intros [] h3 [Ht3 E3]. apply Hagain; [done|congruence].
  - pwp_step. eapply pwp_mono; [by apply track_trylock_page|]. intros ok h3 [Ht3 E3]. destruct ok; simpl; [apply Hagain; [done|congruence]|].
    pwp_step. eapply pwp_mono; [by apply track_put_page|]. intros [] h4 [Ht4 E4]. pwp_step. split_and!; [done|done|congruence].
Qed.

(** ** Items *)

(** Items leave the trees only; none is made or freed. *)
Definition unlists (k k' : ksm) : Prop :=
  dom (kitems k') = dom (kitems k) ∧
  ∀ i it', kitems k' !! i = Some it' → plain_item it' ∨
    ∃ it, kitems k !! i = Some it ∧ stable_item it = stable_item it' ∧ unstable_item it = unstable_item it' ∧
      (unstable_item it' = true → ki_address it' = ki_address it).

Lemma plain_mask it : plain_item (mask_address it).
Proof. split; [apply stable_flag_masked|apply unstable_masked]. Qed.

Lemma unlists_same k k' : kitems k' = kitems k → unlists k k'.
Proof. intros E. split; [by rewrite E|]. intros i it'. rewrite E. right. by exists it'. Qed.
Lemma unlists_trans k1 k2 k3 : unlists k1 k2 → unlists k2 k3 → unlists k1 k3.
Proof.
  intros [DA A] [DB B]. split; [congruence|]. intros i it3 H3. destruct (B i it3 H3) as [?|(it2 & H2 & S2 & U2 & E2)]; [by left|].
  destruct (A i it2 H2) as [[P1 P2]|(it1 & H1 & S1 & U1 & E1)]; [left; split; congruence|right]. exists it1.
  split_and!; [congruence..|]. intros Hu. rewrite E2, E1 by congruence. done.
Qed.

Lemma unlists_mask l k k' : kitems k' = mask_all l (kitems k) → unlists k k'.
Proof.
  intros E. split.
  - rewrite E. apply set_eq. intros i. rewrite !elem_of_dom, lookup_mask_all. by destruct (kitems k !! i).
  - intros i it' Hi. rewrite E, lookup_mask_all in Hi. destruct (kitems k !! i) as [it|]; [|done]. simpl in Hi. injection Hi as <-.
    case_decide; [left; apply plain_mask|right; by exists it].
Qed.

Lemma unlists_insert i it k k' :
  is_Some (kitems k !! i) → plain_item it → kitems k' = <[i := it]> (kitems k) → unlists k k'.
Proof.
  intros Hsome Hs E. split; [by rewrite E, dom_insert_lookup_L|]. intros j it' Hj. rewrite E in Hj. destruct (decide (j = i)) as [->|Hne].
  - rewrite lookup_insert_eq in Hj. left. congruence.
  - rewrite lookup_insert_ne in Hj by done. right. by exists it'.
Qed.

(** The item is in no tree after. *)
Definition unlisted (i : loc) (h : host) : Prop := ∀ it, kitems (h_ksm h) !! i = Some it → plain_item it.

Lemma unlisted_aligned es V r i it h :
  track L0 es V r h → unlisted i h → kitems (h_ksm h) !! i = Some it → page_of (ki_address it) = ki_address it.
Proof. intros Ht Hu Hi. by apply (uo_marks _ _ (tk_unstable _ _ _ _ _ Ht) i it Hi), Hu. Qed.

Lemma unlisted_sharing es V r i h : track L0 es V r h → unlisted i h → sharing (h_ksm h) = V → V !! i = None.
Proof.
  intros Ht Hu <-. rewrite lookup_sharing. destruct (kitems (h_ksm h) !! i) as [it|] eqn:Hi; [|done]. simpl.
  unfold node_of_kitem. destruct (Hu it Hi) as [E _]. by rewrite E.
Qed.

Lemma unlisted_later i h h' : unlists (h_ksm h) (h_ksm h') → unlisted i h → unlisted i h'.
Proof.
  intros [_ Hl] Hu it Hi. destruct (Hl i it Hi) as [?|(it0 & Hi0 & S0 & U0 & _)]; [done|]. destruct (Hu it0 Hi0). split; congruence.
Qed.

Lemma track_item es V r d i it it' h f :
  track L0 es V r h → kitems (h_ksm h) !! i = Some it → stable_item it = false → stable_item it' = false →
  unstable_ok (passing L0) (f (h_ksm h)) → is_ksm_offload (f (h_ksm h)) = is_ksm_offload (h_ksm h) →
  kitems (f (h_ksm h)) = <[i := it']> (kitems (h_ksm h)) → knodes (f (h_ksm h)) = knodes (h_ksm h) →
  root_stable_tree (f (h_ksm h)) = root_stable_tree (h_ksm h) →
  counted_as 0 0 d (counters (h_ksm h)) (counters (f (h_ksm h))) →
  track L0 es V (r + d) (with_ksm f h).
Proof.
  intros Ht Hi Hs Hs' Hu Ho HI HN HR HC.
  destruct (ksm_ok_item r (h_ksm h) (f (h_ksm h)) i it it' d (tk_ksm _ _ _ _ _ Ht) Hi Hs Hs' HI HN HR HC) as [A B].
  eapply track_change; [done|exact A|done|done|congruence| |by apply no_new_pages_refl]. intros n nd Hn Hc _. exists nd. by rewrite HN.
Qed.

(** One that is in no tree, before and after. *)
Lemma track_plain_item es V r d i it it' h f :
  track L0 es V r h → kitems (h_ksm h) !! i = Some it → plain_item it → plain_item it' →
  kitems (f (h_ksm h)) = <[i := it']> (kitems (h_ksm h)) → knodes (f (h_ksm h)) = knodes (h_ksm h) →
  root_stable_tree (f (h_ksm h)) = root_stable_tree (h_ksm h) → root_unstable_tree (f (h_ksm h)) = root_unstable_tree (h_ksm h) →
  scan_seqnr (f (h_ksm h)) = scan_seqnr (h_ksm h) → is_ksm_offload (f (h_ksm h)) = is_ksm_offload (h_ksm h) →
  counted_as 0 0 d (counters (h_ksm h)) (counters (f (h_ksm h))) → page_of (ki_address it') = ki_address it' →
  (∀ X, ksm_pages_unshared (counters (h_ksm h)) = u64 X → ksm_pages_unshared (counters (f (h_ksm h))) = u64 X) →
  track L0 es V (r + d) (with_ksm f h).
Proof.
  intros Ht Hi [Hs Hu] [Hs' Hu'] HI HN HR HUr Hsq Ho HC Ha HX. eapply track_item; try done.
  eapply unstable_ok_same, Ht. split; try done; rewrite HI.
  - apply unstables_insert. rewrite Hi. simpl. unfold unstable_address. by rewrite Hu, Hu'.
  - intros HM. apply marks_ok_insert; [done..|congruence].
Qed.

Lemma u64_idem_counter r N c : counted r N c → u64 (ksm_pages_shared c + 0) = ksm_pages_shared c ∧ u64 (ksm_pages_sharing c + 0) = ksm_pages_sharing c.
Proof. intros [-> -> _ _ _]. rewrite !u64_add. by rewrite !Z.add_0_r. Qed.

Lemma track_remove_rmap_item es V r i h :
  safe h → track L0 es V r h →
  pwp (remove_rmap_item_from_tree i) h (λ _ h', track L0 es (delete i V) r h' ∧ unlisted i h' ∧ unlists (h_ksm h) (h_ksm h')).
Proof.
  intros Hsafe Ht. unfold remove_rmap_item_from_tree. pwp_step. apply pwp_get_kitem. intros it Hi.
  change (has_flag STABLE_FLAG (ki_address it)) with (stable_item it). destruct (stable_item it) eqn:Hs.
  - destruct (ko_item _ _ (tk_ksm _ _ _ _ _ Ht) i it Hi Hs) as (n & nd & Hh & Hn & Hc & Hin). rewrite Hh. do 2 pwp_step.
    injection H1 as <-.
    pwp_step. eapply pwp_mono; [by apply track_get_ksm_page|]. intros g h1 Hg. destruct g as [p| |]; simpl in Hg.
    + destruct Hg as (Ht1 & E1 & _). pwp_step. unfold hlist_del. apply pwp_upd_knode. rewrite E1, Hn. intros nd' [= <-].
      pwp_step. unfold unlock_page. apply pwp_upd_frame. simpl. intros fr Hp.
      pwp_step. unfold put_page. apply pwp_upd_frame. simpl. rewrite lookup_insert_eq. intros fr' [= <-].
      pwp_step. apply pwp_get_knode. simpl. rewrite E1, lookup_insert_eq. intros nd' [= <-]. simpl.
      set (L := filter (λ y, y ≠ i) (kn_hlist nd)). set (nd1 := set_hlist (kn_len nd) L nd).
      set (a := if bool_decide (L = []) then -1 else 0). set (b := if bool_decide (L = []) then 0 else -1).
      assert ((if bool_decide (L = []) then count (-1) 0 0 (-1) else count 0 (-1) 0 (-1)) = count a b 0 (-1)) as ->.
      { unfold a, b. by case_bool_decide. }
      unfold count, count_merging. do 5 pwp_step. apply pwp_upd_knode. simpl. rewrite E1, lookup_insert_eq. intros nd' [= <-].
      apply pwp_upd_kitem. simpl. rewrite E1, Hi. intros it' [= <-].
      destruct (ko_node _ _ (tk_ksm _ _ _ _ _ Ht) n nd Hn Hc) as (Hlen & Hnd & Hall).
      pose proof (length_filter_ne _ _ Hnd Hin) as Hlf. fold L in Hlf.
      pose proof (hlist_small _ _ _ _ (tk_ksm _ _ _ _ _ Ht) Hn Hc). pose proof (ko_small _ _ (tk_ksm _ _ _ _ _ Ht)).
      match goal with |- track _ _ _ _ ?h' ∧ _ => set (h2 := h') end.
      assert (ksm_ok r (h_ksm h2) ∧ sharing (h_ksm h2) = delete i (sharing (h_ksm h))) as [A B].
      { eapply (ksm_ok_drop_item r (h_ksm h) (h_ksm h2) i it (mask_address (set_head_ptr None it)) n nd); try done; simpl; rewrite ?E1; try done.
        - by apply (tk_ksm _ _ _ _ _ Ht).
        - apply stable_flag_masked.
        - rewrite insert_insert_eq, wrap_s_small by lia. done. }
      assert (scan_same (h_ksm h) (h_ksm h2)) as Hsame.
      { split; simpl; rewrite ?E1; try done.
        - apply unstables_insert. rewrite Hi. simpl. unfold unstable_address.
          by rewrite (stable_not_unstable _ _ i it (tk_unstable _ _ _ _ _ Ht) Hi Hs), unstable_masked.
        - intros X ->. by rewrite u64_add, Z.add_0_r.
        - by apply marks_ok_masked. }
      split_and!.
      * assert (track L0 es V r (with_mem (λ _, h_mem h2) h1)) as Ht2.
        { apply track_mem; [done|simpl|simpl; rewrite !dom_insert_L; apply elem_of_dom_2 in Hp; set_solver].
          intros q fr1 m Hq Hqm. rewrite insert_insert_eq in Hq. destruct (decide (q = p)) as [->|Hne].
          - rewrite lookup_insert_eq in Hq. injection Hq as <-. apply drop_ref_mapping in Hqm. by exists fr.
          - rewrite lookup_insert_ne in Hq by done. by exists fr1. }
        assert (knodes (h_ksm h2) = <[n := set_hlist (s32 (kn_len nd - 1)) L nd]> (knodes (h_ksm h1))) as HN2 by (simpl; apply insert_insert_eq).
        assert (is_stable_node_chain (set_hlist (s32 (kn_len nd - 1)) L nd) = false) as Hc2.
        { apply is_chain_set_hlist. rewrite wrap_s_small by lia. lia. }
        change h2 with (with_ksm (λ _, h_ksm h2) (with_mem (λ _, h_mem h2) h1)). eapply track_ksm; [exact Ht2|exact A| | | |].
        -- change (h_ksm (with_mem _ h1)) with (h_ksm h1). by rewrite E1.
        -- intros HV. etransitivity; [exact B|]. rewrite <- HV. simpl. by rewrite E1.
        -- intros m md Hm Hmc _. rewrite HN2. simpl in Hm. destruct (decide (m = n)) as [->|Hmn].
           ++ rewrite lookup_insert_eq. eexists. split; [reflexivity|]. rewrite E1, Hn in Hm. injection Hm as <-. done.
           ++ rewrite lookup_insert_ne by done. by exists md.
        -- rewrite HN2. eapply no_new_pages_insert; simpl; [rewrite E1; exact Hn|done|done].
      * intros it' Hit'. unfold h2 in Hit'. simpl in Hit'. rewrite lookup_insert_eq in Hit'. injection Hit' as <-. apply plain_mask.
      * eapply (unlists_insert i (mask_address (set_head_ptr None it))); [by eexists|apply plain_mask|]. simpl. by rewrite ?E1.
    + pwp_step. destruct Hg as [Ht1 (_ & _ & _ & HI & _)]. split; [apply Ht1|]. split; [|exact (unlists_mask _ _ _ (HI nd Hn))].
      intros it' Hit'. rewrite (HI nd Hn), lookup_mask_all, Hi in Hit'.
      simpl in Hit'. rewrite decide_True in Hit' by done. injection Hit' as <-. apply plain_mask.
    + by destruct Hg as [? _].
  - assert (Hdel : sharing (h_ksm h) !! i = None).
    { rewrite lookup_sharing, Hi. simpl. unfold node_of_kitem. by rewrite Hs. }
    assert (Hv : ∀ h', track L0 es V r h' → sharing (h_ksm h') !! i = None → track L0 es (delete i V) r h').
    { intros h' [T1 T2 T3 T4 T5 T6 T7 T8] Hn. split; try done. eapply logged_move; [exact T4|done|].
      intros <-. by rewrite delete_id. }
    change (has_flag UNSTABLE_FLAG (ki_address it)) with (unstable_item it). destruct (unstable_item it) eqn:Hu.
    + do 2 pwp_step. pwp_step. apply pwp_halt_if. intros _. change (wrap_u 8 ?a) with (item_age (scan_seqnr (h_ksm h)) (ki_address it)).
      set (age := item_age (scan_seqnr (h_ksm h)) (ki_address it)). pwp_step.
      apply (pwp_mono _ _ (λ _ h', h' = with_ksm (on_unstable (if age =? 0 then rb_erase i else id)) h)).
      { destruct (age =? 0); simpl; pwp_step; [done|]. by destruct h as [? ? ? [] ? ? ? ?]. }
      intros [] h1 ->. unfold count. do 2 pwp_step. apply pwp_upd_kitem. simpl. rewrite Hi. intros it' [= <-].
      match goal with |- context [with_ksm ?f (with_ksm ?g (with_ksm ?e h))] =>
        change (with_ksm f (with_ksm g (with_ksm e h))) with (with_ksm (λ k, f (g (e k))) h) end.
      split_and!.
      * apply Hv.
        -- replace r with (r + 0) by lia. eapply (track_item es V r 0 i it (mask_address it)); try done; simpl.
           ++ apply stable_flag_masked.
           ++ eapply (unstable_ok_leave (passing L0) (h_ksm h) _ i it (mask_address it)); try done; [apply (tk_unstable _ _ _ _ _ Ht)|].
              simpl. fold age. destruct (age =? 0); [apply inorder_erase|done].
        -- rewrite lookup_sharing. simpl. rewrite lookup_insert_eq. simpl. unfold node_of_kitem.
           change (stable_item (mask_address it)) with (has_flag STABLE_FLAG (page_of (ki_address it))). by rewrite stable_flag_masked.
      * intros it' Hit'. simpl in Hit'. rewrite lookup_insert_eq in Hit'. injection Hit' as <-. apply plain_mask.
      * eapply (unlists_insert i (mask_address it)); [by eexists|apply plain_mask|done].
    + pwp_step. split; [by apply Hv|]. split; [|by apply unlists_same]. intros it' Hit'. rewrite Hi in Hit'. by injection Hit' as <-.
Qed.
End nodes.
