(* ===== verification/HostTrackInsert.v ===== *)
(** * HostTrackInsert: joining the stable tree

    [stable_tree_append] and [stable_tree_insert] through [track]; every
    restart of the insertion's search follows the removal of a node, so its
    fuel is enough. *)
From S2P Require Import Prelude Wire HashPair Growable Shadow Server HostMem HostTree HostTreeInv HostMerge HostApply HostSafe HostTrack.
Open Scope Z_scope.

Section insert.
Context `{RbTree} `{Memcmp} (L0 : mode).

Definition live_node (n : loc) (h : host) : Prop :=
  ∃ nd, knodes (h_ksm h) !! n = Some nd ∧ is_stable_node_chain nd = false.

(** ** Appending *)
Lemma track_stable_tree_append es V r i n nd h :
  track L0 es V r h → unlisted i h → knodes (h_ksm h) !! n = Some nd → is_stable_node_chain nd = false →
  pwp (stable_tree_append i n) h (λ _ h', track L0 es (<[i := (n, kn_kpfn nd)]> V) (r - 1) h' ∧ live_node n h' ∧
    (∀ j, j ≠ i → unlisted j h → unlisted j h') ∧
    ∃ nd', knodes (h_ksm h') !! n = Some nd' ∧ is_stable_node_chain nd' = false ∧ kn_kpfn nd' = kn_kpfn nd).
Proof.
  intros Ht Hu Hn Hc. unfold stable_tree_append. pwp_step. apply pwp_get_knode. intros nd0 Hn0. rewrite Hn in Hn0. injection Hn0 as <-.
  pwp_step. apply pwp_get_kitem. intros it Hi. pwp_step. apply pwp_halt_if. intros _.
  pwp_step. apply pwp_upd_knode. rewrite Hn. intros nd' [= <-].
  pwp_step. apply pwp_upd_kitem. simpl. rewrite Hi. intros it' [= <-].
  set (a := if bool_decide (kn_hlist nd = []) then 1 else 0). set (b := if bool_decide (kn_hlist nd = []) then 0 else 1).
  assert ((if bool_decide (kn_hlist nd = []) then count 1 0 0 0 else count 0 1 0 0) = count a b 0 0) as ->.
  { unfold a, b. by case_bool_decide. }
  unfold count, count_merging. do 3 pwp_step.
  set (nd1 := set_hlist (s32 (kn_len nd + 1)) (i :: kn_hlist nd) nd).
  set (it1 := set_address (Z.lor (ki_address it) STABLE_FLAG) (set_head_ptr (Some n) it)).
  match goal with |- track _ _ _ _ ?h' ∧ _ => set (h2 := h') end.
  pose proof (tk_ksm _ _ _ _ _ Ht) as Hk.
  destruct (ko_node _ _ Hk n nd Hn Hc) as (Hlen & Hnd & Hall).
  assert (i ∉ kn_hlist nd) as Hni.
  { intros Hin. destruct (Hall i Hin) as (it2 & A & B & _). destruct (Hu it2 A). congruence. }
  assert (Z.of_nat (length (i :: kn_hlist nd)) ≤ Z.of_nat (size (kitems (h_ksm h)))) as Hsm.
  { pose proof (length_subset (i :: kn_hlist nd) (dom (kitems (h_ksm h)))) as Hle. rewrite size_dom in Hle.
    enough (length (i :: kn_hlist nd) ≤ size (kitems (h_ksm h)))%nat by lia. apply Hle; [by apply NoDup_cons|].
    intros j [->|Hj]%elem_of_cons; apply elem_of_dom; [by exists it|]. destruct (Hall j Hj) as (jt & A & _). by exists jt. }
  pose proof (ko_small _ _ Hk). simpl length in Hsm.
  assert (s32 (kn_len nd + 1) = kn_len nd + 1) as Hs32 by (apply wrap_s_small; lia).
  assert (ksm_ok (r - 1) (h_ksm h2) ∧ sharing (h_ksm h2) = <[i := (n, kn_kpfn nd)]> (sharing (h_ksm h))) as [A B].
  { eapply (ksm_ok_append r (h_ksm h) (h_ksm h2) i it it1 n nd); try done.
    - by apply Hu.
    - apply stable_flag_set.
    - simpl. unfold nd1. by rewrite Hs32. }
  assert (∃ nd', knodes (h_ksm h2) !! n = Some nd' ∧ is_stable_node_chain nd' = false ∧ kn_kpfn nd' = kn_kpfn nd) as Hnd'.
  { exists nd1. simpl. rewrite lookup_insert_eq. split_and!; [done| |done]. apply is_chain_set_hlist. lia. }
  split_and!.
  - change h2 with (with_ksm (λ _, h_ksm h2) h). eapply track_ksm; [exact Ht|exact A| | | |].
    + split; simpl; try done.
      * apply unstables_insert. rewrite Hi. simpl. unfold unstable_address, it1. by rewrite unstable_listed, (proj2 (Hu it Hi)).
      * intros X ->. by rewrite u64_add, Z.add_0_r.
      * intros HM. apply marks_ok_listed; [done|apply stable_flag_set|]. unfold it1. by rewrite unstable_listed, (proj2 (Hu it Hi)).
    + intros HV. etransitivity; [exact B|]. by rewrite <- HV.
    + intros m md Hm Hmc _. simpl. destruct (decide (m = n)) as [->|Hne].
      * rewrite lookup_insert_eq. eexists. split; [reflexivity|]. rewrite Hn in Hm. injection Hm as <-. split; [|done].
        apply is_chain_set_hlist. lia.
      * rewrite lookup_insert_ne by done. by exists md.
    + simpl. eapply no_new_pages_insert; [exact Hn|done|done].
  - destruct Hnd' as (nd' & ? & ? & _). by exists nd'.
  - intros j Hne Huj jt Hj. apply Huj. simpl in Hj. by rewrite lookup_insert_ne in Hj by done.
  - done.
Qed.

(** ** Searching *)

Lemma dropped_unlists r n k k' : is_Some (knodes k !! n) → dropped r n k k' → unlists k k'.
Proof. intros [nd Hn] (_ & _ & _ & HI & _). exact (unlists_mask _ _ _ (HI nd Hn)). Qed.

Lemma dropped_size r n k k' : is_Some (knodes k !! n) → dropped r n k k' → (size (knodes k') < size (knodes k))%nat.
Proof.
  intros [nd Hn] (_ & _ & -> & _). rewrite map_size_delete, lookup_fmap, Hn. simpl. rewrite map_size_fmap.
  assert (size (knodes k) ≠ 0%nat); [|lia]. intros Hz. apply map_size_empty_inv in Hz. rewrite Hz in Hn. done.
Qed.

(** The state while a chain [c] is walked: tree unchanged, fewer nodes. *)
Definition walking (es : list ksm_event_log) (V : gmap loc (loc * Z)) (r : Z) (k : ksm) (h' : host) : Prop :=
  track L0 es V r h' ∧ root_stable_tree (h_ksm h') = root_stable_tree k ∧
  (size (knodes (h_ksm h')) ≤ size (knodes k))%nat ∧ unlists k (h_ksm h').

Lemma walking_refl es V r h : track L0 es V r h → walking es V r (h_ksm h) h.
Proof. intros ?. split_and!; [done..|by apply unlists_same]. Qed.

Lemma walking_same es V r k h h' : walking es V r k h → track L0 es V r h' → h_ksm h' = h_ksm h → walking es V r k h'.
Proof. intros (_ & A & B & C) Ht E. unfold walking. by rewrite E. Qed.

(** The duplicates still to visit are on the chain. *)
Definition on_chain (c : loc) (l : list loc) (h : host) : Prop :=
  ∃ cd, knodes (h_ksm h) !! c = Some cd ∧ is_stable_node_chain cd = true ∧ NoDup l ∧ ∀ d, d ∈ l → d ∈ kn_hlist cd.

Lemma on_chain_dropped r c d l k h h' :
  h_ksm h = k → on_chain c (d :: l) h → ksm_ok r k → dropped r d k (h_ksm h') → on_chain c l h'.
Proof.
  intros <- (cd & A & B & C & D) Hk (_ & _ & HN & _). apply NoDup_cons in C as [Hd C].
  assert (c ≠ d) as Hcd.
  { intros ->. destruct (ko_chain _ _ Hk d cd A B) as (_ & _ & Hall). destruct (Hall d ltac:(set_solver)) as (dd & E & _ & F). congruence. }
  exists (drop_dup d cd). rewrite HN, lookup_delete_ne, lookup_fmap, A by done. simpl.
  destruct (drop_dup_same d cd) as (_ & _ & _ & E & _). split_and!; [done|congruence|done|].
  intros x Hx. unfold drop_dup. rewrite B. simpl. apply list_elem_of_filter. split; [|apply D; set_solver]. by intros ->.
Qed.

Lemma on_chain_root r c d l h h' :
  on_chain c (d :: l) h → ksm_ok r (h_ksm h) → dropped r d (h_ksm h) (h_ksm h') →
  root_stable_tree (h_ksm h') = root_stable_tree (h_ksm h) ∧ is_Some (knodes (h_ksm h) !! d).
Proof.
  intros (cd & A & B & C & D) Hk (_ & _ & _ & _ & HR). destruct (ko_chain _ _ Hk c cd A B) as (_ & _ & Hall).
  destruct (Hall d ltac:(apply D; set_solver)) as (dd & E & F & _). split; [by eapply HR|by exists dd].
Qed.

Lemma track_first_dup es V r c l k h :
  safe h → walking es V r k h → on_chain c l h →
  pwp (first_dup l) h (λ res h', walking es V r k h' ∧
    match res with Some (d, _) => on_chain c [d] h' | None => True end).
Proof.
  revert h. induction l as [|d l IH]; intros h Hs Hw Hon; simpl; [by pwp_step|].
  destruct Hw as (Ht & HR & Hsz & Hun).
  eapply (pwp_both _ _ _ _ (tracked_got L0 es V r d GET_KSM_PAGE_NOLOCK (h_ksm h)));
    [by apply (keeps_get_ksm_page h [] []), safe_from|by apply track_get_ksm_page|].
  intros [p| |] h1 Hk1 Hg; simpl in Hg.
  - destruct Hk1 as (Hk1 & _). destruct Hg as (Ht1 & E1 & _).
    assert (Hw1 : walking es V r k h1) by (unfold walking; by rewrite E1).
    assert (Hon1 : on_chain c (d :: l) h1).
    { destruct Hon as (cd & A). exists cd. by rewrite E1. }
    pwp_step. apply pwp_get_knode. intros nd _. do 2 pwp_step. case_match.
    + pwp_step. split; [done|]. destruct Hon1 as (cd & A & B & C & D). exists cd. split_and!; [done|done|apply NoDup_singleton|].
      intros x ->%list_elem_of_singleton. apply D. set_solver.
    + eapply (pwp_both _ _ _ _ (λ _ h', track L0 es V r h' ∧ h_ksm h' = h_ksm h1));
        [by apply (keeps_put_page h [] [])|by apply track_put_page|].
      intros [] h2 Hk2 [Ht2 E2]. apply IH; [by eapply from_safe|by eapply walking_same|].
      destruct Hon1 as (cd & A & B & C & D). exists cd. rewrite E2. apply NoDup_cons in C as [_ C].
      split_and!; [done|done|done|]. intros x Hx. apply D. set_solver.
  - destruct Hg as [Ht1 Hd]. pose proof (tk_ksm _ _ _ _ _ Ht) as Hok.
    destruct (on_chain_root _ _ _ _ _ _ Hon Hok Hd) as [HR1 Hsome]. pose proof (dropped_size _ _ _ _ Hsome Hd).
    pose proof (dropped_unlists _ _ _ _ Hsome Hd). apply IH; [by eapply from_safe| |by eapply (on_chain_dropped r c d l (h_ksm h) h)].
    split_and!; [apply Ht1|congruence|lia|by eapply unlists_trans].
  - by destruct Hg as [? _].
Qed.

(** The duplicates of a chain in another order, or another time of pruning. *)
Lemma track_reorder es V r c cd L j h :
  track L0 es V r h → knodes (h_ksm h) !! c = Some cd → is_stable_node_chain cd = true → L ≡ₚ kn_hlist cd →
  track L0 es V r (with_ksm (on_nodes (<[c := set_kpfn j (set_hlist (kn_len cd) L cd)]>)) h).
Proof.
  intros Ht Hcd Hcc HL.
  match goal with |- track _ _ _ _ (with_ksm ?f h) =>
    destruct (ksm_ok_reorder r (h_ksm h) (f (h_ksm h)) c cd L j (tk_ksm _ _ _ _ _ Ht) Hcd Hcc HL eq_refl eq_refl eq_refl eq_refl) as [E F] end.
  eapply track_ksm; [exact Ht|exact E|by split|congruence| |].
  - intros n nd Hn Hc _. exists nd. simpl. rewrite lookup_insert_ne; [done|]. intros <-. congruence.
  - simpl. intros m md [[<- <-]|[_ Hm]]%lookup_insert_Some Hmc; [|by exists m, md]. change (is_stable_node_chain cd = false) in Hmc. congruence.
Qed.

(** The duplicate [d] first. *)
Lemma head_first (l : list loc) d : NoDup l → d ∈ l → d :: filter (λ y, y ≠ d) l ≡ₚ l.
Proof.
  intros Hnd Hd. apply NoDup_Permutation; [|done|].
  - apply NoDup_cons. split; [rewrite list_elem_of_filter; tauto|by apply NoDup_filter].
  - intros x. rewrite elem_of_cons, list_elem_of_filter. destruct (decide (x = d)) as [->|]; tauto.
Qed.

Lemma track_stable_node_dup es V r c h cd :
  safe h → track L0 es V r h → knodes (h_ksm h) !! c = Some cd → is_stable_node_chain cd = true →
  pwp (stable_node_dup c) h (λ res h', walking es V r (h_ksm h) h').
Proof.
  intros Hs Ht Hcd Hcc. unfold stable_node_dup. pwp_step. apply pwp_get_knode. intros cd0 Hcd0. rewrite Hcd in Hcd0. injection Hcd0 as <-.
  destruct (ko_chain _ _ (tk_ksm _ _ _ _ _ Ht) c cd Hcd Hcc) as (_ & Hnd & _).
  pwp_step. eapply pwp_mono.
  { eapply (track_first_dup es V r c (kn_hlist cd) (h_ksm h)); [done|by apply walking_refl|]. by exists cd. }
  intros [[d p]|] h1 [Hw Hon]; [|by pwp_step].
  pwp_step. apply pwp_get_knode. intros cd1 Hcd1. pwp_step. apply pwp_get_knode. intros dd _. do 2 pwp_step.
  destruct Hon as (cd2 & A & B & _ & D). rewrite Hcd1 in A. injection A as <-. specialize (D d ltac:(set_solver)).
  pwp_step. apply pwp_whenM; intros _; [|by pwp_step].
  apply pwp_upd_knode. rewrite Hcd1. intros cd2 [= <-]. pwp_step. destruct Hw as (Ht1 & HR & Hsz & Hun).
  destruct (ko_chain _ _ (tk_ksm _ _ _ _ _ Ht1) c cd1 Hcd1 B) as (_ & Hnd1 & _).
  split_and!; [|done| |exact Hun].
  - exact (track_reorder _ _ _ c cd1 _ (kn_kpfn cd1) h1 Ht1 Hcd1 B (head_first _ _ Hnd1 D)).
  - simpl. rewrite map_size_insert_Some by (by exists cd1). done.
Qed.

Lemma track_get_nolock es V r n h :
  safe h → track L0 es V r h → pwp (get_ksm_page n GET_KSM_PAGE_NOLOCK) h (λ g h', track L0 es V r h' ∧
    match g with Got _ => h_ksm h' = h_ksm h | _ => (size (knodes (h_ksm h')) < size (knodes (h_ksm h)))%nat ∧ unlists (h_ksm h) (h_ksm h') end).
Proof.
  intros Hs Ht. destruct (knodes (h_ksm h) !! n) as [nd|] eqn:Hn; cycle 1.
  { unfold get_ksm_page. pwp_step. apply pwp_get_knode. intros nd Hnd. congruence. }
  eapply pwp_mono; [by apply track_get_ksm_page|]. intros [p| |] h1 Hg; simpl in Hg.
  - by destruct Hg as (? & ? & _).
  - destruct Hg as [Ht1 Hd]. split; [apply Ht1|].
    split; [eapply dropped_size; [by exists nd|exact Hd]|eapply dropped_unlists; [by exists nd|exact Hd]].
  - by destruct Hg as [? _].
Qed.

(** A failed comparison leads to [again], with a node less. *)
Definition searched (es : list ksm_event_log) (V : gmap loc (loc * Z)) (r : Z) (k : ksm) (res : option Z) (h' : host) : Prop :=
  match res with
  | Some _ => walking es V r k h'
  | None => track L0 es V r h' ∧ (size (knodes (h_ksm h')) < size (knodes k))%nat ∧ unlists k (h_ksm h')
  end.

Lemma searched_got es V r k n h :
  safe h → walking es V r k h →
  pwp (get_ksm_page n GET_KSM_PAGE_NOLOCK) h (λ g, searched es V r k (if g is Got p then Some p else None)).
Proof.
  intros Hs (Ht & HR & Hsz & Hun). eapply pwp_mono; [by apply track_get_nolock|].
  intros [p| |] h1 [Ht1 E]; simpl; [by apply (walking_same es V r k h)|..].
  all: destruct E; split_and!; [done|lia|by eapply unlists_trans].
Qed.

Lemma track_free_chain es V r c h :
  track L0 es V r h → (∀ cd, knodes (h_ksm h) !! c = Some cd → is_stable_node_chain cd = true ∧ kn_hlist cd = []) →
  pwp (free_stable_node_chain c) h (λ _ h', track L0 es V r h' ∧ (size (knodes (h_ksm h')) < size (knodes (h_ksm h)))%nat ∧
    unlists (h_ksm h) (h_ksm h')).
Proof.
  intros Ht Hc. unfold free_stable_node_chain. do 2 pwp_step. pwp_step. unfold free_stable_node. pwp_step. apply pwp_get_knode.
  intros cd Hcd. simpl in Hcd. destruct (Hc cd Hcd) as [Hcc Hl]. unfold count_nodes. do 2 pwp_step.
  pose proof (tk_ksm _ _ _ _ _ Ht) as Hk. destruct (ko_counted _ _ Hk) as [E1 E2 E3 E4 E5].
  match goal with |- track _ _ _ _ ?h' ∧ _ => set (h2 := h') end.
  assert (ksm_ok r (h_ksm h2) ∧ sharing (h_ksm h2) = sharing (h_ksm h)) as [A B].
  { eapply (ksm_ok_free_chain r (h_ksm h) (h_ksm h2) c cd); try done; simpl; rewrite ?inorder_erase.
    - apply NoDup_filter. by apply ko_nodup with r.
    - intros m. by rewrite list_elem_of_filter.
    - by rewrite E4, u64_add, Z.add_0_r. }
  split_and!.
  - change h2 with (with_ksm (λ _, h_ksm h2) h). eapply track_ksm; [exact Ht|exact A|by split|congruence|..].
    { intros n nd Hn Hnc _. exists nd. simpl. rewrite lookup_delete_ne; [done|]. intros <-. congruence. }
    simpl. apply no_new_pages_delete.
  - simpl. rewrite map_size_delete, Hcd. assert (size (knodes (h_ksm h)) ≠ 0%nat); [|lia].
    intros Hz. apply map_size_empty_inv in Hz. rewrite Hz in Hcd. done.
  - by apply unlists_same.
Qed.

Lemma track_chain es V r x h :
  safe h → track L0 es V r h → pwp (chain x) h (λ c h', safe h' ∧
    (if c.1 then searched es V r (h_ksm h) c.2 h' else walking es V r (h_ksm h) h')).
Proof.
  intros Hs Ht. unfold chain. pwp_step. apply pwp_get_knode. intros nd Hn. destruct (is_stable_node_chain nd) eqn:Hc.
  - eapply pwp_both; [by apply (keeps_stable_node_dup h [] []), safe_from|by eapply track_stable_node_dup|].
    intros [[d p]|] h1 Hk1 Hw; simpl in Hk1; pwp_step; (split; [by eapply from_safe|done]).
  - do 2 pwp_step. destruct (is_page_sharing_candidate_at _ _ _).
    + eapply pwp_both; [exact (keeps_get_nolock h [] [] x h (safe_from h Hs))|apply (searched_got es V r (h_ksm h)); [done|by apply walking_refl]|].
      intros [p| |] h1 Hk1 Hw; simpl in Hk1; pwp_step; (split; [by eapply from_safe|done]).
    + pwp_step. split; [done|by apply walking_refl].
Qed.

Lemma track_tree_page_of es V r x h :
  safe h → track L0 es V r h → pwp (tree_page_of x) h (searched es V r (h_ksm h)).
Proof.
  intros Hs Ht. unfold tree_page_of. pwp_step. eapply pwp_mono; [by eapply track_chain|].
  intros [found tp] h1 [Hs1 Hc]. simpl in Hc. destruct found; [by pwp_step|].
  pwp_step. unfold stable_node_dup_any. pwp_step. apply pwp_get_knode. intros nd Hn. destruct (is_stable_node_chain nd) eqn:Hcn; simpl.
  - destruct (kn_hlist nd) as [|d l] eqn:Hl.
    + pwp_step. destruct Hc as (Ht1 & HR & Hsz & Hun). eapply pwp_mono; [apply track_free_chain; [exact Ht1|]|].
      { intros cd Hcd. rewrite Hn in Hcd. by injection Hcd as <-. }
      intros [] h2 (Ht2 & Hsz2 & Hun2). do 2 pwp_step. split_and!; [done|lia|by eapply unlists_trans].
    + do 2 pwp_step. eapply pwp_mono; [by apply searched_got|]. intros [p| |] h2 Hg; by pwp_step.
  - do 2 pwp_step. eapply pwp_mono; [by apply searched_got|]. intros [p| |] h2 Hg; by pwp_step.
Qed.

End insert.
