(* ===== verification/HostTrackLink.v ===== *)
(** * HostTrackLink: a new node in the stable tree

    [descend], [search_place], [link_new_node] and [stable_tree_insert]
    through [track].  A search that starts again has removed a node, so one
    more round than there are nodes is enough. *)
From S2P Require Import Prelude Wire HashPair Growable Shadow Server HostMem HostTree HostTreeInv HostMerge HostApply HostSafe HostTrack HostTrackInsert.
Open Scope Z_scope.

Section link.
Context `{RbTree} `{Memcmp} (L0 : mode).

(** ** The search *)
Lemma walking_trans es V r k h h' : walking L0 es V r k h → walking L0 es V r (h_ksm h) h' → walking L0 es V r k h'.
Proof.
  intros (_ & R1 & S1 & U1) (T & R2 & S2 & U2). split_and!; [done|congruence|lia|by eapply unlists_trans].
Qed.

Lemma searched_trans es V r k h res h' :
  walking L0 es V r k h → searched L0 es V r (h_ksm h) res h' → searched L0 es V r k res h'.
Proof.
  intros Hw Hs. destruct res as [p|]; simpl in *; [by eapply walking_trans|].
  destruct Hw as (_ & R1 & S1 & U1). destruct Hs as (T & S2 & U2). split_and!; [done|lia|by eapply unlists_trans].
Qed.

(** The place a descent names is one of the tree. *)
Definition place_in (d : descent) (t : rb_tree) : Prop :=
  match d with Again => False | LinkAt p => path_ends p t | SameAs x => x ∈ inorder t end.

Definition placed (es : list ksm_event_log) (V : gmap loc (loc * Z)) (r : Z) (k : ksm) (d : descent) (h' : host) : Prop :=
  match d with
  | Again => searched L0 es V r k None h'
  | _ => walking L0 es V r k h' ∧ place_in d (root_stable_tree k)
  end.

Lemma track_descend es V r k kpage rest path h :
  safe h → walking L0 es V r k h → (∀ q, path_ends q rest → path_ends (path ++ q) (root_stable_tree k)) →
  (∀ x, x ∈ inorder rest → x ∈ inorder (root_stable_tree k)) →
  pwp (descend kpage rest path) h (placed es V r k).
Proof.
  revert path h. induction rest as [|l IHl x t IHt]; intros path h Hs Hw Hp Hi; simpl.
  - pwp_step. split; [done|]. simpl. specialize (Hp [] I). by rewrite app_nil_r in Hp.
  - pose proof Hw as (Ht & _).
    eapply pwp_both; [exact (keeps_tree_page_of h [] [] x h (safe_from h Hs))|by apply track_tree_page_of|].
    intros [tp|] h1 Hk1 Hse; pose proof (searched_trans _ _ _ _ _ _ _ Hw Hse) as Hse1; simpl in Hk1, Hse1; [|by pwp_step].
    pwp_step. apply pwp_get_frame. intros kfr _. pwp_step. apply pwp_get_frame. intros tfr _.
    eapply pwp_both; [exact (keeps_put_page h [] [] tp h1 Hk1)|eapply track_put_page; apply Hse1|].
    intros [] h2 Hk2 [Ht2 E2]. assert (Hw2 : walking L0 es V r k h2) by by eapply walking_same.
    apply from_safe in Hk2. destruct (_ <? 0); [|destruct (0 <? _)].
    + apply IHl; [done|done| |set_solver]. intros q Hq. rewrite <- app_assoc. by apply (Hp (true :: q)).
    + apply IHt; [done|done| |set_solver]. intros q Hq. rewrite <- app_assoc. by apply (Hp (false :: q)).
    + pwp_step. split; [done|]. simpl. apply Hi. set_solver.
Qed.

(** One round more than there are nodes finds a place. *)
Lemma track_search_place es V r kpage fuel h :
  safe h → track L0 es V r h → (size (knodes (h_ksm h)) < fuel)%nat →
  pwp (search_place fuel kpage) h (λ res h', ∃ d, res = Some d ∧ place_in d (root_stable_tree (h_ksm h')) ∧
    track L0 es V r h' ∧ unlists (h_ksm h) (h_ksm h')).
Proof.
  revert h. induction fuel as [|fuel IH]; intros h Hs Ht Hf; [lia|]. simpl. do 2 pwp_step.
  eapply pwp_both; [exact (keeps_descend h [] [] kpage _ _ h (safe_from h Hs))|
    by apply (track_descend es V r (h_ksm h)); [..|apply walking_refl| |]|].
  intros [|p|x] h1 Hk1 Hd; simpl in Hd.
  - destruct Hd as (Ht1 & Hsz & Hun). eapply pwp_mono; [apply IH; [by eapply from_safe|done|lia]|].
    intros res h2 (d & ? & ? & ? & ?). exists d. split_and!; [done..|by eapply unlists_trans].
  - destruct Hd as ((Ht1 & HR & _ & Hun) & Hp). pwp_step. eexists. split; [done|]. simpl. by rewrite HR.
  - destruct Hd as ((Ht1 & HR & _ & Hun) & Hp). pwp_step. eexists. split; [done|]. simpl. by rewrite HR.
Qed.

(** ** The new node *)
Definition allocated (h : host) (Q : option loc → host → Prop) : Prop :=
  ∀ a, false ∉ a → let n := fresh (dom (knodes (h_ksm h))) in
    Q (Some n) (with_errors (ksm_error_table h) a (with_ksm (on_nodes (<[n := KNode 0 0 [] InTree]>)) h)).

Lemma pwp_alloc_stable_node h (Q : option loc → host → Prop) :
  false ∉ kallocs h → allocated h Q → pwp alloc_stable_node h Q.
Proof.
  intros Ha HQ. unfold alloc_stable_node, pwp, kmalloc. destruct (kallocs h) as [|[] a] eqn:E; [by apply HQ| |set_solver].
  apply HQ. set_solver.
Qed.

Lemma fresh_node (N : gmap loc knode) : N !! fresh (dom N) = None.
Proof. apply not_elem_of_dom, is_fresh. Qed.

Lemma track_linked es V r h h' kpage dup fr :
  track L0 es V r h → ksm_ok r (h_ksm h') → scan_same (h_ksm h) (h_ksm h') → sharing (h_ksm h') = sharing (h_ksm h) →
  (∀ n nd, knodes (h_ksm h) !! n = Some nd → is_stable_node_chain nd = false →
     ∃ nd', knodes (h_ksm h') !! n = Some nd' ∧ is_stable_node_chain nd' = false ∧ kn_kpfn nd' = kn_kpfn nd) →
  (∃ nd, knodes (h_ksm h') !! dup = Some nd ∧ is_stable_node_chain nd = false ∧ kn_kpfn nd = kpage) →
  (∀ n nd, knodes (h_ksm h') !! n = Some nd → is_stable_node_chain nd = false → kn_kpfn nd = kpage ∨ knodes (h_ksm h) !! n = Some nd) →
  frames (h_mem h') = <[kpage := set_mapping (MapKsm (Some dup)) fr]> (frames (h_mem h)) →
  env h' = env h → ksm_error_table h' = ksm_error_table h → false ∉ kallocs h' →
  track L0 es V r h'.
Proof.
  intros [T1 T2 T3 T4 T5 T6 T7 T8] Hk Hsc Hsh Hn Hd Hnew Hfr He Ht Ha. split; try done.
  - rewrite Hfr. intros p fr1 n Hp Hm. destruct (decide (p = kpage)) as [->|Hne].
    + rewrite lookup_insert_eq in Hp. injection Hp as <-. simpl in Hm. injection Hm as <-. exact Hd.
    + rewrite lookup_insert_ne in Hp by done. destruct (T2 p fr1 n Hp Hm) as (nd & A & B & C).
      destruct (Hn n nd A B) as (nd' & D & E & F). exists nd'. split_and!; [done|done|congruence].
  - by rewrite He.
  - eapply logged_move; [exact T4|done|congruence].
  - by rewrite (sc_offload _ _ Hsc).
  - by eapply unstable_ok_same.
  - rewrite Hfr. intros n nd Hnd Hnc. destruct (decide (kn_kpfn nd = kpage)) as [->|Hne]; [rewrite lookup_insert_eq; by eexists|].
    rewrite lookup_insert_ne by done. destruct (Hnew n nd Hnd Hnc) as [?|Hold]; [done|]. by apply (T8 n).
Qed.

(** What the caller gets: a node for the page, and no item moved. *)
Definition linked (es : list ksm_event_log) (V : gmap loc (loc * Z)) (r kpage : Z) (k : ksm) (res : option loc) (h' : host) : Prop :=
  track L0 es V r h' ∧ kitems (h_ksm h') = kitems k ∧
  ∃ dup nd, res = Some dup ∧ knodes k !! dup = None ∧ knodes (h_ksm h') !! dup = Some nd ∧
    is_stable_node_chain nd = false ∧ kn_kpfn nd = kpage.

(** A duplicate added to a chain. *)
Lemma linked_dup es V r h h' kpage dup c cd fr :
  track L0 es V r h → knodes (h_ksm h) !! dup = None → knodes (h_ksm h) !! c = Some cd → is_stable_node_chain cd = true →
  kitems (h_ksm h') = kitems (h_ksm h) →
  knodes (h_ksm h') = <[c := set_hlist (kn_len cd) (dup :: kn_hlist cd) cd]> (<[dup := KNode kpage 0 [] (DupOf c)]> (knodes (h_ksm h))) →
  root_stable_tree (h_ksm h') = root_stable_tree (h_ksm h) →
  counters (h_ksm h') = (let k := counters (h_ksm h) in KsmCounters (ksm_pages_shared k) (ksm_pages_sharing k) (ksm_pages_unshared k)
    (u64 (ksm_stable_node_chains k + 0)) (u64 (ksm_stable_node_dups k + 1)) (anon_vma_refs k) (ksm_merging_pages k)) →
  frames (h_mem h') = <[kpage := set_mapping (MapKsm (Some dup)) fr]> (frames (h_mem h)) →
  env h' = env h → ksm_error_table h' = ksm_error_table h → false ∉ kallocs h' → scan_same (h_ksm h) (h_ksm h') →
  linked es V r kpage (h_ksm h) (Some dup) h'.
Proof.
  intros Ht Hfr Hc Hcc HI HN HR HC Hm He Het Ha Hsc. pose proof (tk_ksm _ _ _ _ _ Ht) as Hk.
  destruct (ko_counted _ _ Hk) as [E1 E2 E3 E4 E5]. assert (c ≠ dup) as Hcd by congruence.
  destruct (ksm_ok_new_dup r (h_ksm h) (h_ksm h') c cd dup kpage Hk Hfr Hc Hcc HI HN HR) as [A B]; try (by rewrite HC).
  { rewrite HC. simpl. by rewrite E3, u64_add, Z.add_0_r. }
  assert (∃ nd, knodes (h_ksm h') !! dup = Some nd ∧ is_stable_node_chain nd = false ∧ kn_kpfn nd = kpage) as Hd.
  { eexists. rewrite HN, lookup_insert_ne, lookup_insert_eq by done. done. }
  split; [|split; [done|destruct Hd as (nd & ? & ? & ?); by exists dup, nd]].
  eapply (track_linked es V r h h' kpage dup fr); try done.
  - intros n nd Hn Hnc. exists nd. rewrite HN, !lookup_insert_ne by congruence. done.
  - rewrite HN. intros n nd [[<- <-]|[Hnc [[<- <-]|[Hnd Hn]]%lookup_insert_Some]]%lookup_insert_Some Hch; [change (is_stable_node_chain cd = false) in Hch; congruence|by left|by right].
Qed.

(** A node of the tree replaced by a chain of which it is the duplicate. *)
Lemma replaced_elem c x m (t : list loc) :
  x ∈ t → m ∈ (λ y, if decide (y = x) then c else y) <$> t ↔ m = c ∨ (m ≠ x ∧ m ∈ t).
Proof.
  intros Hx. rewrite list_elem_of_fmap. split.
  - intros (y & -> & Hy). case_decide; [by left|by right].
  - intros [->|[Hm Hin]]; [exists x; by rewrite decide_True|exists m; by rewrite decide_False].
Qed.

Lemma replaced_nodup c x (t : list loc) : c ∉ t → NoDup t → NoDup ((λ y, if decide (y = x) then c else y) <$> t).
Proof.
  induction t as [|y t IH]; simpl; [done|]. intros Hc [Hy Ht]%NoDup_cons. apply NoDup_cons. split; [|apply IH; [set_solver|done]].
  rewrite list_elem_of_fmap. intros (z & E & Hz). do 2 case_decide; set_solver.
Qed.

Lemma track_new_chain es V r h c x xd j :
  track L0 es V r h → knodes (h_ksm h) !! c = None → knodes (h_ksm h) !! x = Some xd → is_stable_node_chain xd = false →
  kn_link xd = InTree →
  ∃ k, track L0 es V r (with_ksm (λ _, k) h) ∧ kitems k = kitems (h_ksm h) ∧
    knodes k = <[c := KNode j STABLE_NODE_CHAIN [x] InTree]> (<[x := set_link (DupOf c) xd]> (knodes (h_ksm h))) ∧
    root_stable_tree k = rb_replace_node x c (root_stable_tree (h_ksm h)) ∧
    counters k = (let k := counters (h_ksm h) in KsmCounters (ksm_pages_shared k) (ksm_pages_sharing k) (ksm_pages_unshared k)
      (u64 (u64 (ksm_stable_node_chains k + 1) + 0)) (u64 (u64 (ksm_stable_node_dups k + 0) + 1)) (anon_vma_refs k) (ksm_merging_pages k)) ∧
    scan_same k (h_ksm h).
Proof.
  intros Ht Hc Hx Hxc Hxl. pose proof (tk_ksm _ _ _ _ _ Ht) as Hk. destruct (ko_counted _ _ Hk) as [E1 E2 E3 E4 E5].
  eexists (Ksm _ _ _ (root_unstable_tree (h_ksm h)) (scan_seqnr (h_ksm h)) (iter_cnt (h_ksm h)) (is_ksm_offload (h_ksm h)) (ksm_smart_scan (h_ksm h)) _). split; [|simpl; split_and!; [reflexivity..|by split]].
  assert (c ∉ inorder (root_stable_tree (h_ksm h))) as Hci.
  { intros (nd & A & _)%(ko_tree _ _ Hk). congruence. }
  assert (x ∈ inorder (root_stable_tree (h_ksm h))) as Hxi by (apply (ko_tree _ _ Hk); by exists xd).
  match goal with |- track _ _ _ _ (with_ksm (λ _, ?k) h) =>
    destruct (ksm_ok_new_chain r (h_ksm h) k c x xd j Hk Hc Hx Hxc Hxl eq_refl eq_refl) as [A B] end; try done; simpl.
  - rewrite inorder_replace. apply replaced_nodup; [done|apply Hk].
  - intros m. rewrite inorder_replace. by apply replaced_elem.
  - by rewrite u64_add, Z.add_0_r.
  - by rewrite E4, u64_add, Z.add_0_r.
  - eapply track_ksm; [done|exact A|by split|congruence|..]; simpl.
    + intros n nd Hn Hnc _. assert (n ≠ c) by congruence. rewrite lookup_insert_ne by done. destruct (decide (n = x)) as [->|Hne].
      * exists (set_link (DupOf c) xd). rewrite lookup_insert_eq. replace nd with xd by congruence. done.
      * exists nd. by rewrite lookup_insert_ne.
    + intros n nd [[<- <-]|[_ Hn]]%lookup_insert_Some Hnc; [done|].
      exact (no_new_pages_insert _ x xd (set_link (DupOf c) xd) Hx eq_refl (λ _, Hxc) n nd Hn Hnc).
Qed.

Lemma track_link_new_node es V r kpage d h :
  track L0 es V r h → place_in d (root_stable_tree (h_ksm h)) →
  pwp (link_new_node kpage d) h (linked es V r kpage (h_ksm h)).
Proof.
  intros Ht Hd. pose proof (tk_ksm _ _ _ _ _ Ht) as Hk. pose proof (fresh_node (knodes (h_ksm h))) as Hfr.
  unfold link_new_node. pwp_step. apply pwp_alloc_stable_node; [by apply Ht|]. intros a Ha. simpl.
  set (dup := fresh (dom (knodes (h_ksm h)))) in *.
  pwp_step. apply pwp_upd_knode. simpl. rewrite lookup_insert_eq. intros nd0 [= <-].
  pwp_step. apply pwp_upd_frame. simpl. intros fr Hp. destruct d as [|path|x]; [done| |].
  - do 3 pwp_step. destruct (inorder_link_at dup path (root_stable_tree (h_ksm h)) Hd) as (l1 & l2 & E1 & E2).
    match goal with |- linked _ _ _ _ _ _ ?h' => set (h2 := h') end.
    assert (knodes (h_ksm h2) = <[dup := KNode kpage 0 [] InTree]> (knodes (h_ksm h))) as HN by (simpl; apply insert_insert_eq).
    assert (dup ∉ inorder (root_stable_tree (h_ksm h))) as Hnin.
    { intros (nd & A & _)%(ko_tree _ _ Hk). congruence. }
    pose proof (ko_nodup _ _ Hk) as Hnd. rewrite E1 in Hnin, Hnd.
    destruct (ksm_ok_new_in_tree r (h_ksm h) (h_ksm h2) dup kpage Hk Hfr eq_refl HN) as [A B].
    { simpl. rewrite inorder_insert_color, E2, <- Permutation_middle. by apply NoDup_cons. }
    { intros m. simpl. rewrite inorder_insert_color, E2, E1. set_solver. }
    { done. }
    split; [|split; [done|exists dup; eexists; split_and!; [done|done|rewrite HN; apply lookup_insert_eq|done|done]]].
    eapply (track_linked es V r h h2 kpage dup); try done.
    + intros n nd Hn Hc. exists nd. rewrite HN, lookup_insert_ne by congruence. done.
    + eexists. rewrite HN, lookup_insert_eq. done.
    + rewrite HN. intros n nd [[<- <-]|[_ Hn]]%lookup_insert_Some _; [by left|by right].
  - simpl in Hd. apply (ko_tree _ _ Hk) in Hd as (xd & Hx & Hxl). assert (x ≠ dup) as Hxd by congruence.
    pwp_step. apply pwp_get_knode. simpl. rewrite insert_insert_eq, lookup_insert_ne by done. rewrite Hx. intros xd' [= <-].
    destruct (is_stable_node_chain xd) eqn:Hxc.
    + do 2 pwp_step. unfold stable_node_chain_add_dup, count_nodes. do 2 pwp_step. apply pwp_upd_knode. simpl.
      rewrite insert_insert_eq, lookup_insert_eq. intros nd1 [= <-]. pwp_step. apply pwp_upd_knode. simpl. rewrite !lookup_insert_ne, Hx by done.
      intros xd' [= <-]. do 2 pwp_step.
      match goal with |- linked _ _ _ _ _ _ ?h' => set (h2 := h') end.
      eapply (linked_dup es V r h h2 kpage dup x xd); try done. simpl. by rewrite !insert_insert_eq.
    + pwp_step. unfold alloc_stable_node_chain. pwp_step. apply pwp_alloc_stable_node; [done|]. intros a' Ha'. simpl.
      rewrite insert_insert_eq. set (N := <[dup := _]> (knodes (h_ksm h))). pose proof (fresh_node N) as Hc.
      set (c := fresh (dom N)) in *. clearbody c. assert (c ≠ dup) as Hcd by (intros ->; unfold N in Hc; by rewrite lookup_insert_eq in Hc).
      assert (knodes (h_ksm h) !! c = None) as Hc0 by (unfold N in Hc; by rewrite lookup_insert_ne in Hc by done).
      assert (c ≠ x) as Hcx by congruence.
      unfold stable_node_chain_add_dup, count_nodes. pwp_steps.
      apply pwp_upd_knode; simpl; look; intros cd [= <-]; pwp_steps.
      apply pwp_upd_knode; simpl; look; rewrite Hx; intros xd' [= <-]; pwp_steps.
      apply pwp_upd_knode; simpl; look; intros cd [= <-]; pwp_steps.
      apply pwp_upd_knode; simpl; look; intros dd [= <-]; pwp_steps.
      apply pwp_upd_knode; simpl; look; intros cd [= <-]; pwp_steps.
      match goal with |- linked _ _ _ _ _ _ ?h' => set (h2 := h') end.
      destruct (track_new_chain es V r h c x xd (jiffies (config h) (length (env h))) Ht Hc0 Hx Hxc Hxl) as (k & Htk & EI & EN & ER & EC & ES).
      destruct (linked_dup es V r (with_ksm (λ _, k) h) h2 kpage dup c (KNode (jiffies (config h) (length (env h))) STABLE_NODE_CHAIN [x] InTree) fr) as (A & B & dup' & nd & D);
        try done; simpl.
      * rewrite EN. look. done.
      * rewrite EN. look. done.
      * rewrite EN. unfold N. apply map_eq. intros m. destruct (decide (m = c)) as [->|]; [by look|].
        destruct (decide (m = dup)) as [->|]; [by look|]. destruct (decide (m = x)) as [->|]; by look.
      * by rewrite EC.
      * eapply scan_same_trans; [exact ES|by split].
      * split; [done|]. split; [exact (eq_trans B EI)|]. exists dup', nd. destruct D as (D1 & _ & D). injection D1 as <-. done.
Qed.

Definition unused (n : loc) (V : gmap loc (loc * Z)) : Prop := ∀ i y, V !! i = Some y → y.1 ≠ n.

Lemma unused_sharing n k : knodes k !! n = None → unused n (sharing k).
Proof.
  intros Hn i y Hy. rewrite lookup_sharing in Hy. destruct (kitems k !! i) as [it|]; [|done]. simpl in Hy.
  unfold node_of_kitem in Hy. destruct (stable_item it); [|done]. destruct (ki_head it) as [m|]; [|done]. simpl in Hy.
  destruct (knodes k !! m) as [md|] eqn:Hm; [|done]. simpl in Hy. injection Hy as <-. simpl. congruence.
Qed.

(** The page gets a node no item is merged on, unless the code halts. *)
Lemma track_stable_tree_insert es V r kpage h :
  safe h → track L0 es V r h →
  pwp (stable_tree_insert kpage) h (λ res h', track L0 es V r h' ∧ unlists (h_ksm h) (h_ksm h') ∧
    ∃ dup nd, res = Some dup ∧ knodes (h_ksm h') !! dup = Some nd ∧ is_stable_node_chain nd = false ∧ kn_kpfn nd = kpage ∧
      (unused dup V ∨ ∀ es' V', track L0 es' V' r h')).
Proof.
  intros Hs Ht. unfold stable_tree_insert. pwp_steps.
  eapply pwp_mono; [by apply (track_search_place es V r kpage); [| |lia]|]. intros res h1 (d & -> & Hd & Ht1 & Hu).
  destruct (track_cases L0 es V r h1 Ht1) as [Hst|Hsh].
  - eapply pwp_mono; [exact (pwp_forall _ _ _ (λ x, track_link_new_node x.1 x.2 r kpage d h1 (Hst x.1 x.2) Hd))|].
    intros res h2 Hall. destruct (Hall (es, V)) as (Ht2 & EI & dup & nd & -> & _ & Hn & Hc & Hp). split; [done|].
    split; [eapply unlists_trans; [exact Hu|by apply unlists_same]|]. exists dup, nd. split_and!; [done..|right].
    intros es' V'. exact (proj1 (Hall (es', V'))).
  - eapply pwp_mono; [by apply (track_link_new_node es V r)|]. intros res h2 (Ht2 & EI & dup & nd & -> & Hd0 & Hn & Hc & Hp).
    split; [done|]. split; [eapply unlists_trans; [exact Hu|by apply unlists_same]|]. exists dup, nd. split_and!; [done..|left].
    subst V. by apply unused_sharing.
Qed.
End link.
