(* ===== verification/HostStays.v ===== *)
(** * HostStays: what calls need, and what they leave alone

    A lookup returns where there is something to find.  A property [P] of the host that a call keeps, [stays P], and the automation
    for code made of such calls. *)
From S2P Require Import Prelude Wire Growable Shadow HostMem HostSafe.
Open Scope Z_scope.

Lemma wp_get_frame p fr h (Q : frame → host → Prop) : frames (h_mem h) !! p = Some fr → Q fr h → wp (get_frame p) h Q.
Proof. intros Hp HQ. unfold get_frame. wp_steps. by eapply wp_deref. Qed.
Lemma wp_upd_frame p f fr h (Q : unit → host → Prop) :
  frames (h_mem h) !! p = Some fr → Q tt (with_mem (on_frames (<[p := f fr]>)) h) → wp (upd_frame p f) h Q.
Proof. intros Hp HQ. unfold upd_frame. wp_step. eapply wp_get_frame; [done|]. by wp_step. Qed.
Lemma wp_get_kitem i it h (Q : kitem → host → Prop) : kitems (h_ksm h) !! i = Some it → Q it h → wp (get_kitem i) h Q.
Proof. intros Hi HQ. unfold get_kitem. wp_steps. by eapply wp_deref. Qed.
Lemma wp_upd_kitem i f it h (Q : unit → host → Prop) :
  kitems (h_ksm h) !! i = Some it → Q tt (with_ksm (on_items (<[i := f it]>)) h) → wp (upd_kitem i f) h Q.
Proof. intros Hi HQ. unfold upd_kitem. wp_step. eapply wp_get_kitem; [done|]. by wp_step. Qed.
Lemma wp_get_knode n nd h (Q : knode → host → Prop) : knodes (h_ksm h) !! n = Some nd → Q nd h → wp (get_knode n) h Q.
Proof. intros Hn HQ. unfold get_knode. wp_steps. by eapply wp_deref. Qed.
Lemma wp_upd_knode n f nd h (Q : unit → host → Prop) :
  knodes (h_ksm h) !! n = Some nd → Q tt (with_ksm (on_nodes (<[n := f nd]>)) h) → wp (upd_knode n f) h Q.
Proof. intros Hn HQ. unfold upd_knode. wp_step. eapply wp_get_knode; [done|]. by wp_step. Qed.

Lemma returns_upd_frame p f h : is_Some (frames (h_mem h) !! p) → returns (upd_frame p f) h.
Proof. intros [fr Hp]. by eapply wp_upd_frame. Qed.
Lemma returns_interfere h : returns interfere h.
Proof. unfold returns, wp, interfere. destruct (env h) as [|f fs]; [done|]. by destruct (f (h_mem h, user h)). Qed.
Lemma wp_interfere_quiet h (Q : unit → host → Prop) : env h = [] → Q tt h → wp interfere h Q.
Proof. intros He HQ. unfold wp, interfere. by rewrite He. Qed.

Section stays.
Context {S : Type} (P : S → Prop).

Definition stays {A} (m : M S A) : Prop := ∀ h, P h → pwp m h (λ _, P).

Lemma stays_ret {A} (a : A) : stays (mret a).
Proof. by intros h ?. Qed.
Lemma stays_bind {A B} (m : M S A) (f : A → M S B) : stays m → (∀ a, stays (f a)) → stays (m ≫= f).
Proof. intros Hm Hf h Hh. pwp_step. eapply pwp_mono; [by apply Hm|]. intros a h' Hh'. by apply Hf. Qed.
Lemma stays_get : stays get.
Proof. by intros h ?. Qed.
Lemma stays_gets {B} (f : S → B) : stays (gets f).
Proof. by intros h ?. Qed.
Lemma stays_halt {A} w : stays (halt (A := A) w).
Proof. by intros h ?. Qed.
Lemma stays_halt_if b w : stays (halt_if b w).
Proof. intros h Hh. by pwp_step. Qed.
Lemma stays_deref {A} (o : option A) w : stays (deref o w).
Proof. intros h Hh. by pwp_step. Qed.
Lemma stays_modify f : (∀ h, P h → P (f h)) → stays (modify f).
Proof. intros Hf h Hh. pwp_step. by apply Hf. Qed.
Lemma stays_whenM b (m : M S unit) : stays m → stays (whenM b m).
Proof. intros Hm h Hh. apply pwp_whenM; intros _; [by apply Hm|done]. Qed.
End stays.

Create HintDb stays.
#[export] Hint Resolve stays_ret stays_get stays_gets stays_halt stays_halt_if stays_deref stays_whenM : stays.

(** Code made of such calls. *)
Ltac stays :=
  repeat (match goal with
  | |- stays _ (mbind _ _) => apply stays_bind; [|intros]
  | |- stays _ (match ?x with _ => _ end) => destruct x
  | |- stays _ (let '(_, _) := ?x in _) => destruct x
  | |- stays _ (whenM _ _) => apply stays_whenM
  | |- stays _ (modify _) => apply stays_modify; intros
  end); eauto with stays.
