(* ===== verification/HostTrackMerge.v ===== *)
(** * HostTrackMerge: merging pages, and the stable tree

    Merging changes page tables and frames, not the tree: [quietly].  Around
    it the merged item leaves its list and a reference on its [anon_vma] is
    taken. *)
From S2P Require Import Prelude Wire HashPair Growable Shadow Server HostMem HostTree HostTreeInv HostMerge HostApply HostSafe HostMergeSafe HostTrack HostTrackInsert HostTrackLink HostStays.
Open Scope Z_scope.

Section stays.
Context `{RbTree} `{Memcmp} `{MmFault} (L0 : mode) (es : list ksm_event_log) (V : gmap loc (loc * Z)) (r : Z) (k : ksm).

Definition quietly (h : host) : Prop := track L0 es V r h ∧ h_ksm h = k.

Abbreviation quiet m := (stays quietly m).

Lemma quiet_get_frame p : quiet (get_frame p).
Proof. intros h Hq. by apply pwp_get_frame. Qed.
Lemma quiet_upd_frame p f :
  (∀ fr n, fr_mapping (f fr) = MapKsm (Some n) → fr_mapping fr = MapKsm (Some n)) → quiet (upd_frame p f).
Proof.
  intros Hf h [Ht E]. eapply pwp_mono; [by apply track_upd_frame|]. intros [] h1 [Ht1 E1]. split; [done|congruence].
Qed.
Lemma quiet_interfere : quiet interfere.
Proof. intros h [Ht E]. eapply pwp_mono; [by apply track_interfere|]. intros [] h1 [Ht1 E1]. split; [done|congruence]. Qed.
Lemma quiet_unlock_page p : quiet (unlock_page p).
Proof. by apply quiet_upd_frame. Qed.
Lemma quiet_get_page p : quiet (get_page p).
Proof. by apply quiet_upd_frame. Qed.
Lemma quiet_put_page p : quiet (put_page p).
Proof. apply quiet_upd_frame. intros fr n. apply drop_ref_mapping. Qed.
Lemma quiet_trylock_page p : quiet (trylock_page p).
Proof. intros h [Ht E]. eapply pwp_mono; [by apply track_trylock_page|]. intros b h1 [Ht1 E1]. split; [done|congruence]. Qed.
Lemma quiet_lock_page p : quiet (lock_page p).
Proof. intros h [Ht E]. eapply pwp_mono; [by apply track_lock_page|]. intros [] h1 [Ht1 E1]. split; [done|congruence]. Qed.
Lemma quiet_count_fail n : quiet (count_fail n).
Proof. intros h [Ht E]. unfold count_fail. pwp_step. split; [by apply track_hstats|done]. Qed.
Lemma quiet_count_zero_page mm : quiet (count_zero_page mm).
Proof. intros h [Ht E]. unfold count_zero_page. pwp_step. split; [by apply track_hstats|done]. Qed.
Lemma quiet_set_pte a e : quiet (set_pte a e).
Proof. intros h [Ht E]. unfold set_pte. pwp_step. split; [by apply track_ptes|done]. Qed.
End stays.

#[export] Hint Resolve quiet_get_frame quiet_interfere quiet_unlock_page quiet_get_page
  quiet_put_page quiet_trylock_page quiet_lock_page quiet_count_fail quiet_count_zero_page quiet_set_pte : stays.

Section merge.
Context `{RbTree} `{Memcmp} `{MmFault} (L0 : mode) (es : list ksm_event_log) (V : gmap loc (loc * Z)) (r : Z) (k : ksm).
Abbreviation quiet m := (stays (quietly L0 es V r k) m).

Lemma quiet_split_huge_page p : quiet (split_huge_page p).
Proof.
  unfold split_huge_page. apply stays_bind; [auto with stays|intros fr]. destruct (fr_splittable fr); [|stays].
  apply stays_bind; [|auto with stays]. intros h [Ht E]. pwp_step. split; [|done].
  match goal with |- track _ _ _ _ (with_mem ?f h) => apply (track_mem L0 es V r h (f (h_mem h))); [done| |apply dom_fmap_L] end.
  simpl. intros q fr' n. rewrite lookup_fmap. destruct (frames (h_mem h) !! q) as [fr0|]; [|done]. simpl. intros [= <-] Hm.
  exists fr0. split; [done|]. by case_bool_decide.
Qed.

Lemma quiet_write_protect_page mm v p : quiet (write_protect_page mm v p).
Proof.
  unfold write_protect_page. stays; apply quiet_upd_frame; intros fr n; by destruct (pte_dirty _).
Qed.

Lemma quiet_replace_page mm v p q e : quiet (replace_page mm v p q e).
Proof.
  unfold replace_page. stays; apply quiet_upd_frame; intros fr n; try done; by destruct (page_mapped _).
Qed.

Lemma quiet_pages_identical p q : quiet (pages_identical p q).
Proof. unfold pages_identical. stays. Qed.
End merge.


#[export] Hint Resolve quiet_split_huge_page quiet_write_protect_page quiet_replace_page quiet_pages_identical : stays.

Section try_merge.
Context `{RbTree} `{Memcmp} `{MmFault} (L0 : mode) (es : list ksm_event_log).

Lemma quiet_merge_locked V r k mm v p kp : stays (quietly L0 es V r k) (merge_locked mm v p kp).
Proof. unfold merge_locked. stays. by apply quiet_upd_frame. Qed.
#[local] Hint Resolve quiet_merge_locked : stays.

Lemma quiet_try_to_merge_one_page V r k mm v p kp : stays (quietly L0 es V r k) (try_to_merge_one_page mm v p kp).
Proof. unfold try_to_merge_one_page. stays. Qed.
#[local] Hint Resolve quiet_try_to_merge_one_page : stays.

Lemma quiet_break_ksm V r k fuel a : stays (quietly L0 es V r k) (break_ksm fuel a).
Proof.
  revert k. induction fuel as [|fuel IH]; intros k h [Ht E]; cbn [break_ksm]; pwp_steps; (destruct (maps_ksm _ _); simpl; [|by pwp_step]);
    [by pwp_step|].
  pose proof (unshare_no_ksm (h_mem h) a) as Hn. destruct (handle_mm_fault (h_mem h) a) as [m ret]. simpl in Hn. pwp_steps.
  assert (quietly L0 es V r k (with_mem (λ _, m) h)) as Hq.
  { split; [|done]. apply track_mem; [done| |apply Hn]. intros p fr n Hp Hm. by eapply Hn. }
  destruct ret; [by apply IH|by pwp_step..].
Qed.

(** The reference taken for the item is dropped. *)
Lemma track_break_cow V r i h :
  track L0 es V r h → pwp (break_cow i) h (λ _ h', track L0 es V (r - 1) h' ∧ kitems (h_ksm h') = kitems (h_ksm h)).
Proof.
  intros Ht. unfold break_cow. pwp_step. apply pwp_get_kitem. intros it _. pwp_step. unfold count. pwp_step.
  match goal with |- pwp _ ?h' _ => set (h1 := h') end.
  assert (track L0 es V (r - 1) h1) as Ht1.
  { pose proof (tk_ksm _ _ _ _ _ Ht) as Hk. destruct (u64_idem_counter _ _ _ (ko_counted _ _ Hk)) as [E1 E2].
    destruct (ksm_ok_count r (h_ksm h) (h_ksm h1) (-1) Hk eq_refl eq_refl eq_refl) as [A B]; [done|].
    eapply track_ksm; [exact Ht|exact A| |intros E; exact (eq_trans B E)| |by apply no_new_pages_refl].
    { split; try done. intros X HX. simpl. by rewrite HX, u64_add, Z.add_0_r. }
    intros n nd Hn Hc _. by exists nd. }
  eapply (pwp_mono _ _ (λ _, quietly L0 es V (r - 1) (h_ksm h1))); [|by intros [] h2 [? ->]].
  assert (quietly L0 es V (r - 1) (h_ksm h1) h1) as Hq by done. clearbody h1. revert h1 Ht1 Hq. intros h1 _ Hq.
  revert Hq. generalize (h_ksm h1). intros k. revert h1.
  change (stays (quietly L0 es V (r - 1) k) (interfere ;; h0 ← get; match find_mergeable_vma (h_mem h0) (ki_mm it) (ki_address it) with
    | None => mret tt | Some _ => _ ← break_ksm (S back_outs) (ki_mm it, page_of (ki_address it)); mret tt end)).
  stays. apply quiet_break_ksm.
Qed.

(** Success: the item is on no list, and its [anon_vma] has one more reference. *)
Lemma track_try_to_merge_with_ksm_page V r i p kp h :
  safe h → page_held h p → target_ok h kp → track L0 es V r h →
  pwp (try_to_merge_with_ksm_page i p kp) h (λ ok h', unlists (h_ksm h) (h_ksm h') ∧
    if ok then track L0 es (delete i V) (r + 1) h' ∧ unlisted i h' else track L0 es V r h').
Proof.
  intros Hs Hp Hkp Ht. unfold try_to_merge_with_ksm_page. pwp_step. apply pwp_get_kitem. intros it _.
  eapply pwp_both; [exact (keeps_interfere h [] [] h (safe_from h Hs))|exact (quiet_interfere L0 es V r _ h (conj Ht eq_refl))|].
  intros [] h1 Hk1 [Ht1 E1]. pwp_steps. destruct (find_mergeable_vma _ _ _) as [v|]; cycle 1.
  { pwp_step. eapply pwp_mono; [by eapply (quiet_count_fail L0 es V r (h_ksm h))|]. intros [] h2 [Ht2 E2]. pwp_step.
    split; [apply unlists_same; by rewrite E2|done]. }
  eapply pwp_both; [exact (keeps_try_to_merge_one_page h [] [] _ v p kp h1 Hp Hkp Hk1)|
    by apply (quiet_try_to_merge_one_page V r (h_ksm h))|].
  intros ok h2 [Hk2 _] [Ht2 E2]. destruct ok; simpl; cycle 1.
  { pwp_step. split; [apply unlists_same; by rewrite E2|done]. }
  pwp_step. eapply pwp_mono; [apply (track_remove_rmap_item L0 es V r i h2); [by eapply from_safe|done]|].
  intros [] h3 (Ht3 & Hu3 & Hl3). pwp_step. apply pwp_upd_kitem. intros it3 Hi3. unfold count. pwp_steps.
  match goal with |- unlists _ (h_ksm ?h') ∧ _ => set (h4 := h') end.
  split.
  - rewrite E2 in Hl3. eapply unlists_trans; [exact Hl3|]. eapply unlists_insert; [by eexists| |reflexivity]. exact (Hu3 it3 Hi3).
  - split.
    + match goal with |- track _ _ _ _ ?h' => change h' with (with_ksm (λ _, h_ksm h4) h3) end.
      eapply (track_plain_item L0 es (delete i V) r 1 i it3 (set_anon_vma (if vm_anon v is Some (a, _) then a else 0) it3)); [done|exact Hi3|by apply Hu3|exact (Hu3 it3 Hi3)|reflexivity..|done|exact (unlisted_aligned _ _ _ _ _ _ _ Ht3 Hu3 Hi3)|].
      intros X HX. simpl. by rewrite HX, u64_add, Z.add_0_r.
    + intros it4 Hi4. simpl in Hi4. rewrite lookup_insert_eq in Hi4. injection Hi4 as <-. exact (Hu3 it3 Hi3).
Qed.

Lemma track_try_to_merge_two_pages V r i p j q h :
  safe h → page_held h p → page_held h q → V !! i = None → V !! j = None → track L0 es V r h →
  pwp (try_to_merge_two_pages i p j q) h (λ res h', unlists (h_ksm h) (h_ksm h') ∧
    match res with
    | Some _ => track L0 es V (r + 2) h' ∧ unlisted i h' ∧ unlisted j h'
    | None => track L0 es V r h'
    end).
Proof.
  intros Hs Hp Hq Hi Hj Ht. unfold try_to_merge_two_pages.
  eapply pwp_both; [exact (keeps_try_to_merge_with_ksm_page h [] [] i p None h Hp I (safe_from h Hs))|
    by apply (track_try_to_merge_with_ksm_page V r i p None)|].
  intros [] h1 [Hk1 Hpr] [Hl1 Hok]; simpl; [|by pwp_step]. rewrite delete_id in Hok by done. destruct Hok as [Ht1 Hu1].
  specialize (Hpr eq_refl eq_refl). pose proof (from_safe _ _ _ _ Hk1) as Hs1.
  assert (ksm_held h1 p) as Hkp.
  { eapply (ksm_held_from h1 [] []); [by apply safe_from|]. eapply promoted_held; [by apply safe_from| |done]. by eapply page_held_from. }
  pwp_step. eapply pwp_mono; [apply (track_try_to_merge_with_ksm_page V (r + 1) j q (Some p) h1); [done| |exact Hkp|done];
    by eapply page_held_from|].
  intros [] h2 [Hl2 Hok].
  - pwp_step. rewrite delete_id in Hok by done. destruct Hok as [Ht2 Hu2]. split; [by eapply unlists_trans|].
    split_and!; [by replace (r + 2) with (r + 1 + 1) by lia|by eapply unlisted_later|done].
  - pwp_step. eapply pwp_mono; [by apply track_break_cow|]. intros [] h3 [Ht3 E3]. pwp_step.
    split; [eapply unlists_trans; [exact Hl1|]; eapply unlists_trans; [exact Hl2|by apply unlists_same]|].
    by replace r with (r + 1 - 1) by lia.
Qed.
End try_merge.
