(* ===== verification/HostTrackApply.v ===== *)
(** * HostTrackApply: what applying the log does to the sharing

    [replays]: the effect of one entry, by its outcome, on the map from items
    to the node and frame they are merged on.  [apply_result] follows it, and
    reports exactly the failed entries. *)
From S2P Require Import Prelude Wire HashPair Growable Shadow Server HostMem HostTree HostTreeInv HostMerge HostApply HostSafe HostMergeSafe HostApplySafe HostTrack HostTrackInsert HostTrackLink HostTrackMerge HostStays.
Open Scope Z_scope.

(** The item an address of the log stands for. *)
Definition shadow_item (l : list shadow_mm) (mm va : Z) : option loc :=
  sm ← get_shadow_mm l mm; shadow_mm_lookup sm va.

Definition from_item_of (l : list shadow_mm) (e : ksm_event_log) : option loc := shadow_item l (sm_from_mm_id e) (sm_from_va e).
Definition um_from_item_of (l : list shadow_mm) (e : ksm_event_log) : option loc := shadow_item l (um_from_mm_id e) (um_from_va e).
Definition um_to_item_of (l : list shadow_mm) (e : ksm_event_log) : option loc := shadow_item l (um_to_mm_id e) (um_to_va e).
Definition st_item_of (l : list shadow_mm) (e : ksm_event_log) : option loc := shadow_item l (st_last_mm_id e) (st_last_va e).

(** An unstable merge names two items. *)
Definition two_items (l : list shadow_mm) (e : ksm_event_log) : Prop :=
  log_type e = DPU_UNSTABLE_MERGE → ∀ i, um_from_item_of l e = Some i → um_to_item_of l e ≠ Some i.

Abbreviation shares := (gmap loc (loc * Z)).

(** The effect of an entry. *)
Inductive replays (l : list shadow_mm) (page_of_item : loc → option Z) (e : ksm_event_log) (V : shares) : applied → shares → Prop :=
| rp_stable i n : log_type e = DPU_STABLE_MERGE → from_item_of l e = Some i →
    replays l page_of_item e V StableMerged (<[i := (n, sm_kpfn e)]> V)
| rp_skipped : log_type e = DPU_STABLE_MERGE → replays l page_of_item e V SkippedMerge V
| rp_stable_failed i : log_type e = DPU_STABLE_MERGE → from_item_of l e = Some i →
    replays l page_of_item e V FailedMerge (delete i V)
| rp_unstable i j n p : log_type e = DPU_UNSTABLE_MERGE → um_from_item_of l e = Some i → um_to_item_of l e = Some j →
    page_of_item i = Some p → unused n (delete j (delete i V)) →
    replays l page_of_item e V UnstableMerged (<[i := (n, p)]> (<[j := (n, p)]> V))
| rp_unstable_failed i j : log_type e = DPU_UNSTABLE_MERGE → um_from_item_of l e = Some i → um_to_item_of l e = Some j →
    replays l page_of_item e V FailedMerge (delete j (delete i V))
| rp_stale_node j n : log_type e = DPU_STALE_STABLE_NODE → st_item_of l e = Some j → (∀ y, V !! j = Some y → y.1 = n) →
    replays l page_of_item e V NodeDropped (filter (λ kv, kv.2.1 ≠ n) V)
| rp_reset j : log_type e = DPU_ITEM_STATE_CHANGE → from_item_of l e = Some j →
    replays l page_of_item e V ItemReset (delete j V).

Inductive replays_all (l : list shadow_mm) (page_of_item : loc → option Z) (V : shares) :
    list ksm_event_log → list applied → shares → Prop :=
| ra_nil : replays_all l page_of_item V [] [] V
| ra_cons e a V1 L outcomes V2 : replays l page_of_item e V a V1 → replays_all l page_of_item V1 L outcomes V2 →
    replays_all l page_of_item V (e :: L) (a :: outcomes) V2.

(** What the server is told of it. *)
Definition failure_of (e : ksm_event_log) (a : applied) : list ksm_event_log :=
  match a, log_type e with
  | FailedMerge, DPU_STABLE_MERGE => [retag HOST_MERGE_ONE_FAILED e]
  | FailedMerge, DPU_UNSTABLE_MERGE => [retag HOST_MERGE_TWO_FAILED e]
  | _, _ => []
  end.
Definition failures_of (L : list ksm_event_log) (outcomes : list applied) : list ksm_event_log :=
  concat (zip_with failure_of L outcomes).

Section apply.
Context `{RbTree} `{Memcmp} `{MmFault} (L0 : mode) (HL0 : with_server L0 = true) (shadow_pt_list : list shadow_mm) (h0 : host)
  (Hs : scanned shadow_pt_list h0).

Definition scanned_page (i : loc) : option Z := kitems (h_ksm h0) !! i ≫= ki_page.

(** The entry was applied as [replays] says. *)
Definition replayed (es : list ksm_event_log) (V : shares) (r : Z) (e : ksm_event_log) (a : applied) (h' : host) : Prop :=
  ∃ V', replays shadow_pt_list scanned_page e V a V' ∧ track L0 (es ++ failure_of e a) V' r h'.

Lemma pwp_shadow mm v h (Q : option loc → host → Prop) :
  (∀ r, r = shadow_item shadow_pt_list mm v → (∀ i, r = Some i → listed h0 i) → Q r h) →
  pwp (lookup_shadow shadow_pt_list mm v) h Q.
Proof using Hs HL0.
  intros HQ. unfold lookup_shadow. pwp_steps. rename select (get_shadow_mm _ _ = Some _) into Hsm.
  apply HQ; [unfold shadow_item; by rewrite Hsm|]. intros i Hi.
  apply get_shadow_mm_elem in Hsm as [Hsm _]. exact (Hs _ _ _ Hsm Hi).
Qed.

(** A page got by [get_ksm_page] can be merged onto. *)
Lemma got_ksm_held h q n h1 :
  from h [q] [] h1 → (∃ fr, frames (h_mem h1) !! q = Some fr ∧ fr_mapping fr = MapKsm (Some n)) → ksm_held h1 q.
Proof.
  intros Hk (fr & Hq & Hm). destruct (from_frame_inv _ _ _ _ _ _ Hk Hq) as (fr0 & Hq0 & [F1 _ _]).
  rewrite occ_cons, decide_True, occ_nil in F1 by done. destruct (mo_refs _ (fm_base _ _ _ _ Hk) q fr0 Hq0) as (? & _).
  apply (held_ksm_frozen h1 q fr); [by eapply from_safe|done|lia|by unfold PageKsm; rewrite Hm].
Qed.

Lemma track_set_head es V r i n h :
  track L0 es V r h → unlisted i h → pwp (upd_kitem i (set_head_ptr (Some n))) h (λ _ h', track L0 es V r h').
Proof.
  intros Ht Hu. apply pwp_upd_kitem. intros it Hi. replace r with (r + 0) by lia.
  destruct (u64_idem_counter _ _ _ (ko_counted _ _ (tk_ksm _ _ _ _ _ Ht))) as [E1 E2].
  eapply (track_plain_item L0 es V r 0 i it (set_head_ptr (Some n) it)); [done|exact Hi|by apply Hu|exact (Hu it Hi)|reflexivity..| |exact (unlisted_aligned _ _ _ _ _ _ _ Ht Hu Hi)|done].
  split_and!; try done. simpl. lia.
Qed.


Lemma replayed_stable_merge es V r e h :
  log_type e = DPU_STABLE_MERGE → from h0 [] [] h → track L0 es V r h →
  pwp (apply_stable_merge shadow_pt_list e) h (replayed es V r e).
Proof using Hs HL0.
  intros Ety Hk Ht. unfold apply_stable_merge. pwp_step. apply pwp_shadow. intros ri Eri Hri.
  pwp_step. apply pwp_get_frame. intros fr Hfr. destruct (page_stable_node fr) as [n|] eqn:Hpn; cycle 1.
  { pwp_step. exists V. split; [by constructor|]. unfold failure_of. by rewrite app_nil_r. }
  pwp_step. apply pwp_get_knode. intros nd Hn. do 2 pwp_step. pwp_step. apply pwp_halt_if. intros _.
  assert (fr_mapping fr = MapKsm (Some n)) as Hfm by (unfold page_stable_node in Hpn; destruct (fr_mapping fr); congruence).
  destruct (tk_frames _ _ _ _ _ Ht _ fr n Hfr Hfm) as (nd' & Hn' & _ & Hkp). rewrite Hn in Hn'. injection Hn' as <-.
  eapply pwp_both; [exact (keeps_get_ksm_page h [] [] n _ h (safe_from h (from_safe _ _ _ _ Hk)))|
    by apply track_get_ksm_page; [eapply from_safe|]|].
  intros [q| |] h1 Hk1 Hg; [|by pwp_step..]. destruct Hk1 as (Hk1 & _ & Hqm). destruct Hg as (Ht1 & E1 & nd1 & Hn1 & _ & Hq).
  rewrite Hn in Hn1. injection Hn1 as <-. assert (q = sm_kpfn e) as -> by congruence.
  pose proof (got_ksm_held _ _ _ _ Hk1 Hqm) as Hq1. pwp_step. apply pwp_deref. intros i ->. specialize (Hri i eq_refl).
  pose proof (from_safe _ _ _ _ Hk1) as Hs1.
  eapply pwp_both; [exact (keeps_remove_rmap_item h1 [] [] i h1 (safe_from h1 Hs1))|by apply track_remove_rmap_item|].
  intros [] h2 Hk2 (Ht2 & Hu2 & _). pwp_step. apply pwp_get_kitem. intros it Hit. pwp_step. apply pwp_deref. intros p Hip.
  pose proof (from_push _ _ _ _ _ _ _ Hk Hk1) as Hk1'. pose proof (from_push _ _ _ _ _ _ _ Hk1' Hk2) as Hk2'.
  assert (page_held h2 p) as Hp2. { eapply page_held_from; [exact Hk2'|]. by eapply listed_page. }
  pwp_step. eapply pwp_mono; [apply (track_try_to_merge_with_ksm_page L0 es (delete i V) r i p (Some (sm_kpfn e)) h2); [by eapply from_safe|done| |done]|].
  { by eapply (ksm_held_from h1 [] []). }
  intros ok h3 [Hl3 Hok]. pwp_step. eapply (pwp_mono _ _ (replayed es V r e)); cycle 1.
  { intros a h4 (V' & HV & Ht4). pwp_step. eapply pwp_mono; [by apply track_put_page|]. intros [] h5 [Ht5 _]. pwp_step. by exists V'. }
  destruct ok.
  - destruct Hok as [Ht3 Hu3]. pwp_step. eapply pwp_mono; [by apply track_lock_page|]. intros [] h4 [Ht4 E4].
    pwp_step. apply pwp_get_frame. intros kfr Hkfr. pwp_step. apply pwp_deref. intros m Hm.
    assert (fr_mapping kfr = MapKsm (Some m)) as Hkm by (unfold page_stable_node in Hm; destruct (fr_mapping kfr); congruence).
    destruct (tk_frames _ _ _ _ _ Ht4 _ kfr m Hkfr Hkm) as (md & Hmd & Hmc & Hmp).
    pwp_step. eapply pwp_mono; [eapply (track_stable_tree_append L0 es _ (r + 1) i m md); [done| |done|done]|].
    { intros it4 Hi4. rewrite E4 in Hi4. by apply Hu3. }
    intros [] h5 (Ht5 & _). pwp_step. eapply pwp_mono; [by apply track_unlock_page|]. intros [] h6 [Ht6 _]. pwp_step.
    exists (<[i := (m, sm_kpfn e)]> V). split; [by constructor|]. unfold failure_of. rewrite app_nil_r.
    rewrite !insert_delete_eq, Hmp in Ht6. by replace r with (r + 1 - 1) by lia.
  - pwp_step. eapply pwp_mono; [apply track_set_head; [exact Hok|by eapply unlisted_later]|]. intros [] h4 Ht4.
    pwp_step. eapply pwp_mono; [apply track_report; [done|exact Ht4]|]. intros [] h5 [Ht5 _]. pwp_step.
    exists (delete i V). split; [by constructor|]. unfold failure_of. by rewrite Ety.
Qed.

Lemma scanned_page_eq δ Λ i it p h :
  listed h0 i → from h0 δ Λ h → kitems (h_ksm h) !! i = Some it → ki_page it = Some p → scanned_page i = Some p.
Proof.
  intros (it0 & p0 & Hi0 & Hp0 & _) Hk Hi Hp. destruct (fm_items _ _ _ _ Hk i it0 Hi0) as (it1 & Hi1 & E & _).
  rewrite Hi in Hi1. injection Hi1 as <-. unfold scanned_page. rewrite Hi0. simpl. congruence.
Qed.

(** Both items of an unstable merge join the new node. *)
Lemma track_append_two es V r i j n nd p h :
  track L0 es V (r + 2) h → unlisted i h → unlisted j h → i ≠ j → knodes (h_ksm h) !! n = Some nd →
  is_stable_node_chain nd = false → kn_kpfn nd = p →
  pwp (stable_tree_append j n ;; stable_tree_append i n) h (λ _ h', track L0 es (<[i := (n, p)]> (<[j := (n, p)]> V)) r h').
Proof.
  intros Ht Hi Hj Hij Hn Hc Hp. pwp_step. eapply pwp_mono; [by apply (track_stable_tree_append L0 es V (r + 2) j n nd)|].
  intros [] h1 (Ht1 & _ & Hu1 & nd1 & Hn1 & Hc1 & Hp1).
  eapply pwp_mono; [eapply (track_stable_tree_append L0 es _ (r + 2 - 1) i n nd1); [done|by apply Hu1|done..]|].
  intros [] h2 (Ht2 & _). rewrite Hp1, Hp in Ht2. by replace r with (r + 2 - 1 - 1) by lia.
Qed.

Lemma unused_fresh (V : shares) : ∃ n, unused n V.
Proof.
  exists (fresh (map_to_set (λ _ y, y.1) V : gset loc)). intros i y Hi E.
  apply (is_fresh (map_to_set (λ _ y, y.1) V : gset loc)). rewrite <- E. apply elem_of_map_to_set. by exists i, y.
Qed.

(** After the pages were merged. *)
Lemma track_promote es V r i j p h :
  safe h → track L0 es V (r + 2) h → unlisted i h → unlisted j h → i ≠ j →
  pwp (stable_node ← stable_tree_insert p;
       (if stable_node is Some n then stable_tree_append j n ;; stable_tree_append i n else mret tt) ;;
       unlock_page p ;;
       halt_if (bool_decide (stable_node = None)) "Failed to insert stable node in UNSTABLE_MERGE" ;;
       mret UnstableMerged) h
    (λ a h', a = UnstableMerged ∧ ∃ n, unused n V ∧ track L0 es (<[i := (n, p)]> (<[j := (n, p)]> V)) r h').
Proof.
  intros Hsf Ht Hi Hj Hij. pwp_step. eapply pwp_mono; [by apply track_stable_tree_insert|].
  intros res h1 (Ht1 & Hl1 & n & nd & -> & Hn & Hc & Hp & Hu).
  assert (∀ es', track L0 es' V (r + 2) h1 → pwp ((stable_tree_append j n ;; stable_tree_append i n) ;; unlock_page p ;;
    halt_if (bool_decide (Some n = None)) "Failed to insert stable node in UNSTABLE_MERGE" ;; mret UnstableMerged) h1
    (λ a h', a = UnstableMerged ∧ track L0 es' (<[i := (n, p)]> (<[j := (n, p)]> V)) r h')) as Htail.
  { intros es' Ht'. pwp_step. eapply pwp_mono; [by eapply track_append_two; try done; eapply unlisted_later|]. intros [] h2 Ht2.
    pwp_step. eapply pwp_mono; [by apply track_unlock_page|]. intros [] h3 [Ht3 _]. by pwp_steps. }
  destruct Hu as [Hu|Hst].
  - eapply pwp_mono; [by apply Htail|]. intros a h2 [-> Ht2]. split; [done|]. by exists n.
  - eapply pwp_mono; [exact (pwp_forall _ _ _ (λ es', Htail es' (Hst es' V)))|]. intros a h2 Hall. split; [apply (Hall [])|].
    destruct (unused_fresh V) as [n' Hn']. exists n'. split; [done|].
    by apply (track_both L0 _ _ _ _ r h2 (proj2 (Hall [])) (proj2 (Hall [KsmEventLog HOST_STALE_STABLE_NODE 0 0 0 0]))).
Qed.

Lemma replayed_unstable_merge es V r e h :
  log_type e = DPU_UNSTABLE_MERGE → two_items shadow_pt_list e → from h0 [] [] h → track L0 es V r h →
  pwp (apply_unstable_merge shadow_pt_list e) h (replayed es V r e).
Proof using Hs HL0.
  intros Ety H2 Hk Ht. unfold apply_unstable_merge. do 2 pwp_step. do 2 pwp_step. pwp_step. apply pwp_shadow. intros ri Eri Hri.
  pwp_step. apply pwp_shadow. intros rj Erj Hrj. pwp_step. apply pwp_deref. intros i ->. specialize (Hri i eq_refl).
  pose proof (from_safe _ _ _ _ Hk) as Hsf.
  eapply pwp_both; [exact (keeps_remove_rmap_item h0 [] [] i h Hk)|by apply track_remove_rmap_item|].
  intros [] h1 Hk1 (Ht1 & Hu1 & _). pwp_step. apply pwp_deref. intros j ->. specialize (Hrj j eq_refl).
  assert (i ≠ j) as Hij by (intros <-; by apply (H2 Ety i)).
  eapply pwp_both; [exact (keeps_remove_rmap_item h0 [] [] j h1 Hk1)|apply track_remove_rmap_item; [by eapply from_safe|done]|].
  intros [] h2 Hk2 (Ht2 & _ & Hl2).
  pwp_step. apply pwp_get_kitem. intros it Hit. pwp_step. apply pwp_deref. intros p Hip.
  pwp_step. apply pwp_get_kitem. intros jt Hjt. pwp_step. apply pwp_deref. intros q Hjq.
  assert (page_held h0 p) as Hp by by eapply (listed_page h0 [] [] i it p h2).
  assert (page_held h0 q) as Hq by by eapply (listed_page h0 [] [] j jt q h2).
  assert (page_held h2 p) by by eapply page_held_from. assert (page_held h2 q) by by eapply page_held_from.
  set (V1 := delete j (delete i V)) in *. assert (V1 !! i = None ∧ V1 !! j = None) as [Hi1 Hj1].
  { unfold V1. by rewrite lookup_delete_ne, lookup_delete_eq, lookup_delete_eq by done. }
  eapply pwp_both; [exact (keeps_try_to_merge_two_pages h0 [] [] i p j q h2 Hp Hq Hk2)|
    by apply (track_try_to_merge_two_pages L0 es V1 r i p j q h2); [eapply from_safe|..]|].
  intros kp h3 [Hk3 Hkp] [Hl3 Hok].
  assert (Hsame : ∀ r', track L0 es V1 r' h3 → quietly L0 es V1 r' (h_ksm h3) h3) by done.
  assert (Hq3 : ∀ r' x y, stays (quietly L0 es V1 r' (h_ksm h3)) (same_compound x y)) by (intros; unfold same_compound; stays).
  destruct kp as [kp|].
  - destruct Hkp as [-> _]. destruct Hok as (Ht3 & Hui & Huj).
    eapply pwp_both; [exact (keeps_same_compound h0 p q h3 Hk3)|exact (Hq3 _ p q h3 (Hsame _ Ht3))|]. intros b h4 Hk4 [Ht4 E4].
    eapply pwp_both; [exact (keeps_lock_page h0 [] [] p h4 Hk4)|by apply track_lock_page|]. intros [] h5 [Hk5 _] [Ht5 E5].
    eapply pwp_mono; [apply (track_promote es V1 r i j p h5); [by eapply from_safe|done|..|done]|].
    { intros it5 Hi5. rewrite E5, E4 in Hi5. by apply Hui. } { intros it5 Hi5. rewrite E5, E4 in Hi5. by apply Huj. }
    intros a h6 (-> & n & Hn & Ht6). exists (<[i := (n, p)]> (<[j := (n, p)]> V)). unfold failure_of. rewrite app_nil_r. split.
    + apply rp_unstable; [done|done|done|exact (scanned_page_eq _ _ i it p h2 Hri Hk2 Hit Hip)|done].
    + unfold V1 in Ht6. by rewrite insert_delete_eq, <- delete_insert_ne, insert_delete_eq in Ht6 by done.
  - pwp_step. eapply pwp_mono; [exact (Hq3 _ p q h3 (Hsame _ Hok))|]. intros b h4 [Ht4 E4]. pwp_step.
    apply (pwp_mono _ _ (λ _, quietly L0 es V1 r (h_ksm h3))).
    { apply pwp_whenM; intros _; [|done]. revert h4 Ht4 E4. intros h4 Ht4 E4. 
      assert (stays (quietly L0 es V1 r (h_ksm h3)) (split_after_failure p)) as Hsp; [|by apply Hsp].
      unfold split_after_failure. stays. }
    intros [] h5 [Ht5 _]. pwp_step. eapply pwp_mono; [apply track_report; [done|exact Ht5]|]. intros [] h6 [Ht6 _]. pwp_step.
    exists V1. split; [by constructor|]. unfold failure_of. by rewrite Ety.
Qed.

Lemma track_apply_stale_node es V r e h :
  from h0 [] [] h → track L0 es V r h →
  pwp (apply_stale_node shadow_pt_list e) h (λ a h', a = NodeDropped ∧ ∃ j n, st_item_of shadow_pt_list e = Some j ∧
    track L0 es (filter (λ kv, kv.2.1 ≠ n) V) r h' ∧ (sharing (h_ksm h) = V → ∀ y, V !! j = Some y → y.1 = n)).
Proof using Hs HL0.
  intros Hk Ht. unfold apply_stale_node. pwp_step. apply pwp_shadow. intros rj Erj Hrj.
  pwp_step. apply pwp_halt_if. intros _. pwp_step. apply pwp_deref. intros j ->.
  pwp_step. apply pwp_get_kitem. intros it Hit. pwp_step. apply pwp_halt_if. intros _. pwp_step. apply pwp_deref. intros n Hn.
  pwp_step. apply pwp_get_knode. intros nd Hnd. pwp_step. apply pwp_halt_if. intros _.
  eapply pwp_both; [exact (keeps_get_ksm_page h [] [] n _ h (safe_from h (from_safe _ _ _ _ Hk)))|
    by apply track_get_ksm_page; [eapply from_safe|]|].
  intros [q| |] h1 Hk1 Hg; [|by pwp_step..]. destruct Hk1 as (Hk1 & _ & _). destruct Hg as (Ht1 & E1 & nd1 & Hn1 & Hc & Hq).
  rewrite Hnd in Hn1. injection Hn1 as <-. pwp_step. apply pwp_get_frame. intros fr Hfr. pwp_step. apply pwp_halt_if. intros _.
  apply pwp_seq. pwp_step. eapply pwp_mono; [eapply (track_forget_node L0 es V r n nd q h1); [done|by rewrite E1|done|done]|].
  intros [] h3 [Ht3 _]. pwp_step. eapply pwp_mono; [by apply track_unlock_page|]. intros [] h4 [Ht4 _].
  pwp_step. eapply pwp_mono; [by apply track_put_page|]. intros [] h5 [Ht5 _]. pwp_step.
  split; [done|]. exists j, n. split_and!; [done..|].
  intros <- y Hy. rewrite lookup_sharing, Hit in Hy. simpl in Hy. unfold node_of_kitem in Hy. destruct (stable_item it); [|done].
  rewrite Hn in Hy. simpl in Hy. rewrite Hnd in Hy. by injection Hy as <-.
Qed.

Lemma replayed_stale_node es V r e h :
  log_type e = DPU_STALE_STABLE_NODE → from h0 [] [] h → track L0 es V r h →
  pwp (apply_stale_node shadow_pt_list e) h (replayed es V r e).
Proof using Hs HL0.
  intros Ety Hk Ht. destruct (track_cases L0 es V r h Ht) as [Hst|Hsh].
  - eapply pwp_mono; [exact (pwp_forall _ _ _ (λ es', track_apply_stale_node es' V r e h Hk (Hst es' V)))|]. intros a h1 Hall.
    destruct (Hall []) as (-> & j & n & Hj & Ht1 & _).
    destruct (Hall [KsmEventLog HOST_STALE_STABLE_NODE 0 0 0 0]) as (_ & j' & n' & _ & Ht2 & _).
    exists (filter (λ kv, kv.2.1 ≠ default n (fst <$> V !! j)) V). split.
    + eapply rp_stale_node; [done|exact Hj|]. by intros y ->.
    + by apply (track_both L0 _ _ _ _ r h1 Ht1 Ht2).
  - eapply pwp_mono; [by apply track_apply_stale_node|]. intros a h1 (-> & j & n & Hj & Ht1 & Hn).
    eexists. split; [eapply rp_stale_node; [done|exact Hj|by apply Hn]|]. unfold failure_of. by rewrite app_nil_r.
Qed.

Lemma replayed_item_state_change es V r e h :
  log_type e = DPU_ITEM_STATE_CHANGE → from h0 [] [] h → track L0 es V r h →
  pwp (apply_item_state_change shadow_pt_list e) h (replayed es V r e).
Proof using Hs HL0.
  intros Ety Hk Ht. unfold apply_item_state_change. pwp_step. apply pwp_shadow. intros rj Erj Hrj.
  pwp_step. apply pwp_halt_if. intros _. pwp_step. apply pwp_deref. intros j ->.
  pwp_step. apply pwp_get_kitem. intros it Hit. pwp_step. apply pwp_halt_if. intros _.
  pwp_step. eapply pwp_mono; [apply track_remove_rmap_item; [by eapply from_safe|done]|]. intros [] h1 (Ht1 & _). pwp_step.
  exists (delete j V). split; [by constructor|]. unfold failure_of. by rewrite app_nil_r.
Qed.

Lemma replayed_event es V r e h :
  two_items shadow_pt_list e → from h0 [] [] h → track L0 es V r h →
  pwp (apply_event shadow_pt_list e) h (replayed es V r e).
Proof using Hs HL0.
  intros H2 Hk Ht. unfold apply_event. destruct (log_type e) eqn:Ety; try by pwp_step.
  - by apply replayed_stable_merge.
  - by apply replayed_unstable_merge.
  - by apply replayed_stale_node.
  - by apply replayed_item_state_change.
Qed.

Lemma replayed_events es V r L h :
  Forall (two_items shadow_pt_list) L → from h0 [] [] h → track L0 es V r h →
  pwp (apply_events shadow_pt_list L) h (λ outcomes h', ∃ V', replays_all shadow_pt_list scanned_page V L outcomes V' ∧
    track L0 (es ++ failures_of L outcomes) V' r h').
Proof using Hs HL0.
  revert es V h. induction L as [|e L IH]; intros es V h HL Hk Ht; simpl.
  { pwp_step. exists V. split; [constructor|]. unfold failures_of. simpl. by rewrite app_nil_r. }
  apply Forall_cons in HL as [He HL].
  eapply pwp_both; [exact (keeps_apply_event shadow_pt_list h0 Hs e h Hk)|by apply replayed_event|].
  intros a h1 Hk1 (V1 & HV1 & Ht1).
  eapply (pwp_both _ _ _ (λ _ h', from h0 [] [] h') (λ _ h', track L0 (es ++ failure_of e a) V1 r h')).
  { case_bool_decide; [by pwp_step|by apply keeps_interfere]. }
  { case_bool_decide; [by pwp_step|]. eapply pwp_mono; [by apply track_interfere|]. by intros [] h2 [? _]. }
  intros [] h2 Hk2 Ht2. pwp_step. eapply pwp_mono; [by apply IH|]. intros outcomes h3 (V2 & HV2 & Ht3). pwp_step.
  exists V2. split; [by econstructor|]. unfold failures_of in *. simpl. by rewrite app_assoc.
Qed.

(** The counts returned are those of the outcomes. *)
Lemma replayed_result es V r L h :
  Forall (two_items shadow_pt_list) L → from h0 [] [] h → track L0 es V r h →
  pwp (apply_result shadow_pt_list L) h (λ cnts h', ∃ outcomes V', replays_all shadow_pt_list scanned_page V L outcomes V' ∧
    track L0 (es ++ failures_of L outcomes) V' r h' ∧ cnts = foldl (λ c a, count_applied a c) (MergeCnts 0 0 0) outcomes).
Proof using Hs HL0.
  intros HL Hk Ht. unfold apply_result. do 2 pwp_step. pwp_step.
  eapply pwp_mono; [apply replayed_events; [done|by apply from_hstats|by apply track_hstats]|].
  intros outcomes h1 (V' & HV & Ht1). pwp_step. by exists outcomes, V'.
Qed.
End apply.
