(* ===== verification/HostAgree.v ===== *)
(** * HostAgree: the server's view and the host's

    The server keeps who shares which frame by (mm, address) and predicts
    what its log will do ([replay], MergeSpec); the host keeps it by item
    ([sharing]).  Where every entry succeeds, the prediction comes true. *)
From S2P Require Import Prelude Wire HashPair Growable Shadow Store Metadata MergeSpec Server HostMem HostTree HostTreeInv HostMerge HostApply HostSafe HostTrack HostTrackInsert HostTrackLink HostTrackMerge HostTrackApply.
Open Scope Z_scope.

Definition page_key (k : item_key) : Prop := k.2 mod PAGE_SIZE = 0.

(** The item the shadow tables keep for a page. *)
Definition item_at (l : list shadow_mm) (k : item_key) : option loc := shadow_item l k.1 k.2.

(** Two pages have two items. *)
Definition tables_injective (l : list shadow_mm) : Prop :=
  ∀ k1 k2 i, page_key k1 → page_key k2 → item_at l k1 = Some i → item_at l k2 = Some i → k1 = k2.

(** Both sides have the same frame for every page of the tables. *)
Definition agrees (l : list shadow_mm) (W : gmap item_key Z) (V : shares) : Prop :=
  ∀ k i, page_key k → item_at l k = Some i → W !! k = snd <$> V !! i.

Definition from_key (e : ksm_event_log) : item_key := (log_i0 e, log_w0 e).
Definition to_key (e : ksm_event_log) : item_key := (log_i1 e, log_w1 e).

(** A merge or a separation, of pages. *)
Definition plain_entry (e : ksm_event_log) : Prop :=
  page_key (from_key e) ∧
  match log_type e with
  | DPU_STABLE_MERGE | DPU_ITEM_STATE_CHANGE => True
  | DPU_UNSTABLE_MERGE => page_key (to_key e) ∧ from_key e ≠ to_key e
  | _ => False
  end.

Section agree.
Context (l : list shadow_mm) (Hinj : tables_injective l) (pf : item_key → Z) (page_of_item : loc → option Z)
  (Hpf : ∀ k i, page_key k → item_at l k = Some i → page_of_item i = Some (pf k)).

Lemma plain_two_items e : plain_entry e → two_items l e.
Proof using Hinj.
  intros [Hk Hp] Et i Hi Hj. rewrite Et in Hp. destruct Hp as [Hk' Hne].
  by apply Hne, (Hinj (from_key e) (to_key e) i).
Qed.

(** One page more. *)
Lemma agrees_insert W V k i n p :
  agrees l W V → page_key k → item_at l k = Some i → agrees l (<[k := p]> W) (<[i := (n, p)]> V).
Proof using Hinj.
  intros Ha Hk Hi k' j Hk' Hj. destruct (decide (k' = k)) as [->|Hne].
  - rewrite Hi in Hj. injection Hj as <-. by rewrite !lookup_insert_eq.
  - rewrite !lookup_insert_ne; [by apply Ha| |done]. intros <-. by apply Hne, (Hinj k' k i).
Qed.

Lemma agrees_delete W V k i :
  agrees l W V → page_key k → item_at l k = Some i → agrees l (delete k W) (delete i V).
Proof using Hinj.
  intros Ha Hk Hi k' j Hk' Hj. destruct (decide (k' = k)) as [->|Hne].
  - rewrite Hi in Hj. injection Hj as <-. by rewrite !lookup_delete_eq.
  - rewrite !lookup_delete_ne; [by apply Ha| |done]. intros <-. by apply Hne, (Hinj k' k i).
Qed.

Lemma agrees_replay1 W V e a V' :
  plain_entry e → agrees l W V → replays l page_of_item e V a V' → a ≠ SkippedMerge → failure_of e a = [] →
  agrees l (replay1 pf W e) V'.
Proof using Hinj Hpf.
  intros [Hk Hp] Ha Hr Hsk Hfl. unfold replay1. fold (from_key e). fold (to_key e). unfold failure_of in Hfl.
  destruct Hr as [i n Et Hi|Et|i Et Hi|i j n p Et Hi Hj Hpg Hu|i j Et Hi Hj|j n Et Hj Hn|j Et Hj]; rewrite Et in *; try done.
  - by apply agrees_insert.
  - destruct Hp as [Hk' Hne]. assert (p = pf (from_key e)) as ->.
    { rewrite (Hpf (from_key e) i Hk Hi) in Hpg. congruence. }
    apply agrees_insert; [|done|done]. by apply agrees_insert.
  - by apply agrees_delete.
Qed.

Lemma agrees_replay W V L outcomes V' :
  Forall plain_entry L → agrees l W V → replays_all l page_of_item V L outcomes V' →
  SkippedMerge ∉ outcomes → failures_of L outcomes = [] → agrees l (replay pf W L) V'.
Proof using Hinj Hpf.
  intros HL Ha Hr. revert W Ha HL. induction Hr as [V|V e a V1 L outcomes V2 Hr1 Hr IH]; intros W Ha HL Hsk Hfl; [done|].
  apply Forall_cons in HL as [He HL]. unfold failures_of in Hfl. simpl in Hfl. apply app_eq_nil in Hfl as [Hf1 Hf2].
  simpl. apply IH; [|done|set_solver|done]. eapply agrees_replay1; [done|done|exact Hr1|set_solver|done].
Qed.
End agree.

Lemma replays_all_length l pg V L outcomes V' : replays_all l pg V L outcomes V' → length outcomes = length L.
Proof. induction 1; simpl; congruence. Qed.

(** [unstable_abort] counts the skipped merges. *)
Lemma abort_count outcomes c :
  0 ≤ unstable_abort c → unstable_abort c + Z.of_nat (length outcomes) < 2 ^ 31 →
  unstable_abort c ≤ unstable_abort (foldl (λ c a, count_applied a c) c outcomes) ∧
  (unstable_abort (foldl (λ c a, count_applied a c) c outcomes) = unstable_abort c → SkippedMerge ∉ outcomes).
Proof.
  revert c. induction outcomes as [|a outcomes IH]; intros c Hc Hlen; simpl; [split; [lia|set_solver]|]. simpl in Hlen.
  assert (a ≠ SkippedMerge → unstable_abort (count_applied a c) = unstable_abort c) as Ha by by destruct a.
  destruct (decide (a = SkippedMerge)) as [->|Hne].
  - assert (unstable_abort (count_applied SkippedMerge c) = unstable_abort c + 1) as E by (simpl; apply wrap_s_small; lia).
    destruct (IH (count_applied SkippedMerge c)) as [IH1 _]; [lia|lia|]. split; lia.
  - specialize (Ha Hne). destruct (IH (count_applied a c)) as [IH1 IH2]; [lia|lia|]. split; [lia|]. rewrite Ha in IH2. set_solver.
Qed.

(** ** An event for a page the tables do not list *)
Definition lists_only (l : list shadow_mm) (keys : list item_key) : Prop :=
  ∀ k, page_key k → is_Some (item_at l k) → k ∈ keys.

Section stops.
Context `{RbTree} `{Memcmp} `{MmFault}.

Lemma stale_entry_stops l e h :
  st_item_of l e = None → log_type e = DPU_STALE_STABLE_NODE → pwp (apply_event l e) h (λ _ _, False).
Proof.
  intros Hi Ht. unfold apply_event. rewrite Ht. unfold apply_stale_node. pwp_step. unfold lookup_shadow.
  pwp_step. apply pwp_deref. intros sm Hsm. pwp_step. unfold st_item_of, shadow_item in Hi. rewrite Hsm in Hi. simpl in Hi.
  rewrite Hi. pwp_step. by apply pwp_halt_if.
Qed.

Lemma unlisted_stale_stops l e L h :
  e ∈ L → st_item_of l e = None → log_type e = DPU_STALE_STABLE_NODE → pwp (apply_events l L) h (λ _ _, False).
Proof.
  intros Hin Hi Ht. revert h. induction Hin as [e L|e x L Hin IH]; intros h; simpl.
  - pwp_step. eapply pwp_mono; [by apply stale_entry_stops|done].
  - pwp_step. unfold pwp at 1. destruct (apply_event l x h) as [[a h1]| |]; [|done..].
    pwp_step. unfold pwp at 1. destruct ((if bool_decide (a = SkippedMerge) then mret tt else interfere) h1) as [[[] h2]| |]; [|done..].
    pwp_step. eapply pwp_mono; [by apply IH|done].
Qed.
End stops.
