(* ===== verification/HostItems.v ===== *)
(** * HostItems: what neither makes nor frees items

    The application of the log, the dissolution of the stable tree, and the
    comparison of a page without a server; they leave the number of the pass
    alone too. *)
From S2P Require Import Prelude Wire HashPair Growable Shadow Server HostMem HostTree HostMerge HostApply HostScan HostLocal HostDaemon HostTreeInv HostSafe HostStays.
Open Scope Z_scope.

(** ** The items there are *)

(** The process and the page address of an item. *)
Definition place (it : kitem) : Z * Z := (ki_mm it, page_of (ki_address it)).
Definition places (k : ksm) : gmap loc (Z * Z) := place <$> kitems k.

Lemma dom_places k : dom (places k) = dom (kitems k).
Proof. apply dom_fmap_L. Qed.

Definition same_items (D : gmap loc (Z * Z)) (q : Z) (h : host) : Prop := places (h_ksm h) = D ∧ scan_seqnr (h_ksm h) = q.

Lemma page_of_unstable a q : page_of (Z.lor (Z.lor a UNSTABLE_FLAG) (Z.land q SEQNR_MASK)) = page_of a.
Proof.
  unfold page_of. rewrite !Z.land_lor_distr_l, <- (Z.land_assoc q). change (Z.land UNSTABLE_FLAG (Z.lnot 4095)) with 0.
  change (Z.land SEQNR_MASK (Z.lnot 4095)) with 0. by rewrite Z.land_0_r, !Z.lor_0_r.
Qed.

(** Masking, and the flags of the trees, do not move an item. *)
Ltac same_place := intros; unfold place; simpl; by rewrite ?page_of_idemp, ?page_of_flag, ?page_of_unstable.
#[export] Hint Extern 1 (∀ it, place _ = place it) => same_place : stays.

Section items.
Context `{RbTree} `{Memcmp} `{MmFault} (D : gmap loc (Z * Z)) (q : Z).
Abbreviation keeps := (stays (same_items D q)).

Lemma items_get_frame p : keeps (get_frame p).
Proof. unfold get_frame. stays. Qed.
Lemma items_get_kitem i : keeps (get_kitem i).
Proof. unfold get_kitem. stays. Qed.
Lemma items_get_knode n : keeps (get_knode n).
Proof. unfold get_knode. stays. Qed.
Lemma items_upd_frame p f : keeps (upd_frame p f).
Proof. unfold upd_frame, get_frame. stays. Qed.
Lemma items_upd_knode n f : keeps (upd_knode n f).
Proof. unfold upd_knode, get_knode. stays. Qed.
Lemma items_upd_kitem i f : (∀ it, place (f it) = place it) → keeps (upd_kitem i f).
Proof.
  intros Hf h [Hh Hq]. apply pwp_upd_kitem. intros it Hi. split; simpl; [|done]. rewrite <- Hh. unfold places. simpl.
  rewrite fmap_insert, Hf. apply insert_id. by rewrite lookup_fmap, Hi.
Qed.
Lemma items_interfere : keeps interfere.
Proof.
  intros h Hh. unfold interfere, pwp. destruct (env h) as [|f fs]; [done|]. by destruct (f (h_mem h, user h)).
Qed.
Lemma items_report t e : keeps (report t e).
Proof. intros h Hh. unfold report, pwp. by destruct (insert_error_log _ _ _ _) as [[[? ?] ?]| |]. Qed.
Lemma items_alloc : keeps alloc_stable_node.
Proof. intros h Hh. unfold alloc_stable_node, pwp. by destruct (kmalloc _) as [[[] ?]| |]. Qed.
Hint Resolve items_get_frame items_get_kitem items_get_knode items_upd_frame items_upd_knode items_upd_kitem
  items_interfere items_report items_alloc : stays.

Lemma items_clear n l : keeps (clear_items n l).
Proof. induction l as [|i l IH]; simpl; unfold count, count_merging; stays. Qed.
Hint Resolve items_clear : stays.
Lemma items_get_ksm_page n flags : keeps (get_ksm_page n flags).
Proof.
  assert (∀ n p, keeps (stale_node n p)) as Hst.
  { intros. unfold stale_node, remove_node_from_stable_tree, stable_node_dup_del, hlist_del, count_nodes, free_stable_node. stays. }
  unfold get_ksm_page, get_page, put_page, unlock_page, trylock_page, lock_page. stays.
Qed.
Hint Resolve items_get_ksm_page : stays.
Lemma items_remove i : keeps (remove_rmap_item_from_tree i).
Proof. unfold remove_rmap_item_from_tree, hlist_del, unlock_page, put_page, count, count_merging. stays. Qed.
Hint Resolve items_remove : stays.
Lemma items_append i n : keeps (stable_tree_append i n).
Proof. unfold stable_tree_append, count, count_merging. stays. Qed.
Lemma items_first_dup l : keeps (first_dup l).
Proof. induction l; simpl; unfold put_page; stays. Qed.
Hint Resolve items_append items_first_dup : stays.
Lemma items_tree_page n : keeps (tree_page_of n).
Proof.
  unfold tree_page_of, chain, stable_node_dup, stable_node_dup_any, free_stable_node_chain, free_stable_node, count_nodes. stays.
Qed.
Hint Resolve items_tree_page : stays.
Lemma items_descend kp t path : keeps (descend kp t path).
Proof. revert path. induction t; intros path; simpl; unfold put_page; stays. Qed.
Hint Resolve items_descend : stays.
Lemma items_place fuel kp : keeps (search_place fuel kp).
Proof. induction fuel; simpl; stays. Qed.
Hint Resolve items_place : stays.
Lemma items_insert kp : keeps (stable_tree_insert kp).
Proof.
  unfold stable_tree_insert, link_new_node, alloc_stable_node_chain, stable_node_chain_add_dup, free_stable_node, count_nodes. stays.
Qed.
Hint Resolve items_insert : stays.
Lemma items_try_one mm v p kp : keeps (try_to_merge_one_page mm v p kp).
Proof.
  unfold try_to_merge_one_page, merge_locked, split_huge_page, write_protect_page, replace_page, pages_identical, count_fail,
    count_zero_page, set_pte, trylock_page, unlock_page. stays.
Qed.
Hint Resolve items_try_one : stays.
Lemma items_try_ksm i p kp : keeps (try_to_merge_with_ksm_page i p kp).
Proof. unfold try_to_merge_with_ksm_page, count_fail, count. stays. Qed.
Lemma items_break fuel k : keeps (break_ksm fuel k).
Proof. induction fuel; simpl; stays. Qed.
Hint Resolve items_try_ksm items_break : stays.
Lemma items_try_two i p j tp : keeps (try_to_merge_two_pages i p j tp).
Proof. unfold try_to_merge_two_pages, break_cow, count. stays. Qed.
Hint Resolve items_try_two : stays.
Lemma items_apply_event l e : keeps (apply_event l e).
Proof.
  unfold apply_event, apply_stable_merge, apply_unstable_merge, apply_stale_node, apply_item_state_change, lookup_shadow,
    same_compound, split_after_failure, split_huge_page, trylock_page, lock_page, unlock_page, put_page,
    remove_node_from_stable_tree, stable_node_dup_del, hlist_del, count_nodes, free_stable_node. stays.
Qed.
Hint Resolve items_apply_event : stays.

Lemma items_apply_result l L : keeps (apply_result l L).
Proof.
  assert (keeps (apply_events l L)) by (induction L; simpl; stays). unfold apply_result. stays.
Qed.

(** ** Without a server *)
Lemma items_chain_prune cp n : keeps (chain_prune cp n).
Proof.
  assert (∀ l f nr, keeps (best_dup l f nr)) as Hb by (induction l; intros; cbn [best_dup]; unfold put_page; stays).
  unfold chain_prune, stable_node_dup_prune, stable_node_dup, collapse_chain, dup_to_head, free_stable_node, count_nodes. stays.
Qed.
Hint Resolve items_chain_prune : stays.
Lemma items_search cp fuel p : keeps (search_stable cp fuel p).
Proof.
  assert (∀ t, keeps (search_down cp p t)) as Hd.
  { induction t; cbn [search_down]; unfold pruned_page_of, stable_node_dup_any, free_stable_node_chain, free_stable_node, count_nodes,
      same_content, put_page, unlock_page; stays. }
  induction fuel; cbn [search_stable]; stays.
Qed.
Hint Resolve items_search : stays.
Lemma items_tree_search cp p : keeps (stable_tree_search cp p).
Proof. unfold stable_tree_search, get_page. stays. Qed.
Hint Resolve items_tree_search : stays.
Lemma items_unstable_search i p : keeps (unstable_tree_search_insert i p).
Proof.
  assert (∀ t path, keeps (unstable_down p t path)) as Hd.
  { induction t; intros; cbn [unstable_down]; unfold get_mergeable_page, follow_page, get_page, put_page; stays. }
  unfold unstable_tree_search_insert, link_unstable, count. stays.
Qed.
Hint Resolve items_unstable_search : stays.
Lemma items_cmp_and_merge cp ps cs zc p i : keeps (cmp_and_merge_page cp ps cs zc p i).
Proof.
  unfold cmp_and_merge_page, put_page, merge_with_kpage, merge_unstable, try_zero_page, merge_with_item,
    insert_merged, same_compound, split_after_failure, split_huge_page, trylock_page, lock_page, unlock_page, break_cow, count. stays.
Qed.
Lemma items_should_skip ps p i : keeps (should_skip_rmap_item ps p i).
Proof. unfold should_skip_rmap_item. stays. Qed.

Lemma items_remove_all fuel : keeps (remove_all_stable_nodes fuel).
Proof.
  assert (∀ n, keeps (remove_stable_node n)) as Hr.
  { intros n. unfold remove_stable_node, remove_node_from_stable_tree, stable_node_dup_del, hlist_del, count_nodes, free_stable_node,
      unlock_page, put_page. stays. }
  assert (∀ l, keeps (remove_dups l)) as Hd by (induction l; cbn [remove_dups]; stays).
  induction fuel; cbn [remove_all_stable_nodes];
    unfold remove_stable_node_chain, free_stable_node_chain, free_stable_node, count_nodes; stays.
Qed.
End items.
