(* ===== verification/HostScanInv.v ===== *)
(** * HostScanInv: the lists of items during a scan

    What the scan keeps: memory and KSM's structures (the relations [from] and
    [track] of the application of the log, from a base whose items are
    forgotten, since the scan makes and frees items), the counters of items,
    and that the list of a process holds exactly its items, in ascending order
    of address. *)
From S2P Require Import Prelude Wire HashPair Growable Shadow Scatter Server HostMem HostTree HostTreeInv HostMerge HostApply HostScan HostSafe HostTrack.
Open Scope Z_scope.

(** ** Pages *)
Lemma page_of_div a : page_of a = 4096 * (a / 4096).
Proof.
  unfold page_of. change 4095 with (Z.ones 12). rewrite <- Z.ldiff_land, Z.ldiff_ones_r by lia.
  rewrite Z.shiftl_mul_pow2, Z.shiftr_div_pow2 by lia. change (2 ^ 12) with 4096. lia.
Qed.

Lemma page_of_aligned a : a mod 4096 = 0 → page_of a = a.
Proof. intros Ha. rewrite page_of_div. Z.div_mod_to_equations. lia. Qed.

(** The test of [get_next_rmap_item] on an address with flags. *)
Lemma page_of_ltb a x : a mod 4096 = 0 → page_of x ≠ a → (a <? x) = (a <? page_of x).
Proof.
  intros Ha Hne. rewrite page_of_div in *. destruct (Z.ltb_spec a x), (Z.ltb_spec a (4096 * (x / 4096))); try done;
    Z.div_mod_to_equations; lia.
Qed.

(** ** What identifies an item *)
Abbreviation identity := (Z * Z * option Z)%type.   (* mm, page address, page *)
Definition ident (it : kitem) : identity := (ki_mm it, page_of (ki_address it), ki_page it).
Definition items_of_ksm (k : ksm) : gmap loc identity := ident <$> kitems k.
Abbreviation items s := (items_of_ksm (h_ksm (sc_host s))).

Definition count_of (mm : Z) (I : gmap loc identity) : Z := msum (λ v, if v.1.1 =? mm then 1 else 0) I.

(** The base of the scan: its items are not kept. *)
Definition no_items (h : host) : host := with_ksm (on_items (λ _, ∅)) h.

Lemma from_any_items h0 δ Λ h f : from (no_items h0) δ Λ h → from (no_items h0) δ Λ (with_ksm f h).
Proof. intros []. by split. Qed.

Lemma from_no_items h : safe h → from (no_items h) [] [] h.
Proof. intros Hs. destruct (from_refl _ Hs). by split. Qed.

Lemma from_items h δ Λ h' :
  from h δ Λ h' → dom (kitems (h_ksm h')) = dom (kitems (h_ksm h)) → items_of_ksm (h_ksm h') = items_of_ksm (h_ksm h).
Proof.
  intros Hf Hd. apply map_eq. intros i. unfold items_of_ksm. rewrite !lookup_fmap.
  destruct (kitems (h_ksm h) !! i) as [it|] eqn:Hi.
  - destruct (fm_items _ _ _ _ Hf i it Hi) as (it' & -> & E1 & E2 & E3). simpl. unfold ident. by rewrite E1, E2, E3.
  - apply not_elem_of_dom in Hi. rewrite <- Hd in Hi. apply not_elem_of_dom in Hi. by rewrite Hi.
Qed.

Lemma size_items k : size (items_of_ksm k) = size (kitems k).
Proof. apply map_size_fmap. Qed.

(** ** KSM's structures do not see [page] *)
Lemma ksm_ok_set_word r k i it p :
  ksm_ok r k → kitems k !! i = Some it →
  ksm_ok r (on_items (<[i := set_word p it]>) k) ∧ sharing (on_items (<[i := set_word p it]>) k) = sharing k.
Proof.
  intros [K1 K2 K3 K4 K5 K6 K7 K8] Hi. split.
  - split; simpl; try done.
    + intros j jt Hj Hjs. destruct (decide (j = i)) as [->|Hne].
      * rewrite lookup_insert_eq in Hj. injection Hj as <-. by apply (K1 i it).
      * rewrite lookup_insert_ne in Hj by done. by eapply K1.
    + intros n nd Hn Hc. destruct (K2 n nd Hn Hc) as (A & B & C). split_and!; [done|done|]. intros j Hj.
      destruct (C j Hj) as (jt & D & E & F). destruct (decide (j = i)) as [->|Hne].
      * rewrite Hi in D. injection D as <-. eexists. rewrite lookup_insert_eq. by split_and!.
      * exists jt. by rewrite lookup_insert_ne.
    + by rewrite (size_insert_existing _ _ it).
  - apply map_eq. intros j. rewrite !lookup_sharing. simpl. destruct (decide (j = i)) as [->|Hne].
    + by rewrite lookup_insert_eq, Hi.
    + by rewrite lookup_insert_ne.
Qed.

Lemma track_refresh L0 es V r h : track L0 es V r h → track L0 es (sharing (h_ksm h)) r h.
Proof.
  intros [T1 T2 T3 T4 T5 T6 T7 T8]. split; try done. unfold logged in *. destruct L0 as [L|]; [|done].
  destruct T4 as (t & new & T4 & T4' & T4''). exists t, new. split_and!; [done..|].
  destruct T4'' as [?|[-> _]]; [by left|by right].
Qed.

(** A change of the items only. *)
Lemma track_items L0 es V r h f :
  track L0 es V r h → ksm_ok r (on_items f (h_ksm h)) → unstables (f (kitems (h_ksm h))) = unstables (kitems (h_ksm h)) →
  (marks_ok (kitems (h_ksm h)) → marks_ok (f (kitems (h_ksm h)))) →
  track L0 es (sharing (on_items f (h_ksm h))) r (with_ksm (on_items f) h).
Proof.
  intros Ht Hk Hu HM. apply (track_ksm L0 es (sharing (h_ksm h)) r h r _ (on_items f)); [by eapply track_refresh|done|by split|done| |by apply no_new_pages_refl].
  intros n nd Hn Hc _. by exists nd.
Qed.

(** ** The state of the scan *)

(** A property of the host that every step of the scan keeps. *)
Class Calm `{RbTree} (calm : host → Prop) := {
  calm_interfere : ∀ h, calm h → pwp interfere h (λ _ h', calm h');
  calm_get_page : ∀ p h, calm h → pwp (HostMem.get_page p) h (λ _ h', calm h');
  calm_put_page : ∀ p fr h, calm h → frames (h_mem h) !! p = Some fr → page_count (add_kref (-1) fr) ≠ 0 →
    pwp (put_page p) h (λ _ h', calm h');
  calm_remove : ∀ L0 V i h, safe h → track L0 [] V 0 h → calm h → pwp (remove_rmap_item_from_tree i) h (λ _ h', calm h');
  calm_items : ∀ f h, no_entry (h_ksm h) (on_items f (h_ksm h)) → calm h → calm (with_ksm (on_items f) h);
  calm_errors : ∀ t a h, calm h → calm (with_errors t a h) }.

#[export] Instance calm_any `{RbTree} : Calm (λ _, True).
Proof. split; intros; solve [apply pwp_true|done]. Qed.

Record scan_inv (calm : host → Prop) (room : Z) (h0 : host) (L0 : mode) (δ : list Z) (s : scan_st) : Prop := ScanInv {
  iv_calm : calm (sc_host s);
  iv_from : from (no_items h0) δ [] (sc_host s);
  iv_frames : Forall (λ p, p ∈ dom (frames (h_mem h0))) δ;
  iv_track : track L0 [] (sharing (h_ksm (sc_host s))) 0 (sc_host s);
  iv_slab : Z.of_nat (size (items s)) + Z.of_nat (length (slab s)) < Z.min room (2 ^ 31);
  iv_count : ksm_rmap_items s = u64 (Z.of_nat (size (items s)));
  iv_counts : ∀ mm, default 0 (mm_rmap_items s !! mm) = u64 (count_of mm (items s)) }.

Lemma pwp_on_host {A} (m : M host A) s (Q : A → scan_st → Prop) :
  pwp m (sc_host s) (λ a h', Q a (with_host (λ _, h') s)) → pwp (on_host m) s Q.
Proof. unfold on_host, pwp. by destruct (m (sc_host s)) as [[a h']| |]. Qed.

(** What the scan of one process leaves alone. *)
Definition tables (s : scan_st) := (mm_slots s, shadow_pt_list s, vm_mergeable_mms s, registered s, error_sgts s).

Section inv.
#[local] Set Default Proof Using "Type*".
Context `{RbTree} `{Memcmp} `{MmFault}.
Context (calm : host → Prop) `{!Calm calm} (room : Z) (h0 : host) (L0 : mode).
Abbreviation inv := (scan_inv calm room h0 L0).

(** What a step on the host owes the invariant. *)
Definition host_step (δ' : list Z) (s : scan_st) (h' : host) : Prop :=
  calm h' ∧ (from (no_items h0) δ' [] h' ∧ Forall (λ p, p ∈ dom (frames (h_mem h0))) δ') ∧ (∃ V, track L0 [] V 0 h') ∧ items_of_ksm (h_ksm h') = items s.

Lemma inv_step δ δ' s h' : inv δ s → host_step δ' s h' → inv δ' (with_host (λ _, h') s).
Proof.
  intros [I0 I1 If I2 I3 I4 I5] (C & [F Fd] & (V & T) & E). split; simpl; rewrite ?E; try done. by eapply track_refresh.
Qed.

Lemma inv_on_host {A} (m : M host A) δ δ' s (P : A → host → Prop) (Q : A → scan_st → Prop) :
  inv δ s → pwp m (sc_host s) (λ a h', host_step δ' s h' ∧ P a h') →
  (∀ a h', inv δ' (with_host (λ _, h') s) → items_of_ksm (h_ksm h') = items s → P a h' → Q a (with_host (λ _, h') s)) →
  pwp (on_host m) s Q.
Proof.
  intros Hi Hm HQ. apply pwp_on_host. eapply pwp_mono; [exact Hm|]. intros a h' [Hs HP].
  apply HQ; [by eapply inv_step|apply Hs|done].
Qed.

Lemma inv_interfere δ s (Q : unit → scan_st → Prop) :
  inv δ s → (∀ h', inv δ (with_host (λ _, h') s) → h_ksm h' = h_ksm (sc_host s) → Q tt (with_host (λ _, h') s)) →
  pwp (on_host interfere) s Q.
Proof.
  intros Hi HQ. eapply (inv_on_host _ _ δ s (λ _ h', h_ksm h' = h_ksm (sc_host s))); [exact Hi| |intros [] ? ? _; by apply HQ].
  eapply pwp_mono; [exact (pwp_and _ _ _ _ (calm_interfere _ (iv_calm _ _ _ _ _ _ Hi)) (pwp_and _ _ _ _ (keeps_interfere _ _ _ _ (iv_from _ _ _ _ _ _ Hi)) (track_interfere _ _ _ _ _ (iv_track _ _ _ _ _ _ Hi))))|].
  intros [] h' (Hc & Hf & Ht & E). split; [|done]. split_and!; [done|done| |by eexists|by rewrite E].
  apply (iv_frames _ _ _ _ _ _ Hi).
Qed.

Lemma inv_get_page δ s p (Q : unit → scan_st → Prop) :
  inv δ s → (∀ fr, frames (h_mem (sc_host s)) !! p = Some fr →
    let h' := with_mem (on_frames (<[p := add_kref 1 fr]>)) (sc_host s) in
    inv (p :: δ) (with_host (λ _, h') s) → Q tt (with_host (λ _, h') s)) →
  pwp (on_host (HostMem.get_page p)) s Q.
Proof.
  intros Hi HQ. eapply (inv_on_host _ _ (p :: δ) s (λ _ h', ∃ fr, frames (h_mem (sc_host s)) !! p = Some fr ∧
    h' = with_mem (on_frames (<[p := add_kref 1 fr]>)) (sc_host s))); [exact Hi| |intros [] h' ? _ (fr & Hp & ->); by apply HQ].
  eapply pwp_mono.
  { refine (pwp_and _ _ _ (λ _ h', ∃ fr, frames (h_mem (sc_host s)) !! p = Some fr ∧
      h' = with_mem (on_frames (<[p := add_kref 1 fr]>)) (sc_host s)) _ _).
    - exact (pwp_and _ _ _ _ (calm_get_page p _ (iv_calm _ _ _ _ _ _ Hi)) (pwp_and _ _ _ _ (keeps_get_page _ _ _ p _ (iv_from _ _ _ _ _ _ Hi)) (track_get_page _ _ _ _ p _ (iv_track _ _ _ _ _ _ Hi)))).
    - unfold HostMem.get_page. apply pwp_upd_frame. intros fr Hp. by exists fr. }
  intros [] h' ((Hc & Hf & Ht & E) & Hex). split; [|done]. split_and!; [done|done| |by eexists|by rewrite E].
  destruct Hex as (fr & Hp & _). constructor; [|apply (iv_frames _ _ _ _ _ _ Hi)].
  change (h_mem h0) with (h_mem (no_items h0)). rewrite <- (fm_dom _ _ _ _ (iv_from _ _ _ _ _ _ Hi)). by eapply elem_of_dom_2.
Qed.

Lemma inv_put_page δ s p fr (Q : unit → scan_st → Prop) :
  inv (p :: δ) s → frames (h_mem (sc_host s)) !! p = Some fr → page_count (add_kref (-1) fr) ≠ 0 →
  (∀ h', inv δ (with_host (λ _, h') s) → h_ksm h' = h_ksm (sc_host s) → Q tt (with_host (λ _, h') s)) →
  pwp (on_host (put_page p)) s Q.
Proof.
  intros Hi Hfr Hcnt HQ. eapply (inv_on_host _ _ δ s (λ _ h', h_ksm h' = h_ksm (sc_host s))); [exact Hi| |intros [] ? ? _; by apply HQ].
  eapply pwp_mono; [refine (pwp_and _ _ _ _ (calm_put_page p fr _ (iv_calm _ _ _ _ _ _ Hi) Hfr Hcnt) (pwp_and _ _ _ _ (keeps_put_page _ _ _ p _ (iv_from _ _ _ _ _ _ Hi)) (track_put_page _ _ _ _ p _ (iv_track _ _ _ _ _ _ Hi))))|].
  intros [] h' (Hc & Hf & Ht & E). split; [|done]. split_and!; [done|done| |by eexists|by rewrite E].
  pose proof (iv_frames _ _ _ _ _ _ Hi) as [_ Hd]%Forall_cons. exact Hd.
Qed.

(** [unlisted] items may be freed. *)
Lemma inv_remove δ s i (Q : unit → scan_st → Prop) :
  inv δ s → (∀ h', inv δ (with_host (λ _, h') s) → items_of_ksm (h_ksm h') = items s → unlisted i h' → Q tt (with_host (λ _, h') s)) →
  pwp (on_host (remove_rmap_item_from_tree i)) s Q.
Proof.
  intros Hi HQ. pose proof (from_safe _ _ _ _ (iv_from _ _ _ _ _ _ Hi)) as Hsf.
  eapply (inv_on_host _ _ δ s (λ _ h', unlisted i h')); [exact Hi| |intros [] ? ? ?; by apply HQ].
  eapply pwp_mono.
  { exact (pwp_and _ _ _ _ (calm_remove _ _ i _ Hsf (iv_track _ _ _ _ _ _ Hi) (iv_calm _ _ _ _ _ _ Hi)) (pwp_and _ _ _ _ (keeps_remove_rmap_item _ _ _ i _ (iv_from _ _ _ _ _ _ Hi))
      (pwp_and _ _ _ _ (keeps_remove_rmap_item _ _ _ i _ (from_refl _ Hsf)) (track_remove_rmap_item _ _ _ _ i _ Hsf (iv_track _ _ _ _ _ _ Hi))))). }
  intros [] h' (Hc & Hf & Hf' & Ht & Hu & Hd & _). split; [|done]. split_and!; [done|done| |by eexists|by eapply from_items].
  apply (iv_frames _ _ _ _ _ _ Hi).
Qed.

Lemma inv_set_page δ s i a mm q p (Q : unit → scan_st → Prop) :
  inv δ s → items s !! i = Some (mm, a, q) →
  (∀ h', inv δ (with_host (λ _, h') s) → items_of_ksm (h_ksm h') = <[i := (mm, a, p)]> (items s) → Q tt (with_host (λ _, h') s)) →
  pwp (on_host (upd_kitem i (set_word (PageField p)))) s Q.
Proof.
  intros Hi Hv HQ. apply pwp_on_host, pwp_upd_kitem. intros it Hit.
  assert (Hid : ident it = (mm, a, q)) by (unfold items_of_ksm in Hv; rewrite lookup_fmap, Hit in Hv; simpl in Hv; congruence).
  assert (E : items_of_ksm (on_items (<[i := set_word (PageField p) it]>) (h_ksm (sc_host s))) = <[i := (mm, a, p)]> (items s)).
  { unfold items_of_ksm. simpl. rewrite fmap_insert. f_equal. unfold ident in *. simpl. by injection Hid as -> -> _. }
  apply HQ; [|exact E]. destruct Hi as [I0 I1 If I2 I3 I4 I5]. destruct (ksm_ok_set_word 0 _ i it (PageField p) (tk_ksm _ _ _ _ _ I2) Hit) as [Hk _].
  assert (size (<[i := (mm, a, p)]> (items s)) = size (items s)) as Esz by (rewrite map_size_insert, Hv; done).
  split; simpl; rewrite ?E; rewrite ?Esz; try done.
  - apply calm_items; [|done]. by eapply (no_entry_same i it).
  - by apply from_any_items.
  - apply (track_items _ _ (sharing (h_ksm (sc_host s)))); [done|done|apply unstables_insert; by rewrite Hit|]. intros HM. by eapply marks_ok_same.
  - intros mm'. rewrite I5. f_equal. unfold count_of. rewrite (msum_update _ _ _ _ _ Hv). simpl. lia.
Qed.

(** An allocation of the host's. *)
Lemma inv_kalloc {A} (m : M kalloc A) δ s (P : A → Prop) (Q : A → scan_st → Prop) :
  inv δ s → pwp m (kallocs (sc_host s)) (λ r k, P r ∧ false ∉ k) →
  (∀ r k, P r → inv δ (with_host (with_errors (ksm_error_table (sc_host s)) k) s) →
     Q r (with_host (with_errors (ksm_error_table (sc_host s)) k) s)) →
  pwp (on_host (on_kalloc m)) s Q.
Proof.
  intros Hi Hm HQ. apply pwp_on_host. unfold on_kalloc, pwp in *. destruct (m (kallocs (sc_host s))) as [[r k]| |]; [|done..].
  destruct Hm as [HP Hk]. apply HQ; [done|]. destruct Hi as [I0 I1 If I2 I3 I4 I5]. split; simpl; try done.
  - by apply calm_errors.
  - by apply from_errors.
  - destruct I2. by split.
Qed.

Lemma inv_allocs δ s : inv δ s → false ∉ kallocs (sc_host s).
Proof. intros Hi. apply (tk_alloc _ _ _ _ _ (iv_track _ _ _ _ _ _ Hi)). Qed.

Lemma inv_perm δ δ' s : δ ≡ₚ δ' → inv δ s → inv δ' s.
Proof.
  intros Hp []. split; try done; [|by rewrite <- Hp]. eapply from_perm; [|done|done]. intros p. unfold occ. by rewrite Hp.
Qed.

(** ** Counting items *)
Lemma count_of_delete mm I i v : I !! i = Some v → count_of mm (delete i I) = count_of mm I - (if v.1.1 =? mm then 1 else 0).
Proof. apply msum_delete. Qed.
Lemma count_of_insert mm I i v : I !! i = None → count_of mm (<[i := v]> I) = (if v.1.1 =? mm then 1 else 0) + count_of mm I.
Proof. apply msum_insert. Qed.

Lemma default_bump m d c mm : default 0 (bump m d c !! mm) = if m =? mm then u64 (default 0 (c !! m) + d) else default 0 (c !! mm).
Proof.
  unfold bump. destruct (Z.eqb_spec m mm) as [->|Hne]; [by rewrite lookup_insert_eq|by rewrite lookup_insert_ne].
Qed.

Lemma inv_free δ s i v (Q : unit → scan_st → Prop) :
  inv δ s → unlisted i (sc_host s) → items s !! i = Some v →
  (∀ s', inv δ s' → items s' = delete i (items s) → scan s' = scan s → tables s' = tables s → Q tt s') →
  pwp (free_rmap_item i) s Q.
Proof.
  intros [I0 I1 If I2 I3 I4 I5] Hu Hv HQ. unfold items_of_ksm in Hv. rewrite lookup_fmap in Hv.
  destruct (kitems (h_ksm (sc_host s)) !! i) as [it|] eqn:Hi; [|done]. injection Hv as <-.
  unfold free_rmap_item. pwp_step. apply pwp_on_host. apply pwp_get_kitem. intros it' Hi'. rewrite Hi in Hi'. injection Hi' as <-.
  do 4 pwp_step. apply pwp_on_host. pwp_step.
  assert (Hd : items_of_ksm (on_items (delete i) (h_ksm (sc_host s))) = delete i (items s)).
  { unfold items_of_ksm. simpl. apply fmap_delete. }
  assert (Hit : items s !! i = Some (ident it)) by (unfold items_of_ksm; by rewrite lookup_fmap, Hi).
  assert (size (delete i (items s)) = Nat.pred (size (items s))) as Hsz by (rewrite map_size_delete, Hit; lia).
  assert (size (items s) ≠ 0%nat) as Hnz.
  { intros E%map_size_empty_iff. by rewrite E in Hit. }
  apply HQ; try done. split; simpl; rewrite ?Hd.
  - apply calm_items; [|done]. by apply (no_entry_delete i).
  - by apply from_any_items.
  - done.
  - apply (track_items _ _ (sharing (h_ksm (sc_host s)))); [done|..].
    { eapply ksm_ok_free_item; [apply I2|exact Hi|by apply Hu]. }
    { apply unstables_delete. intros it' Hit'. by apply Hu. }
    intros HM j jt [_ Hj]%lookup_delete_Some. by eapply HM.
  - lia.
  - rewrite I4. unfold Z.sub. rewrite u64_add. f_equal. lia.
  - intros mm. rewrite default_bump, I5, (count_of_delete _ _ _ _ Hit), I5. simpl.
    destruct (Z.eqb_spec (ki_mm it) mm) as [->|]; [|f_equal; lia]. unfold Z.sub. by rewrite u64_add.
Qed.
End inv.
