(* ===== verification/HostLocalSafe.v ===== *)
(** * HostLocalSafe: comparing and merging without a server is invisible

    The operations of HostLocal keep [from]: the references and locks they take
    are given back, but for that of a page they return, and what the processes
    read stays what they stored.  A word of an item is rewritten, so the base of
    the last ones has no items.  Merging with the zero page is left out: the
    rest of the machine is not assumed to leave the zero page alone. *)
From S2P Require Import Prelude Wire HashPair Growable Shadow Server HostMem HostTree HostTreeInv HostMerge HostApply HostScan HostSafe HostMergeSafe HostApplySafe HostTrack HostItems HostScanInv HostLocal.
Open Scope Z_scope.

Lemma occ_pos p l : p ∈ l → 0 < occ p l.
Proof.
  intros Hin. unfold occ. assert (p ∈ filter (λ q, q = p) l) by by apply list_elem_of_filter.
  destruct (filter _ l); [set_solver|simpl; lia].
Qed.

Lemma from_ksm_held h0 δ Λ h p :
  p ∈ δ → from h0 δ Λ h → (∃ fr, frames (h_mem h) !! p = Some fr ∧ PageKsm fr = true) → ksm_held h p.
Proof.
  intros Hin Hk (fr & Hp & Hks). destruct (from_frame_inv _ _ _ _ _ _ Hk Hp) as (fr0 & Hp0 & [F1 _ _]).
  destruct (mo_refs _ (fm_base _ _ _ _ Hk) p fr0 Hp0) as (? & _). pose proof (occ_pos p δ Hin).
  apply (held_ksm_frozen h p fr); [by eapply from_safe|done|lia|done].
Qed.

Lemma from_swap h0 p q δ Λ h : from h0 (p :: q :: δ) Λ h → from h0 (q :: p :: δ) Λ h.
Proof. apply from_perm; [|done]. intros x. rewrite !occ_cons. lia. Qed.

Section search.
Context `{RbTree} `{Memcmp} `{MmFault} (h0 : host) (δ Λ : list Z).
Abbreviation kept := (from h0 δ Λ).
Abbreviation holding := (holding h0 δ Λ).

Lemma keeps_follow_page mm addr h : kept h → pwp (follow_page mm addr) h (λ r h', holding r h' ∧ h_ksm h' = h_ksm h).
Proof.
  intros Hk. unfold follow_page. do 2 pwp_step. destruct (ptes _ !! _) as [e|]; [|by pwp_step].
  pwp_step. unfold HostMem.get_page. apply pwp_upd_frame. intros fr Hp. pwp_step. split; [by apply from_get_page|done].
Qed.

Lemma keeps_get_mergeable_page i h : kept h → pwp (get_mergeable_page i) h holding.
Proof.
  intros Hk. unfold get_mergeable_page. pwp_step. apply pwp_get_kitem. intros it _.
  pwp_step. eapply pwp_mono; [by apply keeps_interfere|]. intros [] h1 Hk1. do 2 pwp_step.
  destruct (find_mergeable_vma _ _ _); [|by pwp_step].
  pwp_step. eapply pwp_mono; [by apply keeps_follow_page|]. intros [p|] h2 [Hk2 _]; [|by pwp_step].
  pwp_step. apply pwp_get_frame. intros fr _. destruct (PageAnon fr); [by pwp_step|].
  pwp_step. eapply pwp_mono; [by apply keeps_put_page|]. intros [] h3 Hk3. by pwp_step.
Qed.

(** ** The stable tree *)
Abbreviation found_dup f := ((λ x : loc * Z * Z, x.1.2) <$> f).

Lemma keeps_best_dup l f nr h : holding (found_dup f) h → pwp (best_dup l f nr) h (λ r, holding (found_dup r.1)).
Proof.
  revert f nr h. induction l as [|d l IH]; intros f nr h Hk; cbn [best_dup]; [by pwp_step|].
  set (δ' := match f with Some (_, q, _) => q :: δ | None => δ end).
  assert (from h0 δ' Λ h) as Hk' by by destruct f as [[[? ?] ?]|].
  pwp_step. eapply pwp_mono; [by apply (keeps_get_nolock h0 δ' Λ)|]. intros [p| |] h1 Hr; simpl in Hr.
  - pwp_step. apply pwp_get_knode. intros nd _. do 2 pwp_step. destruct (is_page_sharing_candidate_at _ _ _ && _).
    + pwp_step. destruct f as [[[fd q] len]|].
      * eapply pwp_mono; [apply (keeps_put_page h0 (p :: δ) Λ); by apply from_swap|]. intros [] h2 Hk2. by apply IH.
      * pwp_step. by apply IH.
    + pwp_step. eapply pwp_mono; [by apply keeps_put_page|]. intros [] h2 Hk2. apply IH. by destruct f as [[[? ?] ?]|].
  - apply IH. by destruct f as [[[? ?] ?]|].
  - apply IH. by destruct f as [[[? ?] ?]|].
Qed.

Lemma keeps_collapse_chain c n h : kept h → pwp (collapse_chain c n) h (λ _ h', kept h').
Proof.
  intros Hk. unfold collapse_chain. pwp_step. apply pwp_get_knode. intros nd _. keep.
Qed.

Lemma keeps_dup_to_head c n h : kept h → pwp (dup_to_head c n) h (λ _ h', kept h').
Proof.
  intros Hk. unfold dup_to_head. pwp_step. apply pwp_get_knode. intros nd _. pwp_step. apply pwp_get_knode. intros fnd _. keep.
Qed.
End search.

Section descend.
Context `{RbTree} `{Memcmp} `{MmFault} (h0 : host) (δ Λ : list Z) (chains_prune : Z).
Abbreviation kept := (from h0 δ Λ).
Abbreviation holding := (holding h0 δ Λ).

Lemma keeps_stable_node_dup_prune c h : kept h → pwp (stable_node_dup_prune chains_prune c) h (λ r, holding (snd <$> r.1)).
Proof.
  intros Hk. unfold stable_node_dup_prune. pwp_step. apply pwp_get_knode. intros nd _. do 2 pwp_step.
  destruct (time_before _ _).
  { pwp_step. eapply pwp_mono; [by apply keeps_stable_node_dup|]. intros r h1 Hr. by pwp_step. }
  pwp_step. eapply pwp_mono; [by apply keeps_upd_knode|]. intros [] h1 Hk1.
  pwp_step. eapply pwp_mono; [by apply (keeps_best_dup h0 δ Λ)|]. intros [[[[f p] len]|] nr] h2 Hr; simpl in Hr; [|by pwp_step].
  destruct (nr =? 1).
  - pwp_step. eapply pwp_mono; [by apply (keeps_collapse_chain h0 (p :: δ))|]. intros [] h3 Hk3. by pwp_step.
  - pwp_step. eapply pwp_mono; [by apply (keeps_dup_to_head h0 (p :: δ))|]. intros [] h3 Hk3. by pwp_step.
Qed.

Lemma keeps_chain_prune n h :
  kept h → pwp (chain_prune chains_prune n) h (λ r h', holding r.1.2 h' ∧ (r.1.1 = None → r.1.2 = None)).
Proof.
  intros Hk. unfold chain_prune. pwp_step. apply pwp_get_knode. intros nd _. destruct (is_stable_node_chain nd).
  - pwp_step. eapply pwp_mono; [by apply keeps_stable_node_dup_prune|]. intros [[[f p]|] s] h1 Hr; by pwp_step.
  - do 2 pwp_step. destruct (is_page_sharing_candidate_at _ _ _); [|by pwp_step].
    pwp_step. eapply pwp_mono; [by apply keeps_get_nolock|]. intros [p| |] h1 Hr; by pwp_step.
Qed.

Lemma keeps_dup_any n h : kept h → pwp (stable_node_dup_any n) h (λ _ h', kept h').
Proof.
  intros Hk. unfold stable_node_dup_any. pwp_step. apply pwp_get_knode. intros nd _. destruct (negb _); [by pwp_step|].
  destruct (kn_hlist nd) as [|d l]; [|by pwp_step].
  pwp_step. eapply pwp_mono; [by apply keeps_free_chain|]. intros [] h1 Hk1. by pwp_step.
Qed.

Lemma keeps_pruned_page_of n h : kept h → pwp (pruned_page_of chains_prune n) h (λ r, holding r.2).
Proof.
  intros Hk. unfold pruned_page_of. pwp_step. eapply pwp_mono; [by apply keeps_chain_prune|].
  intros [[[d|] tp] s] h1 [Hr Hn]; simpl in *; [by pwp_step|]. rewrite (Hn eq_refl) in Hr. simpl in Hr.
  pwp_step. eapply pwp_mono; [by apply keeps_dup_any|]. intros [any|] h2 Hk2; [|by pwp_step].
  pwp_step. eapply pwp_mono; [by apply keeps_get_nolock|]. intros [p| |] h3 Hr3; by pwp_step.
Qed.

(** A page found is held and is a KSM page. *)
Definition found_page (g : option gotten) (h' : host) : Prop :=
  match g with Some (Got p) => from h0 (p :: δ) Λ h' ∧ ksm_held h' p | _ => kept h' end.

Lemma keeps_same_content d h : kept h → pwp (same_content d) h found_page.
Proof.
  intros Hk. unfold same_content. destruct d as [n|]; [|by pwp_step].
  pwp_step. eapply pwp_mono; [by apply (keeps_get_ksm_page h0 δ Λ)|]. intros [p| |] h1 Hg; simpl in Hg; [|by pwp_step..].
  destruct Hg as (Hk1 & Hn & fr & Hp & Hm). specialize (Hn ltac:(done)). pwp_step. unfold unlock_page.
  apply pwp_upd_frame. intros fr' Hp'. rewrite Hp in Hp'. injection Hp' as <-. pwp_step.
  assert (from h0 (p :: δ) Λ (with_mem (on_frames (<[p := set_lock Unlocked fr]>)) h1)) as Hk2 by by apply from_unlock.
  split; [done|]. eapply from_ksm_held; [|exact Hk2|]; [set_solver|]. eexists. simpl. rewrite lookup_insert_eq. split; [done|].
  unfold PageKsm. simpl. by rewrite Hm.
Qed.

Lemma keeps_search_down page t h : kept h → pwp (search_down chains_prune page t) h found_page.
Proof.
  revert h. induction t as [|l IHl x r IHr]; intros h Hk; cbn [search_down]; [by pwp_step|].
  pwp_step. eapply pwp_mono; [by apply keeps_pruned_page_of|]. intros [d [tp|]] h1 Hr; simpl in Hr; [|by pwp_step].
  pwp_step. apply pwp_get_frame. intros fr _. pwp_step. apply pwp_get_frame. intros tfr _.
  pwp_step. eapply pwp_mono; [by apply keeps_put_page|]. intros [] h2 Hk2.
  destruct (_ <? 0); [by apply IHl|]. destruct (0 <? _); [by apply IHr|by apply keeps_same_content].
Qed.

Lemma keeps_search_stable fuel page h : kept h → pwp (search_stable chains_prune fuel page) h found_page.
Proof.
  revert h. induction fuel as [|fuel IH]; intros h Hk; cbn [search_stable]; [by pwp_step|]. do 2 pwp_step.
  pwp_step. eapply pwp_mono; [by apply keeps_search_down|]. intros [g|] h1 Hg; [by pwp_step|by apply IH].
Qed.

Lemma keeps_stable_tree_search page h : kept h → pwp (stable_tree_search chains_prune page) h (λ g, found_page (Some g)).
Proof.
  intros Hk. unfold stable_tree_search. pwp_step. apply pwp_get_frame. intros fr Hp.
  destruct (page_stable_node fr) as [n|] eqn:Hn.
  - pwp_step. unfold HostMem.get_page. apply pwp_upd_frame. intros fr' Hp'. rewrite Hp in Hp'. injection Hp' as <-. pwp_step.
    pose proof (from_get_page _ _ _ _ _ _ Hk Hp) as Hk1. split; [done|]. eapply from_ksm_held; [|exact Hk1|]; [set_solver|].
    eexists. simpl. rewrite lookup_insert_eq. split; [done|]. unfold PageKsm. simpl. unfold page_stable_node in Hn. by destruct (fr_mapping fr).
  - do 2 pwp_step. pwp_step. eapply pwp_mono; [by apply keeps_search_stable|]. intros [g|] h1 Hg; by pwp_step.
Qed.

(** ** The unstable tree *)
Lemma keeps_unstable_down page t path h :
  kept h → pwp (unstable_down page t path) h (λ d, holding (match d with SamePage _ tp => Some tp | _ => None end)).
Proof.
  revert path h. induction t as [|l IHl x r IHr]; intros path h Hk; cbn [unstable_down]; [by pwp_step|].
  pwp_step. eapply pwp_mono; [by apply keeps_get_mergeable_page|]. intros [tp|] h1 Hr; simpl in Hr; [|by pwp_step].
  destruct (page =? tp).
  { pwp_step. eapply pwp_mono; [by apply keeps_put_page|]. intros [] h2 Hk2. by pwp_step. }
  pwp_step. apply pwp_get_frame. intros fr _. pwp_step. apply pwp_get_frame. intros tfr _.
  destruct (_ <? 0); [|destruct (0 <? _)]; [..|by pwp_step].
  - pwp_step. eapply pwp_mono; [by apply keeps_put_page|]. intros [] h2 Hk2. by apply IHl.
  - pwp_step. eapply pwp_mono; [by apply keeps_put_page|]. intros [] h2 Hk2. by apply IHr.
Qed.


Lemma keeps_link_unstable i path h : kept h → pwp (link_unstable i path) h (λ _ h', kept h').
Proof.
  intros Hk. unfold link_unstable. do 2 pwp_step. pwp_step. eapply pwp_mono.
  { apply (keeps_upd_kitem h0 δ Λ); [|done]. intros it. split_and!; [done..|]. simpl. apply page_of_unstable. }
  intros [] h1 Hk1. pwp_step. eapply pwp_mono; [by apply keeps_modify_ksm|]. intros [] h2 Hk2. by apply keeps_count.
Qed.

Lemma keeps_unstable_search i page h : kept h → pwp (unstable_tree_search_insert i page) h (λ r, holding (snd <$> r)).
Proof.
  intros Hk. unfold unstable_tree_search_insert. do 2 pwp_step. pwp_step. eapply pwp_mono; [by apply keeps_unstable_down|].
  intros [path|j tp|] h1 Hr; simpl in Hr; [|by pwp_step..].
  pwp_step. eapply pwp_mono; [by apply keeps_link_unstable|]. intros [] h2 Hk2. by pwp_step.
Qed.
End descend.

(** ** Merging *)
Lemma pwp_same_compound p q h : pwp (same_compound p q) h (λ _ h', h' = h).
Proof.
  unfold same_compound. pwp_step. apply pwp_get_frame. intros fr _. destruct (negb _); [by pwp_step|].
  pwp_step. apply pwp_get_frame. intros tfr _. by pwp_step.
Qed.

Section merge.
Context `{RbTree} `{Memcmp} `{MmFault}.

(** A call that gives back what it takes, from any base before it. *)
Definition neutral {A} (m : M host A) (h : host) : Prop := pwp m h (λ _ h', from h [] [] h').

Lemma neutral_use {A} (m : M host A) h0 δ Λ h (Q : A → host → Prop) :
  from h0 δ Λ h → neutral m h → (∀ a h', from h0 δ Λ h' → from h [] [] h' → Q a h') → pwp m h Q.
Proof. intros Hk Hm HQ. eapply pwp_mono; [exact Hm|]. intros a h' Hk'. apply HQ; [exact (from_push _ _ _ _ _ _ _ Hk Hk')|done]. Qed.

Lemma keeps_merge_with_kpage h0 δ Λ i page kp h :
  from h0 (kp :: δ) Λ h → ksm_held h kp → page_held h page →
  pwp (merge_with_kpage i page kp) h (λ _ h', from h0 δ Λ h').
Proof.
  intros Hk Hkp Hp. unfold merge_with_kpage. pose proof (safe_from h (from_safe _ _ _ _ Hk)) as Hh.
  pwp_step. eapply pwp_mono; [by apply (keeps_try_to_merge_with_ksm_page h [] [] i page (Some kp))|]. intros ok h1 [Hk1 _].
  pwp_step. eapply (pwp_mono _ _ (λ _ h', from h [] [] h')).
  - destruct ok; [|by pwp_step]. pwp_step. eapply pwp_mono; [by apply keeps_lock_page|]. intros [] h2 [Hk2 Hn].
    pwp_step. apply pwp_get_frame. intros kfr _. do 2 pwp_step.
    pwp_step. eapply pwp_mono; [by apply keeps_stable_tree_append|]. intros [] h3 Hk3. by apply keeps_unlock_page.
  - intros [] h2 Hk2. apply keeps_put_page. exact (from_push _ _ _ _ _ _ _ Hk Hk2).
Qed.

Lemma neutral_insert_merged i j kp h : safe h → ksm_held h kp → neutral (insert_merged i j kp) h.
Proof.
  intros Hs Hkp. unfold neutral, insert_merged. pose proof (safe_from h Hs) as Hh.
  pwp_step. eapply pwp_mono; [by apply keeps_lock_page|]. intros [] h1 [Hk1 Hn].
  pwp_step. eapply pwp_mono; [by apply (keeps_stable_tree_insert h [] [kp])|]. intros n h2 Hk2.
  pwp_step. eapply (pwp_mono _ _ (λ _ h', from h [] [kp] h')).
  { destruct n as [n|]; [|by pwp_step]. pwp_step. eapply pwp_mono; [by apply keeps_stable_tree_append|]. intros [] h3 Hk3.
    by apply keeps_stable_tree_append. }
  intros [] h3 Hk3. pwp_step. eapply pwp_mono; [by apply keeps_unlock_page|]. intros [] h4 Hk4. destruct n as [n|]; [by pwp_step|].
  pwp_step. eapply pwp_mono; [by apply keeps_break_cow|]. intros [] h5 Hk5. by apply keeps_break_cow.
Qed.

Lemma keeps_merge_with_item h0 δ Λ i page j tp h :
  from h0 (tp :: δ) Λ h → page ≠ tp → page_held h page → page_held h tp →
  pwp (merge_with_item i page j tp) h (λ _ h', from h0 δ Λ h').
Proof.
  intros Hk Hne Hp Htp. unfold merge_with_item. pose proof (safe_from h (from_safe _ _ _ _ Hk)) as Hh.
  pwp_step. eapply pwp_mono; [by apply (keeps_try_to_merge_two_pages h [] [])|]. intros kp h1 [Hk1 Hkp].
  pwp_step. eapply pwp_mono; [apply pwp_same_compound|]. intros split h1' ->.
  pwp_step. eapply pwp_mono.
  { refine (pwp_and _ _ _ (λ _ h', ksm_held h1 page → ksm_held h' page) _ _).
    - apply keeps_put_page. exact (from_push _ _ _ _ _ _ _ Hk Hk1).
    - unfold put_page. apply pwp_upd_frame. intros fr _ (fr1 & Hf & ?). exists fr1. simpl. by rewrite lookup_insert_ne. }
  intros [] h2 [Hk2 Hkp2]. destruct kp as [kp|].
  - destruct Hkp as [-> Hkp]. apply (neutral_use _ _ _ _ _ _ Hk2); [|done].
    apply neutral_insert_merged; [by eapply from_safe|by apply Hkp2].
  - apply pwp_whenM; intros _; [|done]. apply (neutral_use _ _ _ _ _ _ Hk2); [|done].
    apply keeps_split_after_failure. by eapply safe_from, from_safe.
Qed.

(** ** The whole comparison *)
Context (chains_prune : Z) (page_struct : Z → Z) (calc_checksum : page → Z) (zero_checksum : Z) (b0 : host).
Abbreviation kept δ h := (from (no_items b0) δ [] h).

(** The page of the item found is another one. *)
Definition other_page (page : Z) (tp : Z) (h : host) : Prop := page ≠ tp ∧ is_Some (frames (h_mem h) !! tp).

Lemma unstable_down_other page t path h :
  pwp (unstable_down page t path) h (λ d h', match d with SamePage _ tp => other_page page tp h' | _ => True end).
Proof.
  revert path h. induction t as [|l IHl x r IHr]; intros path h; cbn [unstable_down]; [by pwp_step|].
  pwp_step. eapply pwp_mono; [apply pwp_true|]. intros [tp|] h1 _; [|by pwp_step].
  destruct (Z.eqb_spec page tp).
  { pwp_step. eapply pwp_mono; [apply pwp_true|]. intros [] h2 _. by pwp_step. }
  pwp_step. apply pwp_get_frame. intros fr _. pwp_step. apply pwp_get_frame. intros tfr Htp.
  destruct (_ <? 0); [|destruct (0 <? _)]; [..|pwp_step; split; [done|by eexists]];
    pwp_step; (eapply pwp_mono; [apply pwp_true|]); intros [] h2 _; [apply IHl|apply IHr].
Qed.

Lemma unstable_search_other i page h :
  pwp (unstable_tree_search_insert i page) h (λ r h', match r with Some (_, tp) => other_page page tp h' | None => True end).
Proof.
  unfold unstable_tree_search_insert. do 2 pwp_step. pwp_step. eapply pwp_mono; [apply unstable_down_other|].
  intros [path|j tp|] h1 Hd; [|by pwp_step..]. pwp_step. eapply pwp_mono; [apply pwp_true|]. intros [] h2 _. by pwp_step.
Qed.

Lemma from_page_held h0 δ Λ h p : p ∈ δ → from h0 δ Λ h → is_Some (frames (h_mem h) !! p) → page_held h p.
Proof.
  intros Hin Hk [fr Hp]. destruct (from_frame_inv _ _ _ _ _ _ Hk Hp) as (fr0 & Hp0 & [F1 _ _]).
  destruct (mo_refs _ (fm_base _ _ _ _ Hk) p fr0 Hp0) as (? & _). pose proof (occ_pos p δ Hin). exists fr. split; [done|lia].
Qed.

Lemma keeps_merge_unstable δ i page h :
  kept δ h → page_held h page → ksm_use_zero_pages (config h) = false →
  pwp (merge_unstable page_struct calc_checksum zero_checksum i page) h (λ _ h', kept δ h').
Proof.
  intros Hk Hp Hz. unfold merge_unstable. pwp_step. apply pwp_get_frame. intros fr _. pwp_step. apply pwp_get_kitem. intros it _.
  destruct (negb _). { apply pwp_upd_kitem. intros it' _. by apply from_any_items. }
  unfold try_zero_page. pwp_step. do 2 pwp_step. rewrite Hz. simpl. pwp_step.
  pose proof (safe_from h (from_safe _ _ _ _ Hk)) as Hh.
  pwp_step. eapply pwp_mono; [exact (pwp_and _ _ _ _ (keeps_unstable_search h [] [] i page h Hh) (unstable_search_other i page h))|].
  intros [[j tp]|] h1 [Hk1 Hne]; simpl in Hk1; [|pwp_step; exact (from_push _ _ _ _ _ _ _ Hk Hk1)].
  destruct Hne as [Hne Htp]. apply (keeps_merge_with_item (no_items b0) δ []); [exact (from_push _ _ _ _ _ _ _ Hk Hk1)|done|by eapply page_held_from|].
  eapply from_page_held; [|exact Hk1|done]. set_solver.
Qed.

Lemma keeps_cmp_and_merge_page δ page i h :
  kept δ h → page_held h page → ksm_use_zero_pages (config h) = false →
  pwp (cmp_and_merge_page chains_prune page_struct calc_checksum zero_checksum page i) h (λ _ h', kept δ h').
Proof.
  intros Hk Hp Hz. unfold cmp_and_merge_page. pwp_step. apply pwp_get_kitem. intros it _. pwp_step. apply pwp_get_frame. intros fr _.
  case_bool_decide; [by pwp_step|]. pwp_step. apply (pwp_mono _ _ (λ _ h', h' = h)).
  { destruct (page_stable_node fr); [|by pwp_step]. pwp_step. apply pwp_get_knode. intros nd _. by pwp_step. }
  intros [] h' ->. pose proof (safe_from h (from_safe _ _ _ _ Hk)) as Hh.
  pwp_step. eapply pwp_mono; [by apply (keeps_stable_tree_search h [] [])|]. intros g h1 Hg.
  pwp_step. apply pwp_get_kitem. intros it1 _. case_bool_decide as Eg.
  { destruct Eg as [-> _]. apply keeps_put_page. exact (from_push _ _ _ _ _ _ _ Hk (proj1 Hg)). }
  pwp_step. apply (pwp_mono _ _ (λ _ h2, (match g with Got q => from h [q] [] h2 ∧ ksm_held h2 q | _ => from h [] [] h2 end))).
  { assert (safe h1) as Hs1 by (destruct g as [q| |]; [destruct Hg as [Hg _]|..]; by eapply from_safe).
    eapply pwp_mono; [by apply (keeps_remove_rmap_item h1 [] []), safe_from|]. intros [] h2 Hk2.
    destruct g as [q| |]; [|exact (from_push _ _ _ _ _ _ _ Hg Hk2)..]. destruct Hg as [Hg Hq].
    split; [exact (from_push _ _ _ _ _ _ _ Hg Hk2)|by eapply ksm_held_from]. }
  intros [] h2 Hg2. destruct g as [q| |].
  - destruct Hg2 as [Hk2 Hq]. apply keeps_merge_with_kpage; [exact (from_push _ _ _ _ _ _ _ Hk Hk2)|done|by eapply page_held_from].
  - pose proof (from_push _ _ _ _ _ _ _ Hk Hg2) as Hk2. simpl in Hk2. apply keeps_merge_unstable; [done|exact (page_held_from _ _ _ _ _ Hg2 Hp)|].
    by rewrite (fm_config _ _ _ _ Hg2).
  - pwp_step. exact (from_push _ _ _ _ _ _ _ Hk Hg2).
Qed.

(** ** The smart scan *)
Lemma keeps_should_skip δ page i h :
  kept δ h → pwp (should_skip_rmap_item page_struct page i) h (λ _ h', kept δ h').
Proof.
  intros Hk. unfold should_skip_rmap_item. do 2 pwp_step. destruct (negb _); [by pwp_step|].
  pwp_step. apply pwp_get_frame. intros fr _. destruct (PageKsm fr); [by pwp_step|].
  assert (∀ f h, kept δ h → pwp (upd_kitem i f) h (λ _ h', kept δ h')) as Hu.
  { intros f h1 Hk1. apply pwp_upd_kitem. intros it _. by apply from_any_items. }
  pwp_step. apply pwp_get_kitem. intros it _. pwp_step. apply (pwp_mono _ _ (λ _ h', kept δ h')).
  { apply pwp_whenM; intros _; [by apply Hu|done]. }
  intros [] h1 Hk1. destruct (_ <? 3); [by pwp_step|]. pwp_step. apply pwp_get_kitem. intros it1 _. destruct (_ =? 0).
  - pwp_step. eapply pwp_mono; [by apply Hu|]. intros [] h2 Hk2. by pwp_step.
  - pwp_step. eapply pwp_mono; [by apply Hu|]. intros [] h2 Hk2.
    pwp_step. eapply pwp_mono; [by apply keeps_remove_rmap_item|]. intros [] h3 Hk3. by pwp_step.
Qed.
End merge.
