(* ===== verification/HostLocalTrack.v ===== *)
(** * HostLocalTrack: the trees while a page is compared without a server

    The operations of HostLocal through [track], with [Alone true]: the stable
    tree and its chains, pruned on the way, and the unstable tree, which holds
    the items marked with the number of the pass.  A search that starts again
    has removed a node, so one more round than there are nodes is enough. *)
From S2P Require Import Prelude Wire HashPair Growable Shadow Server HostMem HostTree HostTreeInv HostMerge HostApply HostScan HostSafe HostMergeSafe HostApplySafe HostTrack HostTrackInsert HostTrackLink HostStays HostTrackMerge HostTrackApply HostItems HostScanInv HostLocal HostLocalSafe.
Open Scope Z_scope.

(** ** The stable tree *)
Section search.
Context `{RbTree} `{Memcmp} `{MmFault} (L0 : mode) (es : list ksm_event_log) (V : gmap loc (loc * Z)) (r : Z) (chains_prune : Z).

Definition walked (k : ksm) (h' : host) : Prop :=
  track L0 es V r h' ∧ (size (knodes (h_ksm h')) ≤ size (knodes k))%nat ∧ unlists k (h_ksm h').
Definition fewer (k : ksm) (h' : host) : Prop :=
  track L0 es V r h' ∧ (size (knodes (h_ksm h')) < size (knodes k))%nat ∧ unlists k (h_ksm h').

Lemma walked_refl h : track L0 es V r h → walked (h_ksm h) h.
Proof. intros Ht. split_and!; [done..|by apply unlists_same]. Qed.
Lemma walked_trans k h h' : walked k h → walked (h_ksm h) h' → walked k h'.
Proof. intros (_ & S1 & U1) (T & S2 & U2). split_and!; [done|lia|by eapply unlists_trans]. Qed.
Lemma fewer_trans k h h' : walked k h → fewer (h_ksm h) h' → fewer k h'.
Proof. intros (_ & S1 & U1) (T & S2 & U2). split_and!; [done|lia|by eapply unlists_trans]. Qed.
Lemma fewer_walked k h : fewer k h → walked k h.
Proof. intros (T & S & U). split_and!; [done|lia|done]. Qed.
Lemma walked_quiet k h h' : walked k h → track L0 es V r h' → h_ksm h' = h_ksm h → walked k h'.
Proof. intros (_ & A & B) Ht E. unfold walked. by rewrite E. Qed.
Lemma walked_track k h : walked k h → track L0 es V r h.
Proof. by intros (? & _). Qed.

Lemma walking_walked k h : walking L0 es V r k h → walked k h.
Proof. by intros (? & _ & ? & ?). Qed.

Lemma on_chain_sub c l l' h : on_chain c l h → NoDup l' → (∀ d, d ∈ l' → d ∈ l) → on_chain c l' h.
Proof. intros (cd & A & B & C & D) Hn Hl. exists cd. split_and!; auto. Qed.
Lemma on_chain_perm c l l' h : l ≡ₚ l' → on_chain c l h → on_chain c l' h.
Proof.
  intros Hp Hon. eapply on_chain_sub; [exact Hon| |intros d; by rewrite Hp]. destruct Hon as (cd & _ & _ & Hn & _). by rewrite <- Hp.
Qed.
Lemma on_chain_same c l h h' : on_chain c l h → h_ksm h' = h_ksm h → on_chain c l h'.
Proof. intros (cd & A) E. exists cd. by rewrite E. Qed.

Abbreviation found_list f := (match f with Some (d, _, _) => [d] | None => [] end : list loc).

Lemma track_put p h k : walked k h → pwp (put_page p) h (λ _ h', walked k h' ∧ h_ksm h' = h_ksm h).
Proof.
  intros Hw. eapply pwp_mono; [eapply track_put_page, walked_track, Hw|]. intros [] h' [Ht E]. split; [by eapply walked_quiet|done].
Qed.

Lemma track_best_dup h0 δ c l (f : option (loc * Z * Z)) nr k h :
  HostSafe.holding h0 δ [] ((λ x, x.1.2) <$> f) h → walked k h → on_chain c (found_list f ++ l) h →
  pwp (best_dup l f nr) h (λ res h', walked k h' ∧ on_chain c (found_list res.1) h').
Proof.
  revert f nr h. induction l as [|d l IH]; intros f nr h Hk Hw Hon; cbn [best_dup].
  { pwp_step. split; [done|]. by rewrite app_nil_r in Hon. }
  set (δ' := match f with Some (_, q, _) => q :: δ | None => δ end).
  assert (from h0 δ' [] h) as Hk' by by destruct f as [[[? ?] ?]|].
  assert (Hhold : ∀ h', from h0 δ' [] h' → HostSafe.holding h0 δ [] ((λ x, x.1.2) <$> f) h') by by destruct f as [[[? ?] ?]|].
  assert (on_chain c (d :: found_list f ++ l) h) as Hon1 by (eapply on_chain_perm; [|exact Hon]; symmetry; apply Permutation_middle).
  assert (Hsub : ∀ h', on_chain c (d :: found_list f ++ l) h' → on_chain c ([d] ++ l) h' ∧ on_chain c (found_list f ++ l) h').
  { intros h' Hon'. pose proof Hon' as (_ & _ & _ & C & _). apply NoDup_cons in C as [Hd C]. pose proof C as (_ & _ & Cl)%NoDup_app.
    split; (eapply on_chain_sub; [exact Hon'| |set_solver]); [|done]. apply NoDup_cons. split; [set_solver|done]. }
  eapply pwp_both; [exact (keeps_get_nolock h0 δ' [] d h Hk')|exact (track_get_ksm_page L0 es V r d _ h (from_safe _ _ _ _ Hk') (walked_track _ _ Hw))|].
  intros [p| |] h1 Hr Hg; simpl in Hr, Hg.
  - destruct Hg as (Ht1 & E1 & _). assert (Hw1 : walked k h1) by by eapply walked_quiet.
    destruct (Hsub h1 (on_chain_same _ _ _ _ Hon1 E1)) as [Hd1 Hf1].
    pwp_step. apply pwp_get_knode. intros nd _. do 2 pwp_step. destruct (is_page_sharing_candidate_at _ _ _ && _).
    + destruct f as [[[fd q] len]|].
      * eapply pwp_both; [apply (keeps_put_page h0 (p :: δ) []); by apply from_swap|by apply track_put|].
        intros [] h2 Hk2 [Hw2 E2]. apply IH; [done|done|by eapply on_chain_same].
      * do 2 pwp_step. by apply IH.
    + eapply pwp_both; [by apply keeps_put_page|by apply track_put|].
      intros [] h2 Hk2 [Hw2 E2]. apply IH; [by apply Hhold|done|by eapply on_chain_same].
  - destruct Hg as [Ht1 Hd]. pose proof (tk_ksm _ _ _ _ _ (walked_track _ _ Hw)) as Hok.
    destruct (on_chain_root _ _ _ _ _ _ Hon1 Hok Hd) as [_ Hsome]. apply IH; [by apply Hhold| |by eapply (on_chain_dropped r c d _ (h_ksm h) h)].
    eapply walked_trans; [exact Hw|]. apply fewer_walked. split_and!; [done|by eapply dropped_size|by eapply dropped_unlists].
  - by destruct Hg as [? _].
Qed.

Lemma track_collapse_chain c d k h :
  walked k h → on_chain c [d] h → pwp (collapse_chain c d) h (λ _ h', fewer k h').
Proof.
  intros Hw (cd & Hcd & Hcc & _ & Hin). specialize (Hin d ltac:(set_solver)). pose proof (walked_track _ _ Hw) as Ht.
  pose proof (tk_ksm _ _ _ _ _ Ht) as Hk. destruct (ko_chain _ _ Hk c cd Hcd Hcc) as (Hcl & _ & Hall).
  destruct (Hall d Hin) as (dd & Hd & Hdl & Hdc). assert (c ≠ d) as Hne by congruence.
  unfold collapse_chain. pwp_step. apply pwp_get_knode. rewrite Hcd. intros cd' [= <-].
  pwp_step. apply pwp_halt_if. intros Hlen. apply Z.ltb_ge in Hlen.
  assert (kn_hlist cd = [d]) as Hl.
  { destruct (kn_hlist cd) as [|x [|y l]]; simpl in Hlen; [set_solver| |lia]. f_equal. set_solver. }
  do 2 pwp_step. pwp_step. apply pwp_upd_knode. simpl. rewrite Hd. intros dd' [= <-].
  unfold free_stable_node, count_nodes. pwp_step. pwp_step. apply pwp_get_knode. simpl. look. rewrite Hcd. intros cd' [= <-]. do 2 pwp_step.
  match goal with |- fewer _ ?h' => set (h2 := h') end.
  assert (c ∈ inorder (root_stable_tree (h_ksm h))) as Hci by (apply (ko_tree _ _ Hk); by exists cd).
  assert (d ∉ inorder (root_stable_tree (h_ksm h))) as Hdi.
  { intros (dd1 & A & B)%(ko_tree _ _ Hk). congruence. }
  assert (knodes (h_ksm h2) = delete c (<[d := set_link InTree dd]> (knodes (h_ksm h)))) as HN by done.
  destruct (ksm_ok_collapse r (h_ksm h) (h_ksm h2) c cd d dd Hk Hcd Hcc Hl Hd eq_refl HN) as [A B]; try done.
  { simpl. rewrite inorder_replace. apply replaced_nodup; [done|apply Hk]. }
  { intros m. simpl. rewrite inorder_replace. by apply replaced_elem. }
  eapply fewer_trans; [exact Hw|]. split_and!; [| |by apply unlists_same].
  - change h2 with (with_ksm (λ _, h_ksm h2) h). eapply track_ksm; [exact Ht|exact A|by split|congruence|..]; rewrite HN.
    + intros n nd Hn Hnc _. assert (n ≠ c) by congruence. rewrite lookup_delete_ne by done. destruct (decide (n = d)) as [->|Hnd].
      * rewrite lookup_insert_eq. eexists. split; [done|]. rewrite Hd in Hn. by injection Hn as <-.
      * rewrite lookup_insert_ne by done. by exists nd.
    + intros n nd [_ [[<- <-]|[_ Hn]]%lookup_insert_Some]%lookup_delete_Some Hnc; [by exists d, dd|by exists n, nd].
  - rewrite HN, map_size_delete, lookup_insert_ne, Hcd by done. rewrite map_size_insert_Some by (by exists dd).
    assert (size (knodes (h_ksm h)) ≠ 0%nat); [|lia]. intros Hz. apply map_size_empty_inv in Hz. rewrite Hz in Hcd. done.
Qed.

Lemma track_dup_to_head c d k h :
  walked k h → on_chain c [d] h → pwp (dup_to_head c d) h (λ _ h', walked k h').
Proof.
  intros Hw (cd & Hcd & Hcc & _ & Hin). specialize (Hin d ltac:(set_solver)). pose proof (walked_track _ _ Hw) as Ht.
  unfold dup_to_head. pwp_step. apply pwp_get_knode. rewrite Hcd. intros cd' [= <-]. pwp_step. apply pwp_get_knode. intros dd _. do 2 pwp_step.
  apply pwp_whenM; intros _; [|done]. apply pwp_upd_knode. rewrite Hcd. intros cd' [= <-].
  destruct (ko_chain _ _ (tk_ksm _ _ _ _ _ Ht) c cd Hcd Hcc) as (_ & Hnd & _).
  eapply walked_trans; [exact Hw|]. split_and!; [|simpl; by rewrite map_size_insert_Some by (by exists cd)|by apply unlists_same].
  exact (track_reorder _ _ _ _ c cd _ (kn_kpfn cd) h Ht Hcd Hcc (head_first _ _ Hnd Hin)).
Qed.
End search.

Section descend.
Context `{RbTree} `{Memcmp} `{MmFault} (L0 : mode) (es : list ksm_event_log) (V : gmap loc (loc * Z)) (r : Z) (chains_prune : Z).
Abbreviation walked := (walked L0 es V r).
Abbreviation fewer := (fewer L0 es V r).

Lemma track_dup_prune c cd k h :
  safe h → walked k h → knodes (h_ksm h) !! c = Some cd → is_stable_node_chain cd = true →
  pwp (stable_node_dup_prune chains_prune c) h (λ _ h', walked k h').
Proof.
  intros Hs Hw Hcd Hcc. unfold stable_node_dup_prune. pwp_step. apply pwp_get_knode. rewrite Hcd. intros cd' [= <-]. do 2 pwp_step.
  pose proof (walked_track _ _ _ _ _ _ Hw) as Ht. destruct (time_before _ _).
  { pwp_step. eapply pwp_mono; [by eapply (track_stable_node_dup L0 es V r)|]. intros x h1 Hw1. pwp_step.
    eapply walked_trans; [exact Hw|by apply walking_walked]. }
  pwp_step. apply pwp_upd_knode. rewrite Hcd. intros cd' [= <-]. set (now := jiffies _ _).
  match goal with |- pwp _ ?h' _ => set (h1 := h') end.
  pose proof (track_reorder L0 es V r c cd (kn_hlist cd) now h Ht Hcd Hcc ltac:(done)) as Ht1.
  assert (h1 = with_ksm (on_nodes (<[c := set_kpfn now (set_hlist (kn_len cd) (kn_hlist cd) cd)]>)) h) as E by by destruct cd.
  rewrite <- E in Ht1. assert (walked k h1) as Hw1.
  { eapply walked_trans; [exact Hw|]. split_and!; [done|simpl; by rewrite map_size_insert_Some by (by exists cd)|by apply unlists_same]. }
  assert (on_chain c ([] ++ kn_hlist cd) h1) as Hon.
  { destruct (ko_chain _ _ (tk_ksm _ _ _ _ _ Ht) c cd Hcd Hcc) as (_ & Hnd & _). exists (set_kpfn now cd). simpl. by rewrite lookup_insert_eq. }
  pwp_step. eapply pwp_mono.
  { apply (track_best_dup L0 es V r h [] c _ None 0 k h1); [simpl; apply (from_ksm_same h [] [] h); [by apply safe_from|done]|done|done]. }
  intros [[[[f p] len]|] nr] h2 [Hw2 Hon2]; [|by pwp_step]. simpl in Hon2. destruct (nr =? 1).
  - pwp_step. eapply pwp_mono; [by apply track_collapse_chain|]. intros [] h3 Hw3. pwp_step. by apply fewer_walked.
  - pwp_step. eapply pwp_mono; [by apply track_dup_to_head|]. intros [] h3 Hw3. by pwp_step.
Qed.

Lemma track_nolock k n h :
  safe h → walked k h →
  pwp (get_ksm_page n GET_KSM_PAGE_NOLOCK) h (λ g h', match g with Got _ => walked k h' | _ => fewer k h' end).
Proof.
  intros Hs Hw. eapply pwp_mono; [by apply (track_get_nolock L0 es V r); [|eapply walked_track]|]. intros [p| |] h1 [Ht1 E].
  - by eapply walked_quiet.
  - destruct E. by eapply fewer_trans.
  - destruct E. by eapply fewer_trans.
Qed.

(** A duplicate whose page is gone has left. *)
Lemma track_chain_prune k n h :
  safe h → walked k h → pwp (chain_prune chains_prune n) h (λ c h', safe h' ∧
    match c.1 with (Some _, None) => fewer k h' | _ => walked k h' end).
Proof.
  intros Hs Hw. unfold chain_prune. pwp_step. apply pwp_get_knode. intros nd Hn. destruct (is_stable_node_chain nd) eqn:Hc.
  - eapply pwp_both; [exact (keeps_stable_node_dup_prune h [] [] chains_prune n h (safe_from h Hs))|by eapply track_dup_prune|].
    intros [[[f p]|] s] h1 Hk1 Hw1; simpl in Hk1; pwp_step; (split; [by eapply from_safe|done]).
  - do 2 pwp_step. destruct (is_page_sharing_candidate_at _ _ _); [|by pwp_step].
    eapply pwp_both; [exact (keeps_get_nolock h [] [] n h (safe_from h Hs))|by apply (track_nolock k)|].
    intros [p| |] h1 Hk1 Hg; simpl in Hk1; pwp_step; (split; [by eapply from_safe|done]).
Qed.

Lemma track_pruned_page_of k n h :
  safe h → walked k h → pwp (pruned_page_of chains_prune n) h (λ r h', match r.2 with Some _ => walked k h' | None => fewer k h' end).
Proof.
  intros Hs Hw. unfold pruned_page_of. pwp_step. eapply pwp_mono; [by apply (track_chain_prune k)|].
  intros [[[d|] tp] s] h1 [Hs1 Hc]; simpl in Hc; [pwp_step; by destruct tp|]. pose proof (walked_track _ _ _ _ _ _ Hc) as Ht1.
  pwp_step. unfold stable_node_dup_any. pwp_step. apply pwp_get_knode. intros nd Hn. destruct (is_stable_node_chain nd) eqn:Hcn; simpl.
  - destruct (kn_hlist nd) as [|d l] eqn:Hl.
    + pwp_step. eapply pwp_mono; [apply (track_free_chain L0 es V r); [exact Ht1|]|].
      { intros cd Hcd. rewrite Hn in Hcd. by injection Hcd as <-. }
      intros [] h2 (Ht2 & Hsz2 & Hun2). do 2 pwp_step. by eapply fewer_trans.
    + do 2 pwp_step. eapply pwp_mono; [by apply (track_nolock k)|]. intros [p| |] h2 Hg; by pwp_step.
  - do 2 pwp_step. eapply pwp_mono; [by apply (track_nolock k)|]. intros [p| |] h2 Hg; by pwp_step.
Qed.

(** The page of a node. *)
Definition node_page (p : Z) (h : host) : Prop := ∃ fr n, frames (h_mem h) !! p = Some fr ∧ fr_mapping fr = MapKsm (Some n).

Definition searched_for (k : ksm) (g : option gotten) (h' : host) : Prop :=
  match g with
  | None => fewer k h'
  | Some g => walked k h' ∧ match g with Got p => node_page p h' | _ => True end
  end.

Lemma track_same_content k d h : safe h → walked k h → pwp (same_content d) h (searched_for k).
Proof.
  intros Hs Hw. unfold same_content. destruct d as [n|]; [|by pwp_step].
  destruct (knodes (h_ksm h) !! n) as [nd|] eqn:Hn; cycle 1.
  { unfold get_ksm_page. do 2 pwp_step. apply pwp_get_knode. intros nd Hnd. congruence. }
  eapply pwp_both; [exact (keeps_get_ksm_page h [] [] n _ h (safe_from h Hs))|by apply (track_get_ksm_page L0 es V r); [|eapply walked_track]|].
  intros [p| |] h1 Hk1 Hg; simpl in Hk1, Hg.
  - destruct Hk1 as (_ & _ & fr & Hp & Hm). destruct Hg as (Ht1 & E1 & _). pwp_step.
    unfold unlock_page. apply pwp_upd_frame. intros fr' Hp'. rewrite Hp in Hp'. injection Hp' as <-. pwp_step. split.
    + eapply (walked_quiet _ _ _ _ k h); [done|by eapply track_frame|done].
    + exists (set_lock Unlocked fr), n. simpl. by rewrite lookup_insert_eq.
  - destruct Hg as [Ht1 Hd]. pwp_step. eapply fewer_trans; [exact Hw|]. split_and!; [done|eapply dropped_size; [by exists nd|exact Hd]|eapply dropped_unlists; [by exists nd|exact Hd]].
  - destruct Hg as (_ & Ht1 & E1). pwp_step. split; [by eapply walked_quiet|done].
Qed.

Lemma track_search_down k page t h : safe h → walked k h → pwp (search_down chains_prune page t) h (searched_for k).
Proof.
  revert h. induction t as [|l IHl x t IHt]; intros h Hs Hw; cbn [search_down]; [by pwp_step|].
  eapply pwp_both; [exact (keeps_pruned_page_of h [] [] chains_prune x h (safe_from h Hs))|by apply (track_pruned_page_of k)|].
  intros [d [tp|]] h1 Hk1 Hw1; simpl in Hk1, Hw1; [|by pwp_step].
  pwp_step. apply pwp_get_frame. intros fr _. pwp_step. apply pwp_get_frame. intros tfr _.
  eapply pwp_both; [exact (keeps_put_page h [] [] tp h1 Hk1)|by apply (track_put L0 es V r)|].
  intros [] h2 Hk2 [Hw2 E2]. apply from_safe in Hk2.
  destruct (_ <? 0); [by apply IHl|]. destruct (0 <? _); [by apply IHt|by apply track_same_content].
Qed.

(** One round more than there are nodes comes to a result. *)
Lemma track_search_stable fuel page h :
  safe h → track L0 es V r h → (size (knodes (h_ksm h)) < fuel)%nat →
  pwp (search_stable chains_prune fuel page) h (λ g h', is_Some g ∧ searched_for (h_ksm h) g h').
Proof.
  revert h. induction fuel as [|fuel IH]; intros h Hs Ht Hf; [lia|]. cbn [search_stable]. do 2 pwp_step.
  eapply pwp_both; [exact (keeps_search_down h [] [] chains_prune page _ h (safe_from h Hs))|by apply (track_search_down (h_ksm h)); [|apply walked_refl]|].
  intros [g|] h1 Hk1 Hg.
  - pwp_step. split; [by eexists|done].
  - destruct Hg as (Ht1 & Hsz & Hun). simpl in Hk1. eapply pwp_mono; [apply IH; [by eapply from_safe|done|lia]|].
    intros [g|] h2 [[g' Hg'] Hg2]; [|done]. split; [by eexists|]. destruct Hg2 as [Hw2 Hp2]. split; [|done].
    eapply walked_trans; [|exact Hw2]. split_and!; [done|lia|done].
Qed.
End descend.

(** ** A page that is no node's stays so through a search *)
Section not_node.
Context `{RbTree} `{Memcmp} `{MmFault} (p : Z).

Definition not_node (h : host) : Prop :=
  Forall rely (env h) ∧ ∀ fr n, frames (h_mem h) !! p = Some fr → fr_mapping fr ≠ MapKsm (Some n).
Abbreviation keeps := (stays not_node).

Lemma nn_get_frame q : keeps (get_frame q).
Proof. unfold get_frame. stays. Qed.
Lemma nn_get_knode n : keeps (get_knode n).
Proof. unfold get_knode. stays. Qed.
Lemma nn_get_kitem n : keeps (get_kitem n).
Proof. unfold get_kitem. stays. Qed.
Lemma nn_upd_knode n f : keeps (upd_knode n f).
Proof. unfold upd_knode, get_knode. stays. Qed.
Lemma nn_upd_kitem n f : keeps (upd_kitem n f).
Proof. unfold upd_kitem, get_kitem. stays. Qed.
Lemma nn_upd_frame q f :
  (∀ fr n, fr_mapping (f fr) = MapKsm (Some n) → fr_mapping fr = MapKsm (Some n)) → keeps (upd_frame q f).
Proof.
  intros Hf h [He Hn]. apply pwp_upd_frame. intros fr Hq. split; [done|]. simpl. intros fr' n [[<- <-]|[_ Hp]]%lookup_insert_Some.
  - intros E. by eapply Hn, Hf.
  - by eapply Hn.
Qed.
Lemma nn_put_page q : keeps (put_page q).
Proof. apply nn_upd_frame. intros fr n. apply drop_ref_mapping. Qed.
Lemma nn_lock q v : keeps (upd_frame q (set_lock v)).
Proof. by apply nn_upd_frame. Qed.
Lemma nn_get_page q : keeps (get_page q).
Proof. by apply nn_upd_frame. Qed.
Lemma nn_interfere : keeps interfere.
Proof.
  intros h [He Hn]. unfold interfere, pwp. destruct (env h) as [|f fs] eqn:E; [by split; [rewrite E|]|].
  apply Forall_cons in He as [Hf Hfs]. destruct (Hf (h_mem h) (user h)) as [[_ Hno] _]. destruct (f (h_mem h, user h)) as [m u]. simpl in *.
  split; [done|]. simpl. intros fr n Hp Hm. destruct (Hno p fr (Some n) Hp Hm) as (fr0 & Hp0 & Hm0). by eapply Hn.
Qed.
Lemma nn_report t e : keeps (report t e).
Proof. intros h Hh. unfold report, pwp. by destruct (insert_error_log _ _ _ _) as [[[? ?] ?]| |]. Qed.
Hint Resolve nn_get_frame nn_get_knode nn_get_kitem nn_upd_knode nn_upd_kitem nn_put_page nn_lock nn_get_page nn_interfere nn_report : stays.

Lemma nn_get_ksm_page n flags : keeps (get_ksm_page n flags).
Proof.
  assert (∀ n l, keeps (clear_items n l)) as Hc.
  { intros m l. induction l as [|i l IH]; cbn [clear_items]; unfold count, count_merging; stays. }
  assert (∀ n p, keeps (stale_node n p)) as Hst.
  { intros. unfold stale_node, remove_node_from_stable_tree, stable_node_dup_del, hlist_del, count_nodes, free_stable_node. stays. }
  unfold get_ksm_page, unlock_page, trylock_page, lock_page. stays.
Qed.
Hint Resolve nn_get_ksm_page : stays.
Lemma nn_chain_prune cp n : keeps (chain_prune cp n).
Proof.
  assert (∀ l f nr, keeps (best_dup l f nr)) as Hb by (induction l; intros; cbn [best_dup]; stays).
  assert (∀ l, keeps (first_dup l)) as Hd by (induction l; intros; cbn [first_dup]; stays).
  unfold chain_prune, stable_node_dup_prune, stable_node_dup, collapse_chain, dup_to_head, free_stable_node, count_nodes. stays.
Qed.
Hint Resolve nn_chain_prune : stays.
Lemma nn_search cp fuel q : keeps (search_stable cp fuel q).
Proof.
  assert (∀ t, keeps (search_down cp q t)) as Hd.
  { induction t; cbn [search_down]; unfold pruned_page_of, stable_node_dup_any, free_stable_node_chain, free_stable_node, count_nodes,
      same_content, unlock_page; stays. }
  induction fuel; cbn [search_stable]; stays.
Qed.
End not_node.

Section search_tree.
Context `{RbTree} `{Memcmp} `{MmFault} (L0 : mode) (es : list ksm_event_log) (V : gmap loc (loc * Z)) (r : Z) (chains_prune : Z).

(** It finds another page, unless the page is a node's itself. *)
Lemma track_stable_tree_search page fr h :
  safe h → track L0 es V r h → frames (h_mem h) !! page = Some fr →
  pwp (stable_tree_search chains_prune page) h (λ g h', walked L0 es V r (h_ksm h) h' ∧
    (page_stable_node fr = None → g ≠ Got page) ∧ match g with Got p => node_page p h' | _ => True end).
Proof.
  intros Hs Ht Hfr. unfold stable_tree_search. pwp_step. apply pwp_get_frame. rewrite Hfr. intros fr' [= <-].
  destruct (page_stable_node fr) as [n|] eqn:Hn.
  - eapply pwp_both; [by apply track_get_page|unfold HostMem.get_page; apply (pwp_upd_frame page _ h (λ _, node_page page))|].
    { rewrite Hfr. intros fr' [= <-]. exists (add_kref 1 fr), n. simpl. rewrite lookup_insert_eq. split; [done|].
      unfold page_stable_node in Hn. by destruct (fr_mapping fr); simplify_eq. }
    intros [] h1 [Ht1 E1] Hn1. pwp_step. split_and!; [eapply walked_quiet; [by apply walked_refl|done|done]|done|done].
  - do 2 pwp_step. eapply pwp_both.
    + apply (track_search_stable L0 es V r chains_prune _ page h Hs Ht). lia.
    + apply (nn_search page chains_prune _ page). split; [apply Hs|]. intros fr0 m Hp Hm. rewrite Hfr in Hp. injection Hp as <-.
      unfold page_stable_node in Hn. by rewrite Hm in Hn.
    + intros [g|] h1 [[g' Hg'] Hg] [_ Hnn]; [|done]. pwp_step. destruct Hg as [Hw Hp]. split_and!; [done| |done]. intros _ ->.
      destruct Hp as (fr1 & m & Hp & Hm). by eapply Hnn.
Qed.
End search_tree.

(** ** The unstable tree *)
Lemma wrap_8 x : wrap_u 8 x = Z.land x 255.
Proof. unfold wrap_u. change 255 with (Z.ones 8). by rewrite Z.land_ones by lia. Qed.

Lemma marked_stable a q : has_flag STABLE_FLAG (Z.lor (Z.lor a UNSTABLE_FLAG) (Z.land q SEQNR_MASK)) = has_flag STABLE_FLAG a.
Proof.
  unfold has_flag. rewrite !Z.land_lor_distr_l, <- (Z.land_assoc q). change (Z.land SEQNR_MASK STABLE_FLAG) with 0.
  change (Z.land UNSTABLE_FLAG STABLE_FLAG) with 0. by rewrite Z.land_0_r, !Z.lor_0_r.
Qed.

Lemma marked_unstable a q : has_flag UNSTABLE_FLAG (Z.lor (Z.lor a UNSTABLE_FLAG) (Z.land q SEQNR_MASK)) = true.
Proof.
  unfold has_flag. apply negb_true_iff, Z.eqb_neq. intros E. apply (f_equal (λ z, Z.testbit z 8)) in E.
  rewrite !Z.land_spec, !Z.lor_spec in E. change (Z.testbit UNSTABLE_FLAG 8) with true in E. by rewrite orb_true_r in E.
Qed.

Lemma marked_age a q : page_of a = a → item_age q (Z.lor (Z.lor a UNSTABLE_FLAG) (Z.land q SEQNR_MASK)) = 0.
Proof.
  intros Ha. unfold item_age, wrap_u. change (2 ^ 8) with 256.
  assert (Z.lor (Z.lor a UNSTABLE_FLAG) (Z.land q SEQNR_MASK) mod 256 = q mod 256) as E.
  { change 256 with (2 ^ 8). rewrite <- !Z.land_ones by lia. rewrite !Z.land_lor_distr_l, <- Ha. unfold page_of.
    rewrite <- !Z.land_assoc. change (Z.land (Z.lnot 4095) (Z.ones 8)) with 0. change (Z.land UNSTABLE_FLAG (Z.ones 8)) with 0.
    change (Z.land SEQNR_MASK (Z.ones 8)) with (Z.ones 8). by rewrite Z.land_0_r. }
  rewrite Zminus_mod, E, Z.sub_diag. done.
Qed.

Lemma unlists_no_entry k k' : unlists k k' → no_entry k k'.
Proof.
  intros [_ Hl] j it' Hj Hu. destruct (Hl j it' Hj) as [[_ ?]|(it & Hi & _ & Eu & Ea)]; [congruence|].
  exists it. split_and!; [done|congruence|by apply Ea].
Qed.
Lemma append_no_entry i n h :
  unlisted i h → pwp (stable_tree_append i n) h (λ _ h', no_entry (h_ksm h) (h_ksm h')).
Proof.
  intros Hu. unfold stable_tree_append. pwp_step. apply pwp_get_knode. intros nd _. pwp_step. apply pwp_get_kitem. intros it Hi. pwp_step.
  pwp_step. pwp_step. apply pwp_upd_knode. intros nd' _. pwp_step. apply pwp_upd_kitem. simpl. rewrite Hi. intros it' [= <-].
  pwp_step. apply (pwp_mono _ _ (λ _ h', kitems (h_ksm h') = <[i := set_address (Z.lor (ki_address it) STABLE_FLAG) (set_head_ptr (Some n) it)]> (kitems (h_ksm h)))).
  { destruct (bool_decide _); unfold count; by pwp_step. }
  intros [] h1 E. unfold count_merging. pwp_step. eapply no_entry_insert; [exact E|]. by rewrite unstable_listed, (proj2 (Hu it Hi)).
Qed.

Section unstable.
Context `{RbTree} `{Memcmp} `{MmFault} (L0 : mode) (es : list ksm_event_log) (V : gmap loc (loc * Z)) (r : Z).

Lemma quiet_follow_page k mm a : stays (quietly L0 es V r k) (follow_page mm a).
Proof. unfold follow_page. stays. Qed.
#[local] Hint Resolve quiet_follow_page : stays.
Lemma quiet_get_mergeable k i : stays (quietly L0 es V r k) (get_mergeable_page i).
Proof. unfold get_mergeable_page, get_kitem. stays. Qed.
#[local] Hint Resolve quiet_get_mergeable : stays.
Lemma quiet_unstable_down k page t path : stays (quietly L0 es V r k) (unstable_down page t path).
Proof. revert path. induction t; intros path; cbn [unstable_down]; stays. Qed.

Lemma unstable_down_place page t path h :
  pwp (unstable_down page t path) h (λ d _, match d with
    | LinkItemAt p => ∃ q, p = path ++ q ∧ path_ends q t | SamePage j _ => j ∈ inorder t | NoUse => True end).
Proof.
  revert path h. induction t as [|l IHl x t IHt]; intros path h; cbn [unstable_down].
  { pwp_step. exists []. by rewrite app_nil_r. }
  pwp_step. eapply pwp_mono; [apply pwp_true|]. intros [tp|] h1 _; [|by pwp_step]. destruct (page =? tp).
  { pwp_step. eapply pwp_mono; [apply pwp_true|]. intros [] h2 _. by pwp_step. }
  pwp_step. apply pwp_get_frame. intros fr _. pwp_step. apply pwp_get_frame. intros tfr _. destruct (_ <? 0); [|destruct (0 <? _)].
  - pwp_step. eapply pwp_mono; [apply pwp_true|]. intros [] h2 _. eapply pwp_mono; [apply IHl|].
    intros [p|j q|] h3; [|simpl; set_solver|done]. intros (q & -> & Hq). exists (true :: q). by rewrite <- app_assoc.
  - pwp_step. eapply pwp_mono; [apply pwp_true|]. intros [] h2 _. eapply pwp_mono; [apply IHt|].
    intros [p|j q|] h3; [|simpl; set_solver|done]. intros (q & -> & Hq). exists (false :: q). by rewrite <- app_assoc.
  - pwp_step. simpl. set_solver.
Qed.
End unstable.

Section link_item.
Context `{RbTree} `{Memcmp} `{MmFault} (L0 : mode) (HL : passing L0 = true) (es : list ksm_event_log) (V : gmap loc (loc * Z)) (r : Z).

Lemma unlisted_not_in k i :
  unstable_ok true k → (∀ it, kitems k !! i = Some it → plain_item it) → unstables (kitems k) !! i = None ∧ i ∉ inorder (root_unstable_tree k).
Proof.
  intros Hu Hp. assert (unstables (kitems k) !! i = None) as E.
  { rewrite lookup_unstables. destruct (kitems k !! i) as [it|] eqn:Hi; [|done]. simpl. unfold unstable_address. by rewrite (proj2 (Hp it eq_refl)). }
  split; [done|]. intros Hin. destruct (uo_tree _ _ Hu) as [_ Ht]. apply Ht in Hin as (a & Ha & _). congruence.
Qed.

Lemma unstable_ok_enter k k' i it path :
  unstable_ok true k → kitems k !! i = Some it → plain_item it → path_ends path (root_unstable_tree k) →
  kitems k' = <[i := mark_unstable (scan_seqnr k) it]> (kitems k) → scan_seqnr k' = scan_seqnr k →
  root_unstable_tree k' = rb_insert_color (rb_link_node i path (root_unstable_tree k)) →
  ksm_pages_unshared (counters k') = u64 (ksm_pages_unshared (counters k) + 1) →
  unstable_ok true k'.
Proof.
  intros Hu Hi Hpl Hp HI Hq HT HC. destruct (unlisted_not_in k i Hu ltac:(by intros ? ?; simplify_eq)) as [Hni Hnt]. pose proof Hu as [U1 [U2 U2'] U3 U4].
  destruct (U4 i it Hi) as [Ha _]. specialize (Ha Hpl). set (it' := mark_unstable (scan_seqnr k) it) in *.
  assert (unstable_address it' = Some (ki_address it')) as Hui by (unfold unstable_address, unstable_item, it'; simpl; by rewrite marked_unstable).
  assert (item_age (scan_seqnr k) (ki_address it') = 0) as Hage by by apply marked_age.
  assert (HU : unstables (kitems k') = <[i := ki_address it']> (unstables (kitems k))).
  { apply map_eq. intros j. rewrite lookup_unstables, HI. destruct (decide (i = j)) as [<-|Hne].
    - by rewrite !lookup_insert_eq.
    - by rewrite !lookup_insert_ne, lookup_unstables. }
  destruct (inorder_link_at i path (root_unstable_tree k) Hp) as (l1 & l2 & E1 & E2).
  split; unfold in_step; rewrite ?HU, ?Hq.
  - intros j a [[<- <-]|[_ Hj]]%lookup_insert_Some; [|by eapply U1]. split; [|lia].
    change (has_flag STABLE_FLAG (Z.lor (Z.lor (ki_address it) UNSTABLE_FLAG) (Z.land (scan_seqnr k) SEQNR_MASK)) = false).
    rewrite marked_stable. apply Hpl.
  - rewrite HT, inorder_insert_color, E2. rewrite E1 in Hnt, U2, U2'. split.
    + rewrite <- Permutation_middle. by apply NoDup_cons.
    + intros j. rewrite <- Permutation_middle, elem_of_cons, U2'. split.
      * intros [->|(a & Hj & Hz)]; [exists (ki_address it'); by rewrite lookup_insert_eq|].
        exists a. rewrite lookup_insert_ne; [done|]. intros <-. congruence.
      * intros (a & [[<- <-]|[_ Hj]]%lookup_insert_Some & Hz); [by left|right; by exists a].
  - rewrite HC, U3, u64_add, map_size_insert_None by done. f_equal. lia.
  - rewrite HI. apply marks_ok_insert; [done|intros [_ Hun]|done]. unfold unstable_address in Hui. rewrite Hun in Hui. done.
Qed.

(** The item enters, with the number of the pass. *)
Lemma track_link_unstable i path h :
  track L0 es V r h → unlisted i h → path_ends path (root_unstable_tree (h_ksm h)) →
  pwp (link_unstable i path) h (λ _ h', track L0 es V r h' ∧ ∃ it, kitems (h_ksm h) !! i = Some it ∧
    kitems (h_ksm h') = <[i := mark_unstable (scan_seqnr (h_ksm h)) it]> (kitems (h_ksm h)) ∧
    page_of (ki_address it) = ki_address it).
Proof using HL.
  intros Ht Hu Hp. unfold link_unstable. do 2 pwp_step. pwp_step. apply pwp_upd_kitem. intros it Hi. do 2 pwp_step. unfold count. pwp_step.
  pose proof (unlisted_aligned _ _ _ _ _ _ _ Ht Hu Hi) as Ha. split; [|by exists it].
  match goal with |- track _ _ _ _ ?h' => set (h2 := h') end. change h2 with (with_ksm (λ _, h_ksm h2) h).
  pose proof (tk_unstable _ _ _ _ _ Ht) as Hun. rewrite HL in Hun.
  replace r with (r + 0) by lia. eapply (track_item L0 es V r 0 i it); [exact Ht|exact Hi|by apply Hu| | |done|reflexivity..|].
  - change (has_flag STABLE_FLAG (Z.lor (Z.lor (ki_address it) UNSTABLE_FLAG) (Z.land (scan_seqnr (h_ksm h)) SEQNR_MASK)) = false).
    rewrite marked_stable. by apply Hu.
  - rewrite HL. eapply (unstable_ok_enter (h_ksm h) (h_ksm h2) i it path); [done|exact Hi|by apply Hu|done..].
  - destruct (u64_idem_counter _ _ _ (ko_counted _ _ (tk_ksm _ _ _ _ _ Ht))) as [E1 E2]. split_and!; done.
Qed.
End link_item.

(** ** Merging, in the course of a pass *)
Definition alone (r : Z) (h : host) : Prop := track (Alone true) [] ∅ r h.

Lemma alone_any es V r h : track (Alone true) es V r h → alone r h.
Proof. intros Ht. by apply (track_any (Alone true) es V r h). Qed.

(** After the visit of an item: the unstable items are those that were there,
    without it; or it has the number of the pass. *)
Definition visits (i : loc) (k k' : ksm) : Prop := ∀ j it', kitems k' !! j = Some it' → unstable_item it' = true →
  item_age (scan_seqnr k) (ki_address it') = 0 ∨
  (j ≠ i ∧ ∃ it, kitems k !! j = Some it ∧ unstable_item it = true ∧ ki_address it' = ki_address it).

Lemma visits_no_entry i k k' :
  (∀ it, kitems k !! i = Some it → unstable_item it = false) → no_entry k k' → visits i k k'.
Proof.
  intros Hi Hn j it' Hj Hu. destruct (Hn j it' Hj Hu) as (it & A & B & C). right. split; [|by exists it]. intros ->.
  rewrite (Hi it A) in B. done.
Qed.
Lemma visits_out i k k' :
  (∀ it, kitems k' !! i = Some it → unstable_item it = false) → no_entry k k' → visits i k k'.
Proof. intros Hi Hn j it' Hj Hu. right. split; [|by apply Hn]. intros ->. rewrite (Hi it' Hj) in Hu. done. Qed.
Lemma visits_then i k1 k2 k3 : visits i k1 k2 → no_entry k2 k3 → visits i k1 k3.
Proof.
  intros Hv Hn j it3 H3 U3. destruct (Hn j it3 H3 U3) as (it2 & H2 & U2 & E2). destruct (Hv j it2 H2 U2) as [?|(? & it1 & ? & ? & ?)].
  - left. by rewrite E2.
  - right. split; [done|]. exists it1. split_and!; congruence.
Qed.
Lemma no_entry_visits i k1 k2 k3 : no_entry k1 k2 → scan_seqnr k2 = scan_seqnr k1 → visits i k2 k3 → visits i k1 k3.
Proof.
  intros Hn Eq Hv j it3 H3 U3. destruct (Hv j it3 H3 U3) as [?|(? & it2 & H2 & U2 & E2)]; [left; congruence|].
  right. split; [done|]. destruct (Hn j it2 H2 U2) as (it1 & ? & ? & ?). exists it1. split_and!; congruence.
Qed.
Lemma unlisted_not_unstable i h : unlisted i h → ∀ it, kitems (h_ksm h) !! i = Some it → unstable_item it = false.
Proof. intros Hu it Hi. by apply Hu. Qed.

Section merge.
Context `{RbTree} `{Memcmp} `{MmFault}.

Lemma alone_put p h k : alone 0 h → no_entry k (h_ksm h) → pwp (put_page p) h (λ _ h', alone 0 h' ∧ no_entry k (h_ksm h')).
Proof. intros Ht Hn. eapply pwp_mono; [by apply track_put_page|]. intros [] h' [Ht' E]. by rewrite E. Qed.

Lemma alone_unstable_search i page h :
  alone 0 h → unlisted i h →
  pwp (unstable_tree_search_insert i page) h (λ res h', alone 0 h' ∧ match res with
    | Some (j, _) => h_ksm h' = h_ksm h ∧ j ≠ i
    | None => visits i (h_ksm h) (h_ksm h') end).
Proof.
  intros Ht Hu. unfold unstable_tree_search_insert. do 2 pwp_step.
  eapply pwp_both; [exact (quiet_unstable_down _ _ _ _ (h_ksm h) page _ [] h (conj Ht eq_refl))|apply unstable_down_place|].
  intros d h1 [Ht1 E1] Hd. assert (Hu1 : unlisted i h1) by (intros it; rewrite E1; apply Hu).
  destruct (unlisted_not_in (h_ksm h) i (tk_unstable _ _ _ _ _ Ht) Hu) as [_ Hni].
  destruct d as [path|j tp|].
  - destruct Hd as (q & -> & Hq). rewrite <- E1 in Hq. pwp_step. eapply pwp_mono; [by apply (track_link_unstable (Alone true))|].
    intros [] h2 (Ht2 & it & Hi & E2 & Ha). pwp_step. split; [done|]. rewrite E1 in *. intros j it' Hj Huj. rewrite E2 in Hj.
    apply lookup_insert_Some in Hj as [[<- <-]|[Hne Hj]]; [left; by apply marked_age|right]. split; [done|]. by exists it'.
  - pwp_step. split; [done|]. split; [done|]. by intros ->.
  - pwp_step. split; [done|]. rewrite E1. apply visits_no_entry; [by apply unlisted_not_unstable|by intros j it' ? ?; exists it'].
Qed.

Lemma alone_merge_with_kpage i page kp h :
  safe h → ksm_held h kp → page_held h page → alone 0 h → unlisted i h →
  pwp (merge_with_kpage i page kp) h (λ _ h', alone 0 h' ∧ no_entry (h_ksm h) (h_ksm h')).
Proof.
  intros Hs Hkp Hp Ht Hu. unfold merge_with_kpage.
  pwp_step. eapply pwp_mono; [by apply (track_try_to_merge_with_ksm_page (Alone true) [] ∅ 0 i page (Some kp) h)|].
  intros ok h1 [Hl1 Hok]. pwp_step. eapply (pwp_mono _ _ (λ _ h', alone 0 h' ∧ no_entry (h_ksm h) (h_ksm h'))); cycle 1.
  { intros [] h2 [Ht2 Hn2]. by apply alone_put. }
  destruct ok; [|pwp_step; split; [done|by apply unlists_no_entry]]. destruct Hok as [Ht1 Hu1].
  pwp_step. eapply pwp_mono; [by apply track_lock_page|]. intros [] h2 [Ht2 E2].
  pwp_step. apply pwp_get_frame. intros kfr Hkfr. pwp_step. apply pwp_deref. intros m Hm.
  assert (fr_mapping kfr = MapKsm (Some m)) as Hkm by (unfold page_stable_node in Hm; destruct (fr_mapping kfr); congruence).
  destruct (tk_frames _ _ _ _ _ Ht2 _ kfr m Hkfr Hkm) as (md & Hmd & Hmc & Hmp).
  assert (unlisted i h2) as Hu2 by (intros it; rewrite E2; apply Hu1).
  eapply pwp_both; [by eapply (track_stable_tree_append (Alone true) [] (delete i ∅) (0 + 1) i m md)|by apply append_no_entry|].
  intros [] h3 (Ht3 & _) Hn3. eapply pwp_mono; [by apply track_unlock_page|]. intros [] h4 [Ht4 E4]. split; [by eapply alone_any|].
  rewrite E4. eapply no_entry_trans; [by apply unlists_no_entry|]. by rewrite <- E2.
Qed.

Lemma alone_append_two i j n nd h :
  alone (0 + 2) h → unlisted i h → unlisted j h → i ≠ j → knodes (h_ksm h) !! n = Some nd → is_stable_node_chain nd = false →
  pwp (stable_tree_append j n ;; stable_tree_append i n) h (λ _ h', alone 0 h' ∧ no_entry (h_ksm h) (h_ksm h')).
Proof.
  intros Ht Hi Hj Hij Hn Hc.
  eapply pwp_both; [by apply (track_stable_tree_append (Alone true) [] ∅ (0 + 2) j n nd)|by apply append_no_entry|].
  intros [] h1 (Ht1 & _ & Hu1 & nd1 & Hn1 & Hc1 & _) He1.
  eapply pwp_mono; [apply pwp_and; [by eapply (track_stable_tree_append (Alone true) [] _ _ i n nd1); [|apply Hu1|..]|apply append_no_entry; by apply Hu1]|].
  intros [] h2 [(Ht2 & _) He2]. split; [by eapply alone_any|by eapply no_entry_trans].
Qed.

Lemma alone_insert_merged i j kp h :
  safe h → alone (0 + 2) h → unlisted i h → unlisted j h → i ≠ j →
  pwp (insert_merged i j kp) h (λ _ h', alone 0 h' ∧ no_entry (h_ksm h) (h_ksm h')).
Proof.
  intros Hs Ht Hi Hj Hij. unfold insert_merged.
  eapply pwp_both; [exact (keeps_lock_page h [] [] kp h (safe_from h Hs))|by apply track_lock_page|]. intros [] h1 [Hk1 _] [Ht1 E1].
  pwp_step. eapply pwp_mono; [apply track_stable_tree_insert; [by eapply from_safe|exact Ht1]|].
  intros res h2 (Ht2 & Hl2 & n & nd & -> & Hn & Hc & _). rewrite E1 in Hl2.
  pwp_step. eapply pwp_mono; [eapply alone_append_two; try done; by eapply unlisted_later|]. intros [] h3 [Ht3 Hn3].
  pwp_step. eapply pwp_mono; [by apply track_unlock_page|]. intros [] h4 [Ht4 E4]. pwp_step. split; [done|]. rewrite E4.
  eapply no_entry_trans; [by apply unlists_no_entry|done].
Qed.

Lemma alone_merge_with_item i page j tp h0 δ h :
  from h0 (tp :: δ) [] h → page ≠ tp → page_held h page → page_held h tp → alone 0 h → i ≠ j →
  pwp (merge_with_item i page j tp) h (λ _ h', alone 0 h' ∧ no_entry (h_ksm h) (h_ksm h')).
Proof.
  intros Hk Hne Hp Htp Ht Hij. unfold merge_with_item. pose proof (from_safe _ _ _ _ Hk) as Hs.
  eapply pwp_both; [exact (keeps_try_to_merge_two_pages h [] [] i page j tp h Hp Htp (safe_from h Hs))|
    by apply (track_try_to_merge_two_pages (Alone true) [] ∅ 0 i page j tp h)|].
  intros kp h1 [Hk1 Hkp] [Hl1 Hok]. pwp_step. eapply pwp_mono; [apply pwp_same_compound|]. intros split h1' ->.
  eapply pwp_both; [apply keeps_put_page; exact (from_push _ _ _ _ _ _ _ Hk Hk1)|refine (track_put_page _ _ _ (match kp with Some _ => 0 + 2 | None => 0 end) _ _ _); by destruct kp; [apply Hok|]|].
  intros [] h2 Hk2 [Ht2 E2]. apply unlists_no_entry in Hl1. rewrite <- E2 in Hl1. destruct kp as [kp|].
  - destruct Hok as (_ & Hui & Huj). eapply pwp_mono; [apply alone_insert_merged; [by eapply from_safe|done|..|done]|].
    + intros it. rewrite E2. apply Hui.
    + intros it. rewrite E2. apply Huj.
    + intros [] h3 [Ht3 Hn3]. split; [done|by eapply no_entry_trans].
  - apply pwp_whenM; intros _; [|done].
    assert (stays (quietly (Alone true) [] ∅ 0 (h_ksm h2)) (split_after_failure page)) as Hsp by (unfold split_after_failure; stays).
    eapply pwp_mono; [by apply Hsp|]. intros [] h3 [Ht3 E3]. split; [done|by rewrite E3].
Qed.

Context (chains_prune : Z) (page_struct : Z → Z) (calc_checksum : page → Z) (zero_checksum : Z).

Lemma alone_set_word i w h :
  alone 0 h → pwp (upd_kitem i (λ it, set_word (w it) it)) h (λ _ h', alone 0 h' ∧ no_entry (h_ksm h) (h_ksm h')).
Proof.
  intros Ht. apply pwp_upd_kitem. intros it Hi. split.
  - eapply alone_any. eapply (track_items _ _ ∅ 0 h); [exact Ht|by apply (ksm_ok_set_word 0 _ i it _ (tk_ksm _ _ _ _ _ Ht))| |intros HM; by eapply marks_ok_same].
    apply unstables_insert. by rewrite Hi.
  - intros j jt Hj; simpl in Hj; revert Hj; intros [[<- <-]|[_ Hj]]%lookup_insert_Some Hu; [by exists it|by exists jt].
Qed.

Lemma alone_merge_unstable i page h :
  safe h → page_held h page → ksm_use_zero_pages (config h) = false → alone 0 h → unlisted i h →
  pwp (merge_unstable page_struct calc_checksum zero_checksum i page) h (λ _ h', alone 0 h' ∧ visits i (h_ksm h) (h_ksm h')).
Proof.
  intros Hs Hp Hz Ht Hu. unfold merge_unstable. pwp_step. apply pwp_get_frame. intros fr _. pwp_step. apply pwp_get_kitem. intros it _.
  destruct (negb _).
  { eapply pwp_mono; [by eapply (alone_set_word i (λ it, ScanFields (calc_checksum (fr_content fr)) (age page_struct it) (remaining_skips page_struct it)))|].
    intros [] h1 [Ht1 Hn1]. split; [done|]. apply visits_no_entry; [by apply unlisted_not_unstable|done]. }
  unfold try_zero_page. pwp_step. do 2 pwp_step. rewrite Hz. simpl. pwp_step.
  eapply pwp_both; [exact (pwp_and _ _ _ _ (keeps_unstable_search h [] [] i page h (safe_from h Hs)) (unstable_search_other i page h))|by apply alone_unstable_search|].
  intros [[j tp]|] h1 [Hk1 Hne] [Ht1 Hr]; simpl in Hk1; [|by pwp_step]. destruct Hne as [Hne Htp]. destruct Hr as [E1 Hij].
  eapply pwp_mono; [eapply (alone_merge_with_item i page j tp h []); [done|done|by eapply page_held_from| |done|by intros <-]|].
  { eapply from_page_held; [|exact Hk1|done]. set_solver. }
  intros [] h2 [Ht2 Hn2]. split; [done|]. rewrite E1 in Hn2. apply visits_no_entry; [by apply unlisted_not_unstable|done].
Qed.

(** The visit of an item with its page. *)
Lemma alone_cmp_and_merge_page page i h :
  safe h → page_held h page → ksm_use_zero_pages (config h) = false → alone 0 h →
  pwp (cmp_and_merge_page chains_prune page_struct calc_checksum zero_checksum page i) h
    (λ _ h', alone 0 h' ∧ visits i (h_ksm h) (h_ksm h')).
Proof.
  intros Hs Hp Hz Ht.
  assert (Hhead : ∀ h1 it n, alone 0 h1 → kitems (h_ksm h1) !! i = Some it → ki_head it = Some n →
    ∀ it', kitems (h_ksm h1) !! i = Some it' → unstable_item it' = false).
  { intros h1 it n Ht1 Hi Hh it' Hi'. simplify_eq. destruct (unstable_item it) eqn:E; [|done].
    destruct (uo_marks _ _ (tk_unstable _ _ _ _ _ Ht1) i it Hi) as [_ Hn]. rewrite (Hn E) in Hh. done. }
  unfold cmp_and_merge_page. pwp_step. apply pwp_get_kitem. intros it Hi. pwp_step. apply pwp_get_frame. intros fr Hfr.
  case_bool_decide as Eh.
  { destruct Eh as [[n Hn] Eh]. pwp_step. split; [done|]. apply visits_no_entry; [|by intros j jt ? ?; exists jt].
    eapply Hhead; [done|exact Hi|by rewrite Eh]. }
  pwp_step. apply (pwp_mono _ _ (λ _ h', h' = h)).
  { destruct (page_stable_node fr); [|by pwp_step]. pwp_step. apply pwp_get_knode. intros nd _. by pwp_step. }
  intros [] h' ->.
  eapply pwp_both; [exact (keeps_stable_tree_search h [] [] chains_prune page h (safe_from h Hs))|
    exact (pwp_and _ _ _ _ (track_stable_tree_search (Alone true) [] ∅ 0 chains_prune page fr h Hs Ht Hfr)
      (items_tree_search (places (h_ksm h)) (scan_seqnr (h_ksm h)) chains_prune page h (conj eq_refl eq_refl)))|].
  intros g h1 Hg [(Hw & Hgp & _) [_ Eq1]]. destruct Hw as (Ht1 & _ & Hl1). pwp_step. apply pwp_get_kitem. intros it1 Hi1. case_bool_decide as Eg.
  { destruct Eg as [-> Eg]. destruct (page_stable_node fr) as [n|]; [|by destruct Hgp]. eapply pwp_mono; [by apply track_put_page|].
    intros [] h2 [Ht2 E2]. split; [done|]. rewrite E2. apply visits_out; [by eapply Hhead|by apply unlists_no_entry]. }
  assert (safe h1) as Hs1 by (destruct g as [q| |]; [destruct Hg as [Hg _]|..]; by eapply from_safe).
  eapply pwp_both; [exact (keeps_remove_rmap_item h1 [] [] i h1 (safe_from h1 Hs1))|
    exact (pwp_and _ _ _ _ (track_remove_rmap_item (Alone true) [] ∅ 0 i h1 Hs1 Ht1)
      (items_remove (places (h_ksm h1)) (scan_seqnr (h_ksm h1)) i h1 (conj eq_refl eq_refl)))|].
  intros [] h2 Hk2 [(Ht2 & Hu2 & Hl2) [_ Eq2]]. apply alone_any in Ht2.
  assert (no_entry (h_ksm h) (h_ksm h2)) as Hn2 by (apply unlists_no_entry; by eapply unlists_trans).
  assert (page_held h2 page) as Hp2.
  { eapply page_held_from; [exact Hk2|]. destruct g as [q| |]; [destruct Hg as [Hg _]|..]; by eapply page_held_from. }
  assert (config h2 = config h) as Ec by (rewrite (fm_config _ _ _ _ Hk2); destruct g as [q| |]; [destruct Hg as [Hg _]|..]; apply Hg).
  apply from_safe in Hk2 as Hs2. destruct g as [q| |].
  - destruct Hg as [Hg Hq]. eapply pwp_mono; [apply alone_merge_with_kpage; [done|by eapply ksm_held_from|done..]|].
    intros [] h3 [Ht3 Hn3]. split; [done|]. eapply visits_then; [|exact Hn3]. apply visits_out; [by apply unlisted_not_unstable|done].
  - eapply pwp_mono; [apply alone_merge_unstable; [done..|by rewrite Ec|done|done]|].
    intros [] h3 [Ht3 Hv3]. split; [done|]. eapply no_entry_visits; [exact Hn2|congruence|done].
  - pwp_step. split; [done|]. apply visits_out; [by apply unlisted_not_unstable|done].
Qed.

(** A skipped item has been taken out of its tree. *)
Lemma alone_should_skip page i h :
  safe h → alone 0 h →
  pwp (should_skip_rmap_item page_struct page i) h (λ skip h', alone 0 h' ∧ no_entry (h_ksm h) (h_ksm h') ∧
    (skip = true → unlisted i h')).
Proof.
  intros Hs Ht. unfold should_skip_rmap_item. do 2 pwp_step.
  assert (Hrefl : no_entry (h_ksm h) (h_ksm h)) by (intros j jt ? ?; by exists jt).
  destruct (negb _); [by pwp_step|]. pwp_step. apply pwp_get_frame. intros fr _. destruct (PageKsm fr); [by pwp_step|].
  pwp_step. apply pwp_get_kitem. intros it _.
  assert (Hset : ∀ w h1, safe h1 ∧ alone 0 h1 ∧ no_entry (h_ksm h) (h_ksm h1) → pwp (upd_kitem i (λ it, set_word (w it) it)) h1
    (λ _ h', safe h' ∧ alone 0 h' ∧ no_entry (h_ksm h) (h_ksm h'))).
  { intros w h1 (Hs1 & Ht1 & Hn1). eapply pwp_mono; [apply pwp_and; [by apply alone_set_word|]|].
    - apply (pwp_upd_kitem i _ h1 (λ _ h', safe h')). intros it1 _. by destruct Hs1.
    - intros [] h2 [[Ht2 Hn2] Hs2]. split_and!; [done..|by eapply no_entry_trans]. }
  pwp_step. apply (pwp_mono _ _ (λ _ h', safe h' ∧ alone 0 h' ∧ no_entry (h_ksm h) (h_ksm h'))).
  { apply pwp_whenM; intros _; [|done]. by apply (Hset (λ it1, ScanFields (oldchecksum page_struct it1) (age page_struct it + 1) (remaining_skips page_struct it1))). }
  intros [] h1 Hh1. destruct (_ <? 3); [by pwp_step; destruct Hh1 as (_ & ? & ?)|].
  pwp_step. apply pwp_get_kitem. intros it1 _. destruct (_ =? 0).
  - pwp_step. eapply pwp_mono; [by apply (Hset (λ it2, ScanFields (oldchecksum page_struct it2) (age page_struct it2) (skip_age (age page_struct it))) h1)|].
    intros [] h2 (_ & Ht2 & Hn2). by pwp_step.
  - pwp_step. eapply pwp_mono; [by apply (Hset (λ it2, ScanFields (oldchecksum page_struct it2) (age page_struct it2) (remaining_skips page_struct it1 - 1)) h1)|].
    intros [] h2 (Hs2 & Ht2 & Hn2). pwp_step. eapply pwp_mono; [by apply track_remove_rmap_item|].
    intros [] h3 (Ht3 & Hu3 & Hl3). pwp_step. split; [by eapply alone_any|]. split; [|done].
    eapply no_entry_trans; [exact Hn2|by apply unlists_no_entry].
Qed.
End merge.
