(* ===== verification/HostScanWalk.v ===== *)
(** * HostScanWalk: the walk over a process's page tables

    [get_next_rmap_item] finds the item of an address or makes it, and frees
    the items the cursor passes; the walk of [create_shadow_mm] yields a table
    of ascending addresses, each with the page found there, the item of the
    address, and one reference to the page. *)
From S2P Require Import Prelude Wire HashPair Growable Shadow Scatter Server HostMem HostTree HostTreeInv HostMerge HostApply HostScan HostSafe HostMergeSafe HostTrack HostScanInv.
Open Scope Z_scope.

(** ** The list of a process *)
Definition va (I : gmap loc identity) (i : loc) : Z := from_option (λ v, v.1.2) 0 (I !! i).

(** [l] holds exactly the items of [mm], in ascending order of address. *)
Record owns (I : gmap loc identity) (mm : Z) (l : list loc) : Prop := Owns {
  ow_items : ∀ i, i ∈ l ↔ ∃ a p, I !! i = Some (mm, a, p);
  ow_sorted : StronglySorted (λ i j, va I i < va I j) l }.

(** Only the items of [mm] change. *)
Definition only_of (mm : Z) (I I' : gmap loc identity) : Prop :=
  ∀ i v, v.1.1 ≠ mm → I' !! i = Some v ↔ I !! i = Some v.

Lemma only_of_refl mm I : only_of mm I I.
Proof. by intros i v _. Qed.
Lemma only_of_trans mm I1 I2 I3 : only_of mm I1 I2 → only_of mm I2 I3 → only_of mm I1 I3.
Proof. intros A B i v Hv. by rewrite (B i v Hv), (A i v Hv). Qed.
Lemma only_of_delete mm I i v : I !! i = Some v → v.1.1 = mm → only_of mm I (delete i I).
Proof.
  intros Hi Hv j w Hw. destruct (decide (j = i)) as [->|Hne]; [|by rewrite lookup_delete_ne].
  rewrite lookup_delete_eq, Hi. split; [done|]. intros [= ->]. done.
Qed.
Lemma only_of_insert mm I i v : (∀ w, I !! i = Some w → w.1.1 = mm) → v.1.1 = mm → only_of mm I (<[i := v]> I).
Proof.
  intros Hi Hv j w Hw. destruct (decide (j = i)) as [->|Hne]; [|by rewrite lookup_insert_ne].
  rewrite lookup_insert_eq. split; [by intros [= ->]|]. intros H%Hi. done.
Qed.

(** The same items at the same addresses. *)
Lemma owns_same I I' mm l :
  (∀ i, (∃ a p, I !! i = Some (mm, a, p)) ↔ ∃ a p, I' !! i = Some (mm, a, p)) → (∀ i, i ∈ l → va I' i = va I i) →
  owns I mm l → owns I' mm l.
Proof.
  intros Hi Hv [O1 O2]. split; [intros i; by rewrite O1|]. eapply StronglySorted_impl; [|exact O2].
  intros x y Hx Hy ?. by rewrite !Hv.
Qed.

Lemma owns_only I I' mm mm' l : only_of mm I I' → mm' ≠ mm → owns I mm' l → owns I' mm' l.
Proof.
  intros Ho Hne Hl. eapply owns_same; [| |exact Hl].
  - intros i. split; intros (a & p & E); exists a, p; by apply (Ho i (mm', a, p)).
  - intros i Hi. apply Hl in Hi as (a & p & E). unfold va. rewrite E.
    by rewrite (proj2 (Ho i (mm', a, p) Hne) E).
Qed.

Lemma owns_nodup I mm l : owns I mm l → NoDup l.
Proof.
  intros [_ Hs]. induction Hs as [|x l Hs IH Hx]; constructor; [|done]. intros Hin. rewrite Forall_forall in Hx.
  specialize (Hx x Hin). simpl in Hx. lia.
Qed.

Lemma owns_order I mm l1 l2 i j : owns I mm (l1 ++ l2) → i ∈ l1 → j ∈ l2 → va I i < va I j.
Proof. intros [_ Hs] Hi Hj. apply (StronglySorted_app_1_elem_of _ l1 l2 i j Hs); done. Qed.

Lemma owns_drop I mm l1 i l2 : owns I mm (l1 ++ i :: l2) → owns (delete i I) mm (l1 ++ l2).
Proof.
  intros Ho. pose proof (owns_nodup _ _ _ Ho) as Hnd. destruct Ho as [O1 O2].
  apply NoDup_app in Hnd as (_ & Hd & Hnd2). apply NoDup_cons in Hnd2 as [Hni _].
  assert (Hne : ∀ j, j ∈ l1 ++ l2 → j ≠ i).
  { intros j Hj ->. apply elem_of_app in Hj as [Hj|Hj]; [|done]. by apply (Hd i Hj), list_elem_of_here. }
  split.
  - intros j. split.
    + intros Hj. rewrite lookup_delete_ne by (symmetry; by apply Hne). apply O1. set_solver.
    + intros (a & p & [Hij E]%lookup_delete_Some). assert (j ∈ l1 ++ i :: l2) as Hin by (apply O1; eauto). set_solver.
  - eapply StronglySorted_impl.
    + intros x y Hx Hy. unfold va. rewrite !lookup_delete_ne by (symmetry; by apply Hne). exact id.
    + apply StronglySorted_app in O2 as (A & B & C). apply StronglySorted_inv in C as [C _]. apply StronglySorted_app.
      split_and!; [|done|done]. intros x y Hx Hy. apply A; set_solver.
Qed.

Lemma owns_insert I mm l1 l2 i a p :
  owns I mm (l1 ++ l2) → I !! i = None → (∀ j, j ∈ l1 → va I j < a) → (∀ j, j ∈ l2 → a < va I j) →
  owns (<[i := (mm, a, p)]> I) mm (l1 ++ i :: l2).
Proof.
  intros [O1 O2] Hi H1 H2. assert (Hne : ∀ j, j ∈ l1 ++ l2 → j ≠ i).
  { intros j Hj ->. apply O1 in Hj as (? & ? & ?). congruence. }
  assert (Hva : ∀ j, j ∈ l1 ++ l2 → va (<[i := (mm, a, p)]> I) j = va I j).
  { intros j Hj. unfold va. by rewrite lookup_insert_ne by (symmetry; by apply Hne). }
  assert (Hvi : va (<[i := (mm, a, p)]> I) i = a) by (unfold va; by rewrite lookup_insert_eq).
  split.
  - intros j. destruct (decide (j = i)) as [->|Hne'].
    + rewrite lookup_insert_eq. split; [intros _; by eexists _, _|intros _; set_solver].
    + rewrite lookup_insert_ne by done. rewrite <- O1. set_solver.
  - apply StronglySorted_app in O2 as (A & B & C). apply StronglySorted_app. split_and!.
    + intros x y Hx Hy. rewrite (Hva x) by set_solver. apply elem_of_cons in Hy as [->|Hy]; [rewrite Hvi; by apply H1|].
      rewrite (Hva y) by set_solver. by apply A.
    + eapply StronglySorted_impl; [|exact B]. intros x y Hx Hy. by rewrite !Hva by set_solver.
    + constructor.
      * eapply StronglySorted_impl; [|exact C]. intros x y Hx Hy. by rewrite !Hva by set_solver.
      * rewrite Forall_forall. intros y Hy. rewrite Hvi, Hva by set_solver. by apply H2.
Qed.

Lemma owns_set_page I mm l i a p q : owns I mm l → I !! i = Some (mm, a, p) → owns (<[i := (mm, a, q)]> I) mm l.
Proof.
  intros Ho Hi. eapply owns_same; [| |exact Ho].
  - intros j. destruct (decide (j = i)) as [->|Hne]; [|by rewrite lookup_insert_ne].
    rewrite lookup_insert_eq, Hi. split; intros _; by eexists _, _.
  - intros j _. unfold va. destruct (decide (j = i)) as [->|Hne]; [by rewrite lookup_insert_eq, Hi|by rewrite lookup_insert_ne].
Qed.

(** ** Accesses *)
Lemma with_host_id s : with_host (λ _, sc_host s) s = s.
Proof. by destruct s. Qed.

Lemma pwp_scan_item i s (Q : kitem → scan_st → Prop) :
  (∀ it, kitems (h_ksm (sc_host s)) !! i = Some it → items s !! i = Some (ident it) → Q it s) →
  pwp (on_host (get_kitem i)) s Q.
Proof.
  intros HQ. apply pwp_on_host, pwp_get_kitem. intros it Hi. rewrite with_host_id. apply HQ; [done|].
  unfold items_of_ksm. by rewrite lookup_fmap, Hi.
Qed.

Lemma pwp_scan_frame p s (Q : frame → scan_st → Prop) :
  (∀ fr, frames (h_mem (sc_host s)) !! p = Some fr → Q fr s) → pwp (on_host (get_frame p)) s Q.
Proof. intros HQ. apply pwp_on_host, pwp_get_frame. intros fr Hp. rewrite with_host_id. by apply HQ. Qed.

(** ** What is to be listed *)

(** What the walk sees at an address: the anonymous page mapped there. *)
Definition entry_listed (h : host) (mm a : Z) : option Z :=
  match ptes (h_mem h) !! (mm, a) with
  | Some e =>
    if pte_pfn e =? zero_pfn (h_mem h) then None else
    match frames (h_mem h) !! pte_pfn e with
    | Some fr => if PageAnon fr then Some (pte_pfn e) else None
    | None => None
    end
  | None => None
  end.

Definition lists (h : host) (mm a : Z) : option shadow_pte := ShadowPte a <$> entry_listed h mm a.

(** The anonymous pages of the mergeable areas of a process. *)
Definition listing (h : host) (mm : Z) : list shadow_pte := omap (lists h mm) (walked (h_mem h) mm).

(** As far as the scan can see, [h] is as [hb]. *)
Record sees (hb h : host) : Prop := Sees {
  se_entry : ∀ mm a, entry_listed h mm a = entry_listed hb mm a;
  se_walked : ∀ mm, walked (h_mem h) mm = walked (h_mem hb) mm;
  se_exit : ∀ mm, ksm_test_exit (h_mem h) mm = ksm_test_exit (h_mem hb) mm }.

Section walk.
#[local] Set Default Proof Using "Type*".
Context `{RbTree} `{Memcmp} `{MmFault}.
Context (calm : host → Prop) `{!Calm calm} (room : Z) (h0 : host) (L0 : mode).
Abbreviation inv := (scan_inv calm room h0 L0).

(** The item at the cursor leaves its list and is freed. *)
Lemma pwp_drop_item mm l1 i l2 δ s (Q : unit → scan_st → Prop) :
  inv δ s → owns (items s) mm (l1 ++ i :: l2) →
  (∀ s', inv δ s' → items s' = delete i (items s) → owns (items s') mm (l1 ++ l2) → only_of mm (items s) (items s') →
     scan s' = scan s → tables s' = tables s → Q tt s') →
  pwp (on_host (remove_rmap_item_from_tree i) ;; free_rmap_item i) s Q.
Proof.
  intros Hi Ho HQ. pwp_step. eapply inv_remove; [done|exact Hi|]. intros h' Hi' E Hu.
  destruct (proj1 (ow_items _ _ _ Ho i) ltac:(set_solver)) as (a & p & Hv).
  eapply inv_free; [done|exact Hi'|done|simpl; by rewrite E|]. intros s' Hs' E' Es Et. simpl in E', Es, Et. rewrite E in E'.
  apply HQ; try done; rewrite E'; [by apply owns_drop|by eapply only_of_delete].
Qed.

(** What [skip_items] returns. *)
Definition skipped (mm addr : Z) (done : list loc) (s : scan_st) (r : option loc * list loc) (s' : scan_st) : Prop :=
  owns (items s') mm (done ++ r.2) ∧ only_of mm (items s) (items s') ∧
  (∀ j, j ∈ done → items s' !! j = items s !! j) ∧ scan s' = scan s ∧ tables s' = tables s ∧
  match r.1 with
  | Some i => ∃ l, r.2 = i :: l ∧ va (items s') i = addr
  | None => ∀ j, j ∈ r.2 → addr < va (items s') j
  end.

Lemma pwp_skip_items mm addr done l δ s :
  inv δ s → owns (items s) mm (done ++ l) → addr mod 4096 = 0 →
  pwp (skip_items addr l) s (λ r s', inv δ s' ∧ skipped mm addr done s r s').
Proof.
  intros Hi Ho Ha. revert s Hi Ho. induction l as [|i l IH]; intros s Hi Ho; cbn [skip_items].
  - pwp_step. split; [done|]. split_and!; simpl; try done. intros j Hj. by apply elem_of_nil in Hj.
  - pwp_step. apply pwp_scan_item. intros it Hit Hv.
    assert (va (items s) i = page_of (ki_address it)) as Hva by (unfold va; by rewrite Hv).
    destruct (Z.eqb_spec (page_of (ki_address it)) addr) as [E|E].
    { pwp_step. split; [done|]. split_and!; simpl; try done. exists l. split; [done|]. congruence. }
    rewrite page_of_ltb by done. destruct (Z.ltb_spec addr (page_of (ki_address it))) as [Hlt|Hge].
    { pwp_step. split; [done|]. split_and!; simpl; try done. intros j [->|Hj]%elem_of_cons; [lia|].
      assert (va (items s) i < va (items s) j); [|lia]. eapply (owns_order _ _ (done ++ [i]) l); [by rewrite <- app_assoc|set_solver|done]. }
    apply pwp_seq. pwp_step. eapply pwp_drop_item; [exact Hi|exact Ho|]. intros s1 Hi1 E1 Ho1 Hof Es Et.
    eapply pwp_mono; [by apply IH|]. intros r s' [Hi' (A & B & C & D & F & G)]. split; [done|].
    split_and!; [done|by eapply only_of_trans| |congruence|congruence|done].
    intros j Hj. rewrite (C j Hj), E1. apply lookup_delete_ne. intros <-.
    pose proof (owns_nodup _ _ _ Ho) as (_ & Hd & _)%NoDup_app. by apply (Hd i Hj), list_elem_of_here.
Qed.

Definition put_ahead (l : list loc) (c : ksm_scan) : ksm_scan := KsmScan (scan_address c) (passed c) l.

Lemma pwp_set_ahead l s (Q : unit → scan_st → Prop) : Q tt (with_scan (put_ahead l) s) → pwp (set_ahead l) s Q.
Proof. done. Qed.

(** The invariant does not see the cursor. *)
Lemma inv_with_scan δ s f : inv δ s → inv δ (with_scan f s).
Proof. intros []. by split. Qed.

(** What [get_next_rmap_item] returns: the item of the address, at the head
    of the rest of the list. *)
Definition got_item (mm addr : Z) (s : scan_st) (r : option loc) (s' : scan_st) : Prop :=
  only_of mm (items s) (items s') ∧ (∀ j, j ∈ passed (scan s) → items s' !! j = items s !! j) ∧ tables s' = tables s ∧
  ∃ l, scan s' = put_ahead l (scan s) ∧ owns (items s') mm (passed (scan s) ++ l) ∧
    ∀ i, r = Some i → ∃ l' p, l = i :: l' ∧ items s' !! i = Some (mm, addr, p).

(** A new item takes its place. *)
Lemma pwp_new_item mm addr δ s (l : list loc) (Q : option loc → scan_st → Prop) :
  inv δ s → ahead (scan s) = l → owns (items s) mm (passed (scan s) ++ l) → addr mod 4096 = 0 →
  (∀ j, j ∈ passed (scan s) → va (items s) j < addr) → (∀ j, j ∈ l → addr < va (items s) j) →
  (∀ r s', inv δ s' → got_item mm addr s r s' → Q r s') →
  pwp (new ← alloc_rmap_item;
       match new with
       | None => mret None
       | Some i =>
         s ← get;
         modify (with_counts (ksm_rmap_items s) (bump mm 1 (mm_rmap_items s))) ;;
         on_host (upd_kitem i (λ _, KItem mm addr (PageField None) 0 None)) ;;
         set_ahead (i :: l) ;;
         mret (Some i)
       end) s Q.
Proof.
  intros Hi El Ho Ha Hlo Hhi HQ. pwp_step. unfold alloc_rmap_item. pwp_step. pwp_step.
  assert (Hnone : ∀ slab', inv δ (with_slab slab' s) → Q None (with_slab slab' s)).
  { intros slab' Hi'. apply HQ; [done|]. split_and!; [by apply only_of_refl|done|done|]. exists l. split_and!; [|done|done].
    rewrite <- El. simpl. by destruct (scan s). }
  pose proof Hi as [I0 I1 If I2 I3 I4 I5]. destruct (slab s) as [|[] slab'] eqn:Esl.
  - pwp_steps. specialize (Hnone (slab s)). assert (with_slab (slab s) s = s) as E by by destruct s. rewrite E in Hnone. by apply Hnone.
  - set (i := fresh (dom (kitems (h_ksm (sc_host s))))). pwp_steps. apply pwp_on_host. pwp_steps.
    apply pwp_on_host, pwp_upd_kitem. simpl. rewrite lookup_insert_eq. intros it [= <-]. unfold set_ahead. pwp_steps.
    assert (Hfr : kitems (h_ksm (sc_host s)) !! i = None) by (apply not_elem_of_dom, is_fresh).
    assert (Hfi : items s !! i = None) by (unfold items_of_ksm; by rewrite lookup_fmap, Hfr).
    set (it := KItem mm addr (PageField None) 0 None) in *.
    assert (Hid : ident it = (mm, addr, None)) by (unfold ident, it; simpl; by rewrite page_of_aligned).
    match goal with |- Q _ ?s' => set (s1 := s') end.
    assert (E1 : items s1 = <[i := (mm, addr, None)]> (items s)).
    { unfold items_of_ksm, s1. simpl. rewrite insert_insert_eq, fmap_insert. by rewrite Hid. }
    assert (Eh : sc_host s1 = with_ksm (on_items (<[i := it]>)) (sc_host s)).
    { unfold s1, with_ksm, on_items. simpl. by rewrite insert_insert_eq. }
    apply HQ.
    + assert (plain_item it) as [Hpl Hpl'].
      { unfold plain_item, stable_item, unstable_item, it. simpl. rewrite <- (page_of_aligned addr) by done.
        exact (plain_mask (KItem mm addr (PageField None) 0 None)). }
      split; rewrite ?E1, ?Eh; unfold s1; simpl.
      * apply calm_items; [by eapply no_entry_insert|done].
      * by apply from_any_items.
      * done.
      * eapply (track_items _ _ (sharing (h_ksm (sc_host s)))); [done| | |].
        -- apply ksm_ok_new_item; [apply I2|done|done|]. rewrite <- size_items. simpl in I3. lia.
        -- apply unstables_insert. rewrite Hfr. simpl. unfold unstable_address. by rewrite Hpl'.
        -- intros HM. apply marks_ok_insert; [done|by intros _; apply page_of_aligned|congruence].
      * rewrite map_size_insert_None by done. simpl in I3. lia.
      * rewrite map_size_insert_None by done. rewrite I4, u64_add. f_equal. lia.
      * intros mm'. rewrite default_bump, count_of_insert by done. simpl.
        destruct (Z.eqb_spec mm mm') as [->|]; rewrite I5, ?u64_add; f_equal; lia.
    + split_and!.
      * rewrite E1. apply only_of_insert; [congruence|done].
      * intros j Hj. rewrite E1. apply lookup_insert_ne. intros <-.
        destruct (proj1 (ow_items _ _ _ Ho i) ltac:(set_solver)) as (? & ? & ?). congruence.
      * done.
      * exists (i :: l). split_and!; [done|rewrite E1; by apply owns_insert|]. intros j [= <-]. exists l, None.
        by rewrite E1, lookup_insert_eq.
  - pwp_steps. apply Hnone. split; try done. simpl. simpl in I3. lia.
Qed.

Lemma pwp_get_next mm addr δ s (Q : option loc → scan_st → Prop) :
  inv δ s → owns (items s) mm (passed (scan s) ++ ahead (scan s)) → addr mod 4096 = 0 →
  (∀ j, j ∈ passed (scan s) → va (items s) j < addr) →
  (∀ r s', inv δ s' → got_item mm addr s r s' → Q r s') →
  pwp (get_next_rmap_item mm addr) s Q.
Proof.
  intros Hi Ho Ha Hlo HQ. unfold get_next_rmap_item. do 2 pwp_step. pwp_step.
  eapply pwp_mono; [by apply pwp_skip_items|]. intros [r l] s1 [Hi1 (A & B & C & D & E & F)]. simpl in *.
  destruct r as [i|].
  - unfold set_ahead. do 3 pwp_step. apply HQ; [by apply inv_with_scan|]. destruct F as (l' & -> & Hva).
    split_and!; [done..|]. exists (i :: l'). split_and!; [by simpl; rewrite D|done|].
    intros j [= <-]. destruct (proj1 (ow_items _ _ _ A i) ltac:(set_solver)) as (a & p & Hv).
    exists l', p. split; [done|]. simpl. unfold va in Hva. rewrite Hv in Hva |- *. simpl in Hva. by rewrite Hva.
  - pwp_step. apply pwp_set_ahead. apply (pwp_new_item mm addr δ (with_scan (put_ahead l) s1)).
    + by apply inv_with_scan.
    + done.
    + simpl. by rewrite D.
    + done.
    + simpl. rewrite D. intros j Hj. unfold va. rewrite C by done. by apply Hlo.
    + done.
    + intros r s' Hi' (A' & B' & C' & D'). simpl in *. rewrite D in *. apply HQ; [done|]. split_and!.
      * by eapply only_of_trans.
      * intros j Hj. rewrite B', C; done.
      * unfold tables in *. simpl in C'. congruence.
      * destruct D' as (l' & G1 & G2 & G3). exists l'. split_and!; [|done|done]. by rewrite G1.
Qed.

(** ** One entry of a page table *)

(** A mapped page is in use, whatever references to it are dropped. *)
Lemma mapped_page_counts m k e fr :
  mem_ok m → ptes m !! k = Some e → frames m !! pte_pfn e = Some fr → pte_pfn e ≠ zero_pfn m →
  page_count (add_kref (-1) (add_kref 1 fr)) ≠ 0.
Proof.
  intros Hm He Hp Hz. pose proof (mo_mapcount _ Hm _ _ Hp Hz) as Hc. pose proof (mappings_pos _ _ _ He).
  pose proof (mo_refs _ Hm _ _ Hp). unfold page_count. simpl. destruct (fr_swapcache fr); lia.
Qed.


(** If the host is known to stay as it is, the walk sees what [hb] has. *)
Context (exactly : Prop) (hb : host) (Hsee : exactly → ∀ h, calm h → sees hb h).

Abbreviation entries := (list (shadow_pte * positive)).
Definition pages (es : entries) : list Z := (λ e, pte_kpfn e.1) <$> es.

(** The walk of [mm] has found [es]. *)
Record walked_to (mm : Z) (δ : list Z) (es : entries) (sm : shadow_mm) (s : scan_st) : Prop := WalkedTo {
  wt_inv : inv (pages es ++ δ) s;
  wt_built : shadow_built sm es;
  wt_sorted : StronglySorted (λ e f, pte_va e.1 < pte_va f.1) es;
  wt_aligned : Forall (λ e, pte_va e.1 mod 4096 = 0) es;
  wt_passed : passed (scan s) = es.*2;
  wt_owns : owns (items s) mm (passed (scan s) ++ ahead (scan s));
  wt_items : Forall (λ e, items s !! e.2 = Some (mm, pte_va e.1, Some (pte_kpfn e.1))) es;
  wt_addr : es = [] → scan_address (scan s) = 0 }.

Lemma sorted_ascending es :
  StronglySorted (λ e f, pte_va e.1 < pte_va f.1) es → Forall (λ e, pte_va e.1 mod 4096 = 0) es → ascending es.
Proof.
  unfold ascending. induction es as [|e es IH]; intros Hs Ha; simpl; [constructor|].
  apply StronglySorted_inv in Hs as [Hs He]. apply Forall_cons in Ha as [Hae Ha]. constructor; [by apply IH|].
  rewrite Forall_forall in He. rewrite Forall_forall in Ha. rewrite Forall_forall. intros x Hx. rewrite <- list_fmap_compose in Hx. apply list_elem_of_fmap in Hx as (f & -> & Hf). simpl.
  specialize (He f Hf). specialize (Ha f Hf). simpl in *. rewrite !Z.shiftr_div_pow2 by done. change (2 ^ PAGE_SHIFT) with 4096.
  Z.div_mod_to_equations. lia.
Qed.

Lemma walked_same mm δ es sm s s' :
  walked_to mm δ es sm s → inv (pages es ++ δ) s' → items s' = items s → scan s' = scan s → walked_to mm δ es sm s'.
Proof. intros [W1 W2 W3 W4 W5 W6 W7 W8] Hi E1 E2. split; rewrite ?E1, ?E2; done. Qed.

(** The walk went over [addrs], and added to the table. *)
Definition visited (mm : Z) (δ : list Z) (es : entries) (addrs : list Z) (sm : shadow_mm) (s : scan_st)
    (sm' : shadow_mm) (s' : scan_st) : Prop :=
  ∃ es', walked_to mm δ (es ++ es') sm' s' ∧ only_of mm (items s) (items s') ∧ tables s' = tables s ∧
    sm_mm_id sm' = sm_mm_id sm ∧ Forall (λ e, pte_va e.1 ∈ addrs) es' ∧
    (exactly → es'.*1 = omap (lists hb mm) addrs).

Lemma unvisited mm δ es addr sm s s' :
  walked_to mm δ es sm s' → items s' = items s → tables s' = tables s → (exactly → entry_listed hb mm addr = None) →
  visited mm δ es [addr] sm s sm s'.
Proof.
  intros Hw E1 E2 Hl. exists []. rewrite app_nil_r, E1. split_and!; try done. intros Hx. simpl. unfold lists. by rewrite Hl.
Qed.

Lemma walked_next mm δ es sm s addr p i l s1 sm' :
  walked_to mm δ es sm s → addr mod 4096 = 0 → Forall (λ e, pte_va e.1 < addr) es →
  inv (p :: pages es ++ δ) s1 → shadow_built sm' (es ++ [(ShadowPte addr p, i)]) →
  scan s1 = KsmScan addr (passed (scan s) ++ [i]) l → owns (items s1) mm (passed (scan s) ++ i :: l) →
  (∀ j, j ∈ passed (scan s) → items s1 !! j = items s !! j) → items s1 !! i = Some (mm, addr, Some p) →
  walked_to mm δ (es ++ [(ShadowPte addr p, i)]) sm' s1.
Proof.
  intros [W1 W2 W3 W4 W5 W6 W7 W8] Ha Hlt Hi Hb Hsc Ho Hsame Hv. split; rewrite ?Hsc; simpl.
  - eapply inv_perm; [done| |exact Hi]. unfold pages. rewrite fmap_app. simpl. by rewrite <- app_assoc, Permutation_middle.
  - done.
  - apply StronglySorted_app. split_and!; [|done|by repeat constructor]. intros e f He ->%list_elem_of_singleton. simpl.
    rewrite Forall_forall in Hlt. by apply Hlt.
  - apply Forall_app. split; [done|by constructor].
  - by rewrite fmap_app, W5.
  - by rewrite <- app_assoc.
  - apply Forall_app. split; [|by constructor]. rewrite Forall_forall in *. intros e He. rewrite Hsame by (rewrite W5; set_solver). by apply W7.
  - by destruct es.
Qed.

Lemma pwp_scan_pte_entry mm addr δ es sm s :
  walked_to mm δ es sm s → addr mod 4096 = 0 → Forall (λ e, pte_va e.1 < addr) es →
  pwp (scan_pte_entry mm addr sm) s (visited mm δ es [addr] sm s).
Proof using All.
  intros Hw Ha Hlt. pose proof Hw as [W1 W2 W3 W4 W5 W6 W7 W8]. unfold scan_pte_entry. do 2 pwp_step.
  assert (Hsee' : exactly → entry_listed (sc_host s) mm addr = entry_listed hb mm addr).
  { intros Hx. by apply (se_entry _ _ (Hsee Hx _ (iv_calm _ _ _ _ _ _ W1))). }
  unfold entry_listed at 1 in Hsee'. destruct (ptes (h_mem (sc_host s)) !! (mm, addr)) as [e|] eqn:He; [|pwp_step; apply unvisited; try done; by intros <-%Hsee'].
  destruct (Z.eqb_spec (pte_pfn e) (zero_pfn (h_mem (sc_host s)))) as [|Hz]; [pwp_step; apply unvisited; try done; by intros <-%Hsee'|].
  set (p := pte_pfn e) in *. pwp_step. eapply inv_get_page; [done|exact W1|]. intros fr Hp h1 Hi1. rewrite Hp in Hsee'.
  pwp_step. apply pwp_scan_frame. simpl. intros fr' Hp'. rewrite lookup_insert_eq in Hp'. injection Hp' as <-.
  change (PageAnon (add_kref 1 fr)) with (PageAnon fr). destruct (PageAnon fr).
  2: { pwp_step. eapply (inv_put_page _ _ _ _ _ _ p); [exact Hi1|simpl; by rewrite lookup_insert_eq| |].
       { by apply (mapped_page_counts (h_mem (sc_host s)) (mm, addr) e); [apply (fm_ok _ _ _ _ (iv_from _ _ _ _ _ _ W1))|..]. }
       intros h2 Hi2 E2. pwp_step. apply unvisited.
       - eapply walked_same; [exact Hw|exact Hi2|simpl; by rewrite E2|done].
       - simpl. by rewrite E2.
       - done.
       - by intros <-%Hsee'. }
  do 2 pwp_step. pwp_step. set (s2 := with_scan _ _).
  assert (Hva : ∀ j, j ∈ passed (scan s2) → va (items s2) j < addr).
  { intros j Hj. change (passed (scan s2)) with (passed (scan s)) in Hj. rewrite W5 in Hj. apply list_elem_of_fmap in Hj as (f & -> & Hf).
    rewrite Forall_forall in W7, Hlt. unfold va. change (items s2) with (items s). rewrite (W7 f Hf). by apply Hlt. }
  eapply pwp_get_next; [by apply inv_with_scan|exact W6|done|exact Hva|].
  intros r s3 Hi3 (G1 & G2 & G3 & l0 & G5 & G6 & G4). destruct r as [i|]; [|apply pwp_halt]. destruct (G4 i eq_refl) as (l & q & -> & G7).
  do 2 pwp_step. pwp_step. apply pwp_scan_item. intros it Hit Hid. simpl in Hit, Hid. pwp_step. apply pwp_halt_if. intros _.
  pwp_step. eapply (inv_set_page _ _ _ _ _ _ i addr mm q); [by apply inv_with_scan|exact G7|]. intros h4 Hi4 E4. simpl in E4.
  pwp_step. eapply (inv_kalloc _ _ _ _ _ _ _ (λ r, sm_mm_id (snd r) = sm_mm_id sm ∧ shadow_built (snd r) (es ++ [(ShadowPte addr p, i)]))); [exact Hi4| |].
  { apply wp_pwp, (wp_insert_built _ es); [done| |by eapply inv_allocs|by intros].
    apply sorted_ascending.
    - apply StronglySorted_app. split_and!; [|done|by repeat constructor]. intros x y Hx ->%list_elem_of_singleton. simpl.
      rewrite Forall_forall in Hlt. by apply Hlt.
    - apply Forall_app. split; [done|by constructor]. }
  intros [ret sm'] k [Hmm Hb] Hi5. simpl in Hmm, Hb. pwp_step. simpl snd. exists [(ShadowPte addr p, i)].
  assert (Hin : ∀ j, j ∈ passed (scan s) → j ≠ i).
  { intros j Hj ->. pose proof (owns_nodup _ _ _ G6) as (_ & Hd & _)%NoDup_app. by apply (Hd i Hj), list_elem_of_here. }
  split_and!.
  - eapply (walked_next mm δ es sm s addr p i l); try done; simpl; rewrite ?E4.
    + by rewrite G5.
    + by eapply owns_set_page.
    + intros j Hj. rewrite lookup_insert_ne by (symmetry; by apply Hin). by apply G2.
    + by rewrite lookup_insert_eq.
  - simpl. rewrite E4. eapply only_of_trans; [exact G1|]. apply only_of_insert; [|done]. intros w. rewrite G7. by intros [= <-].
  - simpl. unfold tables in *. simpl in *. congruence.
  - done.
  - constructor; [|done]. simpl. set_solver.
  - intros Hx. simpl. unfold lists. by rewrite <- (Hsee' Hx).
Qed.

(** The addresses in ascending order, past those of the table. *)
Lemma pwp_walk_page_range mm addrs δ es sm s :
  walked_to mm δ es sm s → StronglySorted Z.lt addrs → Forall (λ a, a mod 4096 = 0) addrs →
  (∀ e a, e ∈ es → a ∈ addrs → pte_va e.1 < a) →
  pwp (walk_page_range mm addrs sm) s (visited mm δ es addrs sm s).
Proof using All.
  revert es sm s. induction addrs as [|a addrs IH]; intros es sm s Hw Hs Ha Hlt; cbn [walk_page_range].
  - pwp_step. exists []. rewrite app_nil_r. split_and!; try done.
  - apply StronglySorted_inv in Hs as [Hs Hmin]. apply Forall_cons in Ha as [Ha1 Ha]. rewrite Forall_forall in Hmin.
    pwp_step. eapply pwp_mono.
    { apply pwp_scan_pte_entry; [exact Hw|done|]. apply Forall_forall. intros e He. apply Hlt; [done|apply list_elem_of_here]. }
    intros sm1 s1 (es1 & V1 & V2 & V3 & V4 & V5 & V6). pwp_step. eapply inv_interfere; [done|apply V1|]. intros h2 Hi2 E2.
    rewrite Forall_forall in V5. eapply pwp_mono.
    { apply (IH (es ++ es1) sm1); [|done..|].
      - eapply walked_same; [exact V1|exact Hi2|simpl; by rewrite E2|done].
      - intros e b [He|He]%elem_of_app Hb; [apply Hlt; [done|set_solver]|].
        specialize (V5 e He). apply list_elem_of_singleton in V5. rewrite V5. by apply Hmin. }
    intros sm3 s3 (es3 & U1 & U2 & U3 & U4 & U5 & U6). exists (es1 ++ es3). rewrite app_assoc. split_and!; [done| | | | |].
    + eapply only_of_trans; [exact V2|]. simpl in U2. rewrite E2 in U2. exact U2.
    + by rewrite U3.
    + by rewrite U4.
    + apply Forall_app. split.
      * apply Forall_forall. intros e He. specialize (V5 e He). set_solver.
      * eapply Forall_impl; [exact U5|]. intros e He. simpl. set_solver.
    + intros Hx. rewrite fmap_app, V6, U6 by done. simpl. by destruct (lists hb mm a).
Qed.
End walk.
