(* ===== verification/HostScanMm.v ===== *)
(** * HostScanMm: one process after the other

    [create_shadow_mm] over the areas of a process, the removal of what is
    left of its items, and [prepare_mms] over the list of processes: which
    processes stay in the list, and what their tables hold. *)
From S2P Require Import Prelude Wire HashPair Growable Shadow Scatter Server HostMem HostTree HostTreeInv HostMerge HostApply HostScan HostSafe HostTrack HostScanInv HostScanWalk.
Open Scope Z_scope.

(** ** The addresses of the areas *)
Lemma elem_of_area_pages v a :
  area_ok v → a ∈ area_pages v → vm_start v ≤ a < vm_end v ∧ a mod 4096 = 0.
Proof.
  intros (H1 & H2 & H3) (n & -> & Hn)%list_elem_of_fmap. apply elem_of_seq in Hn. unfold PAGE_SIZE in *.
  change PAGE_SIZE with 4096 in *. Z.div_mod_to_equations. lia.
Qed.

Lemma area_pages_sorted v : StronglySorted Z.lt (area_pages v).
Proof.
  unfold area_pages. generalize 0%nat. induction (Z.to_nat _) as [|n IH]; intros k; simpl; constructor; [apply IH|].
  apply Forall_forall. intros a (m & -> & Hm)%list_elem_of_fmap. apply elem_of_seq in Hm. change PAGE_SIZE with 4096. lia.
Qed.

Lemma walked_ok m mm : mem_ok m → StronglySorted Z.lt (walked m mm) ∧ Forall (λ a, a mod 4096 = 0) (walked m mm).
Proof.
  intros Hm. unfold walked. destruct (vmas m !! mm) as [l|] eqn:Hl; simpl; [|by repeat constructor].
  pose proof (mo_areas _ Hm mm l Hl) as [Ho Hs]. clear Hl. revert Ho. induction Hs as [|v l Hs IH Hv]; intros Ho; [by repeat constructor|].
  apply Forall_cons in Ho as [Hov Ho]. destruct (IH Ho) as [A B]. rewrite filter_cons. case_decide; [|by split].
  rewrite fmap_cons. simpl. split.
  - apply StronglySorted_app. split_and!; [|apply area_pages_sorted|exact A]. intros a b Ha Hb.
    apply list_elem_of_join in Hb as (bl & Hb & Hbl). apply list_elem_of_fmap in Hbl as (w & -> & [_ Hw]%list_elem_of_filter).
    rewrite Forall_forall in Hv, Ho. specialize (Hv w Hw). unfold area_before in Hv.
    apply (elem_of_area_pages _ _ Hov) in Ha as [? _]. apply (elem_of_area_pages _ _ (Ho w Hw)) in Hb as [? _]. lia.
  - apply Forall_app. split; [|exact B]. apply Forall_forall. intros a Ha. by apply (elem_of_area_pages v).
Qed.

(** ** One process *)
Section mm.
#[local] Set Default Proof Using "Type*".
Context `{RbTree} `{Memcmp} `{MmFault}.
Context (calm : host → Prop) `{!Calm calm} (room : Z) (h0 : host) (L0 : mode).
Abbreviation inv := (scan_inv calm room h0 L0).

(** All items past the cursor go. *)
Lemma pwp_remove_trailing mm l1 l δ s (Q : unit → scan_st → Prop) :
  inv δ s → owns (items s) mm (l1 ++ l) →
  (∀ s', inv δ s' → owns (items s') mm l1 → only_of mm (items s) (items s') → scan s' = scan s → tables s' = tables s → Q tt s') →
  pwp (remove_trailing_rmap_items l) s Q.
Proof.
  revert s. induction l as [|i l IH]; intros s Hi Ho HQ; cbn [remove_trailing_rmap_items].
  - pwp_step. apply HQ; try done. by rewrite app_nil_r in Ho.
  - apply pwp_seq. pwp_step. eapply pwp_drop_item; [done|exact Hi|exact Ho|]. intros s1 Hi1 E1 Ho1 Hof Es Et.
    apply IH; [done|done|]. intros s' Hi' Ho' Hof' Es' Et'. apply HQ; try congruence. by eapply only_of_trans.
Qed.

Context (exactly : Prop) (hb : host) (Hsee : exactly → ∀ h, calm h → sees hb h).
Context (owner : Z → option Z).
Abbreviation walked_to := (walked_to calm room h0 L0).

(** The walk found [es]. *)
Definition created (mm : Z) (δ : list Z) (s : scan_st) (sm : shadow_mm) (s' : scan_st) : Prop :=
  ∃ es, walked_to mm δ es sm s' ∧ only_of mm (items s) (items s') ∧ tables s' = tables s ∧
    sm_mm_id sm = default (-1) (owner mm) ∧ (exactly → es.*1 = listing hb mm).

(** The cursor is at the head of the list of [mm]. *)
Definition at_head (mm : Z) (s : scan_st) : Prop :=
  scan_address (scan s) = 0 ∧ passed (scan s) = [] ∧ owns (items s) mm (ahead (scan s)).

Lemma pwp_create_shadow_mm mm δ s :
  inv δ s → at_head mm s → pwp (create_shadow_mm owner mm) s (created mm δ s).
Proof using All.
  intros Hi (Ha & Hp & Ho). unfold create_shadow_mm. pwp_step.
  eapply (inv_kalloc _ _ _ _ _ _ _ (λ r, ∃ sm, r = Some sm ∧ shadow_built sm [] ∧ sm_mm_id sm = default (-1) (owner mm))); [exact Hi| |].
  { apply wp_pwp, wp_create_empty; [by eapply inv_allocs|]. intros sm k Hb Hid Hk. split; [by exists sm|done]. }
  intros r k (sm & -> & Hb & Hid) Hi1. pwp_step. pwp_step.
  match goal with |- pwp _ ?s' _ => set (s1 := s') in * end.
  destruct (walked_ok (h_mem (sc_host s1)) mm) as [Hs Hal]; [apply (fm_ok _ _ _ _ (iv_from _ _ _ _ _ _ Hi1))|].
  eapply pwp_mono.
  { apply (pwp_walk_page_range calm room h0 L0 exactly hb Hsee mm _ δ [] sm s1); [|exact Hs|exact Hal|].
    - split; try done; [constructor|]. change (scan s1) with (scan s). by rewrite Hp.
    - intros e a He. by apply elem_of_nil in He. }
  intros sm' s' (es & W1 & W2 & W3 & W4 & _ & W6). exists es. split_and!; try done; [congruence|].
  intros Hx. rewrite W6 by done. unfold listing. f_equal. by apply (se_walked _ _ (Hsee Hx _ (iv_calm _ _ _ _ _ _ Hi1))).
Qed.

(** What is to be listed of a process. *)
Definition offered (h : host) (mm : Z) : list shadow_pte := if ksm_test_exit (h_mem h) mm then [] else listing h mm.

(** [sm] is the table of [mm], with the entries [es]. *)
Record table_of (I : gmap loc identity) (mm : Z) (es : list (shadow_pte * loc)) (sm : shadow_mm) : Prop := TableOf {
  to_built : shadow_built sm es;
  to_sorted : StronglySorted (λ e f, pte_va e.1 < pte_va f.1) es;
  to_aligned : Forall (λ e, pte_va e.1 mod 4096 = 0) es;
  to_items : Forall (λ e, I !! e.2 = Some (mm, pte_va e.1, Some (pte_kpfn e.1))) es;
  to_id : sm_mm_id sm = default (-1) (owner mm);
  to_some : es ≠ [] }.

Lemma table_of_only I I' mm mm' es sm : only_of mm I I' → mm' ≠ mm → table_of I mm' es sm → table_of I' mm' es sm.
Proof.
  intros Ho Hne []. split; try done. eapply Forall_impl; [done|]. intros e He. by apply (Ho _ (mm', _, _) Hne).
Qed.

Lemma xa_order_empty : xa_order ∅ = [].
Proof. reflexivity. Qed.

(** A process without a page to list. *)
Definition nothing_listed (mm : Z) (δ : list Z) (s s' : scan_st) : Prop :=
  inv δ s' ∧ only_of mm (items s) (items s') ∧ tables s' = tables s ∧ at_head mm s' ∧ (exactly → offered hb mm = []).

Definition listed_mm (mm : Z) (δ : list Z) (s : scan_st) (es : list (shadow_pte * loc)) (sm : shadow_mm) (s' : scan_st) : Prop :=
  inv (pages es ++ δ) s' ∧ only_of mm (items s) (items s') ∧ owns (items s') mm (passed (scan s') ++ ahead (scan s')) ∧
  table_of (items s') mm es sm ∧
  tables s' = (mm_slots s, sm :: shadow_pt_list s, vm_mergeable_mms s, registered s, error_sgts s) ∧
  (exactly → es.*1 = offered hb mm).

Lemma pwp_init_shadow_for_mm mm δ s :
  inv δ s → at_head mm s →
  pwp (init_shadow_for_mm owner mm) s (λ ok s',
    if (ok : bool) then ∃ es sm, listed_mm mm δ s es sm s' else nothing_listed mm δ s s').
Proof using All.
  intros Hi Hh. unfold init_shadow_for_mm. pwp_step. pwp_step.
  assert (Hex : exactly → ksm_test_exit (h_mem hb) mm = ksm_test_exit (h_mem (sc_host s)) mm).
  { intros Hx. symmetry. apply (se_exit _ _ (Hsee Hx _ (iv_calm _ _ _ _ _ _ Hi))). }
  unfold nothing_listed, listed_mm, offered. destruct (ksm_test_exit (h_mem (sc_host s)) mm).
  { pwp_step. split_and!; try done; try apply Hh. intros Hx. by rewrite Hex. }
  pwp_step. eapply pwp_mono; [by apply pwp_create_shadow_mm|]. intros sm s' (es & W & Ho & Et & Eid & Hes).
  pose proof W as [W1 W2 W3 W4 W5 W6 W7 W8]. rewrite (tr_cnt _ _ _ _ _ (sb_table _ _ W2)), length_fmap.
  destruct es as [|e es].
  - change (Z.of_nat (length []) =? 0) with true. cbv iota. pwp_step. apply pwp_on_host. unfold free_shadow_mm.
    rewrite (sb_xa _ _ W2). change (list_to_map (xa_entry <$> [])) with (∅ : gmap Z positive). rewrite xa_order_empty. cbn [free_entries].
    do 2 pwp_step. pwp_step. apply pwp_liftO. intros _ _. pwp_steps. rewrite with_host_id. split_and!; try done.
    + split_and!; [by apply W8|done|]. by rewrite W5 in W6.
    + intros Hx. rewrite Hex by done. by rewrite <- Hes.
  - destruct (Z.eqb_spec (Z.of_nat (length (e :: es))) 0) as [E|_]; [done|]. pwp_steps. exists (e :: es), sm.
    split_and!; try done.
    + by destruct W1.
    + unfold tables in *. simpl. congruence.
    + intros Hx. rewrite Hex by done. by apply Hes.
Qed.

(** A process that leaves the list: it has no items left. *)
Definition mm_dropped (mm : Z) (δ : list Z) (s s' : scan_st) : Prop :=
  inv δ s' ∧ only_of mm (items s) (items s') ∧ owns (items s') mm [] ∧
  tables s' = (mm_slots s, shadow_pt_list s, vm_mergeable_mms s ∖ {[ mm ]}, registered s, error_sgts s) ∧
  (exactly → offered hb mm = []).

Definition prepared (mm : Z) (δ : list Z) (s : scan_st) (r : option mm_slot * bool) (s' : scan_st) : Prop :=
  (r = (None, false) ∧ mm_dropped mm δ s s') ∨
  ∃ es sm, r = (Some (MmSlot mm (passed (scan s') ++ ahead (scan s'))), true) ∧ listed_mm mm δ s es sm s'.

(** Whatever is left is removed: the cursor stays at the head. *)
Lemma pwp_drop_mm mm δ s :
  inv δ s → at_head mm s →
  pwp (remove_trailing_rmap_items (ahead (scan s)) ;;
       set_ahead [] ;;
       s ← get;
       if scan_address (scan s) =? 0 then
         modify (with_mergeable (λ S, S ∖ {[ mm ]})) ;; mret (None, false)
       else mret (Some (MmSlot mm (passed (scan s))), false)) s (λ r s', r = (None, false) ∧
    inv δ s' ∧ only_of mm (items s) (items s') ∧ owns (items s') mm [] ∧
    tables s' = (mm_slots s, shadow_pt_list s, vm_mergeable_mms s ∖ {[ mm ]}, registered s, error_sgts s)).
Proof.
  intros Hi (Ha & Hp & Ho). pwp_step. apply (pwp_remove_trailing mm [] _ δ); [exact Hi|exact Ho|].
  intros s1 Hi1 Ho1 Hof Es Et. pwp_step. apply pwp_set_ahead. do 2 pwp_step. unfold with_scan, put_ahead at 1. cbn [scan scan_address].
  rewrite Es, Ha. change (0 =? 0) with true. cbv iota. pwp_steps. split_and!; try done.
  - by destruct Hi1.
  - unfold tables in *. simpl. congruence.
Qed.

Lemma pwp_prepare_mm mm l δ s :
  inv δ s → owns (items s) mm l → pwp (prepare_mm owner (MmSlot mm l)) s (prepared mm δ s).
Proof using All.
  intros Hi Ho. unfold prepare_mm. cbn [slot_mm rmap_list]. do 2 pwp_step. pwp_step. eapply inv_interfere; [done|by apply inv_with_scan|].
  intros h1 Hi1 E1. pwp_step. eapply pwp_mono.
  { apply pwp_init_shadow_for_mm; [exact Hi1|]. split_and!; [done|done|]. simpl. by rewrite E1. }
  intros [] s2.
  - intros (es & sm & A & B & C & D & F & G). do 2 pwp_step. pwp_step. right. exists es, sm. split; [done|].
    split_and!; try done. simpl in B. by rewrite E1 in B.
  - intros (A & B & C & D & F). simpl in B, C. rewrite E1 in B. do 2 pwp_step.
    pwp_step. apply (pwp_mono _ _ (λ _ s3, inv δ s3 ∧ items s3 = items s2 ∧ tables s3 = tables s2 ∧ at_head mm s3)).
    { destruct (ksm_test_exit _ _); pwp_steps; [|done]. split_and!; [by apply inv_with_scan|done|done|].
      destruct D as (_ & D1 & D2). split_and!; [done|done|]. simpl. by rewrite D1. }
    intros [] s3 (Hi3 & Ei & Et & Hh). do 2 pwp_step. eapply pwp_mono; [by apply (pwp_drop_mm mm δ)|].
    intros r s' (-> & U1 & U2 & U3 & U4). left. split; [done|]. split_and!; try done.
    + eapply only_of_trans; [exact B|]. by rewrite <- Ei.
    + rewrite U4. unfold tables in *. simpl in *. congruence.
Qed.
End mm.

(** ** The list of processes *)
(** The list of processes is sound: each once, with its items in order, no
    items but theirs, and the flag [MMF_VM_MERGEABLE] is theirs. *)
Record slots_ok (s : scan_st) (slots : list mm_slot) : Prop := SlotsOk {
  so_nodup : NoDup (slot_mm <$> slots);
  so_owns : Forall (λ sl, owns (items s) (slot_mm sl) (rmap_list sl)) slots;
  so_items : ∀ i v, items s !! i = Some v → v.1.1 ∈ slot_mm <$> slots;
  so_flag : vm_mergeable_mms s = list_to_set (slot_mm <$> slots) }.

Lemma slots_ok_same s s' slots :
  slots_ok s slots → items s' = items s → vm_mergeable_mms s' = vm_mergeable_mms s → slots_ok s' slots.
Proof. intros [S1 S2 S3 S4] E1 E2. split; rewrite ?E1, ?E2; done. Qed.

Lemma others_own s s' mm slots :
  mm ∉ slot_mm <$> slots → only_of mm (items s) (items s') →
  Forall (λ sl, owns (items s) (slot_mm sl) (rmap_list sl)) slots →
  Forall (λ sl, owns (items s') (slot_mm sl) (rmap_list sl)) slots.
Proof.
  intros Hni Ho Hs. rewrite Forall_forall in Hs |- *. intros sl Hsl. eapply owns_only; [exact Ho| |by apply Hs].
  intros <-. by apply Hni, list_elem_of_fmap_2.
Qed.

Lemma slots_keep s s' done mm l l' slots :
  slots_ok s (done ++ MmSlot mm l :: slots) → only_of mm (items s) (items s') → owns (items s') mm l' →
  vm_mergeable_mms s' = vm_mergeable_mms s → slots_ok s' (done ++ MmSlot mm l' :: slots).
Proof.
  intros [S1 S2 S3 S4] Ho Hl E.
  assert (Es : slot_mm <$> done ++ MmSlot mm l' :: slots = slot_mm <$> done ++ MmSlot mm l :: slots) by by rewrite !fmap_app.
  apply Forall_app in S2 as [Sd [_ Ss]%Forall_cons]. split; rewrite ?Es, ?E; [done| | |done].
  - rewrite fmap_app in S1. apply NoDup_app in S1 as (_ & Hd & [Hn _]%NoDup_cons). apply Forall_app. split.
    + apply (others_own s _ mm); [|done..]. intros Hin. apply (Hd mm Hin). apply list_elem_of_here.
    + constructor; [done|]. by apply (others_own s _ mm).
  - intros i v Hv. destruct (decide (v.1.1 = mm)) as [->|Hne]; [rewrite fmap_app; set_solver|].
    by apply (S3 i), (Ho i v Hne).
Qed.

Lemma slots_drop s s' done mm l slots :
  slots_ok s (done ++ MmSlot mm l :: slots) → only_of mm (items s) (items s') → owns (items s') mm [] →
  vm_mergeable_mms s' = vm_mergeable_mms s ∖ {[ mm ]} → slots_ok s' (done ++ slots).
Proof.
  intros [S1 S2 S3 S4] Ho Hl E. apply Forall_app in S2 as [Sd [_ Ss]%Forall_cons].
  rewrite fmap_app, fmap_cons in S1, S3, S4. simpl in S1, S3, S4.
  pose proof S1 as (Hnd & Hd & [Hn Hns]%NoDup_cons)%NoDup_app.
  assert (Hmd : mm ∉ slot_mm <$> done) by (intros Hin; apply (Hd mm Hin), list_elem_of_here).
  split.
  - rewrite fmap_app. apply NoDup_app. split_and!; [done| |done]. intros x Hx Hx'. apply (Hd x Hx). set_solver.
  - apply Forall_app. split; by apply (others_own s _ mm).
  - intros i v Hv. destruct (decide (v.1.1 = mm)) as [Em|Hne].
    + destruct v as [[m a] p]. simpl in Em. subst m. exfalso. eapply not_elem_of_nil, Hl. by eexists _, _.
    + rewrite fmap_app. apply (Ho i v Hne), S3 in Hv. set_solver.
  - rewrite E, S4, fmap_app. apply set_eq. intros x. rewrite elem_of_difference, !elem_of_list_to_set, !elem_of_app, elem_of_cons.
    set_solver.
Qed.

(** ** The tables *)
Abbreviation entries := (list (shadow_pte * loc)).

Definition all_pages (T : list (Z * entries)) : list Z := mjoin ((λ t, pages t.2) <$> T).
Lemma all_pages_cons t T : all_pages (t :: T) = pages t.2 ++ all_pages T.
Proof. done. Qed.
Definition shown (T : list (Z * entries)) : list (Z * list shadow_pte) := (λ t, (t.1, t.2.*1)) <$> T.

Definition tables_of (owner : Z → option Z) (I : gmap loc identity) (T : list (Z * entries)) (l : list shadow_mm) : Prop :=
  Forall2 (λ t sm, table_of owner I t.1 t.2 sm) T l.

(** What a process offers, if it offers something. *)
Definition offering (h : host) (mm : Z) : option (Z * list shadow_pte) :=
  match offered h mm with [] => None | l => Some (mm, l) end.

Lemma offering_some h mm l : l ≠ [] → offered h mm = l → offering h mm = Some (mm, l).
Proof. unfold offering. intros ? ->. by destruct l. Qed.
Lemma offering_none h mm : offered h mm = [] → offering h mm = None.
Proof. unfold offering. by intros ->. Qed.

Section mms.
#[local] Set Default Proof Using "Type*".
Context `{RbTree} `{Memcmp} `{MmFault}.
Context (calm : host → Prop) `{!Calm calm} (room : Z) (h0 : host) (L0 : mode).
Context (exactly : Prop) (hb : host) (Hsee : exactly → ∀ h, calm h → sees hb h).
Context (owner : Z → option Z).
Abbreviation inv := (scan_inv calm room h0 L0).
Abbreviation tables_of := (tables_of owner).

Lemma tables_of_only I I' mm T l :
  only_of mm I I' → mm ∉ T.*1 → tables_of I T l → tables_of I' T l.
Proof.
  intros Ho Hni HT. induction HT as [|t sm T l Ht HT IH]; constructor.
  - eapply table_of_only; [exact Ho| |exact Ht]. intros E. apply Hni. rewrite <- E. apply list_elem_of_here.
  - apply IH. intros Hin. by apply Hni, list_elem_of_further.
Qed.

(** The slots [slots] have become [kept], and the tables have [T'] more. *)
Record went_over (slots : list mm_slot) (done : list mm_slot) (T : list (Z * entries)) (δ : list Z) (s : scan_st)
    (kept : list mm_slot) (any : bool) (T' : list (Z * entries)) (s' : scan_st) : Prop := WentOver {
  wo_inv : inv (all_pages (T' ++ T) ++ δ) s';
  wo_slots : slots_ok s' (done ++ kept);
  wo_tables : tables_of (items s') (T' ++ T) (shadow_pt_list s');
  wo_kept : T'.*1 = reverse (slot_mm <$> kept);
  wo_any : any = bool_decide (T' ≠ []);
  wo_sub : slot_mm <$> kept ⊆ slot_mm <$> slots;
  wo_rest : mm_slots s' = mm_slots s ∧ registered s' = registered s ∧ error_sgts s' = error_sgts s;
  wo_exact : exactly → shown T' = reverse (omap (λ sl, offering hb (slot_mm sl)) slots) }.

Lemma pwp_prepare_mms slots done T δ s :
  inv (all_pages T ++ δ) s → slots_ok s (done ++ slots) → tables_of (items s) T (shadow_pt_list s) →
  T.*1 ⊆ slot_mm <$> done →
  pwp (prepare_mms owner slots) s (λ r s', ∃ T', went_over slots done T δ s r.1 r.2 T' s').
Proof using All.
  revert done T s. induction slots as [|[mm l] slots IH]; intros done T s Hi Hs HT Hsub; cbn [prepare_mms].
  - pwp_step. exists []. by split.
  - pose proof (so_nodup _ _ Hs) as Hnd. rewrite fmap_app, fmap_cons in Hnd.
    apply NoDup_app in Hnd as (_ & Hd & _). assert (Hmd : mm ∉ slot_mm <$> done) by (intros Hin; apply (Hd mm Hin), list_elem_of_here).
    assert (Hmt : mm ∉ T.*1) by set_solver.
    pwp_step. eapply pwp_mono.
    { apply (pwp_prepare_mm calm room h0 L0 exactly hb Hsee owner mm l (all_pages T ++ δ)); [exact Hi|].
      pose proof (so_owns _ _ Hs) as [_ [Ho _]%Forall_cons]%Forall_app. exact Ho. }
    intros r s1 [(-> & A & B & C & D & F)|(es & sm & -> & A & B & C & D & F & G)].
    + unfold tables in D. injection D as D1 D2 D3 D4 D5. pwp_step. eapply pwp_mono.
      { apply (IH done T s1); [exact A|by eapply slots_drop|rewrite D2; exact (tables_of_only _ _ _ _ _ B Hmt HT)|done]. }
      intros [kept any] s2 (T' & [W1 W2 W3 W4 W5 W6 W7 W8]). pwp_step. exists T'. simpl in *. split; try done.
      * set_solver.
      * by rewrite <- D1, <- D4, <- D5.
      * intros Hx. simpl. rewrite offering_none by auto. auto.
    + unfold tables in F. injection F as F1 F2 F3 F4 F5. set (sl := MmSlot mm (passed (scan s1) ++ ahead (scan s1))) in *. pwp_step. eapply pwp_mono.
      { apply (IH (done ++ [sl]) ((mm, es) :: T) s1).
        - by rewrite all_pages_cons, <- app_assoc.
        - rewrite <- app_assoc. by eapply slots_keep.
        - rewrite F2. constructor; [exact D|exact (tables_of_only _ _ _ _ _ B Hmt HT)].
        - rewrite fmap_app. simpl. set_solver. }
      intros [kept any] s2 (T' & [W1 W2 W3 W4 W5 W6 W7 W8]). pwp_step. exists (T' ++ [(mm, es)]). simpl in *.
      split; rewrite <- ?app_assoc in *; try done.
      * rewrite fmap_app, W4. change (slot_mm <$> sl :: kept) with (mm :: (slot_mm <$> kept)). by rewrite reverse_cons.
      * rewrite bool_decide_eq_true_2; [done|]. by destruct T'.
      * set_solver.
      * by rewrite <- F1, <- F4, <- F5.
      * intros Hx. unfold shown in *. rewrite fmap_app, W8 by done. simpl. rewrite (offering_some _ _ (es.*1)); [|intros E%fmap_nil_inv; by apply (to_some _ _ _ _ _ D)|by rewrite G].
        by rewrite reverse_cons.
Qed.
End mms.
