(* ===== verification/HostScanRound.v ===== *)
(** * HostScanRound: preparing the tables, and releasing them

    [prepare_metadata] as a whole: the tables of the processes that stay,
    registered.  [destroy_metadata] puts back one reference for every entry of
    the tables whose page is not a KSM page by then. *)
From S2P Require Import Prelude Wire HashPair Growable Shadow Scatter Server HostMem HostTree HostTreeInv HostMerge HostApply HostScan HostSafe HostTrack HostItems HostScanInv HostScanWalk HostScanMm.
Open Scope Z_scope.

Section prepare.
#[local] Set Default Proof Using "Type*".
Context `{RbTree} `{Memcmp} `{MmFault}.
Context (calm : host → Prop) `{!Calm calm} (room : Z) (h0 : host) (L0 : mode).
Context (exactly : Prop) (hb : host) (Hsee : exactly → ∀ h, calm h → sees hb h).
Context (owner : Z → option Z).
Context (mr_of : list (list sg_entry) → desc_entry) (map_mr : list (Z * Z) → desc_entry).
Context (array_page : Z → Z) (et_mr_of : list (list sg_entry) → error_table_desc_entry).
Abbreviation inv := (scan_inv calm room h0 L0).

(** Every table is registered as it is. *)
Definition all_registered (s : scan_st) : Prop :=
  Forall2 (λ sm r, register_shadow_mm (kernel_view (sc_host s)) mr_of map_mr sm = Ok r) (shadow_pt_list s) (registered s).

Lemma pwp_register_shadow_mms n l s (Q : list registration → scan_st → Prop) :
  (∀ regs, Forall2 (λ sm r, register_shadow_mm (kernel_view (sc_host s)) mr_of map_mr sm = Ok r) l regs → Q regs s) →
  pwp (rdma_register_shadow_mms mr_of map_mr n l) s Q.
Proof using.
  revert n Q. induction l as [|sm l IH]; intros n Q HQ; cbn [rdma_register_shadow_mms]; [pwp_step; by apply HQ|].
  do 2 pwp_step. pwp_step. destruct (_ <=? _); [done|]. do 2 pwp_step. apply pwp_liftO. intros r Hr.
  pwp_step. destruct (_ <? _); [done|]. do 2 pwp_step. apply IH. intros regs Hregs. pwp_step. apply HQ. by constructor.
Qed.

(** The same log in another table. *)
Lemma inv_error_table δ s tbl tbl' :
  inv δ s → ksm_error_table (sc_host s) = Some tbl → et_table tbl' = et_table tbl →
  inv δ (with_host (λ h, with_errors (Some tbl') (kallocs h) h) s).
Proof.
  intros [I0 I1 If I2 I3 I4 I5] Ht E. split; simpl; try done.
  - by apply calm_errors.
  - by apply from_errors.
  - destruct I2 as [T1 T2 T3 T4 T5 T6 T7 T8]. split; try done. unfold logged in *. destruct L0 as [L|]; [|done].
    destruct T4 as (t & new & T4 & T4' & T4''). simpl. exists tbl', new. rewrite Ht in T4. injection T4 as <-. by rewrite E.
Qed.

(** After [prepare_metadata]. *)
Record metadata_ready (T : list (Z * entries)) (δ : list Z) (any : bool) (s : scan_st) : Prop := MetadataReady {
  mr_inv : inv (all_pages T ++ δ) s;
  mr_slots : slots_ok s (mm_slots s);
  mr_tables : tables_of owner (items s) T (shadow_pt_list s);
  mr_mms : T.*1 = reverse (slot_mm <$> mm_slots s);
  mr_any : any = bool_decide (T ≠ []);
  mr_registered : any = true → all_registered s }.

Lemma pwp_register_tables δ s (Q : unit → scan_st → Prop) :
  inv δ s →
  (∀ s', inv δ s' → all_registered s' → items s' = items s → mm_slots s' = mm_slots s →
     shadow_pt_list s' = shadow_pt_list s → vm_mergeable_mms s' = vm_mergeable_mms s → Q tt s') →
  pwp (register_tables mr_of map_mr array_page et_mr_of) s Q.
Proof.
  intros Hi HQ. unfold register_tables. do 2 pwp_step. pwp_step. apply pwp_register_shadow_mms. intros regs Hregs.
  do 2 pwp_step. destruct (rdma_register_error_table _ _ _) as [[tbl' sgts] ds] eqn:E.
  unfold rdma_register_error_table in E. injection E as <- _ _. pwp_step. apply pwp_on_host. do 2 pwp_step.
  apply HQ; try done. match goal with Hd : ksm_error_table _ = Some ?t |- _ =>
    destruct (inv_error_table _ _ t (ErrorTable (et_table t) (tb_cnt (et_table t))) Hi Hd eq_refl) end. by split.
Qed.

Lemma pwp_prepare_metadata δ s :
  inv δ s → slots_ok s (mm_slots s) → shadow_pt_list s = [] →
  pwp (prepare_metadata owner mr_of map_mr array_page et_mr_of) s (λ any s', ∃ T, metadata_ready T δ any s' ∧
    (exactly → shown T = reverse (omap (λ sl, offering hb (slot_mm sl)) (mm_slots s)))).
Proof using All.
  intros Hi Hs Hl. unfold prepare_metadata. do 2 pwp_step. pwp_step. eapply pwp_mono.
  { apply (pwp_prepare_mms calm room h0 L0 exactly hb Hsee owner (mm_slots s) [] [] δ s); [exact Hi|done| |done]. rewrite Hl. constructor. }
  intros [slots any] s1 (T & [W1 W2 W3 W4 W5 W6 (W7 & W8 & W9) W10]). cbn [fst snd] in *. rewrite app_nil_r in *. cbn [app] in *.
  do 2 pwp_step. pwp_step. set (s2 := with_slots slots s1).
  assert (Hi2 : inv (all_pages T ++ δ) s2) by by destruct W1.
  assert (Hs2 : slots_ok s2 slots) by by eapply slots_ok_same.
  destruct any.
  - eapply pwp_register_tables; [exact Hi2|]. intros s3 Hi3 Hr E1 E2 E3 E4. do 2 pwp_step. pwp_step. exists T. split; [|done].
    split; simpl; rewrite ?E1, ?E2, ?E3; try done.
    + by apply inv_with_scan.
    + eapply slots_ok_same; [exact Hs2|simpl; by rewrite E1|done].
  - do 3 pwp_step. pwp_step. exists T. split; [|done]. split; try done; [by apply inv_with_scan|by eapply slots_ok_same].
Qed.
End prepare.

(** ** Releasing the tables *)
Definition is_ksm (h : host) (p : Z) : bool :=
  match frames (h_mem h) !! p with Some fr => PageKsm fr | None => false end.

(** Where the items are, whatever their page. *)
Lemma places_items k : places k = fst <$> items_of_ksm k.
Proof. unfold places, items_of_ksm. rewrite <- map_fmap_compose. by apply map_fmap_ext. Qed.

Lemma places_set_word k i it w :
  kitems k !! i = Some it → places (on_items (<[i := set_word w it]>) k) = places k.
Proof.
  intros Hi. unfold places. simpl. rewrite fmap_insert. apply insert_id. by rewrite lookup_fmap, Hi.
Qed.

Section destroy.
#[local] Set Default Proof Using "Type*".
Context `{RbTree} `{Memcmp} `{MmFault}.
Context (h0 : host) (L0 : mode).

(** The references [δ] are held. *)
Definition holds (δ : list Z) (h : host) : Prop := from (no_items h0) δ [] h ∧ ∃ V, track L0 [] V 0 h.

Lemma holds_perm δ δ' h : δ ≡ₚ δ' → holds δ h → holds δ' h.
Proof.
  intros Hp [Hf Ht]. split; [|done]. eapply from_perm; [|done|exact Hf]. intros p. unfold occ. by rewrite Hp.
Qed.

Lemma is_ksm_drop h p fr q :
  frames (h_mem h) !! p = Some fr → PageKsm fr = false → is_ksm (with_mem (on_frames (<[p := drop_ref fr]>)) h) q = is_ksm h q.
Proof.
  intros Hp Hk. unfold is_ksm. simpl. destruct (decide (q = p)) as [->|Hne]; [|by rewrite lookup_insert_ne].
  rewrite lookup_insert_eq, Hp, Hk. unfold drop_ref. by destruct (page_count _ =? 0).
Qed.

Lemma pwp_put_non_ksm δ p h :
  holds (p :: δ) h → is_ksm h p = false →
  pwp (put_page p) h (λ _ h', holds δ h' ∧ h_ksm h' = h_ksm h ∧ ∀ q, is_ksm h' q = is_ksm h q).
Proof.
  intros [Hf [V Ht]] Hk.
  assert (pwp (put_page p) h (λ _ h', ∀ q, is_ksm h' q = is_ksm h q)) as Hq.
  { apply pwp_upd_frame. intros fr Hp q. apply is_ksm_drop; [done|]. unfold is_ksm in Hk. by rewrite Hp in Hk. }
  eapply pwp_mono; [exact (pwp_and _ _ _ _ (keeps_put_page _ _ _ p _ Hf) (pwp_and _ _ _ _ (track_put_page _ _ _ _ p _ Ht) Hq))|].
  intros [] h' (Hf' & [Ht' E] & Hq'). split_and!; [split; [done|by exists V]|done|done].
Qed.

(** Every entry's item has the entry's page. *)
Definition paged (h : host) (es : list (shadow_pte * loc)) : Prop :=
  Forall (λ e, kitems (h_ksm h) !! e.2 ≫= ki_page = Some (pte_kpfn e.1)) es.

Definition ksm_pages (h : host) (l : list Z) : list Z := filter (λ p, is_ksm h p = true) l.

(** The pages [ps] are released, but the KSM pages. *)
Definition freed (ps : list Z) (js : list loc) (δ : list Z) (h h' : host) : Prop :=
  holds (ksm_pages h ps ++ δ) h' ∧ (∀ q, is_ksm h' q = is_ksm h q) ∧ places (h_ksm h') = places (h_ksm h) ∧
  ∀ i, i ∉ js → kitems (h_ksm h') !! i = kitems (h_ksm h) !! i.

Lemma pwp_freed_seq (m1 m2 : M host unit) ps ps' js js' δ h :
  pwp m1 h (λ _ h1, freed ps js (ps' ++ δ) h h1) →
  (∀ δ' h1, freed ps js (ps' ++ δ) h h1 → holds (ps' ++ δ') h1 → pwp m2 h1 (λ _ h2, freed ps' js' δ' h1 h2)) →
  pwp (m1 ;; m2) h (λ _ h2, freed (ps ++ ps') (js ++ js') δ h h2).
Proof.
  intros Hm Hn. pwp_step. eapply pwp_mono; [exact Hm|]. intros [] h1 Hf. pose proof Hf as (A & B & C & D).
  eapply pwp_mono; [apply (Hn (ksm_pages h ps ++ δ)); [exact Hf|]|].
  { eapply holds_perm; [|exact A]. rewrite !app_assoc. f_equiv. apply Permutation_app_comm. }
  intros [] h2 (A' & B' & C' & D'). split_and!; [|intros q; by rewrite B'|by rewrite C'|].
  - eapply holds_perm; [|exact A']. unfold ksm_pages. rewrite filter_app.
    rewrite (list_filter_iff (λ p, is_ksm h1 p = true) (λ p, is_ksm h p = true)) by (intros p; by rewrite B).
    rewrite !app_assoc. f_equiv. apply Permutation_app_comm.
  - intros i Hi. rewrite D', D by set_solver. done.
Qed.

Lemma pwp_free_entry (d : bool) it0 va p i δ h :
  holds (p :: δ) h → kitems (h_ksm h) !! i ≫= ki_page = Some p →
  pwp (free_entries d it0 [(va, i)]) h (λ _ h', freed [p] [i] δ h h').
Proof.
  intros Hh Hp. cbn [free_entries]. pwp_step. apply pwp_get_kitem. intros it Hi. rewrite Hi in Hp. simpl in Hp. rewrite Hp.
  pwp_step. pwp_step. apply pwp_get_frame. intros fr Hfr. pwp_step.
  eapply (pwp_mono _ _ (λ _ h', holds (ksm_pages h [p] ++ δ) h' ∧ h_ksm h' = h_ksm h ∧ ∀ q, is_ksm h' q = is_ksm h q)).
  { assert (is_ksm h p = PageKsm fr) as E by (unfold is_ksm; by rewrite Hfr). unfold ksm_pages. rewrite filter_cons, E.
    destruct (PageKsm fr); [by pwp_step|]. by apply pwp_put_non_ksm. }
  intros [] h1 ([Hf [V Ht]] & E & Hq). rewrite <- E in Hi.
  apply pwp_whenM; intros _; cbv beta; [|pwp_step; split_and!; [by split; [|exists V]|done|by rewrite E|intros; by rewrite E]].
  apply pwp_upd_kitem. intros it' Hi'. rewrite Hi in Hi'. injection Hi' as <-. pwp_step. split_and!; [split|done| |].
  - by apply from_any_items.
  - eexists. apply (track_items _ _ V); [exact Ht| |apply unstables_insert; by rewrite Hi|intros HM; by eapply marks_ok_same].
    by apply (ksm_ok_set_word 0 _ i it _ (tk_ksm _ _ _ _ _ Ht)).
  - simpl. rewrite places_set_word by done. by rewrite E.
  - intros j Hj. simpl. rewrite lookup_insert_ne by set_solver. by rewrite E.
Qed.

Lemma free_entries_cons d n x l h Q :
  pwp (free_entries d n [x] ;; free_entries d n l) h Q → pwp (free_entries d n (x :: l)) h Q.
Proof.
  destruct x as [va i]. cbn [free_entries]. unfold pwp, mbind, M_bind. destruct (get_kitem i h) as [[it h1]| |]; [|done..].
  match goal with |- context [match ki_page it with _ => _ end ?h'] => destruct (match ki_page it with _ => _ end h') as [[[] h2]| |] end; done.
Qed.

(** Items that were not released keep their pages. *)
Lemma paged_freed ps js δ h h1 es : freed ps js δ h h1 → (∀ i, i ∈ js → i ∉ es.*2) → paged h es → paged h1 es.
Proof.
  intros (_ & _ & _ & D) Hd Hp. unfold paged in *. rewrite Forall_forall in Hp |- *. intros e He. rewrite D; [by apply Hp|].
  intros Hin. by apply (Hd _ Hin), list_elem_of_fmap_2.
Qed.

Lemma pwp_free_entries d n es δ h :
  holds (pages es ++ δ) h → NoDup es.*2 → paged h es →
  pwp (free_entries d n (xa_entry <$> es)) h (λ _ h', freed (pages es) es.*2 δ h h').
Proof.
  revert δ h. induction es as [|e es IH]; intros δ h Hh Hnd Hp; [by split_and!|].
  apply NoDup_cons in Hnd as [Hni Hnd]. apply Forall_cons in Hp as [He Hp].
  rewrite fmap_cons. apply free_entries_cons. apply (pwp_freed_seq _ _ [pte_kpfn e.1] (pages es) [e.2]).
  - by apply pwp_free_entry.
  - intros δ' h1 Hf Hh1. apply IH; [done|done|]. eapply paged_freed; [exact Hf| |exact Hp]. intros i ->%list_elem_of_singleton. exact Hni.
Qed.

Definition all_items (T : list (Z * entries)) : list loc := mjoin ((λ t, t.2.*2) <$> T).

Lemma all_items_cons t T : all_items (t :: T) = t.2.*2 ++ all_items T.
Proof. done. Qed.

Lemma elem_of_all_items i T : i ∈ all_items T ↔ ∃ t e, t ∈ T ∧ e ∈ t.2 ∧ i = e.2.
Proof.
  unfold all_items. rewrite list_elem_of_join. split.
  - intros (l & Hi & (t & -> & Ht)%list_elem_of_fmap). apply list_elem_of_fmap in Hi as (e & -> & He). by exists t, e.
  - intros (t & e & Ht & He & ->). exists (t.2.*2). split; [by apply list_elem_of_fmap_2|].
    apply list_elem_of_fmap. by exists t.
Qed.

Lemma pwp_free_shadow_mm d n sgts sm es δ h :
  shadow_built sm es → ascending es → holds (pages es ++ δ) h → NoDup es.*2 → paged h es →
  pwp (free_shadow_mm d n sgts sm) h (λ _ h', freed (pages es) es.*2 δ h h').
Proof.
  intros Hb Ha Hh Hnd Hp. unfold free_shadow_mm. rewrite (sb_xa _ _ Hb), xa_order_list by exact Ha. pwp_step. eapply pwp_mono; [by apply pwp_free_entries|].
  intros [] h1 Hf. pwp_step. apply pwp_liftO. intros _ _. by pwp_step.
Qed.

(** The items of the other tables keep their pages. *)
Lemma paged_others (t : Z * entries) T δ h h1 :
  freed (pages t.2) t.2.*2 δ h h1 → (∀ i, i ∈ t.2.*2 → i ∉ all_items T) → Forall (λ t, paged h t.2) T → Forall (λ t, paged h1 t.2) T.
Proof.
  intros Hf Hd Hp. rewrite Forall_forall in Hp |- *. intros t' Ht'.
  eapply paged_freed; [exact Hf| |by apply Hp]. intros i Hi Hi'. apply (Hd i Hi), elem_of_all_items.
  apply list_elem_of_fmap in Hi' as (e & -> & He). by exists t', e.
Qed.

Lemma pwp_destroy_metadata d n l regs T δ h :
  holds (all_pages T ++ δ) h → Forall2 (λ t sm, shadow_built sm t.2 ∧ ascending t.2) T l →
  NoDup (all_items T) → Forall (λ t, paged h t.2) T →
  pwp (destroy_metadata d n l regs) h (λ _ h', freed (all_pages T) (all_items T) δ h h').
Proof.
  intros Hh HT. revert regs δ h Hh. induction HT as [|t sm T l [Hb Ha] HT IH]; intros regs δ h Hh Hnd Hp; cbn [destroy_metadata].
  { pwp_step. by split_and!. }
  rewrite all_items_cons in *. rewrite all_pages_cons in *. apply NoDup_app in Hnd as (Hnd1 & Hd & Hnd2).
  apply Forall_cons in Hp as [Ht Hp]. apply pwp_freed_seq.
  - apply pwp_free_shadow_mm; [done..|by rewrite app_assoc|done|done].
  - intros δ' h1 Hf Hh1. apply IH; [done|done|]. by eapply paged_others.
Qed.
End destroy.

(** ** What the tables of a scan are *)
Section tables.
Context (owner : Z → option Z) (I : gmap loc identity).
Abbreviation tables_of := (tables_of owner I).

Lemma table_of_ascending mm es sm : table_of owner I mm es sm → ascending es.
Proof. intros []. by apply sorted_ascending. Qed.

Lemma table_of_nodup mm es sm : table_of owner I mm es sm → NoDup es.*2.
Proof.
  intros [_ Hs _ Hi _ _]. rewrite Forall_forall in Hi. apply NoDup_fmap_2_strong.
  - intros [[a p] i] [[b q] j] He Hf E. simpl in E. subst j. pose proof (Hi _ He) as E1. pose proof (Hi _ Hf) as E2. simpl in *. congruence.
  - clear Hi. induction Hs as [|e es Hs IH He]; constructor; [|done]. intros Hin. rewrite Forall_forall in He. specialize (He e Hin). simpl in He. lia.
Qed.

Lemma tables_of_elem T l t : tables_of T l → t ∈ T → ∃ sm, sm ∈ l ∧ table_of owner I t.1 t.2 sm.
Proof.
  intros HT Ht. apply list_elem_of_lookup in Ht as [n Hn]. destruct (Forall2_lookup_l _ _ _ _ _ HT Hn) as (sm & Hsm & Hto).
  exists sm. split; [by eapply list_elem_of_lookup_2|done].
Qed.

Lemma tables_of_sm T l sm : tables_of T l → sm ∈ l → ∃ t, t ∈ T ∧ table_of owner I t.1 t.2 sm.
Proof.
  intros HT Ht. apply list_elem_of_lookup in Ht as [n Hn]. destruct (Forall2_lookup_r _ _ _ _ _ HT Hn) as (t & Hsm & Hto).
  exists t. split; [by eapply list_elem_of_lookup_2|done].
Qed.

Lemma tables_of_item T l t e : tables_of T l → t ∈ T → e ∈ t.2 → I !! e.2 = Some (t.1, pte_va e.1, Some (pte_kpfn e.1)).
Proof.
  intros HT Ht He. destruct (tables_of_elem _ _ _ HT Ht) as (sm & _ & Hto). pose proof (to_items _ _ _ _ _ Hto) as Hi.
  rewrite Forall_forall in Hi. by apply Hi.
Qed.

Lemma tables_of_nodup T l : tables_of T l → NoDup T.*1 → NoDup (all_items T).
Proof.
  intros HT. induction HT as [|t sm T l Ht HT IH]; intros Hnd; [constructor|]. apply NoDup_cons in Hnd as [Hni Hnd].
  rewrite all_items_cons. apply NoDup_app. split_and!; [by eapply table_of_nodup| |by apply IH].
  intros i (e & -> & He)%list_elem_of_fmap (t' & e' & Ht' & He' & E)%elem_of_all_items.
  pose proof (to_items _ _ _ _ _ Ht) as Hi. rewrite Forall_forall in Hi. specialize (Hi e He).
  pose proof (tables_of_item _ _ _ _ HT Ht' He') as Hi'. rewrite E in Hi. rewrite Hi in Hi'. injection Hi' as Em _ _.
  apply Hni. rewrite Em. by apply list_elem_of_fmap_2.
Qed.
End tables.
