(* ===== verification/HostScanIter.v ===== *)
(** * HostScanIter: one iteration of the daemon

    The tables of a scan are what the application of the log needs: their items
    exist, with a page that is held, and no item stands for two pages.  Then
    [ksm_do_scan] as a whole, from one state in which the daemon is at rest to
    the next. *)
From S2P Require Import Prelude Wire HashPair Growable Shadow Store Scatter Server HostMem HostTree HostTreeInv HostMerge HostApply HostScan HostSafe HostMergeSafe HostApplySafe HostTrack HostTrackApply HostAgree HostItems HostScanInv HostScanWalk HostScanMm HostScanRound.
Open Scope Z_scope.

(** ** Looking up in the tables *)
Section lookup.
Context (owner : Z → option Z) (I : gmap loc identity) (T : list (Z * entries)) (l : list shadow_mm).
Context (HT : tables_of owner I T l).

Lemma table_lookup sm t n i :
  table_of owner I t.1 t.2 sm → page_xa sm !! n = Some i → ∃ e, e ∈ t.2 ∧ e.2 = i ∧ Z.shiftr (pte_va e.1) PAGE_SHIFT = n.
Proof using.
  intros Ht Hx. rewrite (sb_xa _ _ (to_built _ _ _ _ _ Ht)) in Hx. apply elem_of_list_to_map_2 in Hx.
  apply list_elem_of_fmap in Hx as (e & E & He). injection E as -> ->. by exists e.
Qed.

Lemma item_at_entry k i :
  item_at l k = Some i → ∃ sm t e, sm ∈ l ∧ t ∈ T ∧ table_of owner I t.1 t.2 sm ∧ e ∈ t.2 ∧ e.2 = i ∧ sm_mm_id sm = k.1 ∧
    Z.shiftr (pte_va e.1) PAGE_SHIFT = Z.shiftr k.2 PAGE_SHIFT.
Proof using HT.
  unfold item_at, shadow_item. intros Hi. destruct (get_shadow_mm l k.1) as [sm|] eqn:Hsm; [|done]. simpl in Hi.
  apply get_shadow_mm_elem in Hsm as [Hsm Hid]. destruct (tables_of_sm _ _ _ _ _ HT Hsm) as (t & Ht & Hto).
  destruct (table_lookup _ _ _ _ Hto Hi) as (e & He & E & Es). by exists sm, t, e.
Qed.

(** Every item of the tables is one page's. *)
Lemma scan_tables_injective : NoDup T.*1 → tables_injective l.
Proof using HT.
  intros Hnd k1 k2 i Hk1 Hk2 H1 H2.
  destruct (item_at_entry _ _ H1) as (sm1 & t1 & e1 & _ & Ht1 & Hto1 & He1 & E1 & Id1 & V1).
  destruct (item_at_entry _ _ H2) as (sm2 & t2 & e2 & _ & Ht2 & Hto2 & He2 & E2 & Id2 & V2).
  pose proof (tables_of_item _ _ _ _ _ _ HT Ht1 He1) as I1. pose proof (tables_of_item _ _ _ _ _ _ HT Ht2 He2) as I2.
  rewrite E1 in I1. rewrite E2, I1 in I2. injection I2 as Em Ev _.
  pose proof (to_id _ _ _ _ _ Hto1) as D1. pose proof (to_id _ _ _ _ _ Hto2) as D2. rewrite Em in D1.
  rewrite Ev in V1. rewrite V1 in V2. unfold page_key, PAGE_SIZE in *. rewrite !Z.shiftr_div_pow2 in V2 by done.
  change PAGE_SIZE with 4096 in *. change (2 ^ PAGE_SHIFT) with 4096 in V2. destruct k1 as [m1 a1], k2 as [m2 a2]. simpl in *.
  f_equal; [congruence|]. Z.div_mod_to_equations. lia.
Qed.
End lookup.

Lemma occ_elem p l : p ∈ l → 1 ≤ occ p l.
Proof.
  intros Hp. induction l as [|q l IH]; [by apply elem_of_nil in Hp|]. rewrite occ_cons. pose proof (occ_nonneg p l).
  apply elem_of_cons in Hp as [->|Hp]; [rewrite decide_True by done; lia|]. specialize (IH Hp). case_decide; lia.
Qed.

Lemma elem_of_all_pages t e T : t ∈ T → e ∈ t.2 → pte_kpfn e.1 ∈ all_pages T.
Proof.
  intros Ht He. unfold all_pages. rewrite list_elem_of_join. exists (pages t.2).
  split; [unfold pages; by apply (list_elem_of_fmap_2 (λ e, pte_kpfn e.1))|]. apply list_elem_of_fmap. by exists t.
Qed.

(** A held page is one of the machine's, with a reference of the daemon's. *)
Lemma held_page h0 δ h p :
  from (no_items h0) δ [] h → p ∈ dom (frames (h_mem h0)) → p ∈ δ → page_held h p.
Proof.
  intros Hf [fr0 Hp0]%elem_of_dom Hp. destruct (from_frame _ _ _ _ _ _ Hf Hp0) as (fr & Hfr & [F _ _]). exists fr. split; [done|].
  pose proof (occ_elem _ _ Hp). pose proof (mo_refs _ (fm_base _ _ _ _ Hf) _ _ Hp0). lia.
Qed.

Lemma item_page k i mm a p : items_of_ksm k !! i = Some (mm, a, p) → ∃ it, kitems k !! i = Some it ∧ ki_page it = p ∧ ki_mm it = mm.
Proof.
  unfold items_of_ksm. rewrite lookup_fmap. destruct (kitems k !! i) as [it|]; [|done]. intros [= <- <- <-]. by exists it.
Qed.

Lemma scan_scanned owner h0 δ T l h :
  from (no_items h0) (all_pages T ++ δ) [] h → Forall (λ p, p ∈ dom (frames (h_mem h0))) (all_pages T ++ δ) →
  tables_of owner (items_of_ksm (h_ksm h)) T l → scanned l h.
Proof.
  intros Hf Hd HT sm n i Hsm Hx. destruct (tables_of_sm _ _ _ _ _ HT Hsm) as (t & Ht & Hto).
  destruct (table_lookup _ _ _ _ _ _ Hto Hx) as (e & He & <- & _).
  destruct (item_page _ _ _ _ _ (tables_of_item _ _ _ _ _ _ HT Ht He)) as (it & Hi & Hp & _).
  exists it, (pte_kpfn e.1). split_and!; [done|done|]. pose proof (elem_of_all_pages _ _ _ Ht He) as Hin.
  rewrite Forall_forall in Hd. apply (held_page h0 (all_pages T ++ δ)); [done| |set_solver]. apply Hd. set_solver.
Qed.

(** ** At rest *)
Lemma clear_error_table_empty t t' L :
  log_tbl_repr (et_table t) L → clear_error_table t = Ok t' → log_tbl_repr (et_table t') [].
Proof.
  intros Ht. unfold clear_error_table. case_match; [|done]. intros [= <-].
  destruct Ht as [Ha Hc Hf _]. split; simpl; [exact Ha|done|lia|intros i Hi; simpl in Hi; lia].
Qed.

Lemma track_rest L0 es V r h : track L0 es V r h → ∃ L0', passing L0' = passing L0 ∧ track L0' [] (sharing (h_ksm h)) r h.
Proof.
  intros [T1 T2 T3 T4 T5 T6 T7 T8]. destruct L0 as [L|]; [|exists (Alone in_pass); split; [done|by split]].
  destruct T4 as (t & new & T4 & T4' & T4''). exists (Served (L ++ new)). split; [done|]. split; try done.
  exists t, []. rewrite app_nil_r. split_and!; [done|done|by right].
Qed.

Lemma track_cleared L0 es V r h t :
  track L0 es V r h → with_server L0 = true → log_tbl_repr (et_table t) [] →
  track (Served []) [] (sharing (h_ksm h)) r (with_errors (Some t) (kallocs h) h).
Proof.
  intros [T1 T2 T3 T4 T5 T6 T7 T8] HL Ht. destruct L0 as [L|]; [|done]. split; try done.
  exists t, []. split_and!; [done|done|by right].
Qed.

(** From now on the daemon is alone. *)
Definition left_alone (k : ksm) : ksm := on_smart_scan (λ _, false) (on_offload (λ _, false) k).
Lemma track_alone L0 es V r h : passing L0 = false → track L0 es V r h → track (Alone false) [] V r (with_ksm left_alone h).
Proof. intros HL [[] T2 T3 T4 T5 T6 [] T8]. rewrite HL in *. by split. Qed.

(** The number of the iteration concerns nobody. *)
Definition counted_up : ksm → ksm := on_iter_cnt (λ n, s32 (n + 1)).
Lemma track_counted_up L0 es V r h : track L0 es V r h → track L0 es V r (with_ksm counted_up h).
Proof. intros [[] T2 T3 T4 T5 T6 [] T8]. by split. Qed.

(** With a server there is a table. *)
Lemma track_server L0 es V r h : is_ksm_offload (h_ksm h) = true → track L0 es V r h → with_server L0 = true.
Proof. intros Hoff Ht. by rewrite <- (tk_offload _ _ _ _ _ Ht). Qed.

(** Between two iterations. *)
Record ready (s : scan_st) : Prop := Ready {
  rd_safe : safe (sc_host s);
  rd_track : ∃ L0, passing L0 = false ∧ track L0 [] (sharing (h_ksm (sc_host s))) 0 (sc_host s);
  rd_slab : Z.of_nat (size (items s)) + Z.of_nat (length (slab s)) < 2 ^ 31;
  rd_count : ksm_rmap_items s = u64 (Z.of_nat (size (items s)));
  rd_counts : ∀ mm, default 0 (mm_rmap_items s !! mm) = u64 (count_of mm (items s));
  rd_slots : slots_ok s (mm_slots s);
  rd_tables : shadow_pt_list s = [];
  rd_unlocked : unlocked (sc_host s) }.

Lemma ready_room (calm : host → Prop) room s :
  calm (sc_host s) → ready s → Z.of_nat (size (items s)) + Z.of_nat (length (slab s)) < room →
  ∃ L0, passing L0 = false ∧ scan_inv calm room (sc_host s) L0 [] s.
Proof. intros Hc [R1 (L0 & HL & R2) R3 R4 R5 R6 R7 R8] Hr. exists L0. split; [done|]. split; try done; [by apply from_no_items|lia]. Qed.
Lemma ready_inv (calm : host → Prop) s :
  calm (sc_host s) → ready s → ∃ L0, passing L0 = false ∧ scan_inv calm (2 ^ 31) (sc_host s) L0 [] s.
Proof. intros Hc Hr. apply ready_room; [done..|apply Hr]. Qed.

(** The items are where they were. *)
Section places.
Context (k k' : ksm) (E : places k' = places k).

Lemma places_size : size (items_of_ksm k') = size (items_of_ksm k).
Proof using E. rewrite <- (map_size_fmap fst (items_of_ksm k')), <- (map_size_fmap fst (items_of_ksm k)). f_equal. by rewrite <- !places_items. Qed.

Lemma places_lookup i mm a : (∃ p, items_of_ksm k !! i = Some (mm, a, p)) ↔ ∃ p, items_of_ksm k' !! i = Some (mm, a, p).
Proof using E.
  assert (∀ k, (∃ p, items_of_ksm k !! i = Some (mm, a, p)) ↔ places k !! i = Some (mm, a)) as Hp.
  { intros k1. rewrite places_items, lookup_fmap. split; [by intros (p & ->)|].
    destruct (items_of_ksm k1 !! i) as [[[? ?] p]|]; [|done]. intros [= -> ->]. by exists p. }
  by rewrite !Hp, E.
Qed.

Lemma places_count mm : count_of mm (items_of_ksm k') = count_of mm (items_of_ksm k).
Proof using E.
  assert (∀ k, count_of mm (items_of_ksm k) = msum (λ v : Z * Z, if v.1 =? mm then 1 else 0) (places k)) as Hp.
  { intros k1. rewrite places_items. unfold count_of, msum. by rewrite map_fold_fmap. }
  by rewrite !Hp, E.
Qed.

Lemma places_va i : va (items_of_ksm k') i = va (items_of_ksm k) i.
Proof using E.
  assert (∀ k, va (items_of_ksm k) i = default 0 (snd <$> places k !! i)) as Hp.
  { intros k1. rewrite places_items. unfold va. rewrite lookup_fmap. by destruct (items_of_ksm k1 !! i) as [[[? ?] ?]|]. }
  by rewrite !Hp, E.
Qed.

Lemma places_owns mm l : owns (items_of_ksm k) mm l → owns (items_of_ksm k') mm l.
Proof using E.
  intros Ho. eapply owns_same; [| |exact Ho].
  - intros i. split; intros (a & Hp); exists a; by apply places_lookup.
  - intros i _. apply places_va.
Qed.
End places.

Lemma slots_ok_places s s' slots :
  slots_ok s slots → places (h_ksm (sc_host s')) = places (h_ksm (sc_host s)) → vm_mergeable_mms s' = vm_mergeable_mms s →
  slots_ok s' slots.
Proof.
  intros [S1 S2 S3 S4] E Em. split; [done| | |by rewrite Em].
  - eapply Forall_impl; [exact S2|]. intros sl. simpl. by apply places_owns.
  - intros i [[mm a] p] Hi. assert (∃ p, items s !! i = Some (mm, a, p)) as [q Hq].
    { apply (places_lookup _ _ E). by exists p. }
    by apply (S3 _ _ Hq).
Qed.

(** ** [ksm_do_scan] *)

(** The server names two different pages in an unstable merge. *)
Definition two_pages (e : ksm_event_log) : Prop :=
  log_type e = DPU_UNSTABLE_MERGE → page_key (from_key e) ∧ page_key (to_key e) ∧ from_key e ≠ to_key e.

Lemma two_pages_items l e : tables_injective l → two_pages e → two_items l e.
Proof. intros Hinj He Ht i Hi Hj. destruct (He Ht) as (Hk & Hk' & Hne). by apply Hne, (Hinj (from_key e) (to_key e) i). Qed.

Lemma occ_filter (f : Z → bool) p l : occ p (filter (λ q, f q = true) l) = if f p then occ p l else 0.
Proof.
  induction l as [|q l IH]; [by destruct (f p)|]. rewrite filter_cons. case_decide as Hq.
  - rewrite !occ_cons, IH. case_decide as E; [subst q; by rewrite Hq|]. destruct (f p); lia.
  - rewrite IH, occ_cons. case_decide as E; [subst q|]; destruct (f p); done || lia.
Qed.

Section round.
#[local] Set Default Proof Using "Type*".
Context `{RbTree} `{Memcmp} `{MmFault}.
Context (h0 : host) (owner : Z → option Z).
Abbreviation inv := (scan_inv (λ _, True) (2 ^ 31) h0).

Lemma pwp_retire L0 δ s (Q : unit → scan_st → Prop) :
  with_server L0 = true → inv L0 δ s →
  (∀ s', inv (Served []) δ s' → items s' = items s → mm_slots s' = mm_slots s → shadow_pt_list s' = shadow_pt_list s →
     vm_mergeable_mms s' = vm_mergeable_mms s → Q tt s') →
  pwp retire_error_table s Q.
Proof.
  intros HL [I0 I1 If I2 I3 I4 I5] HQ. unfold retire_error_table. do 2 pwp_step. do 2 pwp_step. rename select (ksm_error_table _ = _) into Ht.
  pwp_step. apply pwp_liftO. intros _ _. pwp_step. apply pwp_liftO. intros tbl' Hc. apply pwp_on_host. pwp_step.
  pose proof (tk_log _ _ _ _ _ I2) as Hlog. destruct L0 as [L|] eqn:HL0; [|done]. destruct Hlog as (t & new & T1 & T2 & _).
  rewrite Ht in T1. injection T1 as <-.
  apply HQ; try done. split; try done; simpl.
  - by apply from_errors.
  - eapply track_cleared; [exact I2|done|]. by eapply clear_error_table_empty.
Qed.

(** The log is applied to the tables of the scan. *)
Lemma pwp_apply_log T δ s L (Q : merge_cnts → scan_st → Prop) :
  inv (Served []) (all_pages T ++ δ) s → tables_of owner (items s) T (shadow_pt_list s) → NoDup T.*1 → Forall two_pages L →
  (∀ c h', (∃ L1, passing L1 = false ∧ holds h0 L1 (all_pages T ++ δ) h') → items_of_ksm (h_ksm h') = items s → Q c (with_host (λ _, h') s)) →
  pwp (on_host (apply_result (shadow_pt_list s) L)) s Q.
Proof.
  intros [I0 I1 If I2 I3 I4 I5] HT Hnd HL HQ. set (l := shadow_pt_list s) in *. set (h := sc_host s) in *.
  pose proof (scan_scanned _ _ _ _ _ _ I1 If HT) as Hsc. pose proof (from_safe _ _ _ _ I1) as Hsf.
  assert (Forall (two_items l) L) as H2.
  { eapply Forall_impl; [exact HL|]. intros e. by eapply two_pages_items, scan_tables_injective. }
  apply pwp_on_host. eapply pwp_mono.
  { exact (pwp_and _ _ _ _ (keeps_apply_result l h Hsc L h (from_refl h Hsf)) (pwp_and _ _ _ _
      (replayed_result (Served []) ltac:(done) l h Hsc [] _ 0 L h H2 (from_refl h Hsf) I2) (items_apply_result (places (h_ksm h)) _ l L h (conj eq_refl eq_refl)))). }
  intros c h' (Hf & (outcomes & V & _ & Ht & _) & Hd). apply HQ.
  - destruct (track_rest _ _ _ _ _ Ht) as (L1 & HL1 & Ht'). exists L1. split; [done|]. split; [|by eexists].
    pose proof (from_trans _ _ _ _ _ _ _ I1 Hf) as Hft. done.
  - eapply from_items; [exact Hf|]. rewrite <- !dom_places. by rewrite (proj1 Hd).
Qed.

(** References to pages that are KSM pages at the end are kept, one for every
    entry of the tables; all others are as before. *)
Definition leaks (listed : list Z) (h h' : host) : Prop :=
  ∀ p fr, frames (h_mem h) !! p = Some fr → ∃ fr', frames (h_mem h') !! p = Some fr' ∧
    fr_kref fr' = fr_kref fr + (if PageKsm fr' then occ p listed else 0) ∧
    (fr_lock fr' = LockedByKsmd ↔ fr_lock fr = LockedByKsmd).

Lemma freed_leaks L0 ps js h h' : freed h0 L0 ps js [] h h' → leaks ps h0 h'.
Proof.
  intros ([Hf _] & Hk & _ & _) p fr Hp. destruct (from_frame _ _ _ _ p fr Hf Hp) as (fr' & Hp' & [F1 F2 _]).
  exists fr'. split; [done|]. split; [|rewrite F2, elem_of_nil; split; [by intros [?|?]|by left]]. rewrite F1, app_nil_r. unfold ksm_pages. rewrite occ_filter, <- Hk.
  unfold is_ksm. by rewrite Hp'.
Qed.

Context (mr_of : list (list sg_entry) → desc_entry) (map_mr : list (Z * Z) → desc_entry).
Context (array_page : Z → Z) (et_mr_of : list (list sg_entry) → error_table_desc_entry).
Context (serve : list shadow_mm → option error_table → option (list ksm_event_log)).
Abbreviation ksm_do_scan := (ksm_do_scan owner mr_of map_mr array_page et_mr_of serve).

(** The tables of the iteration: of the processes that stay, and of their
    items. *)
Definition listed_at (T : list (Z * entries)) (s : scan_st) : Prop :=
  T.*1 = reverse (slot_mm <$> mm_slots s) ∧
  ∀ t e, t ∈ T → e ∈ t.2 → places (h_ksm (sc_host s)) !! e.2 = Some (t.1, pte_va e.1).

Lemma tables_listed_at T l s :
  tables_of owner (items s) T l → T.*1 = reverse (slot_mm <$> mm_slots s) → listed_at T s.
Proof.
  intros HT Hm. split; [done|]. intros t e Ht He. by rewrite places_items, lookup_fmap, (tables_of_item _ _ _ _ _ _ HT Ht He).
Qed.

(** The release, and the end of the iteration. *)
Lemma pwp_finish L1 d n regs T r s (Q : bool → scan_st → Prop) :
  passing L1 = false → holds h0 L1 (all_pages T ++ []) (sc_host s) → tables_of owner (items s) T (shadow_pt_list s) →
  T.*1 = reverse (slot_mm <$> mm_slots s) → slots_ok s (mm_slots s) →
  Z.of_nat (size (items s)) + Z.of_nat (length (slab s)) < 2 ^ 31 →
  ksm_rmap_items s = u64 (Z.of_nat (size (items s))) →
  (∀ mm, default 0 (mm_rmap_items s !! mm) = u64 (count_of mm (items s))) →
  unlocked h0 →
  (∀ s', ready s' → leaks (all_pages T) h0 (sc_host s') → listed_at T s' → Q r s') →
  pwp (on_host (destroy_metadata d n (shadow_pt_list s) regs) ;;
       modify (with_shadows []) ;;
       modify (with_registered [] []) ;; on_host next_iteration ;; mret r) s Q.
Proof.
  intros HL1 Hh HT Hm Hs R3 R4 R5 Hul HQ. pwp_step. apply pwp_on_host.
  assert (Hnd : NoDup T.*1) by (rewrite Hm, reverse_Permutation; apply Hs).
  eapply pwp_mono.
  { apply (pwp_destroy_metadata h0 L1 d n _ regs T []); [exact Hh| |exact (tables_of_nodup _ _ _ _ HT Hnd)|].
    - eapply Forall2_impl; [exact HT|]. intros t sm Ht. split; [apply Ht|exact (table_of_ascending _ _ _ _ _ Ht)].
    - apply Forall_forall. intros t Ht. apply Forall_forall. intros e He.
      destruct (item_page _ _ _ _ _ (tables_of_item _ _ _ _ _ _ HT Ht He)) as (it & -> & E & _). exact E. }
  intros [] h' Hf. pwp_steps. apply pwp_on_host. unfold next_iteration. pwp_steps. pose proof Hf as ([Hfr (V & Ht)] & _ & E & _).
  change (places (h_ksm h')) with (places (on_iter_cnt (λ n, s32 (n + 1)) (h_ksm h'))) in E. apply HQ.
  - split; simpl.
    + eapply from_safe, from_any_items, Hfr.
    + rewrite <- HL1. exact (track_rest _ _ _ _ _ (track_counted_up _ _ _ _ _ Ht)).
    + by rewrite (places_size _ _ E).
    + by rewrite (places_size _ _ E).
    + intros mm. by rewrite (places_count _ _ E).
    + by eapply slots_ok_places.
    + done.
    + exact (unlocked_from (no_items h0) _ _ Hul Hfr).
  - exact (freed_leaks _ _ _ _ _ Hf).
  - destruct (tables_listed_at _ _ _ HT Hm) as [A B]. split; [done|]. simpl. by rewrite E.
Qed.

Lemma pwp_ksm_do_scan s :
  ready s → is_ksm_offload (h_ksm (sc_host s)) = true → h0 = sc_host s → (∀ l t L, serve l t = Some L → Forall two_pages L) →
  pwp (ksm_do_scan) s (λ ok s', ready s' ∧ ∃ T, leaks (all_pages T) h0 (sc_host s') ∧ listed_at T s' ∧ (ok = true → T ≠ [])).
Proof.
  intros Hr Hoff E0 Hserve. destruct (ready_inv (λ _, True) s I Hr) as (L0 & HpL & Hi).
  pose proof (track_server _ _ _ _ _ Hoff (iv_track _ _ _ _ _ _ Hi)) as HL0.
  rewrite <- E0 in Hi. unfold HostScan.ksm_do_scan. pwp_step.
  eapply pwp_mono.
  { apply (pwp_prepare_metadata (λ _, True) (2 ^ 31) h0 L0 False h0 ltac:(done) owner mr_of map_mr array_page et_mr_of []);
      [exact Hi|apply Hr|apply Hr]. }
  intros any s1 (T & [M1 M2 M3 M4 M5 _] & _). destruct any; simpl negb; cbv iota.
  - pwp_step. pwp_step. pwp_step. eapply inv_interfere; [apply _|exact M1|]. intros h2 Hi2 E2. set (s2 := with_host _ s1) in *.
    assert (Ei2 : items s2 = items s1) by (unfold s2; simpl; by rewrite E2).
    pwp_step. eapply pwp_retire; [exact HL0|exact Hi2|]. intros s3 Hi3 E3 F1 F2 F3. rewrite Ei2 in E3.
    change (shadow_pt_list s2) with (shadow_pt_list s1) in F2. change (mm_slots s2) with (mm_slots s1) in F1.
    change (vm_mergeable_mms s2) with (vm_mergeable_mms s1) in F3.
    assert (HT3 : tables_of owner (items s3) T (shadow_pt_list s3)) by (rewrite E3, F2; exact M3).
    assert (Hnd : NoDup T.*1) by (rewrite M4, reverse_Permutation; apply M2).
    set (res := serve _ _). pwp_step.
    eapply (pwp_mono _ _ (λ _ s4, ∃ h4 L1, s4 = with_host (λ _, h4) s3 ∧ passing L1 = false ∧ holds h0 L1 (all_pages T ++ []) h4 ∧
      items_of_ksm (h_ksm h4) = items s3)).
    { destruct res as [L|] eqn:Hres; [pwp_step|].
      - rewrite <- F2. eapply pwp_apply_log; [exact Hi3|exact HT3|exact Hnd|by eapply Hserve|].
        intros c h' (L1 & HL1 & Hh) E. pwp_step. by exists h', L1.
      - apply pwp_on_host. unfold disconnect. do 3 pwp_step. exists (with_ksm left_alone (sc_host s3)), (Alone false). split_and!; [done|done|split|done].
        + apply from_any_items, Hi3.
        + eexists. eapply track_alone, Hi3. done. }
    intros [] s4 (h4 & L1 & -> & HL1 & Hh & E4). do 2 pwp_step. pose proof Hi3 as [_ _ _ _ R3 R4 R5].
    apply (pwp_finish L1 _ _ _ T); simpl; rewrite ?E4; try done.
    + by rewrite F1.
    + rewrite F1. apply (slots_ok_same s1); [exact M2|simpl; by rewrite E4, E3|exact F3].
    + rewrite E0. apply Hr.
    + intros s' Hr' Hl Hat. split; [done|]. exists T. split_and!; [done|done|]. intros _ ->. done.
  - pwp_step. apply pwp_on_host. unfold next_iteration. pwp_steps. assert (T = []) as -> by (symmetry in M5; apply bool_decide_eq_false, dec_stable in M5; done).
    pose proof M1 as [_ F Fd Tk R3 R4 R5]. split; [split; try done|].
    + eapply from_safe, from_any_items, F.
    + rewrite <- HpL. exact (track_rest _ _ _ _ _ (track_counted_up _ _ _ _ _ Tk)).
    + by destruct M2.
    + by apply Forall2_nil_inv_l in M3.
    + refine (unlocked_from (no_items h0) _ _ _ F). rewrite E0. apply Hr.
    + exists []. split_and!; [|by split; [|intros ? ? ?%elem_of_nil]|done].
      intros p fr Hp. destruct (from_frame _ _ _ _ p fr F Hp) as (fr' & Hp' & [F1 F2 _]). exists fr'. split; [done|].
      split; [|rewrite F2, elem_of_nil; split; [by intros [?|?]|by left]]. rewrite F1, occ_nil. by destruct (PageKsm fr').
Qed.
End round.
