(* ===== verification/HostScanQuiet.v ===== *)
(** * HostScanQuiet: the scan of a quiet machine

    When nothing else runs, what the scan does to items, references and its own
    structures changes neither page tables nor what the pages are, so the walk
    sees the machine as it was at the start ([sees]). *)
From S2P Require Import Prelude Wire HashPair Growable Shadow Server HostMem HostTree HostMerge HostApply HostScan HostSafe HostMergeSafe HostTrack HostStays HostScanInv HostScanWalk.
Open Scope Z_scope.

(** Nothing else runs, and memory is as in [hb] but for references and locks. *)
Definition as_seen (hb h : host) : Prop :=
  env h = [] ∧ ptes (h_mem h) = ptes (h_mem hb) ∧ vmas (h_mem h) = vmas (h_mem hb) ∧
  exiting (h_mem h) = exiting (h_mem hb) ∧ zero_pfn (h_mem h) = zero_pfn (h_mem hb) ∧
  fr_mapping <$> frames (h_mem h) = fr_mapping <$> frames (h_mem hb).

Lemma as_seen_refl h : env h = [] → as_seen h h.
Proof. by intros ?. Qed.

Lemma as_seen_sees hb h : as_seen hb h → sees hb h.
Proof.
  intros (_ & E1 & E2 & E3 & E4 & E5). split.
  - intros mm a. unfold entry_listed. rewrite E1, E4. destruct (ptes (h_mem hb) !! (mm, a)) as [e|]; [|done].
    destruct (_ =? _); [done|]. assert (fr_mapping <$> (frames (h_mem h) !! pte_pfn e) = fr_mapping <$> (frames (h_mem hb) !! pte_pfn e)) as E.
    { by rewrite <- !lookup_fmap, E5. }
    unfold PageAnon. destruct (frames (h_mem h) !! pte_pfn e), (frames (h_mem hb) !! pte_pfn e); simpl in E; [|done..].
    injection E as ->. done.
  - intros mm. unfold walked. by rewrite E2.
  - intros mm. unfold ksm_test_exit. by rewrite E3.
Qed.

Section seen.
Context `{RbTree} (hb : host).
Abbreviation seen := (as_seen hb).
Abbreviation keeps := (stays seen).

Lemma seen_frame h p fr fr' :
  seen h → frames (h_mem h) !! p = Some fr → fr_mapping fr' = fr_mapping fr → seen (with_mem (on_frames (<[p := fr']>)) h).
Proof.
  intros (E0 & E1 & E2 & E3 & E4 & E5) Hp Em. split_and!; try done. simpl. rewrite fmap_insert, <- E5. apply insert_id.
  by rewrite lookup_fmap, Hp, Em.
Qed.

Lemma seen_ksm h f : seen h → seen (with_ksm f h).
Proof. done. Qed.
Lemma seen_errors h t a : seen h → seen (with_errors t a h).
Proof. done. Qed.

Lemma seen_upd_frame p f :
  (∀ fr, fr_mapping (f fr) = fr_mapping fr) → keeps (upd_frame p f).
Proof. intros Hf h Hh. apply pwp_upd_frame. intros fr Hp. by eapply seen_frame. Qed.
Lemma seen_interfere : keeps interfere.
Proof. intros h Hh. unfold interfere, pwp. by rewrite (proj1 Hh). Qed.
Lemma seen_get_knode n : keeps (get_knode n).
Proof. unfold get_knode. stays. Qed.
Lemma seen_get_kitem i : keeps (get_kitem i).
Proof. unfold get_kitem. stays. Qed.
Lemma seen_upd_knode n f : keeps (upd_knode n f).
Proof. unfold upd_knode, get_knode. stays. Qed.
Lemma seen_upd_kitem i f : keeps (upd_kitem i f).
Proof. unfold upd_kitem, get_kitem. stays. Qed.
Lemma seen_report t e : keeps (report t e).
Proof. intros h Hh. unfold report, pwp. by destruct (insert_error_log _ _ _ _) as [[[? ?] ?]| |]. Qed.
Hint Resolve seen_interfere seen_get_knode seen_get_kitem seen_upd_knode seen_upd_kitem seen_report : stays.

Lemma seen_clear n l : keeps (clear_items n l).
Proof. induction l as [|i l IH]; simpl; unfold count, count_merging; stays. Qed.
Hint Resolve seen_clear : stays.

Lemma seen_stale_node n p : keeps (stale_node n p).
Proof. unfold stale_node, remove_node_from_stable_tree, stable_node_dup_del, hlist_del, count_nodes, free_stable_node. stays. Qed.

(** A page with its reference, that others use as well. *)
Definition in_use (p : Z) (h : host) : Prop :=
  ∃ fr, frames (h_mem h) !! p = Some fr ∧ page_count (add_kref (-1) fr) ≠ 0.

Lemma seen_put_page p h : seen h → in_use p h → pwp (put_page p) h (λ _ h', seen h').
Proof.
  intros Hh (fr & Hp & Hc). apply pwp_upd_frame. intros fr' Hp'. rewrite Hp in Hp'. injection Hp' as <-.
  eapply seen_frame; [done|exact Hp|]. unfold drop_ref. apply Z.eqb_neq in Hc. by rewrite Hc.
Qed.

(** Without anything else running, the page is still the node's. *)
Lemma seen_get_ksm_page n h :
  seen h → pwp (get_ksm_page n GET_KSM_PAGE_LOCK) h (λ r h', seen h' ∧ ∀ p, r = Got p → in_use p h').
Proof.
  intros Hh. unfold get_ksm_page. pwp_step. apply pwp_get_knode. intros nd _. set (p := kn_kpfn nd). pwp_step. apply pwp_get_frame. intros fr Hp.
  assert (Hst : pwp (stale_node n p) h (λ r h', seen h' ∧ ∀ q, r = Got q → in_use q h')).
  { unfold stale_node. pwp_step. eapply pwp_mono; [refine (_ : pwp _ _ (λ _, seen))|].
    - assert (keeps (remove_node_from_stable_tree n)) as Hk; [|by apply Hk].
      unfold remove_node_from_stable_tree, stable_node_dup_del, hlist_del, count_nodes, free_stable_node. stays.
    - intros [] h1 Hh1. do 2 pwp_step. pwp_step. eapply (pwp_mono _ _ (λ _, seen)); [|intros; by pwp_step].
      destruct (is_ksm_offload _); [by apply seen_report|by pwp_step]. }
  destruct (is_expected n fr) eqn:He; [|exact Hst]. simpl negb. cbv iota. pwp_step. unfold interfere at 1, pwp at 1. rewrite (proj1 Hh).
  pwp_step. apply pwp_get_frame. intros fr1 Hp1. rewrite Hp in Hp1. injection Hp1 as <-.
  destruct (Z.eqb_spec (page_count fr) 0) as [|Hc]; [exact Hst|]. pwp_step. apply pwp_upd_frame. intros fr1 Hp1.
  rewrite Hp in Hp1. injection Hp1 as <-. rewrite He. simpl negb. cbv iota zeta.
  assert (Hh1 : seen (with_mem (on_frames (<[p := add_kref 1 fr]>)) h)) by by eapply seen_frame.
  pwp_step. unfold lock_page. pwp_step. apply pwp_get_frame. intros fr2 _. pwp_step. apply pwp_halt_if. intros _.
  pwp_step. unfold interfere, pwp at 1. rewrite (proj1 Hh1). apply pwp_upd_frame. simpl. rewrite lookup_insert_eq. intros fr3 [= <-].
  pwp_step. apply pwp_get_frame. simpl. rewrite lookup_insert_eq. intros fr4 [= <-].
  change (is_expected n (set_lock LockedByKsmd (add_kref 1 fr))) with (is_expected n fr). rewrite He. simpl negb. cbv iota. pwp_step.
  split; [|].
  - eapply (seen_frame _ p (add_kref 1 fr)); [exact Hh1|simpl; by rewrite lookup_insert_eq|done].
  - intros q [= <-]. exists (set_lock LockedByKsmd (add_kref 1 fr)). split; [simpl; by rewrite lookup_insert_eq|].
    unfold page_count in *. simpl. lia.
Qed.

Lemma in_use_ksm p f h : in_use p h → in_use p (with_ksm f h).
Proof. done. Qed.

Lemma seen_remove i : keeps (remove_rmap_item_from_tree i).
Proof.
  intros h Hh. unfold remove_rmap_item_from_tree. pwp_step. apply pwp_get_kitem. intros it _.
  destruct (has_flag STABLE_FLAG _); cycle 1.
  { assert (keeps (if has_flag UNSTABLE_FLAG (ki_address it)
      then h ← get;
           let age := wrap_u 8 (scan_seqnr (h_ksm h) - ki_address it) in
           halt_if (1 <? age) "BUG_ON" ;;
           whenM (age =? 0) (modify (with_ksm (on_unstable (rb_erase i)))) ;;
           count 0 0 (-1) 0 ;;
           upd_kitem i mask_address
      else mret tt)) as Hk; [unfold count; stays|by apply Hk]. }
  do 2 pwp_step. pwp_step. eapply pwp_mono; [by apply seen_get_ksm_page|]. intros [p| |] h1 [Hh1 Hu]; [|by pwp_step..].
  specialize (Hu p eq_refl). pwp_step. unfold hlist_del. apply pwp_upd_knode. intros nd _.
  pwp_step. unfold unlock_page. apply pwp_upd_frame. intros fr Hp. simpl in Hp. pwp_step. eapply pwp_mono.
  { apply seen_put_page.
    - by eapply (seen_frame (with_ksm _ h1) p fr).
    - destruct Hu as (fr' & Hp' & Hc). rewrite Hp in Hp'. injection Hp' as <-. exists (set_lock Unlocked fr).
      split; [simpl; by rewrite lookup_insert_eq|done]. }
  intros [] h2 Hh2. pwp_step. apply pwp_get_knode. intros nd' _.
  match goal with |- pwp ?m _ _ => assert (keeps m) as Hk; [unfold count, count_merging; stays|by apply Hk] end.
Qed.

#[export] Instance calm_seen : Calm seen.
Proof.
  split; [by apply seen_interfere| | |intros; by apply seen_remove|by intros|by intros].
  - intros p. by apply seen_upd_frame.
  - intros p fr h Hh Hp Hc. apply seen_put_page; [done|by exists fr].
Qed.
End seen.
