(* ===== verification/HostUnmerge.v ===== *)
(** * HostUnmerge: processes come and go, and everything is unmerged

    The list of processes stays sound when they are added and removed.
    [run_store] with [KSM_RUN_UNMERGE]: the pages of every process are
    unshared, its items freed, and the stable tree dissolved node by node, but
    for busy ones.  The daemon is at rest before and after. *)
From S2P Require Import Prelude Wire HashPair Growable Shadow Scatter Server HostMem HostTree HostTreeInv HostMerge HostApply HostScan HostDaemon HostSafe HostMergeSafe HostApplySafe HostTrack HostTrackInsert HostTrackMerge HostStays HostItems HostScanInv HostScanWalk HostScanMm HostScanRound HostScanIter.
Open Scope Z_scope.

(** ** Processes come and go *)
(** What does not touch the host, the items and their counters. *)
Lemma ready_slots s slots f :
  ready s → slots_ok (with_mergeable f (with_slots slots s)) slots → ready (with_mergeable f (with_slots slots s)).
Proof. intros [R1 R2 R3 R4 R5 R6 R7 R8] Hs. by split. Qed.

(** The slots in another order. *)
Lemma slots_ok_perm s slots slots' : slots ≡ₚ slots' → slots_ok s slots → slots_ok s slots'.
Proof.
  intros Hp [S1 S2 S3 S4]. assert (Hp' : slot_mm <$> slots ≡ₚ slot_mm <$> slots') by by rewrite Hp.
  split; [by rewrite <- Hp'|by rewrite <- Hp| |].
  - intros i v Hi. rewrite <- Hp'. by eapply S3.
  - rewrite S4. apply set_eq. intros x. by rewrite !elem_of_list_to_set, Hp'.
Qed.

(** [del_slot] takes one slot out. *)
Lemma del_slot_split slots slot :
  NoDup (slot_mm <$> slots) → slot ∈ slots →
  ∃ l1 l2, slots = l1 ++ slot :: l2 ∧ del_slot (slot_mm slot) slots = l1 ++ l2.
Proof.
  intros Hnd (l1 & l2 & ->)%list_elem_of_split. exists l1, l2. split; [done|].
  rewrite fmap_app, fmap_cons in Hnd. apply NoDup_app in Hnd as (_ & Hd & [Hn _]%NoDup_cons).
  assert (Hall : ∀ l, slot_mm slot ∉ slot_mm <$> l → del_slot (slot_mm slot) l = l).
  { intros l Hl. unfold del_slot. induction l as [|x l IH]; [done|]. rewrite filter_cons. rewrite decide_True.
    - f_equal. apply IH. intros Hin. by apply Hl, list_elem_of_further.
    - intros E. apply Hl. rewrite <- E. apply list_elem_of_here. }
  unfold del_slot in *. rewrite filter_app, filter_cons, decide_False by tauto. rewrite !Hall; [done|done|].
  intros Hin. apply (Hd _ Hin), list_elem_of_here.
Qed.

Lemma mm_slot_lookup_some slots mm slot : mm_slot_lookup slots mm = Some slot → slot ∈ slots ∧ slot_mm slot = mm.
Proof.
  unfold mm_slot_lookup. destruct (list_find _ slots) as [[n sl]|] eqn:E; [|done]. intros [= <-].
  apply list_find_Some in E as (Hn & Hm & _). split; [by eapply list_elem_of_lookup_2|done].
Qed.

Section daemon.
Context `{RbTree} `{Memcmp} `{MmFault}.

Lemma ready_enter allocated mm s :
  ready s → mm ∉ vm_mergeable_mms s → pwp (__ksm_enter allocated mm) s (λ _ s', ready s').
Proof.
  intros Hr Hm. unfold __ksm_enter. destruct allocated; simpl negb; cbv iota; [|by pwp_step]. pwp_steps.
  apply (ready_slots s (mm_slots s ++ [MmSlot mm []]) (λ S, {[ mm ]} ∪ S)); [done|].
  destruct (rd_slots _ Hr) as [S1 S2 S3 S4]. rewrite S4, elem_of_list_to_set in Hm. split; simpl.
  - rewrite fmap_app. apply NoDup_app. split_and!; [done| |apply NoDup_singleton]. intros x Hx ->%list_elem_of_singleton. done.
  - apply Forall_app. split; [done|]. apply Forall_singleton. split; [|constructor]. intros i. split; [by intros ?%elem_of_nil|].
    intros (a & p & Hi). exfalso. by apply Hm, (S3 _ _ Hi).
  - intros i v Hi. rewrite fmap_app. apply S3 in Hi. set_solver.
  - rewrite S4, fmap_app, list_to_set_app_L. simpl. set_solver.
Qed.

Lemma ready_exit mm s : ready s → pwp (__ksm_exit mm) s (λ _ s', ready s').
Proof.
  intros Hr. unfold __ksm_exit. do 2 pwp_step. destruct (mm_slot_lookup (mm_slots s) mm) as [slot|] eqn:Hl; [|by pwp_step].
  apply mm_slot_lookup_some in Hl as [Hin <-]. pose proof (rd_slots _ Hr) as Hs.
  destruct (del_slot_split _ _ (so_nodup _ _ Hs) Hin) as (l1 & l2 & E & Ed). destruct slot as [mm l]. simpl in *.
  destruct l as [|i l]; pwp_steps; rewrite Ed.
  - apply (ready_slots s (l1 ++ l2) (λ S, S ∖ {[ mm ]})); [done|]. rewrite E in Hs.
    eapply (slots_drop s _ l1 mm []); [done|apply only_of_refl| |done].
    pose proof (so_owns _ _ Hs) as [_ [Ho _]%Forall_cons]%Forall_app. exact Ho.
  - pose proof (ready_slots s (MmSlot mm (i :: l) :: l1 ++ l2) (λ S, S) Hr) as Hrs. apply Hrs.
    apply (slots_ok_perm _ (mm_slots s)); [by rewrite E, Permutation_middle|].
    by eapply slots_ok_same.
Qed.
End daemon.

(** ** Unmerging *)
Section unmerge.
#[local] Set Default Proof Using "Type*".
Context `{RbTree} `{Memcmp} `{MmFault}.
Context (h0 : host) (L0 : mode).
Abbreviation inv := (scan_inv (λ _, True) (2 ^ 31) h0 L0).

(** ** Unsharing pages *)

(** KSM's structures are [k]. *)
Definition only_memory (δ : list Z) (V : gmap loc (loc * Z)) (k : ksm) (h : host) : Prop :=
  from (no_items h0) δ [] h ∧ quietly L0 [] V 0 k h.

Lemma memory_break δ V k fuel a : stays (only_memory δ V k) (break_ksm fuel a).
Proof.
  intros h [Hf Hq]. exact (pwp_and _ _ _ _ (keeps_break_ksm _ _ _ fuel a h Hf) (quiet_break_ksm _ _ V 0 k fuel a h Hq)).
Qed.
Lemma memory_interfere δ V k : stays (only_memory δ V k) interfere.
Proof.
  intros h [Hf Hq]. exact (pwp_and _ _ _ _ (keeps_interfere _ _ _ h Hf) (quiet_interfere L0 [] V 0 k h Hq)).
Qed.
Hint Resolve memory_break memory_interfere : stays.

Lemma memory_unmerge_pages δ V k mm addrs signals : stays (only_memory δ V k) (unmerge_ksm_pages mm addrs signals).
Proof. revert signals. induction addrs as [|a addrs IH]; intros signals; cbn [unmerge_ksm_pages unmerge_areas]; stays. Qed.
Hint Resolve memory_unmerge_pages : stays.

Lemma memory_unmerge_areas δ V k mm areas signals : stays (only_memory δ V k) (unmerge_areas mm areas signals).
Proof. revert signals. induction areas as [|v areas IH]; intros signals; cbn [unmerge_ksm_pages unmerge_areas]; stays. Qed.

(** In the state of the daemon. *)
Lemma inv_memory {A} (m : M host A) δ s (Q : A → scan_st → Prop) :
  inv δ s → (∀ V k, stays (only_memory δ V k) m) →
  (∀ a h', inv δ (with_host (λ _, h') s) → h_ksm h' = h_ksm (sc_host s) → Q a (with_host (λ _, h') s)) →
  pwp (on_host m) s Q.
Proof using H L0 h0.
  intros Hi Hm HQ. pose proof Hi as [_ I1 If I2 _ _ _].
  eapply (inv_on_host _ _ _ _ _ δ δ s (λ _ h', h_ksm h' = h_ksm (sc_host s))); [exact Hi| |intros a h' ? _; apply HQ; done].
  eapply pwp_mono; [exact (Hm _ _ (sc_host s) (conj I1 (conj I2 eq_refl)))|].
  intros a h' [Hf [Ht E]]. split; [|done]. split_and!; [done|done|done|by eexists|by rewrite E].
Qed.

(** ** The processes *)

(** What becomes of a slot: its items are gone. *)
Lemma pwp_unmerge_mm signals mm l done slots s :
  inv [] s → slots_ok s (done ++ MmSlot mm l :: slots) →
  pwp (unmerge_mm signals (MmSlot mm l)) s (λ r s', inv [] s' ∧ shadow_pt_list s' = shadow_pt_list s ∧ mm_slots s' = mm_slots s ∧
    match r with
    | inl err => err ≠ 0 ∧ slots_ok s' (done ++ MmSlot mm l :: slots)
    | inr kept => slots_ok s' (done ++ option_list kept ++ slots) ∧ (∀ sl, kept = Some sl → rmap_list sl = [])
    end).
Proof.
  intros Hi Hs. unfold unmerge_mm. cbn [slot_mm rmap_list]. do 2 pwp_step.
  pwp_step. apply (pwp_mono _ _ (λ _ s1, inv [] s1 ∧ items s1 = items s ∧ tables s1 = tables s)).
  { destruct (ksm_test_exit _ _); [by pwp_step|]. eapply inv_memory; [exact Hi|intros; apply memory_unmerge_areas|].
    intros err h' Hi' E. split_and!; [exact Hi'|simpl; by rewrite E|done]. }
  intros err s1 (Hi1 & E1 & Et1). unfold tables in Et1. injection Et1 as T1 T2 T3 T4 T5.
  assert (Hs1 : slots_ok s1 (done ++ MmSlot mm l :: slots)) by by eapply slots_ok_same.
  destruct (Z.eqb_spec err 0) as [->|Hne]; simpl negb; cbv iota; [|by pwp_step].
  pwp_step. pose proof (so_owns _ _ Hs1) as [_ [Ho _]%Forall_cons]%Forall_app. simpl in Ho.
  apply (pwp_remove_trailing (λ _, True) (2 ^ 31) h0 L0 mm [] l []); [done|exact Ho|].
  intros s2 Hi2 Ho2 Hof Es Et2. unfold tables in Et2. injection Et2 as U1 U2 U3 U4 U5. do 2 pwp_step.
  destruct (ksm_test_exit _ _); pwp_steps.
  - split_and!; [by destruct Hi2|simpl; congruence|simpl; congruence| |done].
    apply (slots_drop s1 _ done mm l); [exact Hs1|exact Hof|exact Ho2|simpl; by rewrite U3].
  - split_and!; [done|congruence|congruence| |by intros sl [= <-]]. simpl. by eapply slots_keep.
Qed.

Lemma pwp_unmerge_mms signals slots done s :
  inv [] s → slots_ok s (done ++ slots) →
  pwp (unmerge_mms signals slots) s (λ r s', inv [] s' ∧ shadow_pt_list s' = shadow_pt_list s ∧ mm_slots s' = mm_slots s ∧
    slots_ok s' (done ++ r.2) ∧ (r.1 = 0 → Forall (λ sl, rmap_list sl = []) r.2)).
Proof.
  revert signals done s. induction slots as [|[mm l] slots IH]; intros signals done s Hi Hs; cbn [unmerge_mms].
  { pwp_step. by split_and!. }
  pwp_step. eapply pwp_mono; [by apply pwp_unmerge_mm|]. intros [err|kept] s1 (Hi1 & E1 & F1 & Hs1).
  - pwp_step. destruct Hs1 as [Hne Hs1]. by split_and!.
  - destruct Hs1 as [Hs1 Hk]. pwp_step. eapply inv_interfere; [apply _|exact Hi1|]. intros h2 Hi2 E2. pwp_step.
    rewrite app_assoc in Hs1.
    eapply pwp_mono; [apply (IH _ (done ++ option_list kept)); [exact Hi2|]|].
    { eapply slots_ok_same; [exact Hs1|simpl; by rewrite E2|done]. }
    intros [err rest] s3 (Hi3 & E3 & F3 & Hs3 & Hz). pwp_step. simpl in *. rewrite app_assoc.
    split_and!; [done|congruence|congruence|done|]. intros Hr. apply Forall_app. split; [|by apply Hz].
    destruct kept as [sl|]; constructor; [by apply Hk|constructor].
Qed.
End unmerge.

(** ** The stable tree *)
Section dissolve.
#[local] Set Default Proof Using "Type*".
Context `{RbTree} `{Memcmp} `{MmFault}.
Context (h0 : host) (L0 : mode).

(** The daemon keeps what it had at [h0]. *)
Definition resting (h : host) : Prop := from h0 [] [] h ∧ ∃ V, track L0 [] V 0 h.

Lemma keeps_remove_stable_node n h : from h0 [] [] h → pwp (remove_stable_node n) h (λ _ h', from h0 [] [] h').
Proof using H.
  intros Hk. unfold remove_stable_node. pwp_step. eapply pwp_mono; [by apply (keeps_get_ksm_page h0 [] [])|].
  intros [q| |] h1 Hg; [|by pwp_step..]. destruct Hg as (Hk1 & Hn & Hq). specialize (Hn ltac:(done)).
  pwp_step. apply pwp_get_frame. intros fr _. pwp_step. apply (pwp_mono _ _ (λ _ h', from h0 [q] [q] h')).
  { destruct (page_mapped fr); [by pwp_step|]. apply pwp_seq. pwp_step.
    eapply pwp_mono; [by apply (keeps_forget_node h0 n q)|]. intros. by pwp_step. }
  intros err h2 Hk2. pwp_step. eapply pwp_mono; [by apply keeps_unlock_page|]. intros [] h3 Hk3.
  pwp_step. eapply pwp_mono; [by apply keeps_put_page|]. intros [] h4 Hk4. by pwp_step.
Qed.

(** The node is gone, or busy. *)
Definition gone_or_busy (n : loc) (k : ksm) (err : Z) (k' : ksm) : Prop :=
  (err = 0 ∧ dropped 0 n k k') ∨ (err = - EBUSY ∧ k' = k).

Lemma track_remove_stable_node V n nd h :
  safe h → track L0 [] V 0 h → knodes (h_ksm h) !! n = Some nd → is_stable_node_chain nd = false →
  pwp (remove_stable_node n) h (λ err h', (∃ V', track L0 [] V' 0 h') ∧ gone_or_busy n (h_ksm h) err (h_ksm h')).
Proof.
  intros Hsf Ht Hn Hc. unfold remove_stable_node.
  pwp_step. eapply pwp_mono; [by apply track_get_ksm_page|]. intros [q| |] h1 Hg; simpl in Hg.
  - destruct Hg as (Ht1 & E1 & nd1 & Hn1 & _ & Hq). rewrite Hn in Hn1. injection Hn1 as <-. pwp_step. apply pwp_get_frame. intros fr _.
    pwp_step. apply (pwp_mono _ _ (λ err h', (∃ V', track L0 [] V' 0 h') ∧ gone_or_busy n (h_ksm h) err (h_ksm h'))).
    { destruct (page_mapped fr); [pwp_step; split; [by exists V|by right]|]. apply pwp_seq. pwp_step.
      eapply pwp_mono; [eapply (track_forget_node L0 [] V 0 n nd q); [done|by rewrite E1|done|done]|].
      intros [] h2 [Ht2 Hd]. pwp_step. rewrite E1 in Hd. split; [by eexists|by left]. }
    intros err h2 [[V2 Ht2] Hd]. pwp_step. eapply pwp_mono; [by apply track_unlock_page|]. intros [] h3 [Ht3 E3].
    pwp_step. eapply pwp_mono; [by apply track_put_page|]. intros [] h4 [Ht4 E4]. pwp_step. rewrite E4, E3. split; [by exists V2|done].
  - destruct Hg as [Ht1 Hd]. pwp_step. split; [by exists V|by left].
  - by destruct Hg as [? _].
Qed.

Lemma rest_remove_stable_node n nd h :
  resting h → knodes (h_ksm h) !! n = Some nd → is_stable_node_chain nd = false →
  pwp (remove_stable_node n) h (λ err h', resting h' ∧ gone_or_busy n (h_ksm h) err (h_ksm h')).
Proof.
  intros [Hk (V & Ht)] Hn Hc. pose proof (from_safe _ _ _ _ Hk) as Hsf.
  eapply pwp_mono; [exact (pwp_and _ _ _ _ (keeps_remove_stable_node n h Hk) (track_remove_stable_node V n nd h Hsf Ht Hn Hc))|].
  by intros err h' (Hk' & Ht' & Hd).
Qed.

(** The duplicates of a chain: those still to go. *)
Definition chain_left (c : loc) (l : list loc) (h : host) : Prop :=
  ∃ cd, knodes (h_ksm h) !! c = Some cd ∧ is_stable_node_chain cd = true ∧ kn_hlist cd = l.

Lemma chain_left_dropped r c d l h h' :
  chain_left c (d :: l) h → ksm_ok r (h_ksm h) → dropped r d (h_ksm h) (h_ksm h') → chain_left c l h'.
Proof.
  intros (cd & A & B & C) Hk (_ & _ & HN & _). destruct (ko_chain _ _ Hk c cd A B) as (_ & Hnd & Hall).
  rewrite C in Hnd, Hall. apply NoDup_cons in Hnd as [Hd _].
  assert (c ≠ d) as Hcd. { intros ->. destruct (Hall d ltac:(set_solver)) as (dd & E & _ & F). congruence. }
  exists (drop_dup d cd). rewrite HN, lookup_delete_ne, lookup_fmap, A by done.
  destruct (drop_dup_same d cd) as (_ & _ & _ & E & _). split_and!; [done|congruence|].
  unfold drop_dup. rewrite B. simpl. rewrite C, filter_cons, decide_False by tauto.
  clear -Hd. induction l as [|y l IH]; [done|]. rewrite filter_cons, decide_True by set_solver. f_equal. apply IH. set_solver.
Qed.

Lemma rest_remove_dups c l h :
  resting h → chain_left c l h →
  pwp (remove_dups l) h (λ busy h', resting h' ∧ (size (knodes (h_ksm h')) ≤ size (knodes (h_ksm h)))%nat ∧
    (busy = false → chain_left c [] h')).
Proof.
  revert h. induction l as [|d l IH]; intros h Hr Hon; cbn [remove_dups]; [by pwp_step|].
  pose proof Hon as (cd & A & B & C). pose proof Hr as [_ (V & Ht)].
  destruct (ko_chain _ _ (tk_ksm _ _ _ _ _ Ht) c cd A B) as (_ & _ & Hall).
  destruct (Hall d ltac:(rewrite C; set_solver)) as (nd & Hn & _ & Hc).
  pwp_step. eapply pwp_mono; [by eapply rest_remove_stable_node|]. intros err h1 [Hr1 [[-> Hd]|[-> E]]].
  - change (negb (0 =? 0)) with false. cbv iota. assert (is_Some (knodes (h_ksm h) !! d)) as Hsome by by exists nd.
    pose proof (dropped_size _ _ _ _ Hsome Hd). eapply pwp_mono; [apply IH; [done|]|].
    { exact (chain_left_dropped 0 c d l h h1 Hon (tk_ksm _ _ _ _ _ Ht) Hd). }
    intros busy h2 (Hr2 & Hsz & Hb). split_and!; [done|lia|done].
  - change (negb (- EBUSY =? 0)) with true. cbv iota. pwp_step. rewrite E. by split_and!.
Qed.

(** A node of the tree: it and its duplicates are gone, or one is busy. *)
Lemma rest_remove_chain n h :
  resting h → is_Some (knodes (h_ksm h) !! n) →
  pwp (remove_stable_node_chain n) h (λ busy h', resting h' ∧
    (busy = false → (size (knodes (h_ksm h')) < size (knodes (h_ksm h)))%nat)).
Proof.
  intros Hr [nd Hn]. unfold remove_stable_node_chain. pwp_step. apply pwp_get_knode. intros nd' Hn'. rewrite Hn in Hn'. injection Hn' as <-.
  destruct (is_stable_node_chain nd) eqn:Hc; simpl negb; cbv iota.
  - pose proof Hr as [_ (V & Ht)]. destruct (ko_chain _ _ (tk_ksm _ _ _ _ _ Ht) n nd Hn Hc) as (_ & Hnd & _).
    pwp_step. eapply pwp_mono; [apply (rest_remove_dups n); [done|by exists nd]|]. intros busy h1 (Hr1 & Hsz & Hb).
    destruct busy; [by pwp_step|]. specialize (Hb eq_refl). pwp_step. apply pwp_get_knode. intros nd1 Hn1.
    pwp_step. apply pwp_halt_if. intros Hl. apply negb_false_iff, bool_decide_eq_true in Hl.
    destruct Hb as (cd & A & B & _). rewrite Hn1 in A. injection A as <-. destruct Hr1 as [Hk1 (V1 & Ht1)].
    pwp_step. eapply pwp_mono; [exact (pwp_and _ _ _ _ (keeps_free_chain h0 [] [] n h1 Hk1) (track_free_chain L0 [] V1 0 n h1 Ht1 (λ cd E, ltac:(rewrite Hn1 in E; by injection E as <-))))|].
    intros [] h2 (Hk2 & Ht2 & Hlt & _). pwp_step. split; [split; [done|by exists V1]|lia].
  - pwp_step. eapply pwp_mono; [by eapply rest_remove_stable_node|]. intros err h1 [Hr1 [[-> Hd]|[-> E]]]; pwp_step; (split; [done|]).
    + intros _. eapply dropped_size; [by exists nd|exact Hd].
    + done.
Qed.

(** With a node less every round, the loop ends. *)
Lemma rest_remove_all fuel h :
  resting h → (size (knodes (h_ksm h)) ≤ fuel)%nat →
  pwp (remove_all_stable_nodes fuel) h (λ r h', resting h' ∧
    ((r = Some 0 ∧ root_stable_tree (h_ksm h') = RbLeaf) ∨ r = Some (- EBUSY))).
Proof.
  revert h. induction fuel as [|fuel IH]; intros h Hr Hsz; cbn [remove_all_stable_nodes]; do 2 pwp_step.
  all: destruct (root_stable_tree (h_ksm h)) as [|tl n tr] eqn:Et; [pwp_step; split; [done|by left]|].
  all: assert (is_Some (knodes (h_ksm h) !! n)) as Hn by
    (destruct Hr as [_ (V & Ht)]; destruct (proj1 (ko_tree _ _ (tk_ksm _ _ _ _ _ Ht) n) ltac:(rewrite Et; simpl; set_solver)) as (nd & Hnd & _); by exists nd).
  - exfalso. destruct Hn as [nd Hn]. assert (size (knodes (h_ksm h)) = 0)%nat as Hz by lia. apply map_size_empty_inv in Hz.
    by rewrite Hz in Hn.
  - pwp_step. eapply pwp_mono; [by apply rest_remove_chain|]. intros busy h1 [Hr1 Hlt].
    destruct busy; [pwp_step; split; [done|by right]|]. specialize (Hlt eq_refl). destruct Hr1 as [Hk1 (V1 & Ht1)].
    pwp_step. eapply pwp_mono; [exact (pwp_and _ _ _ _ (keeps_interfere h0 [] [] h1 Hk1) (track_interfere L0 [] V1 0 h1 Ht1))|].
    intros [] h2 (Hk2 & Ht2 & E2). apply IH; [split; [done|by exists V1]|]. rewrite E2. lia.
Qed.
End dissolve.

(** ** All of it *)
Lemma inv_ready h0 L0 s :
  passing L0 = false → unlocked h0 → scan_inv (λ _, True) (2 ^ 31) h0 L0 [] s → slots_ok s (mm_slots s) → shadow_pt_list s = [] → ready s.
Proof.
  intros HL Hu [I0 I1 If I2 I3 I4 I5] Hs Hl.
  split; try done; [by eapply from_safe|by exists L0|exact (unlocked_from (no_items h0) _ _ Hu I1)].
Qed.

(** A change of the host that leaves the items. *)
Lemma ready_host s h' :
  ready s → safe h' → unlocked h' → (∃ L0, passing L0 = false ∧ track L0 [] (sharing (h_ksm h')) 0 h') → items_of_ksm (h_ksm h') = items s →
  ready (with_host (λ _, h') s).
Proof.
  intros [R1 R2 R3 R4 R5 R6 R7 R8] Hsf Hu Ht E. split; simpl; rewrite ?E; try done. by eapply slots_ok_same.
Qed.

(** No slot has items left. *)
Definition all_unmerged (s : scan_st) : Prop :=
  Forall (λ sl, rmap_list sl = []) (mm_slots s) ∧ items s = ∅ ∧ ksm_rmap_items s = 0.

Lemma slots_unmerged s : ready s → Forall (λ sl, rmap_list sl = []) (mm_slots s) → all_unmerged s.
Proof.
  intros Hr Hl. assert (items s = ∅) as E.
  { apply map_empty. intros i. destruct (items s !! i) as [v|] eqn:Hi; [|done]. exfalso.
    pose proof (so_items _ _ (rd_slots _ Hr) i v Hi) as (sl & E & Hsl)%list_elem_of_fmap.
    pose proof (so_owns _ _ (rd_slots _ Hr)) as Ho. rewrite Forall_forall in Ho, Hl. specialize (Ho sl Hsl). rewrite (Hl sl Hsl) in Ho.
    destruct v as [[m a] p]. simpl in E. subst m. eapply not_elem_of_nil, Ho. by exists a, p. }
  split_and!; [done|done|]. by rewrite (rd_count _ Hr), E, map_size_empty.
Qed.

(** The number of the pass may be anything when no item is left. *)
Lemma track_reset L0 es V r h : kitems (h_ksm h) = ∅ → passing L0 = false → track L0 es V r h → track L0 es V r (reset_seqnr h).
Proof.
  intros Hk HL [[] T2 T3 T4 T5 T6 [_ _ U3 U4] T8]. split; try done.
  assert (E : unstables (kitems (h_ksm h)) = ∅) by by rewrite Hk.
  split; simpl; rewrite ?E; [intros i a Ha; by rewrite lookup_empty in Ha| |by rewrite U3, E|done].
  rewrite HL. intros i a Ha. by rewrite lookup_empty in Ha.
Qed.

Section all.
#[local] Set Default Proof Using "All".
Context `{RbTree} `{Memcmp} `{MmFault}.

Lemma ready_unmerge_all signals s :
  ready s → pwp (unmerge_and_remove_all_rmap_items signals) s (λ err s', ready s' ∧ (err = 0 → all_unmerged s')).
Proof.
  intros Hr. destruct (ready_inv (λ _, True) s I Hr) as (L0 & HL & Hi). unfold unmerge_and_remove_all_rmap_items. do 2 pwp_step.
  pwp_step. eapply pwp_mono; [apply (pwp_unmerge_mms (sc_host s) L0 signals (mm_slots s) []); [exact Hi|apply Hr]|].
  intros [err slots] s1 (Hi1 & E1 & _ & Hs1 & Hz). simpl in *. rewrite (rd_tables _ Hr) in E1. do 2 pwp_step. set (s2 := with_slots slots s1).
  assert (Hr2 : ready s2).
  { apply (inv_ready (sc_host s) L0); [done|apply Hr|by destruct Hi1|by eapply slots_ok_same|done]. }
  destruct (Z.eqb_spec err 0) as [->|Hne]; simpl negb; cbv iota; [|by pwp_step].
  specialize (Hz eq_refl). pose proof (slots_unmerged s2 Hr2 Hz) as (_ & Hempty & _). destruct (rd_track _ Hr2) as (L2 & HL2 & Ht2). pose proof (rd_safe _ Hr2) as Hsf2.
  do 2 pwp_step. pwp_step. apply pwp_on_host. eapply pwp_mono.
  { apply (pwp_and _ _ _ _ (rest_remove_all (sc_host s2) L2 _ _ (conj (from_refl _ Hsf2) (ex_intro _ _ Ht2)) (Nat.le_refl _))
      (items_remove_all (places (h_ksm (sc_host s2))) _ _ (sc_host s2) (conj eq_refl eq_refl))). }
  intros r h3 ([[Hf (V & Ht)] _] & [Hd%(f_equal dom) _]). rewrite !dom_places in Hd. pwp_step. apply pwp_on_host. do 2 pwp_step.
  assert (Hr3 : ready (with_host (λ _, reset_seqnr h3) s2)).
  { destruct (from_safe _ _ _ _ Hf) as [S1 S2 S3]. destruct (track_rest _ _ _ _ _ Ht) as (L3 & HL3 & Ht3).
    apply ready_host; [done|by split|exact (unlocked_from _ _ _ (rd_unlocked _ Hr2) Hf)| |exact (from_items _ _ _ _ Hf Hd)].
    exists L3. split; [congruence|]. apply track_reset; [|congruence|done]. apply (fmap_empty_inv ident). rewrite <- Hempty. exact (from_items _ _ _ _ Hf Hd). }
  split; [exact Hr3|]. intros _. by apply slots_unmerged.
Qed.

Lemma ready_run_store signals run flags s :
  ready s → pwp (run_store signals run flags) s (λ r s', ready s' ∧
    (run ≠ flags → 0 ≤ flags → Z.land flags KSM_RUN_UNMERGE ≠ 0 → r.2 = 0 → all_unmerged s')).
Proof.
  intros Hr. unfold run_store. destruct (Z.ltb_spec KSM_RUN_UNMERGE flags).
  { pwp_step. split; [done|]. intros _ _ _. done. }
  destruct (Z.eqb_spec run flags); [by pwp_step|]. destruct (Z.eqb_spec (Z.land flags KSM_RUN_UNMERGE) 0); [by pwp_step|].
  pwp_step. eapply pwp_mono; [by apply ready_unmerge_all|]. intros err s' [Hr' Hu]. pwp_step. split; [done|]. intros _ _ _.
  destruct (Z.eqb_spec err 0) as [->|]; simpl; [by intros _; apply Hu|done].
Qed.

(** What [run] is after. *)
Lemma run_store_run signals run s :
  run ≠ KSM_RUN_UNMERGE → pwp (run_store signals run KSM_RUN_UNMERGE) s (λ r _, if r.2 =? 0 then r.1 = KSM_RUN_UNMERGE else r.1 = KSM_RUN_STOP).
Proof.
  intros Hrun. unfold run_store. change (KSM_RUN_UNMERGE <? KSM_RUN_UNMERGE) with false. cbv iota.
  destruct (Z.eqb_spec run KSM_RUN_UNMERGE); [done|]. change (Z.land KSM_RUN_UNMERGE KSM_RUN_UNMERGE =? 0) with false. cbv iota.
  pwp_step. eapply pwp_mono; [apply pwp_true|]. intros err s' _. pwp_step. destruct (Z.eqb_spec err 0) as [->|E]; [done|].
  simpl. by destruct (Z.eqb_spec err 0).
Qed.

Lemma ready_interfere s : ready s → pwp (on_host interfere) s (λ _ s', ready s').
Proof.
  intros Hr. destruct (rd_track _ Hr) as (L0 & HL & Ht). apply pwp_on_host.
  eapply pwp_mono; [exact (pwp_and _ _ _ _ (keeps_interfere _ [] [] _ (from_refl _ (rd_safe _ Hr))) (track_interfere _ _ _ _ _ Ht))|].
  intros [] h' (Hf & Ht' & E). apply ready_host; [done|by eapply from_safe|exact (unlocked_from _ _ _ (rd_unlocked _ Hr) Hf)|exists L0; by rewrite E|by rewrite E].
Qed.

Lemma ready_madvise compatible allocated signals mm v a e ad flag s :
  ready s → pwp (ksm_madvise compatible allocated signals mm v a e ad flag) s (λ _ s', ready s').
Proof.
  intros Hr. unfold ksm_madvise. destruct ad.
  - destruct (vm_mergeable v); [by pwp_step|]. destruct compatible; simpl negb; cbv iota; [|by pwp_step].
    do 2 pwp_step. pwp_step. apply (pwp_mono _ _ (λ _ s', ready s')); [|intros; by pwp_step].
    destruct (decide (mm ∈ vm_mergeable_mms s)); [by pwp_step|]. by apply ready_enter.
  - destruct flag; simpl negb; cbv iota; [|by pwp_step]. pwp_step. apply (pwp_mono _ _ (λ _ s', ready s')); [|intros; by pwp_step].
    case_bool_decide; [|by pwp_step]. destruct (ready_inv (λ _, True) s I Hr) as (L0 & HL & Hi).
    eapply (inv_memory (sc_host s) L0); [exact Hi|intros; apply memory_unmerge_pages|].
    intros err h' Hi' E. apply (inv_ready (sc_host s) L0); [done|apply Hr|done| |apply Hr].
    eapply slots_ok_same; [apply Hr|simpl; by rewrite E|done].
Qed.
End all.
