(* ===== verification/LocalScanInv.v ===== *)
(** * LocalScanInv: a slot of a pass without a server

    The steps of LocalScan's pass over one process: its items, those the cursor
    has passed and those ahead, are all its items in order of address; the
    structures are those of a pass ([Alone true]); and an item still in the
    unstable tree from an earlier pass is one the cursor has not visited. *)
From S2P Require Import Prelude Wire HashPair Growable Shadow Server Advisor HostMem HostTree HostTreeInv HostMerge HostApply HostScan HostSafe HostMergeSafe HostApplySafe HostTrack HostTrackInsert HostTrackLink HostStays HostTrackMerge HostTrackApply HostItems HostScanInv HostLocal HostLocalSafe HostLocalTrack HostScanWalk HostScanMm HostScanRound HostScanIter HostDaemon LocalScan.
Open Scope Z_scope.

(** ** What is still to be visited

    [S]: the items that may be in the unstable tree from an earlier pass. *)
Definition stale_within (q : Z) (S : loc → Prop) (h : host) : Prop :=
  scan_seqnr (h_ksm h) = q ∧
  ∀ i it, kitems (h_ksm h) !! i = Some it → unstable_item it = true → item_age q (ki_address it) = 0 ∨ S i.

Lemma stale_ksm q S h h' : h_ksm h' = h_ksm h → stale_within q S h → stale_within q S h'.
Proof. unfold stale_within. by intros ->. Qed.

Lemma stale_no_entry q S h h' :
  stale_within q S h → no_entry (h_ksm h) (h_ksm h') → scan_seqnr (h_ksm h') = scan_seqnr (h_ksm h) → stale_within q S h'.
Proof.
  intros [Hq Hs] Hn E. split; [congruence|]. intros i it' Hi Hu. destruct (Hn i it' Hi Hu) as (it & Hi' & Hu' & ->). by apply (Hs i it).
Qed.

Lemma stale_visits q S i h h' :
  stale_within q S h → visits i (h_ksm h) (h_ksm h') → scan_seqnr (h_ksm h') = scan_seqnr (h_ksm h) →
  stale_within q (λ j, S j ∧ j ≠ i) h'.
Proof.
  intros [Hq Hs] Hv E. split; [congruence|]. intros j jt Hj Hu. destruct (Hv j jt Hj Hu) as [Ha|(Hne & it & Hi & Hu' & ->)].
  - left. by rewrite <- Hq.
  - destruct (Hs j it Hi Hu'); auto.
Qed.

#[export] Instance calm_stale `{RbTree} q S : Calm (stale_within q S).
Proof.
  split.
  - intros h Hh. unfold interfere, pwp. destruct (env h) as [|f fs]; [done|]. by destruct (f (h_mem h, user h)).
  - intros p h Hh. unfold HostMem.get_page. by apply pwp_upd_frame.
  - intros p fr h Hh _ _. unfold put_page. by apply pwp_upd_frame.
  - intros L0 V i h Hs Ht Hh. eapply pwp_mono.
    { exact (pwp_and _ _ _ _ (track_remove_rmap_item _ _ _ _ i _ Hs Ht) (items_remove _ _ i h (conj eq_refl eq_refl))). }
    intros [] h' [(_ & _ & Hu) [_ Eq]]. eapply stale_no_entry; [exact Hh|by apply unlists_no_entry|done].
  - intros f h Hn Hh. by eapply stale_no_entry.
  - done.
Qed.

(** ** The addresses of an area *)
Lemma addresses_from_ok a v :
  0 ≤ a → a mod 4096 = 0 → vm_end v mod 4096 = 0 →
  StronglySorted Z.lt (addresses_from a v) ∧ Forall (λ x, x mod 4096 = 0 ∧ 0 ≤ x ∧ a ≤ x ∧ x + 4096 ≤ vm_end v) (addresses_from a v).
Proof.
  intros Hnn Ha Hv. unfold addresses_from. change PAGE_SIZE with 4096. set (k := Z.to_nat _). split.
  - generalize 0%nat. induction k as [|k IH]; intros n; simpl; constructor; [apply IH|].
    apply Forall_forall. intros x (m & -> & Hm)%list_elem_of_fmap. apply elem_of_seq in Hm. lia.
  - apply Forall_forall. intros x (m & -> & Hm)%list_elem_of_fmap. apply elem_of_seq in Hm. unfold k in Hm. split_and!; [|lia..|].
    + by rewrite Z.mod_add.
    + Z.div_mod_to_equations. lia.
Qed.

Lemma area_start_ok a v :
  area_ok v → a mod 4096 = 0 → a ≤ vm_end v →
  a ≤ area_start a v ≤ vm_end v ∧ area_start a v mod 4096 = 0 ∧ 0 ≤ area_start a v.
Proof. intros (H1' & H2' & H3') Ha Hle. unfold area_start. case_bool_decide; [|destruct (Z.ltb_spec a (vm_start v))]; lia. Qed.

(** ** The cursor in a slot *)
Section slot.
#[local] Set Default Proof Using "Type*".
Context `{RbTree} `{Memcmp} `{MmFault}.
Context (h0 : host) (q : Z).
Abbreviation inv S := (scan_inv (stale_within q S) (2 ^ 31) h0 (Alone true)).

(** The slots before and after the one of [mm]; the items passed lie below
    [b]; [o] is the item the cursor has passed without its being visited. *)
Record in_slot (mm : Z) (done rest : list mm_slot) (b : Z) (S : loc → Prop) (δ : list Z) (o : option loc) (s : scan_st) : Prop := InSlot {
  sl_inv : inv S δ s;
  sl_slots : ∃ l, mm_slots s = done ++ MmSlot mm l :: rest;
  sl_ok : slots_ok s (done ++ MmSlot mm (passed (scan s) ++ ahead (scan s)) :: rest);
  sl_stale : ∀ i v, S i → items s !! i = Some v → v.1.1 ∈ mm :: (slot_mm <$> rest);
  sl_visited : ∀ i, i ∈ passed (scan s) → o ≠ Some i → ¬ S i;
  sl_below : ∀ i, i ∈ passed (scan s) → va (items s) i < b;
  sl_some : passed (scan s) = [] ∨ 0 < b;
  sl_tables : shadow_pt_list s = [] }.

(** Between two addresses, the cursor is where the items passed end. *)
Definition slot_at (mm : Z) (done rest : list mm_slot) (S : loc → Prop) (δ : list Z) (o : option loc) (s : scan_st) : Prop :=
  in_slot mm done rest (scan_address (scan s)) S δ o s ∧ scan_address (scan s) mod 4096 = 0.

(** The invariant does not see the cursor. *)
Lemma inv_scan S δ s f : inv S δ s → inv S δ (with_scan f s).
Proof. intros []. by split. Qed.

(** Steps on the host that keep the items in place. *)
Lemma inv_places S S' δ δ' V s h' :
  inv S δ s → stale_within q S' h' → from (no_items h0) δ' [] h' → Forall (λ p, p ∈ dom (frames (h_mem h0))) δ' →
  track (Alone true) [] V 0 h' → places (h_ksm h') = places (h_ksm (sc_host s)) →
  inv S' δ' (with_host (λ _, h') s).
Proof.
  intros [I0 I1 If I2 I3 I4 I5] Hs Hf Hd Ht E. split; simpl; rewrite ?(places_size _ _ E); try done.
  - by eapply track_refresh.
  - intros mm. by rewrite I5, (places_count _ _ E).
Qed.

Lemma in_slot_host mm done rest b S S' δ δ' o o' s h' :
  in_slot mm done rest b S δ o s → inv S' δ' (with_host (λ _, h') s) → places (h_ksm h') = places (h_ksm (sc_host s)) →
  (∀ i, S' i → S i) → (∀ i, o = Some i → o' = Some i ∨ ¬ S' i) →
  in_slot mm done rest b S' δ' o' (with_host (λ _, h') s).
Proof.
  intros [L1 L2 L3 L4 L5 L6 L7 L8] Hi E Hsub Ho. split; simpl; try done.
  - by eapply slots_ok_places.
  - intros i [[m a] p] HS Hv. assert (∃ p', items s !! i = Some (m, a, p')) as [p' Hv'].
    { apply (places_lookup _ _ E). by exists p. }
    by apply (L4 i _ (Hsub i HS) Hv').
  - intros i Hin Hne HS'. destruct (decide (o = Some i)) as [->|Hn]; [by destruct (Ho i eq_refl)|].
    by apply (L5 i Hin Hn), Hsub.
  - intros i Hin. rewrite (places_va _ _ E). by apply L6.
Qed.

(** Steps that do not touch KSM's structures. *)
Lemma in_slot_quiet {A} (m : M host A) mm done rest b S δ δ' o s (Q : A → scan_st → Prop) :
  in_slot mm done rest b S δ o s →
  pwp m (sc_host s) (λ a h', (from (no_items h0) (δ' a) [] h' ∧ Forall (λ p, p ∈ dom (frames (h_mem h0))) (δ' a)) ∧
    track (Alone true) [] (sharing (h_ksm (sc_host s))) 0 h' ∧ h_ksm h' = h_ksm (sc_host s)) →
  (∀ a h', in_slot mm done rest b S (δ' a) o (with_host (λ _, h') s) → h_ksm h' = h_ksm (sc_host s) → Q a (with_host (λ _, h') s)) →
  pwp (on_host m) s Q.
Proof.
  intros Hsl Hm HQ. apply pwp_on_host. eapply pwp_mono; [exact Hm|]. intros a h' ([Hf Hd] & Ht & E). pose proof (sl_inv _ _ _ _ _ _ _ _ Hsl) as Hi.
  apply HQ; [|done]. eapply in_slot_host; [exact Hsl| |by rewrite E|done|by left].
  eapply inv_places; [exact Hi|eapply stale_ksm; [exact E|apply Hi]|done|done|exact Ht|by rewrite E].
Qed.

Lemma in_slot_interfere mm done rest b S δ o s (Q : unit → scan_st → Prop) :
  in_slot mm done rest b S δ o s →
  (∀ h', in_slot mm done rest b S δ o (with_host (λ _, h') s) → Q tt (with_host (λ _, h') s)) →
  pwp (on_host interfere) s Q.
Proof.
  intros Hsl HQ. pose proof (sl_inv _ _ _ _ _ _ _ _ Hsl) as [_ I1 If I2 _ _ _].
  eapply (in_slot_quiet _ _ _ _ _ _ _ (λ _, δ)); [exact Hsl| |intros []; auto].
  eapply pwp_mono; [exact (pwp_and _ _ _ _ (keeps_interfere _ _ _ _ I1) (track_interfere _ _ _ _ _ I2))|]. intros [] h' [? ?]. done.
Qed.

Lemma follow_page_frame m a h : pwp (follow_page m a) h (λ r _, ∀ p, r = Some p → p ∈ dom (frames (h_mem h))).
Proof.
  unfold follow_page. do 2 pwp_step. destruct (ptes _ !! _) as [e|]; [|by pwp_step]. pwp_step. unfold HostMem.get_page.
  apply pwp_upd_frame. intros fr Hp. pwp_step. intros p [= <-]. by eapply elem_of_dom_2.
Qed.

Lemma in_slot_follow_page mm done rest b S o m a s (Q : option Z → scan_st → Prop) :
  in_slot mm done rest b S [] o s →
  (∀ r h', in_slot mm done rest b S (option_list r) o (with_host (λ _, h') s) → Q r (with_host (λ _, h') s)) →
  pwp (on_host (follow_page m a)) s Q.
Proof.
  intros Hsl HQ. pose proof (sl_inv _ _ _ _ _ _ _ _ Hsl) as [_ I1 If I2 _ _ _].
  eapply (in_slot_quiet _ _ _ _ _ _ _ option_list); [exact Hsl| |intros r h' ? _; by apply HQ].
  eapply pwp_mono.
  { exact (pwp_and _ _ _ _ (keeps_follow_page _ _ _ m a _ I1) (pwp_and _ _ _ _ (follow_page_frame m a _)
      (quiet_follow_page _ _ _ _ (h_ksm (sc_host s)) m a _ (conj I2 eq_refl)))). }
  intros [p|] h' ([Hf E] & Hp & [Ht _]); (split; [split; [done|]|done]); [|done]. constructor; [|done].
  change (h_mem h0) with (h_mem (no_items h0)). rewrite <- (fm_dom _ _ _ _ I1). by apply Hp.
Qed.

Lemma in_slot_put_page mm done rest b S p o s (Q : unit → scan_st → Prop) :
  in_slot mm done rest b S [p] o s →
  (∀ h', in_slot mm done rest b S [] o (with_host (λ _, h') s) → Q tt (with_host (λ _, h') s)) →
  pwp (on_host (put_page p)) s Q.
Proof.
  intros Hsl HQ. pose proof (sl_inv _ _ _ _ _ _ _ _ Hsl) as [_ I1 If I2 _ _ _].
  eapply (in_slot_quiet _ _ _ _ _ _ _ (λ _, [])); [exact Hsl| |intros []; auto].
  eapply pwp_mono; [exact (pwp_and _ _ _ _ (keeps_put_page _ _ _ p _ I1) (track_put_page _ _ _ _ p _ I2))|]. by intros [] h' [? ?].
Qed.

(** The page of the item at the cursor is held. *)
Lemma in_slot_held mm done rest b S p o s : in_slot mm done rest b S [p] o s → page_held (sc_host s) p.
Proof.
  intros Hsl. pose proof (sl_inv _ _ _ _ _ _ _ _ Hsl) as [_ I1 If _ _ _ _].
  apply Forall_cons in If as [Hd _]. eapply held_page; [exact I1|exact Hd|by apply list_elem_of_singleton].
Qed.

Context (page_struct : Z → Z).
Abbreviation without S i := (λ j, S j ∧ j ≠ i).

(** The visit of the item at the cursor. *)
Lemma in_slot_cmp_and_merge chains_prune calc_checksum zero_checksum mm done rest b S p i s (Q : unit → scan_st → Prop) :
  ksm_use_zero_pages (config h0) = false → in_slot mm done rest b S [p] (Some i) s →
  (∀ h', in_slot mm done rest b (without S i) [p] None (with_host (λ _, h') s) → Q tt (with_host (λ _, h') s)) →
  pwp (on_host (cmp_and_merge_page chains_prune page_struct calc_checksum zero_checksum p i)) s Q.
Proof.
  intros Hzero Hsl HQ. pose proof (in_slot_held _ _ _ _ _ _ _ _ Hsl) as Hp. pose proof (sl_inv _ _ _ _ _ _ _ _ Hsl) as Hi.
  pose proof Hi as [I0 I1 If I2 _ _ _]. pose proof (from_safe _ _ _ _ I1) as Hs.
  assert (ksm_use_zero_pages (config (sc_host s)) = false) as Hz by (rewrite (fm_config _ _ _ _ I1); exact Hzero).
  apply pwp_on_host. eapply pwp_mono.
  { exact (pwp_and _ _ _ _ (keeps_cmp_and_merge_page chains_prune page_struct calc_checksum zero_checksum h0 [p] p i _ I1 Hp Hz) (pwp_and _ _ _ _
      (alone_cmp_and_merge_page chains_prune page_struct calc_checksum zero_checksum p i _ Hs Hp Hz (alone_any _ _ _ _ I2))
      (items_cmp_and_merge _ _ chains_prune page_struct calc_checksum zero_checksum p i _ (conj eq_refl eq_refl)))). }
  intros [] h' (Hf & [Ht Hv] & E & Eq). apply HQ. eapply in_slot_host; [exact Hsl| |exact E|tauto|].
  - eapply inv_places; [exact Hi|by eapply stale_visits|done|done|exact Ht|done].
  - intros j [= <-]. right. tauto.
Qed.

Lemma in_slot_should_skip mm done rest b S p i s (Q : bool → scan_st → Prop) :
  in_slot mm done rest b S [p] (Some i) s →
  (∀ h', in_slot mm done rest b S [p] (Some i) (with_host (λ _, h') s) → Q false (with_host (λ _, h') s)) →
  (∀ h', in_slot mm done rest b (without S i) [p] None (with_host (λ _, h') s) → Q true (with_host (λ _, h') s)) →
  pwp (on_host (should_skip_rmap_item page_struct p i)) s Q.
Proof.
  intros Hsl HQ HQ'. pose proof (sl_inv _ _ _ _ _ _ _ _ Hsl) as Hi. pose proof Hi as [I0 I1 If I2 _ _ _].
  pose proof (from_safe _ _ _ _ I1) as Hs. apply pwp_on_host. eapply pwp_mono.
  { exact (pwp_and _ _ _ _ (keeps_should_skip page_struct h0 [p] p i _ I1) (pwp_and _ _ _ _
      (alone_should_skip page_struct p i _ Hs (alone_any _ _ _ _ I2)) (items_should_skip _ _ page_struct p i _ (conj eq_refl eq_refl)))). }
  intros [] h' (Hf & (Ht & Hn & Hu) & E & Eq); [apply HQ'|apply HQ]; (eapply in_slot_host; [exact Hsl| |exact E|tauto|]).
  - eapply inv_places; [exact Hi| |done|done|exact Ht|done]. eapply stale_visits; [exact I0| |done].
    apply visits_out; [by apply unlisted_not_unstable, Hu|done].
  - intros j [= <-]. right. tauto.
  - eapply inv_places; [exact Hi| |done|done|exact Ht|done]. by eapply stale_no_entry.
  - by left.
Qed.

(** ** One area *)
Lemma pwp_on_scan {A} (m : M scan_st A) ls (Q : A → local_st → Prop) :
  pwp m (lc_scan ls) (λ a s, Q a (with_local (λ _, s) ls)) → pwp (on_scan m) ls Q.
Proof. unfold on_scan, pwp. by destruct (m (lc_scan ls)) as [[a s]| |]. Qed.

(** Another walk of the slot's list. *)
Lemma in_slot_walk mm done rest b b' S δ o o' s s' :
  in_slot mm done rest b S δ o s → inv S δ s' → only_of mm (items s) (items s') → tables s' = tables s →
  owns (items s') mm (passed (scan s') ++ ahead (scan s')) →
  (∀ i, i ∈ passed (scan s') → o' ≠ Some i → ¬ S i) → (∀ i, i ∈ passed (scan s') → va (items s') i < b') →
  (passed (scan s') = [] ∨ 0 < b') → in_slot mm done rest b' S δ o' s'.
Proof.
  intros [L1 [l L2] L3 L4 L5 L6 L7 L8] Hi Ho Et Hown Hv Hb Hp. unfold tables in Et. injection Et as E1 E2 E3 _ _. split; try done.
  - exists l. by rewrite E1.
  - by eapply slots_keep.
  - intros i v HS Hiv. destruct (decide (v.1.1 = mm)) as [->|Hne]; [apply list_elem_of_here|]. by apply (L4 i v HS), (Ho i v Hne).
  - by rewrite E2.
Qed.

Lemma in_slot_get_next mm done rest b S δ addr s (Q : option loc → scan_st → Prop) :
  in_slot mm done rest b S δ None s → b ≤ addr → 0 ≤ addr → addr mod 4096 = 0 →
  (∀ r s', scan_address (scan s') = scan_address (scan s) →
     match r with
     | None => in_slot mm done rest b S δ None s'
     | Some i => pwp (pass_item i) s' (λ _ s2, scan_address (scan s2) = scan_address (scan s) ∧ in_slot mm done rest (addr + 4096) S δ (Some i) s2)
     end → Q r s') →
  pwp (get_next_rmap_item mm addr) s Q.
Proof.
  intros Hsl Hb Hnn Ha HQ. pose proof Hsl as [L1 L2 L3 L4 L5 L6 L7 L8].
  assert (owns (items s) mm (passed (scan s) ++ ahead (scan s))) as Ho by (pose proof (so_owns _ _ L3) as [_ [Ho _]%Forall_cons]%Forall_app; exact Ho).
  eapply pwp_get_next; [apply _|exact L1|exact Ho|done|intros j Hj; specialize (L6 j Hj); lia|].
  intros r s' Hi' (G1 & G2 & G3 & l & G4 & G5 & G6).
  assert (Hva : ∀ j, j ∈ passed (scan s) → va (items s') j < b).
  { intros j Hj. unfold va. rewrite (G2 j Hj). by apply L6. }
  apply HQ; [by rewrite G4|]. destruct r as [i|].
  - destruct (G6 i eq_refl) as (l' & p & -> & Hv). unfold pass_item. pwp_step. simpl. rewrite G4. split; [done|].
    eapply in_slot_walk; [exact Hsl|by apply inv_scan|done|done|..]; simpl; rewrite ?G4; simpl.
    + by rewrite <- app_assoc.
    + intros j [Hj|Hj%list_elem_of_singleton]%elem_of_app Hne; [by apply L5|congruence].
    + intros j [Hj|Hj%list_elem_of_singleton]%elem_of_app; [specialize (Hva j Hj); lia|]. subst j. unfold va. rewrite Hv. simpl. lia.
    + right. lia.
  - eapply in_slot_walk; [exact Hsl|done..| | | |]; rewrite ?G4; simpl; try done.
Qed.

(** The cursor moves on. *)
Lemma in_slot_address mm done rest b S δ o a s :
  in_slot mm done rest b S δ o s → b ≤ a → a mod 4096 = 0 →
  slot_at mm done rest S δ o (with_scan (λ c, KsmScan a (passed c) (ahead c)) s).
Proof.
  intros [L1 L2 L3 L4 L5 L6 L7 L8] Hb Ha. split; [|done]. split; simpl; try done.
  - by apply inv_scan.
  - by eapply slots_ok_same.
  - intros i Hi. specialize (L6 i Hi). lia.
  - destruct L7; [by left|right; lia].
Qed.

(** What the scan found: an item not yet visited with its page, held, or
    nothing. *)
Definition at_page (mm : Z) (done rest : list mm_slot) (r : option (loc * Z)) (s : scan_st) : Prop :=
  ∃ S, slot_at mm done rest S (option_list (snd <$> r)) (fst <$> r) s.

Definition scanned_to (mm : Z) (done rest : list mm_slot) (e : Z) (ls : local_st) (r : option (option (loc * Z))) (ls' : local_st) : Prop :=
  cursor ls' = cursor ls ∧
  match r with
  | Some res => at_page mm done rest res (lc_scan ls')
  | None => at_page mm done rest None (lc_scan ls') ∧ scan_address (scan (lc_scan ls')) ≤ e
  end.

Lemma pwp_scan_area mm done rest e addrs S ls :
  slot_at mm done rest S [] None (lc_scan ls) → scan_address (scan (lc_scan ls)) ≤ e →
  StronglySorted Z.lt addrs → Forall (λ a, a mod 4096 = 0 ∧ 0 ≤ a ∧ scan_address (scan (lc_scan ls)) ≤ a ∧ a + 4096 ≤ e) addrs →
  pwp (scan_area page_struct mm addrs) ls (scanned_to mm done rest e ls).
Proof.
  revert S ls. induction addrs as [|a addrs IH]; intros S ls Hsl He Hs Ha; cbn [scan_area].
  { pwp_step. split; [done|]. split; [by exists S|done]. }
  do 2 pwp_step. destruct (ksm_test_exit _ mm).
  { pwp_step. split; [done|]. split; [by exists S|done]. }
  apply StronglySorted_inv in Hs as [Hs Hmin]. apply Forall_cons in Ha as [(Ha & Hnn & Hb & Hae) Has].
  assert (Hnext : ∀ ls1 S' b, cursor ls1 = cursor ls → in_slot mm done rest b S' [] None (lc_scan ls1) → b ≤ a + 4096 →
    pwp (on_scan (set_scan_address (a + PAGE_SIZE)) ;; on_scan (on_host interfere) ;; scan_area page_struct mm addrs) ls1
      (scanned_to mm done rest e ls)).
  { intros ls1 S' b Ec Hsl1 Hb1. pwp_step. apply pwp_on_scan. unfold set_scan_address. pwp_step. change PAGE_SIZE with 4096.
    pose proof (in_slot_address _ _ _ _ _ _ _ (a + 4096) _ Hsl1 Hb1 ltac:(Z.div_mod_to_equations; lia)) as [Hsl2 Hal].
    pwp_step. apply pwp_on_scan. eapply in_slot_interfere; [exact Hsl2|]. intros h' Hsl3.
    eapply pwp_mono; [apply (IH S'); [exact (conj Hsl3 Hal)|simpl; lia|exact Hs|]|].
    - simpl. rewrite Forall_forall in Has, Hmin |- *. intros x Hx. destruct (Has x Hx) as (? & ? & ? & ?). specialize (Hmin x Hx).
      split_and!; try done. Z.div_mod_to_equations. lia.
    - intros r ls' [Ec' Hr]. by split; [rewrite Ec'|]. }
  destruct Hsl as [Hsl Hal]. pwp_step. apply pwp_on_scan. eapply in_slot_follow_page; [exact Hsl|]. intros [p|] h1 Hsl1.
  2: { eapply Hnext; [done|exact Hsl1|lia]. }
  pwp_step. apply pwp_on_scan, pwp_scan_frame. intros fr _. destruct (PageAnon fr).
  2: { pwp_step. apply pwp_on_scan. eapply in_slot_put_page; [exact Hsl1|]. intros h2 Hsl2. eapply Hnext; [done|exact Hsl2|simpl; lia]. }
  pwp_step. apply pwp_on_scan. eapply in_slot_get_next; [exact Hsl1|simpl; lia|done|done|]. intros [i|] s2 Es Hr.
  2: { pwp_step. apply pwp_on_scan. eapply in_slot_put_page; [exact Hr|]. intros h3 Hsl3. pwp_step. split; [done|]. exists S. split; simpl; [|by rewrite Es].
       by rewrite Es. }
  pwp_step. apply pwp_on_scan. eapply pwp_mono; [exact Hr|]. intros [] s3 [Es3 Hsl3].
  pwp_step. apply pwp_on_scan. eapply in_slot_should_skip; [exact Hsl3| |]; intros h4 Hsl4.
  - pwp_step. apply pwp_on_scan. unfold set_scan_address. pwp_step. pwp_step. split; [done|]. exists S.
    apply (in_slot_address _ _ _ _ _ _ _ (a + 4096) _ Hsl4); [lia|Z.div_mod_to_equations; lia].
  - do 5 pwp_step. apply pwp_on_scan. eapply in_slot_put_page; [exact Hsl4|]. intros h5 Hsl5.
    eapply Hnext; [done|exact Hsl5|lia].
Qed.

(** ** All areas of a process *)
Lemma pwp_scan_areas mm done rest areas S ls :
  slot_at mm done rest S [] None (lc_scan ls) → areas_ok areas → Forall (λ v, scan_address (scan (lc_scan ls)) ≤ vm_end v) areas →
  pwp (scan_areas page_struct mm areas) ls (λ r ls', cursor ls' = cursor ls ∧ at_page mm done rest (mjoin r) (lc_scan ls')).
Proof.
  revert S ls. induction areas as [|v areas IH]; intros S ls Hsl Hok Hle; cbn [scan_areas].
  { pwp_step. split; [done|by exists S]. }
  destruct Hok as [[Hv Hok]%Forall_cons [Hs Hb]%StronglySorted_inv]. apply Forall_cons in Hle as [Hle Hles]. destruct (negb _).
  { by apply (IH S). }
  destruct Hsl as [Hsl Hal]. destruct (area_start_ok _ v Hv Hal Hle) as (Hst & Hsa & Hnn). do 2 pwp_step.
  pwp_step. apply pwp_on_scan. unfold set_scan_address. pwp_step. set (a := area_start _ v) in *.
  pose proof (in_slot_address _ _ _ _ _ _ _ a _ Hsl (proj1 Hst) Hsa) as Hsl1. destruct (addresses_from_ok a v Hnn Hsa) as [Has Haf]; [apply Hv|].
  pwp_step. eapply pwp_mono; [apply (pwp_scan_area mm done rest (vm_end v) _ S); [exact Hsl1|simpl; lia|exact Has|exact Haf]|].
  intros [res|] ls' [Ec Hr]; [by pwp_step|]. destruct Hr as [(S' & Hsl2) He]. eapply pwp_mono.
  { apply (IH S'); [exact Hsl2|done|]. rewrite Forall_forall in Hb, Hok |- *. intros w Hw. specialize (Hb w Hw). destruct (Hok w Hw) as (? & _).
    unfold area_before in Hb. lia. }
  intros r ls2 [Ec2 Hr2]. split; [by rewrite Ec2|done].
Qed.
End slot.
