(* ===== verification/LocalScanPass.v ===== *)
(** * LocalScanPass: a whole pass without a server

    From slot to slot: the cursor leaves a slot whose items have all been
    visited, and a pass ends with no item left in the unstable tree that an
    earlier pass put there, so the number of the pass may grow.  [paused] holds
    between two batches of [local_do_scan], in the middle of a pass or not. *)
From S2P Require Import Prelude Wire HashPair Growable Shadow Server Advisor HostMem HostTree HostTreeInv HostMerge HostApply HostScan HostSafe HostMergeSafe HostTrack HostItems HostScanInv HostLocal HostLocalSafe HostLocalTrack HostScanWalk HostScanMm HostScanRound HostScanIter HostDaemon HostUnmerge LocalScan LocalScanInv.
Open Scope Z_scope.

(** ** The list of slots *)
Section split.
Context (mm : Z) (l : list loc) (done rest : list mm_slot) (Hnd : NoDup (slot_mm <$> done ++ MmSlot mm l :: rest)).

Lemma not_in_done sl : sl ∈ done → slot_mm sl ≠ mm.
Proof using Hnd.
  intros Hsl E. rewrite fmap_app in Hnd. apply NoDup_app in Hnd as (_ & Hd & _). apply (Hd mm); [|apply list_elem_of_here].
  rewrite <- E. by apply list_elem_of_fmap_2.
Qed.
Lemma not_in_rest sl : sl ∈ rest → slot_mm sl ≠ mm.
Proof using Hnd.
  intros Hsl E. rewrite fmap_app in Hnd. apply NoDup_app in Hnd as (_ & _ & Hn). rewrite fmap_cons in Hn. apply NoDup_cons in Hn as [Hn _].
  apply Hn. simpl. rewrite <- E. by apply list_elem_of_fmap_2.
Qed.

Lemma del_slot_at : del_slot mm (done ++ MmSlot mm l :: rest) = done ++ rest.
Proof using Hnd.
  assert (Hid : ∀ l, (∀ sl, sl ∈ l → slot_mm sl ≠ mm) → del_slot mm l = l).
  { intros l' Hl. unfold del_slot. induction l' as [|x l' IH]; [done|]. rewrite filter_cons, decide_True by set_solver.
    f_equal. apply IH. set_solver. }
  unfold del_slot in *. rewrite filter_app, filter_cons, decide_False by (simpl; tauto).
  by rewrite (Hid done not_in_done), (Hid rest not_in_rest).
Qed.

Lemma put_back_at l' : put_back mm l' (done ++ MmSlot mm l :: rest) = done ++ MmSlot mm l' :: rest.
Proof using Hnd.
  assert (Hid : ∀ s, (∀ sl, sl ∈ s → slot_mm sl ≠ mm) → put_back mm l' s = s).
  { intros s Hs. unfold put_back. induction s as [|x s IH]; [done|]. rewrite fmap_cons.
    destruct (Z.eqb_spec (slot_mm x) mm) as [E|_]; [|f_equal; apply IH; set_solver]. exfalso. apply (Hs x); [set_solver|done]. }
  unfold put_back in *. rewrite fmap_app, fmap_cons. simpl. rewrite Z.eqb_refl.
  by rewrite (Hid done not_in_done), (Hid rest not_in_rest).
Qed.

Lemma slots_from_at : slots_from mm (done ++ MmSlot mm l :: rest) = MmSlot mm l :: rest.
Proof using Hnd.
  pose proof not_in_done as Hd. clear Hnd. induction done as [|x d IH]; simpl; [by rewrite Z.eqb_refl|].
  destruct (Z.eqb_spec (slot_mm x) mm) as [E|_]; [|apply IH; set_solver]. exfalso. apply (Hd x); [set_solver|done].
Qed.
End split.

Lemma next_age q a : item_age q a = 0 → item_age (u64 (q + 1)) a = 1.
Proof.
  unfold item_age, wrap_u. change (2 ^ 8) with 256. change (2 ^ 64) with (256 * 2 ^ 56). intros Ha.
  rewrite <- Zminus_mod_idemp_l, <- Znumtheory.Zmod_div_mod by (lia || by exists (2 ^ 56)).
  rewrite Zminus_mod_idemp_l. replace (q + 1 - a) with (q - a + 1) by lia. by rewrite <- Zplus_mod_idemp_l, Ha.
Qed.

Lemma areas_ok_filter (P : vma → Prop) `{!∀ v, Decision (P v)} m mm : mem_ok m → areas_ok (filter P (default [] (vmas m !! mm))).
Proof.
  intros Hm. destruct (vmas m !! mm) as [l|] eqn:El; simpl; [|by split; constructor]. destruct (mo_areas _ Hm mm l El) as [A B].
  clear El. induction l as [|v l IH]; [by split; constructor|]. apply Forall_cons in A as [Av A]. apply StronglySorted_inv in B as [B Bv].
  destruct (IH A B) as [IA IB]. rewrite filter_cons. case_decide; [|done]. split; constructor; try done.
  rewrite Forall_forall in Bv |- *. intros w [_ Hw]%list_elem_of_filter. by apply Bv.
Qed.

(** ** Between two slots *)
Section pass.
#[local] Set Default Proof Using "Type*".
Context `{RbTree} `{Memcmp} `{MmFault}.
Context (h0 : host).
Abbreviation inv q S := (scan_inv (stale_within q S) (2 ^ 31) h0 (Alone true)).
Abbreviation slot_at := (slot_at h0).
Abbreviation at_page := (at_page h0).

Record between (q : Z) (done rest : list mm_slot) (s : scan_st) : Prop := Between {
  bt_inv : ∃ S, inv q S [] s ∧ ∀ i v, S i → items s !! i = Some v → v.1.1 ∈ slot_mm <$> rest;
  bt_slots : mm_slots s = done ++ rest;
  bt_ok : slots_ok s (done ++ rest);
  bt_tables : shadow_pt_list s = [] }.

(** The cursor enters a slot. *)
Lemma between_enter q done mm l rest s :
  between q done (MmSlot mm l :: rest) s → ∃ S, slot_at q mm done rest S [] None (with_scan (λ _, KsmScan 0 [] l) s).
Proof.
  intros [(S & Hi & Hs) B2 B3 B4]. exists S. split; [|done]. split; simpl; try done.
  - destruct Hi. by split.
  - by exists l.
  - by eapply slots_ok_same.
  - by intros i ?%elem_of_nil.
  - by intros i ?%elem_of_nil.
  - by left.
Qed.

(** The cursor goes back to the head. *)
Lemma slot_at_head q mm done rest S s :
  slot_at q mm done rest S [] None s → slot_at q mm done rest S [] None (with_scan (λ c, KsmScan 0 [] (passed c ++ ahead c)) s).
Proof.
  intros [[L1 L2 L3 L4 L5 L6 L7 L8] _]. split; [|done]. split; simpl; try done.
  - destruct L1. by split.
  - by eapply slots_ok_same.
  - by intros i ?%elem_of_nil.
  - by intros i ?%elem_of_nil.
  - by left.
Qed.

(** The cursor leaves a slot. *)
Lemma pwp_leave_mm q mm done rest S ls (Q : unit → local_st → Prop) :
  slot_at q mm done rest S [] None (lc_scan ls) →
  (∀ done' s, between q done' rest s → Q tt (with_local (λ _, s) ls)) →
  pwp (leave_mm mm) ls Q.
Proof.
  intros [[L1 [l0 L2] L3 L4 L5 L6 L7 L8] _] HQ. unfold leave_mm. apply pwp_on_scan. do 2 pwp_step.
  set (s := lc_scan ls) in *.
  assert (owns (items s) mm (passed (scan s) ++ ahead (scan s))) as Ho by (pose proof (so_owns _ _ L3) as [_ [Ho _]%Forall_cons]%Forall_app; exact Ho).
  pwp_step. eapply pwp_remove_trailing; [apply _|exact L1|exact Ho|]. intros s1 Hi1 Ho1 Hof Es Et.
  unfold tables in Et. injection Et as E1 E2 E3 _ _. pose proof (so_nodup _ _ L3) as Hnd.
  assert (Hst : ∀ i v, S i → items s1 !! i = Some v → v.1.1 ∈ slot_mm <$> rest).
  { intros i [[m a] p] HS Hv. destruct (decide (m = mm)) as [->|Hne].
    - exfalso. apply (L5 i); [|done|done]. rewrite <- Es in *. apply (ow_items _ _ _ Ho1). by exists a, p.
    - apply (Hof i (m, a, p) Hne), (L4 i _ HS) in Hv. apply elem_of_cons in Hv as [?|Hv]; done. }
  pwp_step. apply pwp_set_ahead. do 2 pwp_step. cbn [with_scan put_ahead scan scan_address passed mm_slots].
  rewrite Es, E1, L2. destruct (Z.eqb_spec (scan_address (scan s)) 0) as [Ez|_].
  - pwp_step. cbn [with_scan mm_slots]. rewrite (del_slot_at mm l0 done rest) by (rewrite fmap_app in *; exact Hnd). do 2 pwp_step.
    assert (passed (scan s) = []) as Hp by (destruct L7; [done|lia]).
    match goal with |- Q tt ?s' => apply (HQ done (lc_scan s')) end. split; simpl; [|done| |by rewrite E2].
    + exists S. split; [|exact Hst]. destruct Hi1. by split.
    + eapply slots_drop; [exact L3|exact Hof|by rewrite Hp in Ho1|simpl; by rewrite E3].
  - pwp_step. cbn [with_scan mm_slots]. rewrite (put_back_at mm l0 done rest) by (rewrite fmap_app in *; exact Hnd).
    match goal with |- Q tt ?s' => apply (HQ (done ++ [MmSlot mm (passed (scan s))]) (lc_scan s')) end. split; simpl.
    + exists S. split; [|exact Hst]. destruct Hi1. by split.
    + by rewrite <- app_assoc.
    + rewrite <- app_assoc. by eapply slots_keep.
    + by rewrite E2.
Qed.

Context (page_struct : Z → Z) (ktime runtime : nat → Z).

Lemma pwp_scan_slot q mm done rest S ls :
  slot_at q mm done rest S [] None (lc_scan ls) →
  pwp (scan_slot page_struct mm) ls (λ r ls', cursor ls' = cursor ls ∧ match r with
    | Some res => at_page q mm done rest res (lc_scan ls')
    | None => ∃ done', between q done' rest (lc_scan ls') end).
Proof.
  intros [Hsl Hal]. unfold scan_slot. pwp_step. apply pwp_on_scan. eapply in_slot_interfere; [exact Hsl|]. intros h1 Hsl1.
  do 2 pwp_step. pwp_step.
  apply (pwp_mono _ _ (λ r ls', cursor ls' = cursor ls ∧ at_page q mm done rest (mjoin r) (lc_scan ls'))); cycle 1.
  { intros [res|] ls1 [Ec Hr]; [by pwp_step|]. destruct Hr as (S' & Hr). pwp_step.
    eapply pwp_leave_mm; [exact Hr|]. intros done' s Hb. pwp_step. split; [done|by exists done']. }
  destruct (ksm_test_exit _ mm).
  { pwp_step. apply pwp_on_scan. unfold cursor_to_head. do 2 pwp_step. split; [done|]. exists S. apply slot_at_head. by split. }
  pwp_step. eapply pwp_mono.
  { eapply (pwp_scan_areas h0 q page_struct mm done rest _ S); [by split| |].
    - apply areas_ok_filter. exact (fm_ok _ _ _ _ (iv_from _ _ _ _ _ _ (sl_inv _ _ _ _ _ _ _ _ _ _ Hsl1))).
    - apply Forall_forall. intros v [Hv _]%list_elem_of_filter. simpl in *. lia. }
  intros [res|] ls1 [Ec Hr]; [by pwp_step|]. destruct Hr as (S' & Hr). do 2 pwp_step. pwp_step.
  apply (pwp_mono _ _ (λ _ ls', cursor ls' = cursor ls1 ∧ slot_at q mm done rest S' [] None (lc_scan ls'))).
  { apply pwp_whenM; intros _; [|done]. apply pwp_on_scan. unfold cursor_to_head. pwp_step. split; [done|by apply slot_at_head]. }
  intros [] ls2 [Ec2 Hr2]. pwp_step. split; [by rewrite Ec2|by exists S'].
Qed.

(** ** The end of a pass *)

(** ** The end of a pass, and the begin of one *)

(** At rest, without a server. *)
Definition rested (s : scan_st) : Prop :=
  ready s ∧ is_ksm_offload (h_ksm (sc_host s)) = false ∧ from (no_items h0) [] [] (sc_host s).

(** Every item was visited: what is in the unstable tree is of this pass. *)
Lemma between_ends q done s :
  unlocked h0 → between q done [] s → rested (with_host (with_ksm (on_seqnr (λ q, u64 (q + 1)))) (with_scan (λ _, KsmScan 0 [] []) s)).
Proof.
  intros Hul [(S & [[I0 I0'] I1 If I2 I3 I4 I5] & Hs) B2 B3 B4]. rewrite app_nil_r in *. split; [|split; [apply I2|by apply from_any_items]].
  assert (Hage : ∀ i a, unstables (kitems (h_ksm (sc_host s))) !! i = Some a → item_age q a = 0).
  { intros i a Ha. rewrite lookup_unstables in Ha. destruct (kitems (h_ksm (sc_host s)) !! i) as [it|] eqn:Hi; [|done]. simpl in Ha.
    unfold unstable_address in Ha. destruct (unstable_item it) eqn:Hu; [|done]. injection Ha as <-.
    destruct (I0' i it Hi Hu) as [?|HS]; [done|]. exfalso. eapply not_elem_of_nil, (Hs i _ HS). unfold items_of_ksm. by rewrite lookup_fmap, Hi. }
  split; simpl; try done.
  - apply (from_safe (no_items h0) [] []). by apply from_any_items.
  - exists (Alone false). split; [done|]. destruct I2 as [[] T2 T3 T4 T5 T6 [U1 U2 U3 U4] T8]. split; try done. simpl in *. subst q.
    split; simpl; try done; intros i a Ha; rewrite next_age by eauto; [|done]. split; [by apply (U1 i)|done].
  - rewrite B2. by eapply slots_ok_same.
  - exact (unlocked_from (no_items h0) _ _ Hul I1).
Qed.

Lemma pwp_begin_pass ls (Q : unit → local_st → Prop) :
  rested (lc_scan ls) →
  (∀ ls', cursor ls' = cursor ls → mm_slots (lc_scan ls') = mm_slots (lc_scan ls) →
     (∃ q, between q [] (mm_slots (lc_scan ls')) (lc_scan ls')) → Q tt ls') →
  pwp (begin_pass ktime) ls Q.
Proof using H h0 ktime.
  intros (Hr & Hoff & Hf) HQ. destruct (ready_inv (λ _, True) (lc_scan ls) I Hr) as (L0 & HL & Hi).
  assert (L0 = Alone false) as ->.
  { pose proof (tk_offload _ _ _ _ _ (iv_track _ _ _ _ _ _ Hi)) as E. rewrite Hoff in E. destruct L0 as [|b]; [done|]. simpl in HL. by rewrite HL. }
  assert (scan_inv (λ _, True) (2 ^ 31) h0 (Alone false) [] (lc_scan ls)) as Hi0 by (destruct Hi; by split).
  unfold begin_pass. do 3 pwp_step. do 2 pwp_step. apply pwp_on_scan. eapply (inv_interfere (λ _, True)); [exact Hi0|]. intros h1 Hi1 E1.
  apply pwp_on_scan, pwp_on_host. pwp_step. destruct Hi1 as [_ I1 If I2 I3 I4 I5]. simpl in *.
  apply HQ; [done..|]. exists (scan_seqnr (h_ksm h1)). split; simpl; [|done| |apply Hr].
  - exists (λ _, True). split; [|intros i v _ Hv; apply (so_items _ _ (rd_slots _ Hr) i v); by rewrite <- E1].
    split; simpl; try done; [split; [done|by auto]|by apply from_any_items|].
    destruct I2 as [[] T2 T3 T4 T5 T6 [U1 U2 U3 U4] T8]. split; try done. split; simpl; try done. split; [constructor|]. intros i.
    split; [by intros ?%elem_of_nil|]. intros (a & Ha & Hz). by destruct (U2 i a Ha).
  - apply (slots_ok_same (lc_scan ls)); [apply Hr|simpl; by rewrite <- E1|done].
Qed.

(** ** From slot to slot *)

(** The scan stands at an item, or the pass has ended. *)
Definition found (r : option (loc * Z)) (ls : local_st) : Prop :=
  (∃ q mm done rest, cursor ls = Some mm ∧ at_page q mm done rest r (lc_scan ls)) ∨
  (r = None ∧ cursor ls = None ∧ rested (lc_scan ls)).

Lemma pwp_begin_mm q done mm l rest ls (Q : unit → local_st → Prop) :
  between q done (MmSlot mm l :: rest) (lc_scan ls) →
  (∀ S s, slot_at q mm done rest S [] None s → Q tt (with_local (λ _, s) (with_cursor (Some mm) ls))) →
  pwp (begin_mm (MmSlot mm l)) ls Q.
Proof.
  intros Hb HQ. unfold begin_mm. do 2 pwp_step. apply pwp_on_scan. pwp_step. destruct (between_enter _ _ _ _ _ _ Hb) as (S & Hs).
  by apply (HQ S).
Qed.

Lemma pwp_scan_slots q mm l rest done S ls :
  unlocked h0 → slot_at q mm done rest S [] None (lc_scan ls) → cursor ls = Some mm →
  pwp (scan_slots page_struct ktime runtime (MmSlot mm l :: rest)) ls found.
Proof.
  intros Hul. revert mm l done S ls. induction rest as [|[mm' l'] rest IH]; intros mm l done S ls Hsl Hc; cbn [scan_slots slot_mm];
    pwp_step; (eapply pwp_mono; [by eapply pwp_scan_slot|]); intros [res|] ls1 [Ec Hr];
    try (pwp_step; left; exists q, mm, done; eexists; split; [by rewrite Ec|exact Hr]);
    destruct Hr as (done' & Hb).
  - do 2 pwp_step. pwp_step. apply pwp_on_scan. pwp_step. pwp_step. unfold end_pass. do 2 pwp_step. pwp_step. apply pwp_deref. intros p _.
    do 2 pwp_step. apply pwp_on_scan, pwp_on_host. do 2 pwp_step. right. split_and!; [done..|]. simpl. by eapply between_ends.
  - pwp_step. eapply pwp_begin_mm; [exact Hb|]. intros S' s Hsl'. by eapply (IH mm' l').
Qed.

Lemma pwp_scan_get_next ls :
  unlocked h0 → found None ls → pwp (scan_get_next_rmap_item page_struct ktime runtime) ls found.
Proof.
  intros Hul Hf. unfold scan_get_next_rmap_item. do 2 pwp_step. destruct (mm_slots (lc_scan ls)) as [|[mm0 l0] slots] eqn:Es; [by pwp_step|].
  pwp_step. destruct Hf as [(q & mm & done & rest & Hc & (S & Hsl))|(_ & Hc & Hr)]; rewrite Hc.
  - do 3 pwp_step. rewrite Hc. simpl default. destruct (sl_slots _ _ _ _ _ _ _ _ _ _ (proj1 Hsl)) as [l El].
    rewrite El, slots_from_at; [by eapply pwp_scan_slots|].
    pose proof (so_nodup _ _ (sl_ok _ _ _ _ _ _ _ _ _ _ (proj1 Hsl))) as Hnd. by rewrite fmap_app in *.
  - pwp_step. apply pwp_begin_pass; [done|]. intros ls1 Ec Es1 (q & Hb). rewrite Es1, Es in Hb.
    eapply pwp_begin_mm; [exact Hb|]. intros S s Hsl. do 2 pwp_step. simpl default.
    destruct (sl_slots _ _ _ _ _ _ _ _ _ _ (proj1 Hsl)) as [l El]. simpl in *. rewrite El. simpl. rewrite Z.eqb_refl. by eapply pwp_scan_slots.
Qed.
End pass.

(** ** One batch *)
Section batch.
Context `{RbTree} `{Memcmp} `{MmFault}.
Context (chains_prune : Z) (page_struct : Z → Z) (calc_checksum : page → Z) (zero_checksum : Z) (ktime runtime : nat → Z).
Abbreviation scan_pages := (scan_pages chains_prune page_struct calc_checksum zero_checksum ktime runtime).
Abbreviation local_do_scan := (local_do_scan chains_prune page_struct calc_checksum zero_checksum ktime runtime).

Lemma pwp_scan_pages h0 n npages ls :
  unlocked h0 → ksm_use_zero_pages (config h0) = false → found h0 None ls →
  pwp (scan_pages n npages) ls (λ r ls', found h0 None ls' ∧ r.1 = u32 (npages - r.2 - 1) ∧ 0 ≤ r.2 ≤ Z.of_nat n).
Proof.
  intros Hul Hz. revert npages ls. induction n as [|n IH]; intros npages ls Hf; cbn [scan_pages].
  { pwp_step. split_and!; simpl; [done|f_equal; lia|lia..]. }
  pwp_step. eapply pwp_mono; [by apply pwp_scan_get_next|]. intros [[i p]|] ls1 Hf1.
  2: { pwp_step. split_and!; simpl; [done|f_equal; lia|lia..]. }
  destruct Hf1 as [(q & mm & pre & rest & Hc & (S & Hsl & Hal))|(? & _)]; [|done].
  pwp_step. apply pwp_on_scan. eapply in_slot_cmp_and_merge; [done|exact Hsl|]. intros h2 Hsl2.
  pwp_step. apply pwp_on_scan. eapply in_slot_put_page; [exact Hsl2|]. intros h3 Hsl3.
  pwp_step. eapply pwp_mono; [apply IH; left; exists q, mm, pre, rest; split; [done|by eexists]|].
  intros [m k] ls' (Hf' & Er & Hk). pwp_step. simpl in *. split_and!; [done| |lia..].
  rewrite Er. unfold wrap_u. rewrite <- !Z.sub_add_distr, Zminus_mod_idemp_l. f_equal. lia.
Qed.

(** ** Between two batches *)
Definition paused (ls : local_st) : Prop := found (lc_host ls) None ls ∧ unlocked (lc_host ls).

Lemma paused_rested s : ready s → is_ksm_offload (h_ksm (sc_host s)) = false → ∀ p a b, paused (LocalSt s None p a b).
Proof. intros Hr Hoff p a b. split; [|apply Hr]. right. split_and!; [done..|]. split_and!; [done..|]. apply from_no_items, Hr. Qed.

Lemma paused_at_head ls : ready (lc_scan ls) → cursor ls = None → is_ksm_offload (h_ksm (lc_host ls)) = false → paused ls.
Proof. intros Hr Hc Hoff. destruct ls as [s c p a b]. simpl in *. subst c. by apply paused_rested. Qed.

Lemma rested_paused ls : paused ls → cursor ls = None → ready (lc_scan ls).
Proof. intros [[(? & ? & ? & ? & Hc & _)|(_ & _ & Hr & _)] _] Hn; [congruence|done]. Qed.

(** What is left of the unstable tree is of earlier passes. *)
Lemma paused_alone ls : paused ls → cursor ls = None → ready (lc_scan ls) ∧ unstable_ok false (h_ksm (lc_host ls)).
Proof.
  intros Hp Hc. pose proof (rested_paused _ Hp Hc) as Hr. split; [done|]. destruct (rd_track _ Hr) as (L0 & HL & Ht).
  pose proof (tk_unstable _ _ _ _ _ Ht) as Hu. by rewrite HL in Hu.
Qed.

Lemma found_from h0 ls : found h0 None ls → from (no_items h0) [] [] (lc_host ls).
Proof.
  intros [(q & mm & pre & rest & _ & (S & Hsl & _))|(_ & _ & _ & _ & Hf)]; [|done].
  exact (iv_from _ _ _ _ _ _ (sl_inv _ _ _ _ _ _ _ _ _ _ Hsl)).
Qed.

Lemma found_paused h0 ls : unlocked h0 → found h0 None ls → paused ls.
Proof.
  intros Hul Hf. pose proof (found_from _ _ Hf) as Hfr. pose proof (from_safe _ _ _ _ Hfr) as Hs. split; [|exact (unlocked_from (no_items h0) _ _ Hul Hfr)].
  destruct Hf as [(q & mm & pre & rest & Hc & (S & [L1 L2 L3 L4 L5 L6 L7 L8] & Hal))|(_ & Hc & Hr & Hoff & _)].
  - left. exists q, mm, pre, rest. split; [done|]. exists S. split; [|done]. split; try done. destruct L1. split; try done. by apply from_no_items.
  - right. split_and!; [done..|]. split_and!; [done..|]. by apply from_no_items.
Qed.

(** One batch, wherever the scan was. *)
Lemma paused_do_scan n ls :
  paused ls → ksm_use_zero_pages (config (lc_host ls)) = false → 
  pwp (local_do_scan n) ls (λ r ls', paused ls' ∧ from (no_items (lc_host ls)) [] [] (lc_host ls') ∧ 0 ≤ r ≤ Z.max 0 n).
Proof.
  intros [Hf Hul] Hz. unfold LocalScan.local_do_scan. pwp_step. eapply pwp_mono; [by apply (pwp_scan_pages (lc_host ls))|].
  intros [m k] ls1 (Hf1 & _ & Hk). do 2 pwp_step. do 3 pwp_step. simpl in *. split_and!; [|exact (found_from _ _ Hf1)|lia..].
  exact (found_paused _ (with_scanned _ ls1) Hul Hf1).
Qed.

(** The rest of the machine. *)
Lemma paused_interfere ls :
  paused ls → pwp (on_scan (on_host interfere)) ls (λ _ ls', paused ls' ∧ from (no_items (lc_host ls)) [] [] (lc_host ls')).
Proof using H H0 H1.
  intros [Hf Hul]. apply pwp_on_scan. destruct Hf as [(q & mm & pre & rest & Hc & (S & Hsl & Hal))|(_ & Hc & Hr & Hoff & Hf)].
  - eapply in_slot_interfere; [exact Hsl|]. intros h' Hsl'.
    assert (found (lc_host ls) None (with_local (λ _, with_host (λ _, h') (lc_scan ls)) ls)) as Hf1.
    { left. exists q, mm, pre, rest. split; [done|by exists S]. }
    split; [by apply (found_paused (lc_host ls))|by apply found_from in Hf1].
  - destruct (rd_track _ Hr) as (L0 & HL & Ht). pose proof (ready_interfere _ Hr) as Hri. unfold on_host, pwp in Hri |- *.
    pose proof (pwp_and _ _ _ _ (keeps_interfere _ _ _ _ Hf) (track_interfere _ _ _ _ _ Ht)) as Hi. unfold pwp in Hi.
    destruct (interfere _) as [[[] h']| |]; [|done..]. destruct Hi as (Hf' & _ & E).
    assert (found (lc_host ls) None (with_local (λ _, with_host (λ _, h') (lc_scan ls)) ls)) as Hf1.
    { right. split_and!; [done..|]. split_and!; [done|simpl; by rewrite E|done]. }
    split; [by apply (found_paused (lc_host ls))|by apply found_from in Hf1].
Qed.

(** ** A whole pass *)
Inductive local_step : local_st → local_st → Prop :=
| local_batch n r ls ls' : local_do_scan n ls = Ok (r, ls') → local_step ls ls'
| local_machine ls ls' : on_scan (on_host interfere) ls = Ok (tt, ls') → local_step ls ls'
| local_advice f ls : local_step ls (with_pace f ls).

Lemma paused_steps ls ls' :
  rtc local_step ls ls' → paused ls → ksm_use_zero_pages (config (lc_host ls)) = false →
  paused ls' ∧ from (no_items (lc_host ls)) [] [] (lc_host ls').
Proof.
  induction 1 as [ls|ls1 ls2 ls3 Hst Hrtc IH]; intros Hp Hz.
  { split; [done|]. apply from_no_items. destruct Hp as [Hf _]. by eapply from_safe, found_from. }
  assert (paused ls2 ∧ from (no_items (lc_host ls1)) [] [] (lc_host ls2)) as [Hp2 Hf2].
  { destruct Hst as [n r ls ls' E|ls ls' E|f ls].
    - pose proof (paused_do_scan n ls Hp Hz) as Hd. unfold pwp in Hd. rewrite E in Hd. by destruct Hd as (? & ? & _).
    - pose proof (paused_interfere ls Hp) as Hd. unfold pwp in Hd. by rewrite E in Hd.
    - split; [done|]. apply from_no_items. destruct Hp as [Hf _]. by eapply from_safe, found_from. }
  destruct IH as [Hp3 Hf3]; [done|by rewrite (fm_config _ _ _ _ Hf2)|]. split; [done|].
  exact (from_trans _ _ _ (no_items (lc_host ls2)) _ _ _ (from_any_items _ _ _ _ _ Hf2) Hf3).
Qed.
End batch.
