(* ===== verification/HostReturns.v ===== *)
(** * HostReturns: calls that come to an end

    Under the invariants, what the dissolution of the tree and the removal of
    items call returns: no pointer is dangling, no [BUG_ON] fires, no page lock
    is taken twice, and the faults that unshare a page back out a bounded
    number of times.  What holds then is in HostSafe, HostTrack and HostUnmerge. *)
From S2P Require Import Prelude Wire HashPair Growable Shadow Scatter Server HostMem HostTree HostTreeInv HostMerge HostApply HostScan HostDaemon HostSafe HostMergeSafe HostApplySafe HostTrack HostTrackInsert HostStays HostTrackMerge HostItems HostScanInv HostScanWalk HostScanMm HostScanRound HostScanIter HostUnmerge.
Open Scope Z_scope.

(** ** Nodes leave *)
Section nodes.
Context `{RbTree} `{Memcmp} (L0 : mode).

Lemma returns_clear_items n l h :
  is_Some (knodes (h_ksm h) !! n) → (∀ i, i ∈ l → is_Some (kitems (h_ksm h) !! i)) → returns (clear_items n l) h.
Proof.
  unfold returns. revert h. induction l as [|i l IH]; intros h [nd Hn] Hl; cbn [clear_items]; [by wp_step|].
  destruct (Hl i ltac:(set_solver)) as [it Hi]. wp_step. eapply wp_get_kitem; [exact Hi|].
  unfold count, count_merging. case_bool_decide; wp_steps; (eapply wp_upd_knode; [exact Hn|]); wp_steps;
    (eapply wp_upd_kitem; [exact Hi|]); apply IH; simpl; try (rewrite lookup_insert_eq; by eexists).
  all: intros j Hj; destruct (decide (j = i)) as [->|]; look; [by eexists|]; apply Hl; set_solver.
Qed.

Lemma returns_remove_node r n nd h :
  ksm_ok r (h_ksm h) → knodes (h_ksm h) !! n = Some nd → is_stable_node_chain nd = false →
  returns (remove_node_from_stable_tree n) h.
Proof.
  intros Hk Hn Hc. destruct (ko_node _ _ Hk n nd Hn Hc) as (Hlen & Hnd & Hall). unfold returns, remove_node_from_stable_tree.
  wp_step. eapply wp_get_knode; [exact Hn|]. wp_step. apply wp_halt_if; [apply Z.ltb_ge; lia|].
  eapply wp_call; [|by eapply pwp_clear_items|].
  { apply returns_clear_items; [by eexists|]. intros i Hi. destruct (Hall i Hi) as (it & E & _). by eexists. }
  intros [] h1 (k1 & -> & [_ [len D2] _ _ _ _ _ _ _]). unfold stable_node_dup_del, hlist_del, count_nodes, free_stable_node. wp_steps.
  eapply wp_get_knode; [simpl; rewrite D2; apply lookup_insert_eq|]. simpl. destruct (kn_link nd) as [|c] eqn:Hlk.
  - wp_steps. eapply wp_get_knode; [simpl; rewrite D2; apply lookup_insert_eq|]. by wp_steps.
  - destruct (ko_dup _ _ Hk n nd c Hn Hlk) as (cd & A & B & _). assert (c ≠ n) as Hcn by congruence. wp_steps.
    eapply wp_upd_knode; [simpl; rewrite D2; look; exact A|]. wp_steps.
    eapply wp_get_knode; [simpl; rewrite D2; look; reflexivity|]. by wp_steps.
Qed.

Lemma returns_report es V r h tag e : with_server L0 = true → track L0 es V r h → returns (report tag e) h.
Proof.
  intros HL Ht. pose proof (tk_log _ _ _ _ _ Ht) as Hlog. destruct L0 as [L|]; [|done]. destruct Hlog as (t & new & T1 & T2 & _). unfold returns, wp, report. rewrite T1.
  assert (wp (insert_error_log (Some t) tag e) (kallocs h) (λ _ _, True)) as Hw by (eapply wp_insert_error_log; [done|apply Ht|done]).
  unfold wp in Hw. by destruct (insert_error_log (Some t) tag e (kallocs h)) as [[[x t'] a]| |].
Qed.

Lemma returns_stale_node es V r n nd p h :
  track L0 es V r h → knodes (h_ksm h) !! n = Some nd → is_stable_node_chain nd = false →
  (∀ q fr, frames (h_mem h) !! q = Some fr → fr_mapping fr ≠ MapKsm (Some n)) → returns (stale_node n p) h.
Proof.
  intros Ht Hn Hc Hm. unfold returns, stale_node.
  eapply wp_call; [eapply returns_remove_node; [apply Ht|done|done]|by eapply track_remove_node|]. intros [] h1 [Ht1 _].
  wp_steps. rewrite (tk_offload _ _ _ _ _ Ht1). destruct (with_server L0) eqn:HL; [|by wp_steps].
  eapply returns_wp, wp_mono; [by eapply returns_report|done].
Qed.
End nodes.

(** ** [get_ksm_page] *)
Section get.
#[local] Set Default Proof Using "Type*".
Context `{RbTree} `{Memcmp} (L0 : mode) (es : list ksm_event_log) (V : gmap loc (loc * Z)) (r : Z).

(** The node's page is there as long as KSM's structures are [k]. *)
Lemma page_there k n nd h :
  quietly L0 es V r k h → knodes k !! n = Some nd → is_stable_node_chain nd = false → ∃ fr, frames (h_mem h) !! kn_kpfn nd = Some fr.
Proof. intros [Ht <-] Hn Hc. exact (tk_nodes _ _ _ _ _ Ht n nd Hn Hc). Qed.

Section node.
Context (k : ksm) (n : loc) (nd : knode).
Context (Hn : knodes k !! n = Some nd) (Hc : is_stable_node_chain nd = false).
Abbreviation Q := (quietly L0 es V r k).
Abbreviation p := (kn_kpfn nd).

Lemma returns_stale h fr :
  Q h → frames (h_mem h) !! p = Some fr → fr_mapping fr ≠ MapKsm (Some n) → returns (stale_node n p) h.
Proof.
  intros [Ht E] Hp Hm. eapply returns_stale_node; [done|by rewrite E|done|]. intros q fr' Hq Hqm.
  destruct (tk_frames _ _ _ _ _ Ht q fr' n Hq Hqm) as (nd' & A & _ & B). rewrite E, Hn in A. injection A as <-. subst q.
  rewrite Hp in Hq. injection Hq as <-. done.
Qed.

Lemma returns_put_stale h fr :
  Q h → frames (h_mem h) !! p = Some fr → fr_mapping fr ≠ MapKsm (Some n) → returns (put_page p ;; stale_node n p) h.
Proof.
  intros [Ht E] Hp Hm. unfold returns, put_page. wp_step. eapply wp_upd_frame; [exact Hp|].
  apply (returns_stale _ (drop_ref fr)); [|simpl; apply lookup_insert_eq|by intros ?%drop_ref_mapping].
  split; [|done]. eapply track_frame; [done|exact Hp|intros m; apply drop_ref_mapping].
Qed.

Lemma returns_lock_page h fr :
  Q h → frames (h_mem h) !! p = Some fr → fr_lock fr ≠ LockedByKsmd → returns (lock_page p) h.
Proof.
  intros HQ Hp Hl. unfold returns, lock_page. wp_step. eapply wp_get_frame; [exact Hp|]. wp_step.
  apply wp_halt_if; [by apply bool_decide_eq_false|].
  eapply wp_call; [apply returns_interfere|by eapply (quiet_interfere L0 es V r k)|]. intros [] h1 HQ1.
  destruct (page_there _ _ _ _ HQ1 Hn Hc) as [fr1 Hp1]. by eapply wp_upd_frame.
Qed.

Lemma returns_check_again h :
  Q h → returns (fr ← get_frame p; if negb (is_expected n fr) then unlock_page p ;; put_page p ;; stale_node n p else mret (Got p)) h.
Proof.
  intros HQ. destruct (page_there _ _ _ _ HQ Hn Hc) as [fr Hp]. unfold returns. wp_step. eapply wp_get_frame; [exact Hp|].
  destruct (is_expected n fr) eqn:He; simpl; [by wp_step|]. unfold unlock_page. wp_step. eapply wp_upd_frame; [exact Hp|].
  eapply (returns_put_stale _ (set_lock Unlocked fr)); [|simpl; apply lookup_insert_eq|by apply not_expected in He].
  destruct HQ as [Ht E]. split; [|done]. by eapply track_frame.
Qed.
End node.

Lemma returns_get_ksm_page n nd flags h :
  safe h → (flags = GET_KSM_PAGE_LOCK → unlocked h) → track L0 es V r h → knodes (h_ksm h) !! n = Some nd →
  is_stable_node_chain nd = false → returns (get_ksm_page n flags) h.
Proof.
  intros Hs Hu Ht Hn Hc. assert (HQ : quietly L0 es V r (h_ksm h) h) by done. set (k := h_ksm h) in *.
  unfold returns, get_ksm_page. wp_step. eapply wp_get_knode; [exact Hn|]. wp_step.
  destruct (page_there _ _ _ _ HQ Hn Hc) as [fr1 Hp1]. eapply wp_get_frame; [exact Hp1|].
  destruct (is_expected n fr1) eqn:Hx1; simpl; [|by eapply returns_stale, not_expected].
  eapply wp_call; [apply returns_interfere|
    exact (pwp_and _ _ _ _ (keeps_interfere h [] [] h (safe_from h Hs)) (quiet_interfere L0 es V r k h HQ))|].
  intros [] h1 [Hk1 HQ1]. destruct (page_there _ _ _ _ HQ1 Hn Hc) as [fr2 Hp2]. wp_step. eapply wp_get_frame; [exact Hp2|].
  destruct (Z.eqb_spec (page_count fr2) 0) as [Hz|Hz].
  { eapply (returns_stale k n nd); [done|done|done|exact Hp2|]. intros Hm.
    destruct (mo_ksm _ (fm_ok _ _ _ _ Hk1) _ fr2 Hp2) as [_ ?]; [by unfold PageKsm; rewrite Hm|lia]. }
  unfold get_page. wp_step. eapply wp_upd_frame; [exact Hp2|].
  match goal with |- wp _ ?h' _ => set (h2 := h') end. set (fr3 := add_kref 1 fr2) in *.
  assert (HQ2 : quietly L0 es V r k h2) by (destruct HQ1 as [? ?]; split; [by eapply track_frame|done]).
  assert (Hp3 : frames (h_mem h2) !! kn_kpfn nd = Some fr3) by apply lookup_insert_eq. clearbody h2.
  destruct (is_expected n fr2) eqn:Hx2; simpl; [|eapply (returns_put_stale k n nd); [done|done|done|exact Hp3|by apply not_expected in Hx2]].
  destruct flags.
  - by wp_step.
  - pose proof (unlocked_from _ _ _ (Hu eq_refl) Hk1 _ _ Hp2) as Hl.
    eapply wp_call; [by eapply (returns_lock_page k n nd)|by eapply (quiet_lock_page L0 es V r k)|]. intros [] h3 HQ3.
    by eapply returns_check_again.
  - eapply wp_call; [|by eapply (quiet_trylock_page L0 es V r k)|].
    { unfold returns, trylock_page. wp_step. eapply wp_get_frame; [exact Hp3|]. case_bool_decide; [|by wp_step].
      wp_step. eapply wp_upd_frame; [exact Hp3|]. by wp_step. }
    intros ok h3 HQ3. destruct ok; simpl; [by eapply returns_check_again|]. wp_step.
    destruct (page_there _ _ _ _ HQ3 Hn Hc) as [fr4 Hp4]. eapply wp_upd_frame; [exact Hp4|]. by wp_step.
Qed.

(** An item leaves its tree; on the unstable one it is not old. *)
Lemma returns_remove_rmap_item i h :
  safe h → unlocked h → track L0 es V r h → is_Some (kitems (h_ksm h) !! i) → returns (remove_rmap_item_from_tree i) h.
Proof.
  intros Hs Hu Ht [it Hi]. pose proof (tk_ksm _ _ _ _ _ Ht) as Hk. unfold returns, remove_rmap_item_from_tree.
  wp_step. eapply wp_get_kitem; [exact Hi|].
  change (has_flag STABLE_FLAG (ki_address it)) with (stable_item it). change (has_flag UNSTABLE_FLAG (ki_address it)) with (unstable_item it).
  destruct (stable_item it) eqn:Hst; [|destruct (unstable_item it) eqn:Hun; [|by wp_step]]; cycle 1.
  { wp_steps. apply wp_halt_if.
    { apply Z.ltb_ge, (uo_item _ _ (tk_unstable _ _ _ _ _ Ht) i). rewrite lookup_unstables, Hi. simpl. unfold unstable_address. by rewrite Hun. }
    wp_step. unfold count. destruct (_ =? 0); simpl; wp_steps; (eapply wp_upd_kitem; [exact Hi|done]). }
  destruct (ko_item _ _ Hk i it Hi Hst) as (n & nd & Hh & Hn & Hc & Hin). wp_step. eapply wp_deref; [exact Hh|].
  eapply wp_call; [by eapply returns_get_ksm_page|by eapply track_get_ksm_page|]. intros [p| |] h1 Hg; simpl in Hg; [|by wp_step..].
  destruct Hg as (Ht1 & E1 & nd' & Hn' & _ & <-). rewrite Hn in Hn'. injection Hn' as <-.
  destruct (page_there _ _ _ h1 (conj Ht1 E1) Hn Hc) as [fr Hp].
  unfold hlist_del, unlock_page, put_page, count, count_merging. wp_step. eapply wp_upd_knode; [rewrite E1; exact Hn|].
  wp_step. eapply wp_upd_frame; [exact Hp|]. wp_step. eapply wp_upd_frame; [simpl; apply lookup_insert_eq|].
  wp_step. eapply wp_get_knode; [simpl; rewrite E1; apply lookup_insert_eq|]. case_bool_decide; wp_steps.
  all: eapply wp_upd_knode; [simpl; rewrite E1; apply lookup_insert_eq|].
  all: eapply wp_upd_kitem; [simpl; rewrite E1; exact Hi|done].
Qed.
End get.

(** ** The stable tree is dissolved *)
Section dissolve.
#[local] Set Default Proof Using "Type*".
Context `{RbTree} `{Memcmp} `{MmFault}.
Context (h0 : host) (L0 : mode) (Hu0 : unlocked h0).
Abbreviation resting := (resting h0 L0).

Lemma returns_remove_stable_node n nd h :
  resting h → knodes (h_ksm h) !! n = Some nd → is_stable_node_chain nd = false → returns (remove_stable_node n) h.
Proof using All.
  intros [Hk (V & Ht)] Hn Hc. pose proof (from_safe _ _ _ _ Hk) as Hs. unfold returns, remove_stable_node.
  eapply wp_call; [eapply (returns_get_ksm_page L0 [] V 0); [done|intros _; by eapply unlocked_from|done..]|by eapply track_get_ksm_page|].
  intros [p| |] h1 Hg; simpl in Hg; [|by wp_step..].
  destruct Hg as (Ht1 & E1 & nd' & Hn' & _ & <-). rewrite Hn in Hn'. injection Hn' as <-.
  destruct (page_there L0 [] V 0 _ _ _ h1 (conj Ht1 E1) Hn Hc) as [fr Hp].
  unfold unlock_page, put_page. wp_step. eapply wp_get_frame; [exact Hp|]. wp_step.
  apply (wp_mono _ _ (λ _ h', is_Some (frames (h_mem h') !! kn_kpfn nd))).
  { destruct (page_mapped fr); [wp_step; by eexists|]. wp_step. eapply wp_upd_frame; [exact Hp|].
    match goal with |- wp _ ?h' _ => set (h2 := h') end.
    assert (ksm_ok 0 (h_ksm h2)) as Hk2 by apply Ht1.
    eapply wp_call; [eapply (returns_remove_node 0 n nd h2); [done|simpl; by rewrite E1|done]|by eapply pwp_remove_node|].
    intros [] h3 (k' & -> & _). wp_step. simpl. rewrite lookup_insert_eq. by eexists. }
  intros err h2 [fr2 Hp2]. wp_step. eapply wp_upd_frame; [exact Hp2|]. wp_step.
  eapply wp_upd_frame; [simpl; apply lookup_insert_eq|]. by wp_step.
Qed.

Lemma returns_remove_dups c l h : resting h → chain_left c l h → returns (remove_dups l) h.
Proof using All.
  unfold returns. revert h. induction l as [|d l IH]; intros h Hr Hl; cbn [remove_dups]; [by wp_step|].
  pose proof Hl as (cd & A & B & C). pose proof Hr as [_ (V & Ht)].
  destruct (ko_chain _ _ (tk_ksm _ _ _ _ _ Ht) c cd A B) as (_ & _ & Hall).
  destruct (Hall d ltac:(rewrite C; set_solver)) as (nd & Hn & _ & Hc).
  eapply wp_call; [by eapply returns_remove_stable_node|by eapply (rest_remove_stable_node h0 L0)|]. intros err h1 [Hr1 [[-> Hd]|[-> E]]].
  - change (negb (0 =? 0)) with false. cbv iota. apply IH; [done|]. exact (chain_left_dropped 0 c d l h h1 Hl (tk_ksm _ _ _ _ _ Ht) Hd).
  - change (negb (- EBUSY =? 0)) with true. cbv iota. by wp_step.
Qed.

Lemma returns_remove_chain n h : resting h → is_Some (knodes (h_ksm h) !! n) → returns (remove_stable_node_chain n) h.
Proof using All.
  intros Hr [nd Hn]. unfold returns, remove_stable_node_chain. wp_step. eapply wp_get_knode; [exact Hn|].
  destruct (is_stable_node_chain nd) eqn:Hc; simpl negb; cbv iota.
  - assert (Hl : chain_left n (kn_hlist nd) h) by by exists nd.
    eapply wp_call; [by eapply returns_remove_dups|by apply (rest_remove_dups h0 L0 n)|]. intros busy h1 (_ & _ & Hb).
    destruct busy; [by wp_step|]. destruct (Hb eq_refl) as (cd & A & B & C). wp_step. eapply wp_get_knode; [exact A|]. wp_step.
    apply wp_halt_if; [by rewrite C|]. unfold free_stable_node_chain, free_stable_node, count_nodes. wp_steps.
    eapply wp_get_knode; [exact A|]. by wp_steps.
  - wp_step. eapply wp_mono; [by eapply returns_remove_stable_node|]. intros. by wp_step.
Qed.

Lemma returns_remove_all fuel h : resting h → returns (remove_all_stable_nodes fuel) h.
Proof using All.
  unfold returns. revert h. induction fuel as [|fuel IH]; intros h Hr; cbn [remove_all_stable_nodes]; wp_steps.
  all: destruct (root_stable_tree (h_ksm h)) as [|tl n tr] eqn:Et; [by wp_step|].
  - by wp_step.
  - assert (is_Some (knodes (h_ksm h) !! n)) as Hn.
    { destruct Hr as [_ (V & Ht)]. destruct (proj1 (ko_tree _ _ (tk_ksm _ _ _ _ _ Ht) n) ltac:(rewrite Et; simpl; set_solver)) as (nd & Hnd & _).
      by exists nd. }
    eapply wp_call; [by apply returns_remove_chain|by apply (rest_remove_chain h0 L0)|]. intros busy h1 [Hr1 _].
    destruct busy; [by wp_step|]. destruct Hr1 as [Hk1 (V1 & Ht1)].
    eapply wp_call; [apply returns_interfere|
      exact (pwp_and _ _ _ _ (keeps_interfere h0 [] [] h1 Hk1) (track_interfere L0 [] V1 0 h1 Ht1))|].
    intros [] h2 (Hk2 & Ht2 & _). apply IH. split; [done|by exists V1].
Qed.
End dissolve.

(** ** Unsharing *)
Section unshare.
Context `{RbTree} `{Memcmp} `{MmFault}.

(** The fault handler backs out [n] times more at most. *)
Lemma returns_break_ksm fuel n a h :
  (n < fuel)%nat →
  (let m := Nat.iter n (λ m, (handle_mm_fault m a).1) (h_mem h) in maps_ksm m a = false ∨ (handle_mm_fault m a).2 ≠ FAULT_DONE) →
  returns (break_ksm fuel a) h.
Proof.
  unfold returns. revert n h. induction fuel as [|fuel IH]; intros n h Hf Hn; [lia|]. cbn [break_ksm]. wp_steps.
  destruct (maps_ksm (h_mem h) a) eqn:Hm; simpl negb; cbv iota; [|by wp_step].
  destruct (handle_mm_fault (h_mem h) a) as [m ret] eqn:Ef. wp_steps. destruct ret; [|by wp_step..].
  destruct n as [|n].
  - simpl in Hn. rewrite Ef in Hn. simpl in Hn. destruct Hn; congruence.
  - apply (IH n); [lia|]. simpl h_mem. rewrite Nat.iter_succ_r, Ef in Hn. exact Hn.
Qed.

Lemma returns_unmerge_pages mm addrs signals h : returns (unmerge_ksm_pages mm addrs signals) h.
Proof.
  unfold returns. revert signals h. induction addrs as [|a addrs IH]; intros signals h; cbn [unmerge_ksm_pages]; wp_steps; [done|].
  destruct (ksm_test_exit _ _); [by wp_step|]. wp_step. apply (wp_mono _ _ (λ _ _, True)).
  { destruct (default false (head signals)); [by wp_step|]. destruct (unshared_at_last (h_mem h) (mm, a)) as (n & Hn & Hx).
    apply (returns_break_ksm _ n); [lia|exact Hx]. }
  intros err h1 _. destruct (negb (err =? 0)); [by wp_step|].
  eapply wp_call; [apply returns_interfere|apply pwp_true|]. intros [] h2 _. apply IH.
Qed.

Lemma returns_unmerge_areas mm areas signals h : returns (unmerge_areas mm areas signals) h.
Proof.
  unfold returns. revert signals h. induction areas as [|v areas IH]; intros signals h; cbn [unmerge_areas]; [by wp_step|].
  destruct (negb (anon_test_walk v)); [apply IH|].
  eapply wp_call; [apply returns_unmerge_pages|apply pwp_true|]. intros err h1 _. destruct (negb (err =? 0)); [by wp_step|apply IH].
Qed.
End unshare.

(** ** [unmerge_and_remove_all_rmap_items] *)
Lemma wp_on_host {A} (m : M host A) s (Q : A → scan_st → Prop) :
  wp m (sc_host s) (λ a h, Q a (with_host (λ _, h) s)) → wp (on_host m) s Q.
Proof. unfold wp, on_host. by destruct (m (sc_host s)) as [[a h]| |]. Qed.

Section all.
#[local] Set Default Proof Using "All".
Context `{RbTree} `{Memcmp} `{MmFault}.

Section items.
Context (calm : host → Prop) `{!Calm calm} (room : Z) (h0 : host) (L0 : mode) (Hu0 : unlocked h0).
Abbreviation inv := (scan_inv calm room h0 L0).

Lemma returns_drop_item δ mm l1 i l2 s :
  inv δ s → owns (items s) mm (l1 ++ i :: l2) → returns (on_host (remove_rmap_item_from_tree i) ;; free_rmap_item i) s.
Proof using All.
  intros Hi Ho. destruct (proj1 (ow_items _ _ _ Ho i) ltac:(set_solver)) as (a & p & Hv).
  assert (∀ h, items_of_ksm (h_ksm h) = items s → is_Some (kitems (h_ksm h) !! i)) as Hthere.
  { intros h E. rewrite <- E in Hv. unfold items_of_ksm in Hv. rewrite lookup_fmap in Hv.
    destruct (kitems (h_ksm h) !! i); [by eexists|done]. }
  pose proof Hi as [_ I1 _ I2 _ _ _]. unfold returns.
  eapply wp_call with (P := λ _ s', ∃ h', s' = with_host (λ _, h') s ∧ items_of_ksm (h_ksm h') = items s).
  - apply wp_on_host. eapply (returns_remove_rmap_item L0 [] _ 0); [by eapply from_safe| |exact I2|by apply Hthere].
    exact (unlocked_from (no_items h0) _ _ Hu0 I1).
  - eapply inv_remove; [apply _|exact Hi|]. intros h' Hi' E Hu. by exists h'.
  - intros [] s' (h' & -> & E). destruct (Hthere h' E) as [it Hit]. unfold free_rmap_item. wp_step. apply wp_on_host.
    eapply wp_get_kitem; [exact Hit|]. wp_steps. apply wp_on_host. by wp_step.
Qed.

Lemma returns_remove_trailing δ mm l1 l s :
  inv δ s → owns (items s) mm (l1 ++ l) → returns (remove_trailing_rmap_items l) s.
Proof using All.
  unfold returns. revert s. induction l as [|i l IH]; intros s Hi Ho; cbn [remove_trailing_rmap_items]; [by wp_step|].
  apply wp_seq. eapply wp_call with (P := λ _ s', inv δ s' ∧ owns (items s') mm (l1 ++ l)).
  - by eapply returns_drop_item.
  - eapply (pwp_drop_item calm room h0 L0 mm l1 i l); [exact Hi|exact Ho|]. by intros s1 Hi1 E1 Ho1 _ _ _.
  - intros [] s1 [Hi1 Ho1]. by apply IH.
Qed.
End items.

Section inv.
Context (h0 : host) (L0 : mode) (Hu0 : unlocked h0).
Abbreviation inv := (scan_inv (λ _, True) (2 ^ 31) h0 L0).

Lemma returns_unmerge_mm signals mm l done slots s :
  inv [] s → slots_ok s (done ++ MmSlot mm l :: slots) → returns (unmerge_mm signals (MmSlot mm l)) s.
Proof using All.
  intros Hi Hs. unfold returns, unmerge_mm. cbn [slot_mm rmap_list]. do 2 wp_step.
  eapply wp_call with (P := λ _ s1, inv [] s1 ∧ items s1 = items s ∧ tables s1 = tables s).
  - destruct (ksm_test_exit _ _); [by unfold returns; wp_step|]. apply wp_on_host. eapply wp_mono; [apply returns_unmerge_areas|done].
  - destruct (ksm_test_exit _ _); [by pwp_step|]. eapply inv_memory; [exact Hi|intros; apply memory_unmerge_areas|].
    intros err h' Hi' E. split_and!; [exact Hi'|simpl; by rewrite E|done].
  - intros err s1 (Hi1 & E1 & _). destruct (negb (err =? 0)); [by wp_step|].
    pose proof (so_owns _ _ Hs) as [_ [Ho _]%Forall_cons]%Forall_app. simpl in Ho. rewrite <- E1 in Ho.
    eapply wp_call; [by apply (returns_remove_trailing (λ _, True) (2 ^ 31) h0 L0 Hu0 [] mm [] l)|apply pwp_true|]. intros [] s2 _. wp_steps.
    destruct (ksm_test_exit _ _); by wp_steps.
Qed.

Lemma returns_unmerge_mms signals slots done s :
  inv [] s → slots_ok s (done ++ slots) → returns (unmerge_mms signals slots) s.
Proof using All.
  unfold returns. revert signals done s. induction slots as [|[mm l] slots IH]; intros signals done s Hi Hs; cbn [unmerge_mms]; [by wp_step|].
  eapply wp_call; [by eapply returns_unmerge_mm|by eapply pwp_unmerge_mm|]. intros [err|kept] s1 (Hi1 & E1 & F1 & Hs1); [by wp_step|].
  destruct Hs1 as [Hs1 Hk].
  eapply wp_call with (P := λ _ s2, inv [] s2 ∧ slots_ok s2 ((done ++ option_list kept) ++ slots)).
  - apply wp_on_host. eapply wp_mono; [apply returns_interfere|done].
  - eapply inv_interfere; [apply _|exact Hi1|]. intros h2 Hi2 E2. split; [done|]. rewrite <- app_assoc.
    eapply slots_ok_same; [exact Hs1|simpl; by rewrite E2|done].
  - intros [] s2 [Hi2 Hs2]. wp_step. eapply wp_mono; [by eapply IH|]. intros. by wp_step.
Qed.
End inv.

Lemma returns_unmerge_all signals s : ready s → returns (unmerge_and_remove_all_rmap_items signals) s.
Proof.
  intros Hr. destruct (ready_inv (λ _, True) s I Hr) as (L0 & HL & Hi). unfold returns, unmerge_and_remove_all_rmap_items. do 2 wp_step.
  eapply wp_call; [eapply (returns_unmerge_mms (sc_host s) L0 (rd_unlocked _ Hr) _ _ []); [exact Hi|apply Hr]|
    apply (pwp_unmerge_mms (sc_host s) L0 signals (mm_slots s) []); [exact Hi|apply Hr]|].
  intros [err slots] s1 (Hi1 & E1 & _ & Hs1 & _). simpl in *. rewrite (rd_tables _ Hr) in E1. wp_steps.
  destruct (negb (err =? 0)); [by wp_step|]. wp_steps.
  assert (Hr2 : ready (with_slots slots s1)).
  { apply (inv_ready (sc_host s) L0); [done|apply Hr|by destruct Hi1|by eapply slots_ok_same|done]. }
  destruct (rd_track _ Hr2) as (L2 & _ & Ht2). apply wp_on_host. eapply wp_mono.
  { apply (returns_remove_all (sc_host (with_slots slots s1)) L2 (rd_unlocked _ Hr2)). split; [exact (from_refl _ (rd_safe _ Hr2))|by eexists]. }
  intros r h3 _. wp_steps. apply wp_on_host. by wp_steps.
Qed.

(** Every write to [run] returns. *)
Lemma returns_run_store signals run flags s : ready s → returns (run_store signals run flags) s.
Proof.
  intros Hr. unfold returns, run_store. repeat (case_match; [by wp_step|]).
  wp_step. eapply wp_mono; [by apply returns_unmerge_all|]. intros err s' _. by wp_step.
Qed.

(** So does advice. *)
Lemma returns_madvise compatible allocated signals mm v a e ad flag s :
  returns (ksm_madvise compatible allocated signals mm v a e ad flag) s.
Proof.
  unfold returns, ksm_madvise. destruct ad.
  - repeat (case_match; [by wp_step|]). wp_steps. apply (wp_mono _ _ (λ _ _, True)); [|intros; by wp_step].
    unfold __ksm_enter. repeat case_match; by wp_steps.
  - case_match; [by wp_step|]. wp_step. apply (wp_mono _ _ (λ _ _, True)); [|intros; by wp_step].
    case_bool_decide; [|by wp_step]. apply wp_on_host. eapply wp_mono; [apply returns_unmerge_pages|done].
Qed.
End all.
