(* ===== verification/HostScanReturns.v ===== *)
(** * HostScanReturns: the scan comes to an end

    [prepare_metadata] stops only when no item can be allocated: every page
    that is mapped has its [struct page], the items of a process are where its
    list says, and the tables fit the descriptors, if there are at most
    [MAX_MM_DESCS] processes and the items and the memory for more are below
    2^23, the pages a descriptor can list. *)
From S2P Require Import Prelude Wire HashPair Growable Shadow Scatter Server HostMem HostTree HostTreeInv HostMerge HostApply HostScan HostDaemon HostSafe HostTrack HostScanInv HostScanWalk HostScanMm HostScanRound HostStays HostReturns.
Open Scope Z_scope.

(** No item could be allocated. *)
Definition out_of_items (w : string) : Prop := w = "Failed to get rmap item".

(** A call on the host, within a larger one. *)
Lemma wp_scan_frame p fr s (Q : frame → scan_st → Prop) :
  frames (h_mem (sc_host s)) !! p = Some fr → Q fr s → wp (on_host (get_frame p)) s Q.
Proof. intros Hp HQ. apply wp_on_host. eapply wp_get_frame; [exact Hp|]. by rewrite with_host_id. Qed.
Lemma wp_scan_item i it s (Q : kitem → scan_st → Prop) :
  kitems (h_ksm (sc_host s)) !! i = Some it → Q it s → wp (on_host (get_kitem i)) s Q.
Proof. intros Hp HQ. apply wp_on_host. eapply wp_get_kitem; [exact Hp|]. by rewrite with_host_id. Qed.

(** The item of an identity. *)
Lemma item_of_ident k i mm a p : items_of_ksm k !! i = Some (mm, a, p) → ∃ it, kitems k !! i = Some it ∧ page_of (ki_address it) = a.
Proof.
  unfold items_of_ksm. rewrite lookup_fmap. destruct (kitems k !! i) as [it|]; [|done]. unfold ident. simpl. intros E.
  injection E as _ Ea _. by exists it.
Qed.

(** ** Memory for items *)

(** The next [n] allocations of an item succeed. *)
Definition plenty (n : nat) (s : scan_st) : Prop := ∃ rest, slab s = replicate n true ++ rest.

Section slab.
Context `{RbTree} `{Memcmp} `{MmFault}.

Definition keeps_slab {A} (m : M scan_st A) : Prop := ∀ s, pwp m s (λ _ s', slab s' = slab s).

Lemma slab_ret {A} (a : A) : keeps_slab (mret a).
Proof. by intros s. Qed.
Lemma slab_bind {A B} (m : M scan_st A) (f : A → M scan_st B) : keeps_slab m → (∀ a, keeps_slab (f a)) → keeps_slab (m ≫= f).
Proof. intros Hm Hf s. pwp_step. eapply pwp_mono; [apply Hm|]. intros a s1 E. eapply pwp_mono; [apply Hf|]. intros b s2 E2. simpl in *. congruence. Qed.
Lemma slab_get : keeps_slab get.
Proof. by intros s. Qed.
Lemma slab_on_host {A} (m : M host A) : keeps_slab (on_host m).
Proof. intros s. apply pwp_on_host. eapply pwp_mono; [apply pwp_true|done]. Qed.
Lemma slab_modify f : (∀ s, slab (f s) = slab s) → keeps_slab (modify f).
Proof. intros Hf s. pwp_step. apply Hf. Qed.
Lemma slab_halt {A} w : keeps_slab (halt (A := A) w).
Proof. by intros s. Qed.
Lemma slab_halt_if b w : keeps_slab (halt_if b w).
Proof. intros s. by pwp_step. Qed.

Lemma slab_free_rmap_item i : keeps_slab (free_rmap_item i).
Proof.
  unfold free_rmap_item. apply slab_bind; [apply slab_on_host|intros it]. apply slab_bind; [apply slab_get|intros s0].
  apply slab_bind; [by apply slab_modify|intros []]. apply slab_on_host.
Qed.

Lemma slab_skip_items addr l : keeps_slab (skip_items addr l).
Proof.
  induction l as [|i l IH]; cbn [skip_items]; [apply slab_ret|]. apply slab_bind; [apply slab_on_host|intros it].
  case_match; [apply slab_ret|]. case_match; [apply slab_ret|]. apply slab_bind; [apply slab_on_host|intros []].
  apply slab_bind; [apply slab_free_rmap_item|intros []]. exact IH.
Qed.

Lemma slab_remove_trailing l : keeps_slab (remove_trailing_rmap_items l).
Proof.
  induction l as [|i l IH]; cbn [remove_trailing_rmap_items]; [apply slab_ret|]. apply slab_bind; [apply slab_on_host|intros []].
  apply slab_bind; [apply slab_free_rmap_item|intros []]. exact IH.
Qed.

(** At most one allocation, which then succeeds. *)
Lemma pwp_get_next_slab mm addr n s :
  plenty (S n) s → pwp (get_next_rmap_item mm addr) s (λ r s', r ≠ None ∧ plenty n s').
Proof.
  intros (rest & E). unfold get_next_rmap_item. do 2 pwp_step. pwp_step. eapply pwp_mono; [apply slab_skip_items|].
  intros [[i|] l] s1 E1; unfold set_ahead; pwp_steps.
  - split; [done|]. exists (true :: rest). trans (slab s1); [done|]. rewrite E1. simpl. rewrite E, replicate_S_end. by rewrite <- app_assoc.
  - unfold alloc_rmap_item. pwp_steps. unfold with_scan. cbn [slab]. rewrite E1, E. simpl. pwp_steps.
    apply pwp_on_host. pwp_steps. apply pwp_on_host, pwp_upd_kitem. intros it _. pwp_steps. split; [done|]. by exists rest.
Qed.

Lemma plenty_less k n s : plenty (k + n) s → plenty n s.
Proof.
  intros (rest & E). exists (replicate k true ++ rest). rewrite E, Nat.add_comm, replicate_add. by rewrite <- app_assoc.
Qed.

(** Without memory for [n] items the message [w] of [E] may be met. *)
Definition affords (E : string → Prop) (n : nat) (s : scan_st) : Prop := (∀ w, out_of_items w → E w) ∨ plenty n s.

Lemma affords_less E k n s : affords E (k + n) s → affords E n s.
Proof. intros [?|?]; [by left|right; by eapply plenty_less]. Qed.
Lemma affords_same E n s s' : slab s' = slab s → affords E n s → affords E n s'.
Proof. intros Es [?|(rest & Er)]; [by left|right]. exists rest. congruence. Qed.
Lemma pwp_affords {A} (m : M scan_st A) E k n s :
  (plenty (k + n) s → pwp m s (λ _, plenty n)) → affords E (k + n) s → pwp m s (λ _, affords E n).
Proof.
  intros Hm [HE|Hp]; [eapply pwp_mono; [apply pwp_true|intros; by left]|eapply pwp_mono; [by apply Hm|intros; by right]].
Qed.
Lemma affords_keep {A} (m : M scan_st A) E n s : keeps_slab m → affords E n s → pwp m s (λ _, affords E n).
Proof. intros Hm Ha. eapply pwp_mono; [apply Hm|]. intros a s' Es. by apply (affords_same E n s). Qed.

Lemma pwp_scan_entry_slab mm addr sm n s : plenty (S n) s → pwp (scan_pte_entry mm addr sm) s (λ _, plenty n).
Proof.
  intros Hp. assert (Hless : ∀ s', slab s' = slab s → plenty n s') by (intros s' E; apply (plenty_less 1); destruct Hp as (rest & Er); exists rest; by rewrite E).
  unfold scan_pte_entry. do 2 pwp_step. destruct (_ !! _) as [e|]; [|pwp_step; by apply Hless].
  destruct (_ =? _); [pwp_step; by apply Hless|]. pwp_step. eapply pwp_mono; [apply slab_on_host|]. intros [] s1 E1.
  pwp_step. eapply pwp_mono; [apply slab_on_host|]. intros fr s2 E2. destruct (PageAnon fr).
  - do 2 pwp_step. pwp_step. eapply pwp_mono; [apply (pwp_get_next_slab _ _ n)|].
    { destruct Hp as (rest & Er). exists rest. simpl in *. congruence. }
    intros [i|] s3 [Hr (rest & E3)]; [|by pwp_step].
    match goal with |- pwp ?m s3 _ => assert (keeps_slab m) as Hk end.
    { apply slab_bind; [by apply slab_modify|intros []]. apply slab_bind; [apply slab_on_host|intros it]. apply slab_bind; [apply slab_halt_if|intros []].
      apply slab_bind; [apply slab_on_host|intros []]. apply slab_bind; [apply slab_on_host|intros r]. apply slab_ret. }
    eapply pwp_mono; [apply Hk|]. intros r s4 E4. exists rest. congruence.
  - pwp_step. eapply pwp_mono; [apply slab_on_host|]. intros [] s3 E3. pwp_step. apply Hless. congruence.
Qed.

Lemma pwp_walk_slab mm addrs sm n s : plenty (length addrs + n) s → pwp (walk_page_range mm addrs sm) s (λ _, plenty n).
Proof.
  revert sm s. induction addrs as [|a addrs IH]; intros sm s Hp; cbn [walk_page_range]; [by pwp_step|].
  pwp_step. eapply pwp_mono; [by apply (pwp_scan_entry_slab _ _ _ (length addrs + n))|]. intros sm1 s1 (rest & E1).
  pwp_step. eapply pwp_mono; [apply slab_on_host|]. intros [] s2 E2. apply IH. exists rest. congruence.
Qed.

Context (owner : Z → option Z).

Lemma pwp_create_slab mm n s :
  plenty (length (walked (h_mem (sc_host s)) mm) + n) s → pwp (create_shadow_mm owner mm) s (λ _, plenty n).
Proof.
  intros (rest & E). unfold create_shadow_mm. pwp_step.
  apply (pwp_mono _ _ (λ _ s1, slab s1 = slab s ∧ h_mem (sc_host s1) = h_mem (sc_host s))).
  { apply pwp_on_host. unfold on_kalloc, pwp. by destruct (create_empty _ _) as [[r k]| |]. }
  intros [sm|] s1 [E1 Em]; [|done]. do 2 pwp_step. apply pwp_walk_slab. exists rest. by rewrite Em, E1.
Qed.

Lemma pwp_init_slab mm n s :
  plenty (length (walked (h_mem (sc_host s)) mm) + n) s → pwp (init_shadow_for_mm owner mm) s (λ _, plenty n).
Proof.
  intros Hp. unfold init_shadow_for_mm. do 2 pwp_step. destruct (ksm_test_exit _ _); [pwp_step; by eapply plenty_less|].
  pwp_step. eapply pwp_mono; [by apply pwp_create_slab|]. intros sm s1 (rest & E1). destruct (_ =? 0).
  - pwp_step. eapply pwp_mono; [apply slab_on_host|]. intros [] s2 E2. pwp_step. exists rest. congruence.
  - pwp_steps. by exists rest.
Qed.
End slab.

Section scan.
#[local] Set Default Proof Using "All".
Context `{RbTree} `{Memcmp} `{MmFault}.
Context (calm : host → Prop) `{!Calm calm} (room : Z) (h0 : host) (L0 : mode) (Hu0 : unlocked h0).
Abbreviation inv := (scan_inv calm room h0 L0).

(** ** Items *)
Lemma returns_skip_items mm addr done l δ s :
  inv δ s → owns (items s) mm (done ++ l) → returns (skip_items addr l) s.
Proof.
  unfold returns. revert s. induction l as [|i l IH]; intros s Hi Ho; cbn [skip_items]; [by wp_step|].
  destruct (proj1 (ow_items _ _ _ Ho i) ltac:(set_solver)) as (a & p & Hv). destruct (item_of_ident _ _ _ _ _ Hv) as (it & Hit & _).
  wp_step. eapply wp_scan_item; [exact Hit|]. case_match; [by wp_step|]. case_match; [by wp_step|].
  apply wp_seq. eapply wp_call with (P := λ _ s', inv δ s' ∧ owns (items s') mm (done ++ l)).
  - by eapply returns_drop_item.
  - eapply (pwp_drop_item calm room h0 L0 mm done i l); [exact Hi|exact Ho|]. by intros s1 Hi1 E1 Ho1 _ _ _.
  - intros [] s1 [Hi1 Ho1]. by apply IH.
Qed.

Lemma returns_get_next mm addr δ s :
  inv δ s → owns (items s) mm (passed (scan s) ++ ahead (scan s)) → addr mod 4096 = 0 → returns (get_next_rmap_item mm addr) s.
Proof.
  intros Hi Ho Ha. unfold returns, get_next_rmap_item. do 2 wp_step.
  eapply wp_call; [by eapply returns_skip_items|apply pwp_true|]. intros [[i|] l] s1 _; unfold set_ahead; wp_steps; [done|].
  unfold alloc_rmap_item. wp_steps. unfold with_scan. cbn [slab]. destruct (slab s1) as [|[] sl]; wp_steps; [done| |done].
  apply wp_on_host. wp_steps. apply wp_on_host. eapply wp_upd_kitem; [simpl; apply lookup_insert_eq|]. by wp_steps.
Qed.

(** ** The walk *)
Context (exactly : Prop) (hb : host) (Hsee : exactly → ∀ h, calm h → sees hb h).
Abbreviation walked_to := (walked_to calm room h0 L0).
Context (E : string → Prop).

Lemma ends_scan_pte_entry mm addr δ es sm n s :
  affords E (S n) s → walked_to mm δ es sm s → addr mod 4096 = 0 → Forall (λ e, pte_va e.1 < addr) es → ends E (scan_pte_entry mm addr sm) s.
Proof.
  intros Haf Hw Ha Hlt. pose proof Hw as [W1 W2 W3 W4 W5 W6 W7 W8]. unfold scan_pte_entry. apply ends_bind. wp_step.
  destruct (ptes (h_mem (sc_host s)) !! (mm, addr)) as [e|] eqn:He; [|done].
  destruct (pte_pfn e =? zero_pfn (h_mem (sc_host s))); [done|].
  destruct (fm_coherent _ _ _ _ (iv_from _ _ _ _ _ _ W1) _ _ He) as (fr & Hp & _). set (p := pte_pfn e) in *.
  assert (∃ h1, wp (on_host (HostMem.get_page p)) s (λ _ s1, s1 = with_host (λ _, h1) s) ∧ frames (h_mem h1) !! p = Some (add_kref 1 fr)) as (h1 & Hg & Hp1).
  { eexists. split; [apply wp_on_host; unfold HostMem.get_page; eapply wp_upd_frame; [exact Hp|reflexivity]|]. simpl. apply lookup_insert_eq. }
  eapply ends_call with (P := λ _ s1, s1 = with_host (λ _, h1) s ∧ inv (p :: pages es ++ δ) s1 ∧ items s1 = items s).
  { apply ends_returns. by eapply returns_wp. }
  { eapply pwp_mono; [apply (pwp_and _ _ _ (λ _ s1, inv (p :: pages es ++ δ) s1 ∧ items s1 = items s) (wp_pwp _ _ _ Hg))|done].
    eapply inv_get_page; [apply _|exact W1|]. intros fr' Hp' h' Hi'. by split. }
  intros [] s1 (-> & Hi1 & E1). apply ends_bind. eapply wp_scan_frame; [exact Hp1|]. destruct (PageAnon (add_kref 1 fr)).
  2: { apply ends_bind. apply wp_on_host. unfold put_page. by eapply wp_upd_frame. }
  apply ends_bind. wp_step. set (s2 := with_scan _ _).
  assert (Hva : ∀ j, j ∈ passed (scan s2) → va (items s2) j < addr).
  { intros j Hj. change (passed (scan s2)) with (passed (scan s)) in Hj. rewrite W5 in Hj. apply list_elem_of_fmap in Hj as (f & -> & Hf).
    rewrite Forall_forall in W7, Hlt. unfold va. assert (items s2 = items s) as -> by exact E1. rewrite (W7 f Hf). by apply Hlt. }
  assert (Ho2 : owns (items s2) mm (passed (scan s2) ++ ahead (scan s2))) by (assert (items s2 = items s) as -> by exact E1; exact W6).
  eapply ends_call with (P := λ r s3, (inv (p :: pages es ++ δ) s3 ∧ got_item mm addr s2 r s3) ∧ (r = None → ∀ w, out_of_items w → E w)).
  { apply ends_returns. eapply returns_get_next; [by apply inv_with_scan|exact Ho2|done]. }
  { apply pwp_and.
    - eapply pwp_get_next; [apply _|by apply inv_with_scan|exact Ho2|done|exact Hva|]. by intros.
    - destruct Haf as [HE|(rest & Er)]; [eapply pwp_mono; [apply pwp_true|done]|].
      eapply pwp_mono; [apply (pwp_get_next_slab mm addr n); by exists rest|]. intros r s' [? _] ?. done. }
  intros [i|] s3 ((Hi3 & _ & _ & _ & l & _ & _ & G4) & Hno); [|apply ends_halt; by apply Hno]. destruct (G4 i eq_refl) as (l' & q & _ & G7).
  destruct (item_of_ident _ _ _ _ _ G7) as (it & Hit & Hpo). apply ends_bind. wp_step. apply ends_bind. eapply wp_scan_item; [exact Hit|].
  apply ends_halt_if; [by rewrite Hpo, Z.eqb_refl|]. intros _. apply ends_bind. apply wp_on_host. eapply wp_upd_kitem; [exact Hit|].
  apply ends_returns. unfold returns. wp_step. apply wp_on_host. unfold wp, on_kalloc. simpl.
  assert (wp (insert_entry_to_shadow_mm sm addr p i) (kallocs (sc_host s3)) (λ _ _, True)) as Hw'.
  { apply (wp_insert_built _ es); [done| |by eapply inv_allocs|done]. apply sorted_ascending.
    - apply StronglySorted_app. split_and!; [|done|by repeat constructor]. intros x y Hx ->%list_elem_of_singleton. simpl.
      rewrite Forall_forall in Hlt. by apply Hlt.
    - apply Forall_app. split; [done|by constructor]. }
  unfold wp in Hw'. by destruct (insert_entry_to_shadow_mm _ _ _ _ _) as [[r k]| |].
Qed.

Lemma ends_walk_page_range mm addrs δ es sm s :
  affords E (length addrs) s → walked_to mm δ es sm s → StronglySorted Z.lt addrs → Forall (λ a, a mod 4096 = 0) addrs →
  (∀ e a, e ∈ es → a ∈ addrs → pte_va e.1 < a) → ends E (walk_page_range mm addrs sm) s.
Proof.
  revert es sm s. induction addrs as [|a addrs IH]; intros es sm s Haf Hw Hs Ha Hlt; cbn [walk_page_range]; [done|].
  apply StronglySorted_inv in Hs as [Hs Hmin]. apply Forall_cons in Ha as [Ha1 Ha]. rewrite Forall_forall in Hmin.
  assert (Hlt1 : Forall (λ e, pte_va e.1 < a) es) by (apply Forall_forall; intros e He; apply Hlt; [done|apply list_elem_of_here]).
  eapply ends_call; [by eapply ends_scan_pte_entry|apply pwp_and; [by apply (pwp_scan_pte_entry calm room h0 L0 exactly hb Hsee mm a δ es sm s)|]|].
  { apply (pwp_affords _ E 1 (length addrs)); [apply pwp_scan_entry_slab|exact Haf]. }
  intros sm1 s1 ((es1 & V1 & V2 & V3 & V4 & V5 & V6) & Haf1).
  eapply ends_call with (P := λ _ s2, walked_to mm δ (es ++ es1) sm1 s2 ∧ affords E (length addrs) s2).
  - apply ends_returns. apply wp_on_host. eapply wp_mono; [apply returns_interfere|done].
  - apply pwp_and; [|apply affords_keep; [apply slab_on_host|done]].
    eapply inv_interfere; [apply _|apply V1|]. intros h2 Hi2 E2. eapply (walked_same calm room h0 L0 exactly hb Hsee); [exact V1|exact Hi2|simpl; by rewrite E2|done].
  - intros [] s2 [Hw2 Haf2]. eapply IH; [exact Haf2|exact Hw2|done|done|]. rewrite Forall_forall in V5.
    intros e b [He|He]%elem_of_app Hb; [apply Hlt; [done|set_solver]|].
    specialize (V5 e He). apply list_elem_of_singleton in V5. rewrite V5. by apply Hmin.
Qed.

(** ** One process *)
Context (owner : Z → option Z).

Lemma ends_create_shadow_mm mm δ s :
  affords E (length (walked (h_mem (sc_host s)) mm)) s → inv δ s → at_head mm s → ends E (create_shadow_mm owner mm) s.
Proof.
  intros Haf Hi (Ha & Hp & Ho). unfold create_shadow_mm.
  eapply ends_call with (P := λ r s1, ∃ sm, r = Some sm ∧ shadow_built sm [] ∧ inv δ s1 ∧ items s1 = items s ∧ scan s1 = scan s ∧
    slab s1 = slab s ∧ h_mem (sc_host s1) = h_mem (sc_host s)).
  - apply ends_returns, wp_on_host. unfold wp, on_kalloc.
    assert (wp (create_empty (default (-1) (owner mm))) (kallocs (sc_host s)) (λ _ _, True)) as Hw.
    { apply wp_create_empty; [by eapply inv_allocs|done]. }
    unfold wp in Hw. by destruct (create_empty _ _) as [[r k]| |].
  - eapply (inv_kalloc calm room h0 L0 _ δ s (λ r, ∃ sm, r = Some sm ∧ shadow_built sm [])); [exact Hi| |].
    + apply wp_pwp, wp_create_empty; [by eapply inv_allocs|]. intros sm k Hb _ Hk. split; [by exists sm|done].
    + intros r k (sm & -> & Hb) Hi1. exists sm. by split_and!.
  - intros r s1 (sm & -> & Hb & Hi1 & E1 & Es & Esl & Em). apply ends_bind. wp_step.
    destruct (walked_ok (h_mem (sc_host s1)) mm) as [Hs Hal]; [apply (fm_ok _ _ _ _ (iv_from _ _ _ _ _ _ Hi1))|].
    apply (ends_walk_page_range mm _ δ [] sm s1); [rewrite Em; by eapply affords_same| |exact Hs|exact Hal|].
    + split; rewrite ?Es, ?E1, ?Hp; try done. constructor.
    + intros e a He. by apply elem_of_nil in He.
Qed.

Lemma ends_init_shadow_for_mm mm δ s :
  affords E (length (walked (h_mem (sc_host s)) mm)) s → inv δ s → at_head mm s → ends E (init_shadow_for_mm owner mm) s.
Proof.
  intros Haf Hi Hh. unfold init_shadow_for_mm. apply ends_bind. wp_step. destruct (ksm_test_exit _ _); [done|].
  eapply ends_call; [by eapply ends_create_shadow_mm|by apply (pwp_create_shadow_mm calm room h0 L0 exactly hb Hsee owner mm δ)|].
  intros sm s1 (es & W & _). pose proof W as [W1 W2 W3 W4 W5 W6 W7 W8]. rewrite (tr_cnt _ _ _ _ _ (sb_table _ _ W2)), length_fmap.
  destruct es as [|e es]; [|by destruct (Z.eqb_spec (Z.of_nat (length (e :: es))) 0)].
  change (Z.of_nat (length []) =? 0) with true. cbv iota. apply ends_returns. unfold returns. wp_step. apply wp_on_host. unfold free_shadow_mm.
  rewrite (sb_xa _ _ W2). change (list_to_map (xa_entry <$> [])) with (∅ : gmap Z positive). rewrite xa_order_empty. cbn [free_entries].
  do 2 wp_step. wp_step. eapply wp_liftO; [reflexivity|]. by wp_steps.
Qed.

(** The scan is not to run out of items, or the pages it walks are known. *)
Definition covers (n : nat) (s : scan_st) : Prop := (∀ w, out_of_items w → E w) ∨ (exactly ∧ plenty n s).

Definition walk_size (mm : Z) : nat := length (walked (h_mem hb) mm).

Lemma covers_affords mm n s :
  calm (sc_host s) → covers (walk_size mm + n) s → affords E (length (walked (h_mem (sc_host s)) mm) + n) s.
Proof. intros Hc [?|[Hx Hp]]; [by left|right]. by rewrite (se_walked _ _ (Hsee Hx _ Hc)). Qed.
Lemma covers_more k n s : covers (k + n) s → covers k s.
Proof. rewrite Nat.add_comm. intros [?|[Hx Hp]]; [by left|right]. split; [done|]. by eapply plenty_less. Qed.
Lemma covers_same n s s' : slab s' = slab s → covers n s → covers n s'.
Proof. intros Es [?|[Hx (rest & Er)]]; [by left|right]. split; [done|]. exists rest. congruence. Qed.

Lemma ends_prepare_mm mm l δ s : covers (walk_size mm) s → inv δ s → owns (items s) mm l → ends E (prepare_mm owner (MmSlot mm l)) s.
Proof.
  intros Hc Hi Ho. rewrite <- (Nat.add_0_r (walk_size mm)) in Hc. unfold prepare_mm. cbn [slot_mm rmap_list]. apply ends_bind. wp_step.
  eapply ends_call with (P := λ _ s1, (inv δ s1 ∧ at_head mm s1) ∧ slab s1 = slab s).
  - apply ends_returns. apply wp_on_host. eapply wp_mono; [apply returns_interfere|done].
  - apply pwp_and; [|eapply pwp_mono; [exact (slab_on_host interfere _)|by intros ? ? ->]]. eapply inv_interfere; [apply _|by apply inv_with_scan|]. intros h1 Hi1 E1. split; [done|]. split_and!; [done|done|]. simpl. by rewrite E1.
  - intros [] s1 [[Hi1 Hh1] Es1]. assert (Haf := covers_affords mm 0 s1 (iv_calm _ _ _ _ _ _ Hi1) (covers_same _ _ _ Es1 Hc)). rewrite Nat.add_0_r in Haf.
    eapply ends_call; [by eapply ends_init_shadow_for_mm|by apply (pwp_init_shadow_for_mm calm room h0 L0 exactly hb Hsee owner mm δ)|].
    intros [] s2; [done|]. intros (A & B & C & D & F). apply ends_returns. unfold returns. do 2 wp_step.
    eapply wp_call with (P := λ _ s3, inv δ s3 ∧ at_head mm s3).
    + destruct (ksm_test_exit _ _); unfold returns; by wp_step.
    + destruct (ksm_test_exit _ _); pwp_steps; [|done]. split; [by apply inv_with_scan|].
      destruct D as (_ & D1 & D2). split_and!; [done|done|]. simpl. by rewrite D1.
    + intros [] s3 [Hi3 (_ & Hp3 & Ho3)]. do 2 wp_step.
      eapply wp_call; [eapply (returns_remove_trailing calm room h0 L0 Hu0 δ mm []); [exact Hi3|exact Ho3]|apply pwp_true|].
      intros [] s4 _. unfold set_ahead. do 4 wp_step. case_match; by wp_steps.
Qed.

(** What the later processes need is left. *)
Lemma covers_prepare_mm mm l n δ s :
  covers (walk_size mm + n) s → inv δ s → owns (items s) mm l → pwp (prepare_mm owner (MmSlot mm l)) s (λ _, covers n).
Proof.
  intros [HE|[Hx Hp]] Hi Ho; [eapply pwp_mono; [apply pwp_true|intros; by left]|].
  apply (pwp_mono _ _ (λ _, plenty n)); [|intros; by right]. unfold prepare_mm. cbn [slot_mm rmap_list]. do 2 pwp_step.
  pwp_step. apply (pwp_mono _ _ (λ _ s1, calm (sc_host s1) ∧ slab s1 = slab s)).
  { apply pwp_and; [|eapply pwp_mono; [exact (slab_on_host interfere _)|by intros ? ? ->]].
    eapply inv_interfere; [apply _|by apply inv_with_scan|]. intros h1 Hi1 _. apply Hi1. }
  intros [] s1 [Hc E1]. pwp_step. eapply pwp_mono.
  { apply (pwp_init_slab owner mm n). rewrite (se_walked _ _ (Hsee Hx _ Hc)). destruct Hp as (rest & Er). exists rest. by rewrite E1. }
  intros [] s2 Hp2; [by pwp_steps|]. destruct Hp2 as (rest & E2). do 2 pwp_step.
  pwp_step. apply (pwp_mono _ _ (λ _ s3, slab s3 = slab s2)).
  { destruct (ksm_test_exit _ _); [by apply slab_modify|apply slab_ret]. }
  intros [] s3 E3. do 2 pwp_step. pwp_step. eapply pwp_mono; [apply slab_remove_trailing|]. intros [] s4 E4. unfold set_ahead. do 4 pwp_step.
  case_match; pwp_steps; exists rest; simpl; congruence.
Qed.

Definition walk_sizes (slots : list mm_slot) : nat := sum_list_with (walk_size ∘ slot_mm) slots.

Lemma ends_prepare_mms slots before T δ s :
  covers (walk_sizes slots) s → inv (all_pages T ++ δ) s → slots_ok s (before ++ slots) → tables_of owner (items s) T (shadow_pt_list s) →
  T.*1 ⊆ slot_mm <$> before → ends E (prepare_mms owner slots) s.
Proof.
  revert before T s. induction slots as [|[mm l] slots IH]; intros before T s Hc Hi Hs HT Hsub; cbn [prepare_mms]; [done|].
  pose proof (so_nodup _ _ Hs) as Hnd. rewrite fmap_app, fmap_cons in Hnd.
  apply NoDup_app in Hnd as (_ & Hd & _). assert (Hmd : mm ∉ slot_mm <$> before) by (intros Hin; apply (Hd mm Hin), list_elem_of_here).
  assert (Hmt : mm ∉ T.*1) by set_solver. pose proof (so_owns _ _ Hs) as [_ [Ho _]%Forall_cons]%Forall_app.
  change (walk_sizes (MmSlot mm l :: slots)) with (walk_size mm + walk_sizes slots)%nat in Hc.
  eapply ends_call; [eapply ends_prepare_mm; [|done..]; by eapply covers_more|apply pwp_and;
    [by apply (pwp_prepare_mm calm room h0 L0 exactly hb Hsee owner mm l (all_pages T ++ δ))|by eapply covers_prepare_mm]|].
  intros r s1 [Hr1 Hc1]. destruct Hr1 as [(-> & A & B & C & D & F)|(es & sm & -> & A & B & C & D & F & G)]; (eapply ends_call; [|apply pwp_true|done]).
  - unfold tables in D. injection D as D1 D2 D3 D4 D5.
    eapply (IH before T s1); [exact Hc1|exact A|by eapply slots_drop|rewrite D2|done].
    exact (tables_of_only owner _ _ _ _ _ B Hmt HT).
  - unfold tables in F. injection F as F1 F2 F3 F4 F5. set (sl := MmSlot mm (passed (scan s1) ++ ahead (scan s1))) in *.
    eapply (IH (before ++ [sl]) ((mm, es) :: T) s1); [exact Hc1|..].
    + by rewrite all_pages_cons, <- app_assoc.
    + rewrite <- app_assoc. by eapply slots_keep.
    + rewrite F2. constructor; [exact D|exact (tables_of_only owner _ _ _ _ _ B Hmt HT)].
    + rewrite fmap_app. simpl. set_solver.
Qed.
End scan.

(** ** The registration *)

(** The page of an item as its table lists it. *)
Lemma kernel_view_entry h i mm a p :
  items_of_ksm (h_ksm h) !! i = Some (mm, a, Some p) →
  ∃ it, kernel_view h i = Some it ∧ page_mask (Scatter.ki_address it) = a ∧ Scatter.ki_page it = p.
Proof.
  unfold items_of_ksm, kernel_view. rewrite lookup_fmap. destruct (kitems (h_ksm h) !! i) as [it|]; [|done].
  unfold ident. simpl. intros E. injection E as _ Ea Ep. eexists. split; [done|]. simpl. rewrite Ep. split; [|done].
  rewrite <- Ea, page_of_div. unfold page_mask. change PAGE_SIZE with 4096. Z.div_mod_to_equations. lia.
Qed.


(** A table of fewer than 2^23 pages fits its descriptor. *)
Lemma registered_chunks its mr_of map_mr sm r :
  register_shadow_mm its mr_of map_mr sm = Ok r → length r.1.1 = Z.to_nat (sgl_num (tb_cnt (pt_map sm))).
Proof.
  unfold register_shadow_mm. destruct (next_pages _ _ _ _ _); [|done..]. do 2 (case_match; [done|]). intros [= <-].
  unfold register_chunks, chunks. simpl. by rewrite !length_fmap, length_seq.
Qed.

Lemma table_registers owner h mr_of map_mr mm es sm :
  table_of owner (items_of_ksm (h_ksm h)) mm es sm → Z.of_nat (length es) < 2 ^ 23 →
  ∃ r, register_shadow_mm (kernel_view h) mr_of map_mr sm = Ok r ∧ Z.of_nat (length r.1.1) ≤ MAX_PAGES_DESCS.
Proof.
  intros Ht Hlen. pose proof (to_built _ _ _ _ _ Ht) as Hb.
  assert (Hi : Forall (λ e, ∃ it, kernel_view h e.2 = Some it ∧ page_mask (Scatter.ki_address it) = pte_va e.1) es).
  { eapply Forall_impl; [exact (to_items _ _ _ _ _ Ht)|]. intros e He.
    destruct (kernel_view_entry _ _ _ _ _ He) as (it & E1 & E2 & _). by exists it. }
  pose proof (tr_cnt _ _ _ _ _ (sb_table _ _ Hb)) as Hcnt. rewrite length_fmap in Hcnt.
  assert (Hmax : map_pages_cnt (pt_map sm) < MAX_PAGES_IN_SGL).
  { pose proof (sb_frugal _ _ Hb) as Hf. unfold frugal in Hf. unfold map_pages_cnt.
    apply Z.div_lt_upper_bound; [done|]. change SIZEOF_SHADOW_PTE with 16. change PAGE_SIZE with 4096. change MAX_PAGES_IN_SGL with 65536.
    change PTES_PER_PAGE with 256 in Hf. lia. }
  destruct (register_shadow_mm_ok (kernel_view h) mr_of map_mr sm es (built_wf _ _ _ Hb (table_of_ascending _ _ _ _ _ Ht) Hi) Hmax) as (sgts & Hr & _).
  eexists. split; [exact Hr|]. rewrite (registered_chunks _ _ _ _ _ Hr), Hcnt. unfold sgl_num, div_round_up.
  change MAX_PAGES_IN_SGL with 65536. change MAX_PAGES_DESCS with 512.
  assert ((Z.of_nat (length es) + 65536 - 1) / 65536 < 512) by (apply Z.div_lt_upper_bound; lia). lia.
Qed.

Lemma returns_register_shadow_mms `{RbTree} `{Memcmp} `{MmFault} mr_of map_mr n l s :
  Forall (λ sm, ∃ r, register_shadow_mm (kernel_view (sc_host s)) mr_of map_mr sm = Ok r ∧ Z.of_nat (length r.1.1) ≤ MAX_PAGES_DESCS) l →
  n + Z.of_nat (length l) ≤ MAX_MM_DESCS → returns (rdma_register_shadow_mms mr_of map_mr n l) s.
Proof.
  unfold returns. revert n. induction l as [|sm l IH]; intros n Hl Hn; cbn [rdma_register_shadow_mms]; [by wp_step|].
  apply Forall_cons in Hl as [(r & Hr & Hlen) Hl]. cbn [length] in Hn. do 3 wp_step. destruct (Z.leb_spec MAX_MM_DESCS n); [lia|].
  do 2 wp_step. eapply wp_liftO; [exact Hr|]. wp_step. destruct (Z.ltb_spec MAX_PAGES_DESCS (Z.of_nat (length r.1.1))); [lia|].
  do 2 wp_step. eapply wp_mono; [apply IH; [done|lia]|]. intros. by wp_step.
Qed.

(** A process has no more entries than there are items. *)
Lemma table_small owner I mm es sm : table_of owner I mm es sm → (length es ≤ size I)%nat.
Proof.
  intros Ht. rewrite <- (length_fmap snd es), <- size_dom. apply length_subset; [by eapply table_of_nodup|].
  intros i (e & -> & He)%list_elem_of_fmap. apply elem_of_dom. pose proof (to_items _ _ _ _ _ Ht) as Hi. rewrite Forall_forall in Hi.
  by eexists; apply Hi.
Qed.

Lemma ends_prepare_metadata `{RbTree} `{Memcmp} `{MmFault} calm `{!Calm calm} h0 L0 exactly hb E owner mr_of map_mr array_page et_mr_of δ s :
  with_server L0 = true → unlocked h0 → (exactly → ∀ h, calm h → sees hb h) → scan_inv calm (2 ^ 23) h0 L0 δ s → slots_ok s (mm_slots s) → shadow_pt_list s = [] →
  Z.of_nat (length (mm_slots s)) ≤ MAX_MM_DESCS → covers exactly E (walk_sizes hb (mm_slots s)) s →
  ends E (prepare_metadata owner mr_of map_mr array_page et_mr_of) s.
Proof.
  intros HL Hu Hsee Hi Hs Hl Hn Hc.
  assert (HT : tables_of owner (items s) [] (shadow_pt_list s)) by (rewrite Hl; constructor).
  unfold prepare_metadata. apply ends_bind. wp_step.
  eapply ends_call; [by apply (ends_prepare_mms calm (2 ^ 23) h0 L0 Hu exactly hb Hsee E owner (mm_slots s) [] [] δ s)|
    by apply (pwp_prepare_mms calm (2 ^ 23) h0 L0 exactly hb Hsee owner (mm_slots s) [] [] δ s)|].
  intros [slots any] s1 (T & [W1 W2 W3 W4 W5 W6 _ _]). cbn [fst snd] in *. rewrite app_nil_r in *. cbn [app] in *.
  apply ends_returns. unfold returns. do 2 wp_step. wp_step. apply (wp_mono _ _ (λ _ _, True)); [|intros; by wp_steps].
  destruct any; [|by wp_step]. unfold register_tables. wp_steps.
  eapply wp_mono; [apply returns_register_shadow_mms|].
  - rewrite Forall_forall. intros sm Hsm. destruct (tables_of_sm _ _ _ _ _ W3 Hsm) as (t & _ & Ht). eapply table_registers; [exact Ht|].
    pose proof (table_small _ _ _ _ _ Ht). pose proof (iv_slab _ _ _ _ _ _ W1). simpl. lia.
  - simpl. rewrite <- (Forall2_length _ _ _ W3), <- (length_fmap fst), W4, length_reverse.
    pose proof (so_nodup _ _ W2) as Hnd. pose proof (submseteq_length _ _ (NoDup_submseteq _ _ Hnd W6)) as Hle. rewrite !length_fmap in *. lia.
  - intros regs s2 _. pose proof (tk_log _ _ _ _ _ (iv_track _ _ _ _ _ _ W1)) as Hlog.
    destruct L0 as [L|]; [|done]. destruct Hlog as (t & _ & Ht & _).
    wp_step. apply (wp_deref _ t); [exact Ht|]. destruct (rdma_register_error_table _ _ _) as [[tbl' sgts] ds]. wp_step. apply wp_on_host. by wp_steps.
Qed.
