(* ===== verification/HostReturnsMerge.v ===== *)
(** * HostReturnsMerge: merging two pages comes to an end

    Merging changes page tables and frames only: whatever the other processors
    do, the frames of the machine stay the same ones ([machine]), so every page
    it looks up is there, and no compound page reaches the write protection. *)
From S2P Require Import Prelude Wire HashPair Growable Shadow Scatter Server HostMem HostTree HostTreeInv HostMerge HostApply HostScan HostDaemon HostSafe HostMergeSafe HostApplySafe HostTrack HostTrackInsert HostStays HostTrackMerge HostReturns.
Open Scope Z_scope.

(** ** The frames of the machine *)
Definition machine (D : gset Z) (h : host) : Prop := dom (frames (h_mem h)) = D ∧ Forall rely (env h).

Lemma machine_frame D h p : machine D h → p ∈ D → ∃ fr, frames (h_mem h) !! p = Some fr.
Proof. intros [<- _] Hp. by apply elem_of_dom. Qed.

Lemma machine_safe h : safe h → machine (dom (frames (h_mem h))) h.
Proof. by intros []. Qed.

Section settles.
Context (D : gset Z).
Abbreviation machine := (machine D).

(** The call returns, and the machine is the same. *)
Definition settles {A} (m : M host A) : Prop := ∀ h, machine h → wp m h (λ _, machine).

Lemma settles_ret {A} (a : A) : settles (mret a).
Proof. by intros h ?. Qed.
Lemma settles_bind {A B} (m : M host A) (f : A → M host B) : settles m → (∀ a, settles (f a)) → settles (m ≫= f).
Proof. intros Hm Hf h Hh. wp_step. eapply wp_mono; [by apply Hm|]. intros a h' Hh'. by apply Hf. Qed.
Lemma settles_get : settles get.
Proof. by intros h ?. Qed.
Lemma settles_whenM b (m : M host unit) : settles m → settles (whenM b m).
Proof. intros Hm h Hh. apply wp_whenM; intros _; [by apply Hm|done]. Qed.
Lemma settles_modify f : (∀ h, machine h → machine (f h)) → settles (modify f).
Proof. intros Hf h Hh. wp_step. by apply Hf. Qed.
Lemma settles_get_frame p : p ∈ D → settles (get_frame p).
Proof. intros Hp h Hh. destruct (machine_frame _ _ _ Hh Hp) as [fr Hfr]. by eapply wp_get_frame. Qed.
Lemma machine_insert p fr h : machine h → p ∈ D → machine (with_mem (on_frames (<[p := fr]>)) h).
Proof. intros [Hd He] Hp. split; [|done]. simpl. rewrite dom_insert_L. set_solver. Qed.
Lemma settles_upd_frame p f : p ∈ D → settles (upd_frame p f).
Proof. intros Hp h Hh. destruct (machine_frame _ _ _ Hh Hp) as [fr Hfr]. eapply wp_upd_frame; [exact Hfr|by apply machine_insert]. Qed.
Lemma settles_interfere : settles interfere.
Proof.
  intros h [Hd He]. unfold interfere, wp. destruct (env h) as [|f fs] eqn:E; [by split; rewrite ?E|].
  apply Forall_cons in He as [Hf Hfs]. destruct (Hf (h_mem h) (user h)) as [[Hdf _] _]. destruct (f (h_mem h, user h)) as [m u].
  split; simpl in *; [by rewrite Hdf|done].
Qed.
Lemma settles_count_fail n : settles (count_fail n).
Proof. by intros h ?. Qed.
Lemma settles_count_zero_page mm : settles (count_zero_page mm).
Proof. by intros h ?. Qed.
Lemma settles_set_pte a e : settles (set_pte a e).
Proof. by intros h ?. Qed.
End settles.

Create HintDb settles.
#[export] Hint Resolve settles_ret settles_get settles_get_frame settles_upd_frame settles_interfere settles_count_fail
  settles_count_zero_page settles_set_pte : settles.

(** Code made of such calls. *)
Ltac settles :=
  repeat (match goal with
  | |- settles _ (mbind _ _) => apply settles_bind; [|intros]
  | |- settles _ (match ?x with _ => _ end) => destruct x eqn:?
  | |- settles _ (let '(_, _) := ?x in _) => destruct x
  | |- settles _ (whenM _ _) => apply settles_whenM
  end); eauto with settles.

(** ** One page *)
Section merge.
Context `{RbTree} `{Memcmp} `{MmFault} (D : gset Z).

Lemma settles_trylock_page p : p ∈ D → settles D (trylock_page p).
Proof. intros Hp. unfold trylock_page. settles. Qed.
Lemma settles_unlock_page p : p ∈ D → settles D (unlock_page p).
Proof. intros Hp. unfold unlock_page. settles. Qed.
Lemma settles_split_huge_page p : p ∈ D → settles D (split_huge_page p).
Proof.
  intros Hp. unfold split_huge_page. settles. intros h [Hd He]. wp_step. split; [|done]. simpl. by rewrite dom_fmap_L.
Qed.
Lemma settles_replace_page mm v p q e : p ∈ D → q ∈ D → settles D (replace_page mm v p q e).
Proof. intros Hp Hq. unfold replace_page. settles. Qed.
Lemma settles_pages_identical p q : p ∈ D → q ∈ D → settles D (pages_identical p q).
Proof. intros Hp Hq. unfold pages_identical. settles. Qed.
#[local] Hint Resolve settles_trylock_page settles_unlock_page settles_split_huge_page settles_replace_page settles_pages_identical : settles.

(** Only a base page is write-protected. *)
Lemma returns_write_protect_page mm v p fr h :
  machine D h → frames (h_mem h) !! p = Some fr → fr_head fr = None → wp (write_protect_page mm v p) h (λ _, machine D).
Proof.
  intros Hm Hp Hh. assert (p ∈ D) as Hin by (destruct Hm as [<- _]; by apply elem_of_dom). unfold write_protect_page. wp_step.
  eapply wp_get_frame; [exact Hp|]. unfold PageTransCompound. rewrite Hh. case_match; [|by apply settles_bind; [apply settles_count_fail|intros; apply settles_ret|]].
  wp_step. apply wp_halt_if; [done|].
  match goal with |- wp ?m h _ => enough (settles D m) as Hs; [by apply Hs|] end. settles.
Qed.

Lemma settles_merge_locked mm v p kp : p ∈ D → (∀ q, kp = Some q → q ∈ D) → settles D (merge_locked mm v p kp).
Proof.
  intros Hp Hkp h Hm. destruct (machine_frame _ _ _ Hm Hp) as [fr Hfr]. unfold merge_locked. wp_step. eapply wp_get_frame; [exact Hfr|].
  wp_step. apply (wp_mono _ _ (λ split h', machine D h' ∧ (split = true → ∃ fr', frames (h_mem h') !! p = Some fr' ∧ fr_head fr' = None))).
  - unfold PageTransCompound. case_bool_decide as Hc.
    + unfold split_huge_page. wp_step. eapply wp_get_frame; [exact Hfr|]. destruct (fr_splittable fr); [|by wp_step]. wp_steps.
      split; [split; [|by apply Hm]; simpl; rewrite dom_fmap_L; apply Hm|]. intros _. simpl. rewrite lookup_fmap, Hfr. simpl.
      rewrite bool_decide_true by done. by eexists.
    + wp_step. split; [done|]. intros _. exists fr. split; [done|]. by destruct (fr_head fr); [destruct Hc|].
  - intros [] h1 [Hm1 Hs]; simpl negb; cbv iota.
    + destruct (Hs eq_refl) as (fr1 & Hfr1 & Hh1). wp_step. eapply wp_mono; [by eapply returns_write_protect_page|].
      intros orig h2 Hm2. match goal with |- wp ?m h2 _ => enough (settles D m) as Hs'; [by apply Hs'|] end. settles.
    + by apply settles_bind; [apply settles_count_fail|intros; apply settles_ret|].
Qed.
#[local] Hint Resolve settles_merge_locked : settles.

Lemma settles_try_to_merge_one_page mm v p kp :
  p ∈ D → (∀ q, kp = Some q → q ∈ D) → settles D (try_to_merge_one_page mm v p kp).
Proof. intros Hp Hkp. unfold try_to_merge_one_page. settles. Qed.

(** The compound page the pages were parts of. *)
Lemma settles_same_compound p q : p ∈ D → q ∈ D → settles D (same_compound p q).
Proof. intros Hp Hq. unfold same_compound. settles. Qed.
Lemma settles_split_after_failure p : p ∈ D → settles D (split_after_failure p).
Proof. intros Hp. unfold split_after_failure. settles. Qed.
End merge.

(** ** Two items *)
Section items.
#[local] Set Default Proof Using "Type*".
Context `{RbTree} `{Memcmp} `{MmFault} (L0 : mode) (es : list ksm_event_log).

Lemma settles_run {A} (m : M host A) h D : settles D m → machine D h → returns m h.
Proof. intros Hs Hm. eapply returns_wp, Hs, Hm. Qed.

Lemma from_item h0 δ Λ h i : from h0 δ Λ h → is_Some (kitems (h_ksm h0) !! i) → is_Some (kitems (h_ksm h) !! i).
Proof. intros Hk [it Hi]. destruct (fm_items _ _ _ _ Hk i it Hi) as (it' & Hi' & _). by exists it'. Qed.

Lemma held_in h p : page_held h p → p ∈ dom (frames (h_mem h)).
Proof. intros (fr & Hp & _). apply elem_of_dom. by exists fr. Qed.

Lemma target_in h kp : target_ok h kp → ∀ q, kp = Some q → q ∈ dom (frames (h_mem h)).
Proof. intros Ht q ->. destruct Ht as (fr & Hq & _). apply elem_of_dom. by exists fr. Qed.

Lemma returns_try_to_merge_with_ksm_page V r i p kp h :
  safe h → unlocked h → page_held h p → target_ok h kp → track L0 es V r h → is_Some (kitems (h_ksm h) !! i) →
  returns (try_to_merge_with_ksm_page i p kp) h.
Proof.
  intros Hs Hu Hp Hkp Ht [it Hi]. unfold returns, try_to_merge_with_ksm_page. wp_step. eapply wp_get_kitem; [exact Hi|].
  eapply wp_call; [apply returns_interfere|
    exact (pwp_and _ _ _ _ (keeps_interfere h [] [] h (safe_from h Hs)) (quiet_interfere L0 es V r _ h (conj Ht eq_refl)))|].
  intros [] h1 (Hk1 & Ht1 & E1). wp_steps. destruct (find_mergeable_vma _ _ _) as [v|]; [|by unfold count_fail; wp_steps].
  pose proof (from_safe _ _ _ _ Hk1) as Hs1.
  eapply wp_call; [eapply settles_run; [|by apply machine_safe]|
    exact (pwp_and _ _ _ _ (keeps_try_to_merge_one_page h [] [] (ki_mm it) v p kp h1 Hp Hkp Hk1)
      (quiet_try_to_merge_one_page L0 es V r (h_ksm h) (ki_mm it) v p kp h1 (conj Ht1 E1)))|].
  { rewrite (fm_dom _ _ _ _ Hk1). apply settles_try_to_merge_one_page; [by apply held_in|by apply target_in]. }
  intros ok h2 ([Hk2 _] & Ht2 & E2). destruct ok; simpl negb; cbv iota; [|by wp_step].
  eapply wp_call; [eapply (returns_remove_rmap_item L0 es V r); [by eapply from_safe|by eapply unlocked_from|done|rewrite E2; by exists it]|
    exact (keeps_remove_rmap_item h [] [] i h2 Hk2)|].
  intros [] h3 Hk3. destruct (from_item _ _ _ _ i Hk3 ltac:(by exists it)) as [it3 Hi3].
  wp_step. eapply wp_upd_kitem; [exact Hi3|]. unfold count. by wp_steps.
Qed.

(** What the next merge relies on is there after this one. *)
Lemma pwp_try_to_merge V r i p kp h :
  safe h → page_held h p → target_ok h kp → track L0 es V r h →
  pwp (try_to_merge_with_ksm_page i p kp) h (λ ok h', from h [] [] h' ∧ unlists (h_ksm h) (h_ksm h') ∧
    (ok = true → kp = None → ksm_held h' p) ∧ if ok then track L0 es (delete i V) (r + 1) h' ∧ unlisted i h' else track L0 es V r h').
Proof.
  intros Hs Hp Hkp Ht. eapply pwp_mono; [exact (pwp_and _ _ _ _ (keeps_try_to_merge_with_ksm_page h [] [] i p kp h Hp Hkp (safe_from h Hs))
    (track_try_to_merge_with_ksm_page L0 es V r i p kp h Hs Hp Hkp Ht))|].
  intros ok h1 ([Hk1 Hpr] & Hl & Hok). split_and!; [done|done| |done]. intros -> ->. specialize (Hpr eq_refl eq_refl).
  eapply promoted_held; [apply safe_from; by eapply from_safe| |exact Hpr]. by eapply page_held_from.
Qed.

Lemma returns_break_cow i h : is_Some (kitems (h_ksm h) !! i) → returns (break_cow i) h.
Proof.
  intros [it Hi]. unfold returns, break_cow. wp_step. eapply wp_get_kitem; [exact Hi|]. unfold count. do 2 wp_step.
  eapply wp_call; [apply returns_interfere|apply pwp_true|]. intros [] h1 _. wp_steps.
  destruct (find_mergeable_vma _ _ _); [|by wp_step]. wp_step. eapply wp_mono; [|intros; by wp_step].
  destruct (unshared_at_last (h_mem h1) (ki_mm it, page_of (ki_address it))) as (n & Hn & Hx).
  apply (returns_break_ksm _ n); [lia|exact Hx].
Qed.

Lemma returns_try_to_merge_two_pages V r i p j q h :
  safe h → unlocked h → page_held h p → page_held h q → track L0 es V r h →
  is_Some (kitems (h_ksm h) !! i) → is_Some (kitems (h_ksm h) !! j) →
  returns (try_to_merge_two_pages i p j q) h.
Proof.
  intros Hs Hu Hp Hq Ht Hi Hj. unfold returns, try_to_merge_two_pages.
  eapply wp_call; [by eapply returns_try_to_merge_with_ksm_page|by apply (pwp_try_to_merge V r i p None)|].
  intros [] h1 (Hk1 & _ & Hpr & Hok); simpl negb; cbv iota; [|by wp_step]. destruct Hok as [Ht1 _]. specialize (Hpr eq_refl eq_refl).
  eapply wp_call; [eapply returns_try_to_merge_with_ksm_page; [by eapply from_safe|by eapply unlocked_from|
      by eapply page_held_from|exact Hpr|exact Ht1|by eapply from_item]|
    apply (pwp_try_to_merge (delete i V) (r + 1) j q (Some p)); [by eapply from_safe|by eapply page_held_from|exact Hpr|exact Ht1]|].
  intros [] h2 (Hk2 & _); [by wp_step|]. wp_step. eapply wp_mono; [|intros; by wp_step].
  apply returns_break_cow. eapply from_item; [exact Hk2|]. by eapply from_item.
Qed.
End items.
