(* ===== verification/HostNamed.v ===== *)
(** * HostNamed: a held KSM page keeps its node

    While the daemon holds a reference to a KSM page, the page keeps the stable
    node it names, through the removal of items and the merge of another page
    onto it. *)
From S2P Require Import Prelude Wire HashPair Growable Shadow Server HostMem HostTree HostTreeInv HostMerge HostApply HostSafe HostMergeSafe HostTrack HostStays.
Open Scope Z_scope.

Section named.
#[local] Set Default Proof Using "All".
Context `{RbTree} `{Memcmp} (q : Z) (n : loc).

Definition named (h : host) : Prop := ∃ fr, frames (h_mem h) !! q = Some fr ∧ fr_mapping fr = MapKsm (Some n).
Abbreviation keeps_name m := (stays named m).

(** ** What does not touch the page *)
Lemma name_get_frame p : keeps_name (get_frame p).
Proof. intros h Hn. by apply pwp_get_frame. Qed.
Lemma name_get_kitem i : keeps_name (get_kitem i).
Proof. intros h Hn. by apply pwp_get_kitem. Qed.
Lemma name_get_knode m : keeps_name (get_knode m).
Proof. intros h Hn. by apply pwp_get_knode. Qed.
Lemma name_upd_kitem i f : keeps_name (upd_kitem i f).
Proof. intros h Hn. by apply pwp_upd_kitem. Qed.
Lemma name_upd_knode m f : keeps_name (upd_knode m f).
Proof. intros h Hn. by apply pwp_upd_knode. Qed.
Lemma name_upd_frame p f : (∀ fr, p = q → fr_mapping fr = MapKsm (Some n) → fr_mapping (f fr) = MapKsm (Some n)) → keeps_name (upd_frame p f).
Proof.
  intros Hf h (fr & Hq & Hm). apply pwp_upd_frame. intros fr' Hp. unfold named. simpl. destruct (decide (p = q)) as [->|Hne].
  - rewrite lookup_insert_eq. eexists. split; [done|]. rewrite Hq in Hp. injection Hp as <-. by apply Hf.
  - rewrite lookup_insert_ne by done. by exists fr.
Qed.
Lemma name_count a b c d : keeps_name (count a b c d).
Proof. by intros h Hn. Qed.
Lemma name_count_nodes a b : keeps_name (count_nodes a b).
Proof. by intros h Hn. Qed.
Lemma name_count_merging mm d : keeps_name (count_merging mm d).
Proof. by intros h Hn. Qed.
Lemma name_count_fail k : keeps_name (count_fail k).
Proof. by intros h Hn. Qed.
Lemma name_count_zero_page mm : keeps_name (count_zero_page mm).
Proof. by intros h Hn. Qed.
Lemma name_set_pte a e : keeps_name (set_pte a e).
Proof. by intros h Hn. Qed.
Lemma name_report t e : keeps_name (report t e).
Proof. intros h Hn. unfold report, pwp. by destruct (insert_error_log _ _ _ _) as [[[? ?] ?]| |]. Qed.
#[local] Hint Resolve name_get_frame name_get_kitem name_get_knode name_upd_kitem name_upd_knode name_count name_count_nodes
  name_count_merging name_count_fail name_count_zero_page name_set_pte name_report : stays.

Lemma name_clear_items m l : keeps_name (clear_items m l).
Proof. induction l as [|i l IH]; cbn [clear_items]; stays. Qed.
#[local] Hint Resolve name_clear_items : stays.

Lemma name_stale_node m p : keeps_name (stale_node m p).
Proof.
  unfold stale_node, remove_node_from_stable_tree, stable_node_dup_del, hlist_del, free_stable_node. by stays.
Qed.

Lemma name_unlock_page p : keeps_name (unlock_page p).
Proof. by apply name_upd_frame. Qed.
Lemma name_get_page p : keeps_name (get_page p).
Proof. by apply name_upd_frame. Qed.
Lemma name_trylock_page p : keeps_name (trylock_page p).
Proof. unfold trylock_page. stays. by apply name_upd_frame. Qed.
#[local] Hint Resolve name_stale_node name_unlock_page name_get_page name_trylock_page : stays.

(** ** While it is held *)
Section held.
Context (h0 : host) (Hq : ksm_held h0 q).

Lemma name_interfere δ Λ h : from h0 δ Λ h → named h → pwp interfere h (λ _ h', from h0 δ Λ h' ∧ named h').
Proof.
  intros Hk (fr & Hp & Hm). unfold pwp. destruct (interfere h) as [[[] h1]| |] eqn:E; [|done..].
  destruct (from_interfere _ _ _ _ _ Hk E) as (Hk1 & _ & _ & Hd & Hr). split; [done|].
  destruct Hq as (fr0 & Hp0 & Hz & Hks). destruct (from_frozen _ _ _ _ _ _ Hk Hp0 Hz) as (fr' & Hp' & Hz' & _).
  rewrite Hp in Hp'. injection Hp' as <-. assert (is_Some (frames (h_mem h1) !! q)) as [fr1 Hp1].
  { apply elem_of_dom. rewrite Hd. by apply elem_of_dom. }
  exists fr1. split; [done|]. destruct (rl_frozen _ _ (Hr q fr fr1 Hp Hp1) Hz') as (_ & _ & ->). done.
Qed.

Lemma name_put_page δ Λ p h : from h0 (p :: δ) Λ h → named h → pwp (put_page p) h (λ _ h', from h0 δ Λ h' ∧ named h').
Proof.
  intros Hk Hn. apply pwp_and; [by apply keeps_put_page|]. destruct Hn as (fr & Hp & Hm). unfold put_page. apply pwp_upd_frame.
  intros fr' Hp'. unfold named. simpl. destruct (decide (p = q)) as [->|Hne].
  - rewrite lookup_insert_eq. eexists. split; [done|]. rewrite Hp in Hp'. injection Hp' as <-.
    destruct (from_frame_inv _ _ _ _ _ _ Hk Hp) as (fr0 & Hp0 & [F1 _ _]). rewrite occ_cons, decide_True in F1 by done.
    destruct Hq as (fr1 & Hp1 & (Hkr & _) & _). rewrite Hp0 in Hp1. injection Hp1 as <-.
    pose proof (occ_nonneg q δ). destruct (mo_refs _ (fm_ok _ _ _ _ Hk) q fr Hp) as (R1 & R2 & R3).
    unfold drop_ref. case_match eqn:Hc; [|done]. apply Z.eqb_eq in Hc. unfold page_count in Hc. simpl in Hc. destruct (fr_swapcache fr); lia.
  - rewrite lookup_insert_ne by done. by exists fr.
Qed.

Lemma name_lock_page δ Λ p h : from h0 δ Λ h → named h → pwp (lock_page p) h (λ _ h', (from h0 δ (p :: Λ) h' ∧ not_held h0 Λ p) ∧ named h').
Proof.
  intros Hk Hn. apply pwp_and; [by apply keeps_lock_page|].
  unfold lock_page. pwp_step. apply pwp_get_frame. intros fr Hp. pwp_step. apply pwp_halt_if. intros _.
  pwp_step. eapply pwp_mono; [by apply name_interfere|]. intros [] h1 [Hk1 Hn1]. by apply name_upd_frame.
Qed.

Lemma name_get_ksm_page_lock m h : from h0 [] [] h → named h → pwp (get_ksm_page m GET_KSM_PAGE_LOCK) h (λ _, named).
Proof.
  intros Hk Hn. unfold get_ksm_page. pwp_step. apply pwp_get_knode. intros nd _. pwp_step. apply pwp_get_frame. intros fr1 _.
  destruct (negb _); [by apply name_stale_node|]. pwp_step. eapply pwp_mono; [by apply name_interfere|]. intros [] h1 [Hk1 Hn1].
  pwp_step. apply pwp_get_frame. intros fr2 _. destruct (_ =? 0); [by apply name_stale_node|].
  eapply pwp_both; [exact (keeps_get_page h0 [] [] _ h1 Hk1)|by apply name_get_page|]. intros [] h2 Hk2 Hn2.
  destruct (negb _).
  { pwp_step. eapply pwp_mono; [by apply name_put_page|]. intros [] h3 [_ Hn3]. by apply name_stale_node. }
  pwp_step. eapply pwp_mono; [by apply name_lock_page|]. intros [] h3 [[Hk3 Hl3] Hn3]. pwp_step. apply pwp_get_frame. intros fr3 _.
  destruct (negb _); [|by pwp_step].
  eapply pwp_both; [exact (keeps_unlock_page h0 _ [] _ h3 Hl3 Hk3)|by apply name_unlock_page|]. intros [] h4 Hk4 Hn4.
  pwp_step. eapply pwp_mono; [by apply name_put_page|]. intros [] h5 [_ Hn5]. by apply name_stale_node.
Qed.

(** ** The calls of a stable merge *)
Lemma name_remove_rmap_item i h : from h0 [] [] h → named h → pwp (remove_rmap_item_from_tree i) h (λ _, named).
Proof.
  intros Hk Hn. unfold remove_rmap_item_from_tree. pwp_step. apply pwp_get_kitem. intros it _. destruct (has_flag STABLE_FLAG _).
  - pwp_step. apply pwp_deref. intros m _.
    eapply pwp_both; [exact (keeps_get_ksm_page h0 [] [] m _ h Hk)|by apply name_get_ksm_page_lock|].
    intros [p| |] h1 Hg Hn1; [|by pwp_step..]. destruct Hg as (Hk1 & Hl & _). specialize (Hl ltac:(done)).
    eapply pwp_both; [unfold hlist_del; exact (keeps_upd_knode h0 _ _ m _ h1 Hk1)|by apply name_upd_knode|]. intros [] h2 Hk2 Hn2.
    eapply pwp_both; [exact (keeps_unlock_page h0 _ [] _ h2 Hl Hk2)|by apply name_unlock_page|]. intros [] h3 Hk3 Hn3.
    pwp_step. eapply pwp_mono; [by apply name_put_page|]. intros [] h4 [_ Hn4]. revert h4 Hn4.
    match goal with |- ∀ h4, named h4 → pwp ?m h4 _ => enough (keeps_name m) as Hs; [exact Hs|] end. stays.
  - match goal with |- pwp ?m h _ => enough (keeps_name m) as Hs; [by apply Hs|] end. destruct (has_flag UNSTABLE_FLAG _); stays; done.
Qed.
End held.

Lemma name_write_protect_page mm v p : keeps_name (write_protect_page mm v p).
Proof.
  unfold write_protect_page. stays; apply name_upd_frame; intros fr0; by destruct (pte_dirty _).
Qed.

Lemma name_split_huge_page p : keeps_name (split_huge_page p).
Proof.
  unfold split_huge_page. apply stays_bind; [apply name_get_frame|intros fr0]. destruct (fr_splittable fr0); [|stays].
  apply stays_bind; [|stays]. intros h (fr & Hq & Hm). pwp_step. unfold named. simpl. rewrite lookup_fmap, Hq. simpl.
  eexists. split; [done|]. by case_bool_decide.
Qed.

Lemma name_replace_page mm v p k e : keeps_name (replace_page mm v p k e).
Proof. unfold replace_page. stays; apply name_upd_frame; intros fr ?; try done; by destruct (page_mapped _). Qed.
#[local] Hint Resolve name_write_protect_page name_split_huge_page name_replace_page : stays.

Section merge.
Context `{MmFault} (h0 : host) (Hq : ksm_held h0 q).

Lemma name_merge_locked Λ mm v p h :
  locked_held h0 Λ p → from h0 [] Λ h → named h → pwp (merge_locked mm v p (Some q)) h (λ _, named).
Proof.
  intros Hl Hk Hn. unfold merge_locked. pwp_step. apply pwp_get_frame. intros fr _.
  eapply (pwp_both _ _ _ (λ _ h', from h0 [] Λ h') (λ _, named)).
  { destruct (PageTransCompound fr); [by apply keeps_split_huge_page|by pwp_step]. }
  { destruct (PageTransCompound fr); [by apply name_split_huge_page|by pwp_step]. }
  intros split h1 Hk1 Hn1. destruct (negb split).
  { pwp_step. eapply pwp_mono; [by apply name_count_fail|]. intros [] h2 Hn2. by pwp_step. }
  eapply pwp_both; [exact (keeps_write_protect_page h0 [] Λ mm v p h1 Hl Hk1)|by apply name_write_protect_page|].
  intros w h2 [Hk2 _] Hn2. pwp_step. eapply pwp_mono; [by apply (name_interfere h0 Hq)|]. intros [] h3 [Hk3 Hn3].
  destruct w as [orig|]; [|by pwp_step]. pwp_step. unfold pages_identical.
  pwp_step. apply pwp_get_frame. intros fr1 _. pwp_step. apply pwp_get_frame. intros fr2 _. do 2 pwp_step.
  eapply pwp_mono; [by apply (name_interfere h0 Hq)|]. intros [] h4 [_ Hn4]. destruct (_ =? 0); [by apply name_replace_page|].
  pwp_step. eapply pwp_mono; [by apply name_count_fail|]. intros [] h5 Hn5. by pwp_step.
Qed.

Lemma name_try_to_merge_with_ksm_page i p h :
  page_held h0 p → from h0 [] [] h → named h → pwp (try_to_merge_with_ksm_page i p (Some q)) h (λ _, named).
Proof.
  intros Hp Hk Hn. unfold try_to_merge_with_ksm_page. pwp_step. apply pwp_get_kitem. intros it _.
  pwp_step. eapply pwp_mono; [by apply (name_interfere h0 Hq)|]. intros [] h1 [Hk1 Hn1]. do 2 pwp_step.
  destruct (find_mergeable_vma _ _ _) as [v|]; [|unfold count_fail; by pwp_steps].
  eapply pwp_both with (Q := λ _, named); [exact (keeps_try_to_merge_one_page h0 [] [] (ki_mm it) v p (Some q) h1 Hp Hq Hk1)| |].
  - unfold try_to_merge_one_page. case_bool_decide; [by pwp_step|]. pwp_step. apply pwp_get_frame. intros fr _.
    destruct (negb _); [unfold count_fail; by pwp_steps|].
    eapply pwp_both; [exact (keeps_trylock_page h0 [] [] p h1 Hk1)|by apply name_trylock_page|]. intros [] h2 Hk2 Hn2; simpl; [|unfold count_fail; by pwp_steps].
    destruct Hk2 as [Hk2 _]. pwp_step. eapply pwp_mono; [by apply (name_interfere h0 Hq)|]. intros [] h3 [Hk3 Hn3].
    pwp_step. eapply pwp_mono; [eapply name_merge_locked; [|exact Hk3|exact Hn3]; split; [set_solver|done]|]. intros r h4 Hn4.
    pwp_step. eapply pwp_mono; [by apply name_unlock_page|]. intros [] h5 Hn5. by pwp_step.
  - intros ok h2 [Hk2 _] Hn2. destruct (negb ok); [by pwp_step|].
    pwp_step. eapply pwp_mono; [by eapply (name_remove_rmap_item h0)|]. intros [] h3 Hn3.
    pwp_step. eapply pwp_mono; [by apply name_upd_kitem|]. intros [] h4 Hn4. unfold count. by pwp_steps.
Qed.
End merge.
End named.
