(* ===== verification/HostReturnsApply.v ===== *)
(** * HostReturnsApply: applying the log comes to an end

    The search of [stable_tree_insert] and the insertion return; a merge of two
    pages returns whatever its outcome; a stable merge stops only at a node
    that is full or whose page has just been freed. *)
From S2P Require Import Prelude Wire HashPair Growable Shadow Scatter Server HostMem HostTree HostTreeInv HostMerge HostApply HostScan HostDaemon HostSafe HostMergeSafe HostApplySafe HostTrack HostTrackInsert HostTrackLink HostStays HostTrackMerge HostTrackApply HostReturns HostReturnsMerge HostNamed.
Open Scope Z_scope.

(** What a call returns, and what it keeps. *)
Lemma wp_with {S A B} (m : M S A) (f : A → M S B) h (P R : A → S → Prop) (Q : B → S → Prop) :
  wp m h P → pwp m h R → (∀ a h', P a h' → R a h' → wp (f a) h' Q) → wp (m ≫= f) h Q.
Proof.
  intros HP HR HQ. eapply wp_call; [by eapply returns_wp|exact (pwp_and _ _ _ _ (wp_pwp _ _ _ HP) HR)|].
  intros a h' [? ?]. by apply HQ.
Qed.

(** ** The search *)
Section search.
#[local] Set Default Proof Using "Type*".
Context `{RbTree} `{Memcmp} (L0 : mode) (es : list ksm_event_log) (V : gmap loc (loc * Z)) (r : Z).
Abbreviation walking := (walking L0 es V r).

(** The daemon at work. *)
Definition working (h : host) : Prop := safe h ∧ track L0 es V r h.

Lemma working_from h0 held locked h : from h0 held locked h → track L0 es V r h → working h.
Proof. intros Hk Ht. split; [by eapply from_safe|done]. Qed.

(** The page a call returns is a frame of the machine. *)
Definition there (p : option Z) (h : host) : Prop := match p with Some p => is_Some (frames (h_mem h) !! p) | None => True end.

Lemma wp_get_nolock n nd h :
  working h → knodes (h_ksm h) !! n = Some nd → is_stable_node_chain nd = false →
  wp (get_ksm_page n GET_KSM_PAGE_NOLOCK) h (λ g h', let p := if g is Got p then Some p else None in
    there p h' ∧ holding h [] [] p h' ∧ tracked_got L0 es V r n GET_KSM_PAGE_NOLOCK (h_ksm h) g h').
Proof.
  intros (Hs & Ht) Hn Hc. apply wp_returns; [by eapply returns_get_ksm_page|].
  eapply pwp_mono; [exact (pwp_and _ _ _ _ (keeps_get_nolock h [] [] n h (safe_from h Hs)) (track_get_ksm_page L0 es V r n _ h Hs Ht))|].
  intros [p| |] h1 [Hk Hg]; simpl in Hk, Hg; split_and!; try done.
  destruct Hg as (Ht1 & E1 & nd' & Hn' & Hc' & <-). simpl. rewrite <- E1 in Hn'. by eapply tk_nodes.
Qed.

(** A page held is given back. *)
Lemma wp_put_page h0 p h (Q : unit → host → Prop) :
  there (Some p) h → from h0 [p] [] h → track L0 es V r h →
  (∀ h', working h' → h_ksm h' = h_ksm h → from h0 [] [] h' → Q tt h') → wp (put_page p) h Q.
Proof.
  intros [fr Hp] Hk Ht HQ. apply wp_returns; [by eapply returns_upd_frame|].
  eapply pwp_mono; [exact (pwp_and _ _ _ _ (keeps_put_page h0 [] [] p h Hk) (track_put_page L0 es V r p h Ht))|].
  intros [] h1 (Hk1 & Ht1 & E1). apply HQ; [by eapply working_from|done|done].
Qed.

Lemma on_chain_node c d l h : working h → on_chain c (d :: l) h →
  ∃ nd, knodes (h_ksm h) !! d = Some nd ∧ is_stable_node_chain nd = false.
Proof.
  intros [_ Ht] (cd & A & B & _ & D). destruct (ko_chain _ _ (tk_ksm _ _ _ _ _ Ht) c cd A B) as (_ & _ & Hall).
  destruct (Hall d ltac:(apply D; set_solver)) as (nd & Hn & _ & Hc). by exists nd.
Qed.

Lemma on_chain_tail c d l h h' : h_ksm h' = h_ksm h → on_chain c (d :: l) h → on_chain c l h'.
Proof.
  intros E (cd & A & B & C & D). exists cd. rewrite E. apply NoDup_cons in C as [_ C]. split_and!; [done..|]. intros x Hx. apply D. set_solver.
Qed.

Lemma wp_first_dup c l h : working h → on_chain c l h → wp (first_dup l) h (λ res, there (snd <$> res)).
Proof.
  revert h. induction l as [|d l IH]; intros h Hw Hon; cbn [first_dup]; [by wp_step|].
  destruct (on_chain_node _ _ _ _ Hw Hon) as (nd & Hn & Hc). pose proof Hw as (Hs & Ht).
  wp_step. eapply wp_mono; [by eapply wp_get_nolock|]. intros [p| |] h1 (Hp & Hk1 & Hg); simpl in Hk1, Hg.
  - destruct Hg as (Ht1 & E1 & _). wp_step. eapply wp_get_knode; [rewrite E1; exact Hn|]. do 2 wp_step.
    destruct (is_page_sharing_candidate_at _ _ _); [by wp_step|]. wp_step.
    eapply wp_put_page; [exact Hp|exact Hk1|exact Ht1|]. intros h2 Hw2 E2 _.
    apply IH; [done|]. eapply on_chain_tail; [|exact Hon]. congruence.
  - destruct Hg as [Ht1 Hd]. apply IH; [by eapply working_from|]. by eapply (on_chain_dropped r c d l (h_ksm h) h); [| |apply Ht|].
  - by destruct Hg as [? _].
Qed.

Lemma wp_stable_node_dup c cd h :
  working h → knodes (h_ksm h) !! c = Some cd → is_stable_node_chain cd = true →
  wp (stable_node_dup c) h (λ res h', there (snd <$> res) h' ∧ ∀ d p, res = Some (d, p) → live_node d h').
Proof.
  intros Hw Hn Hc. pose proof Hw as (Hs & Ht). unfold stable_node_dup. wp_step. eapply wp_get_knode; [exact Hn|].
  destruct (ko_chain _ _ (tk_ksm _ _ _ _ _ Ht) c cd Hn Hc) as (_ & Hnd & _).
  assert (Hon : on_chain c (kn_hlist cd) h) by by exists cd.
  eapply wp_with; [by eapply wp_first_dup|by eapply (track_first_dup L0 es V r c _ (h_ksm h)); [|apply walking_refl|]|].
  intros [[d p]|] h1 Hp [(Ht1 & _) Hon1]; [|by wp_step]. pose proof Hon1 as (cd1 & A & B & _ & D).
  wp_step. eapply wp_get_knode; [exact A|].
  destruct (ko_chain _ _ (tk_ksm _ _ _ _ _ Ht1) c cd1 A B) as (_ & _ & Hall).
  destruct (Hall d ltac:(apply D; set_solver)) as (nd & Hnd1 & _ & Hdc). wp_step. eapply wp_get_knode; [exact Hnd1|]. do 3 wp_step.
  apply wp_whenM; intros _; [eapply wp_upd_knode; [exact A|]|]; wp_step; (split; [done|]); intros d' p' [= <- <-]; exists nd; [|done].
  simpl. by rewrite lookup_insert_ne by congruence.
Qed.

Lemma wp_chain x h : working h → is_Some (knodes (h_ksm h) !! x) → wp (chain x) h (λ c, there c.2).
Proof.
  intros Hw [nd Hn]. unfold chain. wp_step. eapply wp_get_knode; [exact Hn|]. destruct (is_stable_node_chain nd) eqn:Hc.
  - wp_step. eapply wp_mono; [by eapply wp_stable_node_dup|]. intros [[d p]|] h1 [Hp _]; by wp_step.
  - do 2 wp_step. destruct (is_page_sharing_candidate_at _ _ _); [|by wp_step]. wp_step. eapply wp_mono; [by eapply wp_get_nolock|].
    intros [p| |] h1 (Hp & _); by wp_step.
Qed.

Lemma tree_node x h : track L0 es V r h → x ∈ inorder (root_stable_tree (h_ksm h)) → is_Some (knodes (h_ksm h) !! x).
Proof. intros Ht Hx. destruct (proj1 (ko_tree _ _ (tk_ksm _ _ _ _ _ Ht) x) Hx) as (nd & Hn & _). by exists nd. Qed.

Lemma wp_tree_page_of x h :
  working h → x ∈ inorder (root_stable_tree (h_ksm h)) → wp (tree_page_of x) h there.
Proof.
  intros Hw Hx. pose proof Hw as (Hs & Ht). unfold tree_page_of.
  eapply wp_with; [apply wp_chain; [done|by eapply tree_node]|
    exact (pwp_and _ _ _ _ (track_chain L0 es V r x h Hs Ht) (keeps_chain_none h [] [] x h (safe_from h Hs)))|].
  intros [found tp] h1 Hp [[Hs1 Hc] Hk1]. simpl in Hp, Hc, Hk1. destruct found; [by wp_step|]. specialize (Hk1 eq_refl).
  destruct Hc as (Ht1 & HR & _). assert (Hw1 : working h1) by by eapply working_from.
  destruct (tree_node x h1 Ht1 ltac:(by rewrite HR)) as [nd Hn]. wp_step. unfold stable_node_dup_any. wp_step. eapply wp_get_knode; [exact Hn|].
  assert (Hget : ∀ d dd, knodes (h_ksm h1) !! d = Some dd → is_stable_node_chain dd = false →
    wp (r ← get_ksm_page d GET_KSM_PAGE_NOLOCK; match r with Got page => mret (Some page) | _ => mret None end) h1 there).
  { intros d dd Hd Hdc. wp_step. eapply wp_mono; [by eapply wp_get_nolock|]. intros [p| |] h2 (Hp2 & _); by wp_step. }
  destruct (is_stable_node_chain nd) eqn:Hc; simpl negb; cbv iota; [|wp_step; by eapply Hget].
  destruct (kn_hlist nd) as [|d l] eqn:El.
  - unfold free_stable_node_chain, free_stable_node, count_nodes. wp_steps. eapply wp_get_knode; [exact Hn|]. by wp_steps.
  - wp_step. destruct (ko_chain _ _ (tk_ksm _ _ _ _ _ Ht1) x nd Hn Hc) as (_ & _ & Hall).
    destruct (Hall d ltac:(rewrite El; set_solver)) as (dd & Hd & _ & Hdc). by eapply Hget.
Qed.

(** ** The descent *)
Lemma wp_descend k kpage rest path h :
  working h → walking k h → is_Some (frames (h_mem h) !! kpage) → (∀ x, x ∈ inorder rest → x ∈ inorder (root_stable_tree k)) →
  wp (descend kpage rest path) h (λ _ _, True).
Proof.
  revert path h. induction rest as [|l IHl x t IHt]; intros path h Hw Hwk Hkp Hin; cbn [descend]; [by wp_step|].
  pose proof Hw as (Hs & Ht). pose proof Hwk as (_ & HR & _).
  eapply wp_with; [apply wp_tree_page_of; [done|rewrite HR; apply Hin; set_solver]|
    exact (pwp_and _ _ _ _ (keeps_tree_page_of h [] [] x h (safe_from h Hs)) (track_tree_page_of L0 es V r x h Hs Ht))|].
  intros [tp|] h1 Hp [Hk1 Hse]; simpl in Hk1, Hp; [|by wp_step].
  pose proof (searched_trans _ _ _ _ _ _ _ _ Hwk Hse) as Hwk1. destruct Hp as [tfr Htp].
  assert (is_Some (frames (h_mem h1) !! kpage)) as [kfr Hkfr].
  { apply elem_of_dom. rewrite (fm_dom _ _ _ _ Hk1). by apply elem_of_dom. }
  wp_step. eapply wp_get_frame; [exact Hkfr|]. wp_step. eapply wp_get_frame; [exact Htp|]. wp_step.
  eapply wp_put_page; [by exists tfr|exact Hk1|apply Hwk1|]. intros h2 Hw2 E2 Hk2.
  assert (Hwk2 : walking k h2) by (eapply walking_same; [exact Hwk1|apply Hw2|done]).
  assert (is_Some (frames (h_mem h2) !! kpage)).
  { apply elem_of_dom. rewrite (fm_dom _ _ _ _ Hk2). by apply elem_of_dom. }
  destruct (_ <? 0); [apply IHl; [done..|]; set_solver|]. destruct (0 <? _); [apply IHt; [done..|]; set_solver|by wp_step].
Qed.

Lemma returns_search_place fuel kpage h :
  working h → is_Some (frames (h_mem h) !! kpage) → returns (search_place fuel kpage) h.
Proof.
  unfold returns. revert h. induction fuel as [|fuel IH]; intros h Hw Hkp; cbn [search_place]; [by wp_step|].
  pose proof Hw as (Hs & Ht). do 2 wp_step.
  eapply wp_call; [by eapply (wp_descend (h_ksm h)); [|apply walking_refl| |]|
    apply pwp_and; [exact (keeps_descend h [] [] kpage (root_stable_tree (h_ksm h)) [] h (safe_from h Hs))|
      by apply (track_descend L0 es V r (h_ksm h)); [|apply walking_refl| |]]|].
  intros [|path|x] h1 [Hk1 Hd]; [|by wp_step..]. destruct Hd as [Ht1 _]; cbv beta iota. apply IH; [by eapply working_from|].
  apply elem_of_dom. rewrite (fm_dom _ _ _ _ Hk1). by apply elem_of_dom.
Qed.
End search.

(** ** Joining the tree *)
Section join.
#[local] Set Default Proof Using "Type*".
Context `{RbTree} `{Memcmp} (L0 : mode) (es : list ksm_event_log).

Lemma wp_alloc_stable_node h (Q : option loc → host → Prop) : false ∉ kallocs h → allocated h Q → wp alloc_stable_node h Q.
Proof.
  intros Ha HQ. unfold alloc_stable_node, wp, kmalloc. destruct (kallocs h) as [|[] a] eqn:E; [by apply HQ| |set_solver].
  apply HQ. set_solver.
Qed.

Lemma returns_link_new_node V r kpage d h :
  track L0 es V r h → place_in d (root_stable_tree (h_ksm h)) → is_Some (frames (h_mem h) !! kpage) →
  returns (link_new_node kpage d) h.
Proof.
  intros Ht Hd [fr Hp]. unfold returns, link_new_node, count_nodes. wp_step. apply wp_alloc_stable_node; [by apply Ht|]. intros a Ha. simpl.
  pose proof (fresh_node (knodes (h_ksm h))) as Hf. set (dup := fresh (dom (knodes (h_ksm h)))) in *.
  wp_step. eapply wp_upd_knode; [simpl; apply lookup_insert_eq|]. wp_step. eapply wp_upd_frame; [exact Hp|].
  destruct d as [|path|x]; [done|by wp_steps|]. destruct (tree_node _ _ _ _ _ _ Ht Hd) as [xd Hx]. assert (x ≠ dup) as Hxd by congruence.
  wp_step. eapply wp_get_knode; [simpl; look; exact Hx|]. wp_step. destruct (is_stable_node_chain xd).
  - wp_step. unfold stable_node_chain_add_dup, count_nodes. wp_steps. eapply wp_upd_knode; [simpl; look; reflexivity|]. wp_steps.
    eapply wp_upd_knode; [simpl; look; exact Hx|]. by wp_steps.
  - unfold alloc_stable_node_chain. wp_step. apply wp_alloc_stable_node; [done|]. intros a' Ha'. simpl.
    match goal with |- context [fresh (dom ?N)] => pose proof (fresh_node N) as Hc; set (c := fresh (dom N)) in * end.
    assert (c ≠ dup) by (intros E; rewrite E, lookup_insert_eq in Hc; done).
    assert (c ≠ x) by (intros E; rewrite E, !lookup_insert_ne, Hx in Hc by done; done). unfold stable_node_chain_add_dup, count_nodes.
    wp_steps. eapply wp_upd_knode; [simpl; look; reflexivity|]. wp_steps.
    eapply wp_upd_knode; [simpl; look; exact Hx|]. wp_steps. eapply wp_upd_knode; [simpl; look; reflexivity|]. wp_steps.
    eapply wp_upd_knode; [simpl; look; reflexivity|]. wp_steps. eapply wp_upd_knode; [simpl; look; reflexivity|]. by wp_steps.
Qed.

Lemma returns_stable_tree_insert V r kpage h :
  working L0 es V r h → is_Some (frames (h_mem h) !! kpage) → returns (stable_tree_insert kpage) h.
Proof.
  intros Hw Hp. pose proof Hw as (Hs & Ht). unfold returns, stable_tree_insert. do 2 wp_step.
  eapply wp_call; [by eapply returns_search_place|
    apply pwp_and; [exact (keeps_search_place h [] [] (S (size (knodes (h_ksm h)))) kpage h (safe_from h Hs))|
      by apply (track_search_place L0 es V r kpage (S (size (knodes (h_ksm h)))) h Hs Ht); lia]|].
  intros res h1 (Hk1 & d & -> & Hd & Ht1 & _). eapply returns_link_new_node; [exact Ht1|done|].
  apply elem_of_dom. rewrite (fm_dom _ _ _ _ Hk1). by apply elem_of_dom.
Qed.

Lemma returns_stable_tree_append V r i n h :
  track L0 es V r h → is_Some (kitems (h_ksm h) !! i) → live_node n h → returns (stable_tree_append i n) h.
Proof.
  intros Ht [it Hi] (nd & Hn & Hc). destruct (ko_node _ _ (tk_ksm _ _ _ _ _ Ht) n nd Hn Hc) as (Hlen & _).
  unfold returns, stable_tree_append, count, count_merging. wp_step. eapply wp_get_knode; [exact Hn|]. wp_step. eapply wp_get_kitem; [exact Hi|].
  wp_step. apply wp_halt_if; [apply Z.ltb_ge; lia|]. wp_step. eapply wp_upd_knode; [exact Hn|]. wp_step. eapply wp_upd_kitem; [exact Hi|].
  case_bool_decide; by wp_steps.
Qed.
End join.

(** ** Locking *)
Lemma there_from h0 δ Λ h p : from h0 δ Λ h → is_Some (frames (h_mem h0) !! p) → is_Some (frames (h_mem h) !! p).
Proof. intros Hk Hp. apply elem_of_dom. rewrite (fm_dom _ _ _ _ Hk). by apply elem_of_dom. Qed.
Lemma held_page_there h p : page_held h p → is_Some (frames (h_mem h) !! p).
Proof. intros (fr & Hp & _). by exists fr. Qed.
Lemma held_ksm_there h p : ksm_held h p → is_Some (frames (h_mem h) !! p).
Proof. intros (fr & Hp & _). by exists fr. Qed.

Lemma returns_lock `{RbTree} `{Memcmp} p h : safe h → unlocked h → is_Some (frames (h_mem h) !! p) → returns (lock_page p) h.
Proof.
  intros Hs Hu [fr Hp]. unfold returns, lock_page. wp_step. eapply wp_get_frame; [exact Hp|]. wp_step.
  apply wp_halt_if; [by apply bool_decide_eq_false, (Hu p)|].
  eapply wp_call; [apply returns_interfere|exact (keeps_interfere h [] [] h (safe_from h Hs))|]. intros [] h1 Hk1.
  destruct (there_from _ _ _ _ p Hk1 ltac:(by exists fr)). by eapply wp_upd_frame.
Qed.

(** ** The entries of the log *)
Section apply.
#[local] Set Default Proof Using "All".
Context `{RbTree} `{Memcmp} `{MmFault} (L0 : mode) (HL0 : with_server L0 = true) (shadow_pt_list : list shadow_mm) (h0 : host)
  (Hs : scanned shadow_pt_list h0) (Hu0 : unlocked h0) (Hz : ksm_use_zero_pages (config h0) = false).
Abbreviation kept := (from h0 [] []).

Lemma wp_lookup_listed mm v i h (Q : option loc → host → Prop) :
  shadow_item shadow_pt_list mm v = Some i → (listed h0 i → Q (Some i) h) → wp (lookup_shadow shadow_pt_list mm v) h Q.
Proof.
  intros Hi HQ. unfold shadow_item in Hi. destruct (get_shadow_mm shadow_pt_list mm) as [sm|] eqn:Hsm; [|done]. simpl in Hi.
  unfold lookup_shadow. rewrite Hsm. wp_step. apply (wp_deref _ sm); [done|]. wp_step. rewrite Hi. apply HQ.
  apply get_shadow_mm_elem in Hsm as [Hsm _]. exact (Hs _ _ _ Hsm Hi).
Qed.

(** A listed item, later. *)
Lemma listed_now δ Λ i h : listed h0 i → from h0 δ Λ h →
  ∃ it p, kitems (h_ksm h) !! i = Some it ∧ ki_page it = Some p ∧ page_held h0 p.
Proof.
  intros (it0 & p & Hi & Hp & Hh) Hk. destruct (fm_items _ _ _ _ Hk i it0 Hi) as (it & Hit & E & _). exists it, p.
  split_and!; [done|congruence|done].
Qed.

Lemma held_there δ Λ p h : page_held h0 p → from h0 δ Λ h → p ∈ dom (frames (h_mem h)).
Proof. intros Hp Hk. rewrite (fm_dom _ _ _ _ Hk). by apply held_in. Qed.

Lemma returns_report_then {A} es V r h tag e (a : A) :
  track L0 es V r h → returns (report tag e ;; mret a) h.
Proof. intros Ht. unfold returns. wp_step. eapply wp_mono; [by eapply (returns_report L0)|]. by intros. Qed.

(** After the two pages were merged. *)
Lemma returns_promote es V r i j p h :
  kept h → track L0 es V (r + 2) h → ksm_held h p → unlisted i h → unlisted j h →
  is_Some (kitems (h_ksm h) !! i) → is_Some (kitems (h_ksm h) !! j) →
  returns (lock_page p ;;
    stable_node ← stable_tree_insert p;
    (if stable_node is Some n then stable_tree_append j n ;; stable_tree_append i n else mret tt) ;;
    unlock_page p ;;
    halt_if (bool_decide (stable_node = None)) "Failed to insert stable node in UNSTABLE_MERGE" ;;
    mret UnstableMerged) h.
Proof.
  intros Hk Ht Hks Hi Hj Hsi Hsj. pose proof (from_safe _ _ _ _ Hk) as Hsf. pose proof Hks as (fr & Hp & _).
  assert (∀ δ Λ h', from h δ Λ h' → is_Some (frames (h_mem h') !! p)) as Hpage.
  { intros δ Λ h' Hk'. apply elem_of_dom. rewrite (fm_dom _ _ _ _ Hk'). apply elem_of_dom. by exists fr. }
  unfold returns. eapply wp_call; [|apply pwp_and; [exact (keeps_lock_page h [] [] p h (safe_from h Hsf))|exact (track_lock_page L0 es V (r + 2) p h Ht)]|].
  { apply returns_lock; [done|by eapply unlocked_from|by exists fr]. }
  intros [] h1 ([Hk1 _] & Ht1 & E1).
  assert (Hi1 : unlisted i h1) by (intros it1 ?; apply Hi; congruence). assert (Hj1 : unlisted j h1) by (intros it1 ?; apply Hj; congruence).
  eapply wp_call; [eapply (returns_stable_tree_insert L0 es V (r + 2)); [by eapply working_from|by eapply Hpage]|
    apply pwp_and; [exact (keeps_stable_tree_insert h [] [p] p h1 Hks Hk1)|exact (track_stable_tree_insert L0 es V (r + 2) p h1 (from_safe _ _ _ _ Hk1) Ht1)]|].
  intros res h2 (Hk2 & Ht2 & Hl2 & n & nd & -> & Hn & Hc & Hpn & _).
  assert (Hi2 : unlisted i h2) by by eapply unlisted_later. assert (Hj2 : unlisted j h2) by by eapply unlisted_later.
  apply wp_bind_assoc. eapply wp_call; [eapply returns_stable_tree_append; [exact Ht2|by eapply from_item|by exists nd]|
    apply pwp_and; [exact (keeps_stable_tree_append h [] [p] j n h2 Hk2)|by eapply (track_stable_tree_append L0 es V (r + 2) j n nd)]|].
  intros [] h3 (Hk3 & Ht3 & Hlive & _). 
  eapply wp_call; [eapply returns_stable_tree_append; [exact Ht3|by eapply from_item|done]|exact (keeps_stable_tree_append h [] [p] i n h3 Hk3)|].
  intros [] h4 Hk4. destruct (Hpage _ _ _ Hk4). unfold unlock_page. wp_step. eapply wp_upd_frame; [done|]. by wp_steps.
Qed.

Lemma returns_apply_unstable_merge es V r e i j h :
  log_type e = DPU_UNSTABLE_MERGE → um_from_item_of shadow_pt_list e = Some i → um_to_item_of shadow_pt_list e = Some j → i ≠ j →
  kept h → track L0 es V r h → returns (apply_unstable_merge shadow_pt_list e) h.
Proof.
  intros Ety Ei Ej Hij Hk Ht. unfold returns, apply_unstable_merge. do 2 wp_step. wp_step.
  apply wp_halt_if; [by rewrite (fm_config _ _ _ _ Hk)|]. wp_step. eapply wp_lookup_listed; [exact Ei|]. intros Hi.
  wp_step. eapply wp_lookup_listed; [exact Ej|]. intros Hj. wp_step. apply (wp_deref _ i); [done|].
  pose proof (from_safe _ _ _ _ Hk) as Hsf. destruct (listed_now _ _ i h Hi Hk) as (it & p & Hit & _).
  eapply wp_call; [eapply (returns_remove_rmap_item L0 es V r); [done|by eapply unlocked_from|done|by exists it]|
    apply pwp_and; [exact (keeps_remove_rmap_item h0 [] [] i h Hk)|exact (track_remove_rmap_item L0 es V r i h Hsf Ht)]|].
  intros [] h1 (Hk1 & Ht1 & _). wp_step. apply (wp_deref _ j); [done|]. pose proof (from_safe _ _ _ _ Hk1) as Hsf1.
  destruct (listed_now _ _ j h1 Hj Hk1) as (jt & q & Hjt & _).
  eapply wp_call; [eapply (returns_remove_rmap_item L0 es _ r); [done|by eapply unlocked_from|done|by exists jt]|
    apply pwp_and; [exact (keeps_remove_rmap_item h0 [] [] j h1 Hk1)|exact (track_remove_rmap_item L0 es _ r j h1 Hsf1 Ht1)]|].
  clear p q it Hit jt Hjt. intros [] h2 (Hk2 & Ht2 & _). pose proof (from_safe _ _ _ _ Hk2) as Hsf2.
  destruct (listed_now _ _ i h2 Hi Hk2) as (it & p & Hit & Hip & Hp). destruct (listed_now _ _ j h2 Hj Hk2) as (jt & q & Hjt & Hjq & Hq).
  wp_step. eapply wp_get_kitem; [exact Hit|]. wp_step. apply (wp_deref _ p); [done|]. wp_step. eapply wp_get_kitem; [exact Hjt|].
  wp_step. apply (wp_deref _ q); [done|]. set (V1 := delete j (delete i V)) in *.
  assert (page_held h2 p) as Hp2 by by eapply page_held_from. assert (page_held h2 q) as Hq2 by by eapply page_held_from.
  assert (V1 !! i = None ∧ V1 !! j = None) as [Hi1 Hj1]. { unfold V1. by rewrite lookup_delete_ne, lookup_delete_eq, lookup_delete_eq by done. }
  eapply wp_call; [apply (returns_try_to_merge_two_pages L0 es V1 r i p j q h2); [done|by eapply unlocked_from|done|done|done|by exists it|by exists jt]|
    apply pwp_and; [exact (keeps_try_to_merge_two_pages h0 [] [] i p j q h2 Hp Hq Hk2)|
      exact (track_try_to_merge_two_pages L0 es V1 r i p j q h2 Hsf2 Hp2 Hq2 Hi1 Hj1 Ht2)]|].
  intros kp h3 ([Hk3 Hkp] & Hl3 & Hok).
  assert (Hm3 : machine (dom (frames (h_mem h0))) h3) by (split; [apply (fm_dom _ _ _ _ Hk3)|apply (fm_env _ _ _ _ Hk3)]).
  assert (Hpd : p ∈ dom (frames (h_mem h0))) by by apply held_in. assert (Hqd : q ∈ dom (frames (h_mem h0))) by by apply held_in.
  assert (Hq3 : ∀ r' x y, stays (quietly L0 es V1 r' (h_ksm h3)) (same_compound x y)) by (intros; unfold same_compound; stays).
  destruct kp as [kp|].
  - destruct Hkp as [-> Hks]. destruct Hok as (Ht3 & Hui & Huj).
    eapply wp_call; [eapply settles_run; [by apply settles_same_compound|done]|
      apply pwp_and; [exact (keeps_same_compound h3 p q h3 (safe_from h3 (from_safe _ _ _ _ Hk3)))|exact (Hq3 _ p q h3 (conj Ht3 eq_refl))]|].
    intros b h4 (Hk4 & Ht4 & E4). apply (returns_promote es V1 r i j p h4).
    + exact (from_push _ _ _ _ _ _ _ Hk3 Hk4).
    + exact Ht4.
    + by eapply ksm_held_from.
    + intros it5 Hi5. rewrite E4 in Hi5. by apply Hui.
    + intros it5 Hi5. rewrite E4 in Hi5. by apply Huj.
    + destruct (listed_now _ _ i h3 Hi Hk3) as (it3 & _ & E3 & _). rewrite E4. by exists it3.
    + destruct (listed_now _ _ j h3 Hj Hk3) as (it3 & _ & E3 & _). rewrite E4. by exists it3.
  - eapply wp_with; [by apply settles_same_compound|exact (Hq3 _ p q h3 (conj Hok eq_refl))|]. intros b h4 Hm4 Hqt4.
    eapply (wp_with _ _ _ (λ _ _, True) (λ _, quietly L0 es V1 r (h_ksm h3))).
    + apply wp_whenM; intros _; [|done]. eapply settles_run; [by apply settles_split_after_failure|done].
    + apply pwp_whenM; intros _; [|done]. revert h4 Hm4 Hqt4. intros h4 _ Hqt4.
      assert (stays (quietly L0 es V1 r (h_ksm h3)) (split_after_failure p)) as Hsp; [|by apply Hsp].
      unfold split_after_failure. stays.
    + intros [] h5 _ [Ht5 _]. by eapply returns_report_then.
Qed.

(** Why an entry may stop the host for ever ([debug_stop]). *)
Definition stop_of (e : ksm_event_log) (w : string) : Prop :=
  match log_type e with
  | DPU_STABLE_MERGE => w = "Already saturated node" ∨ w = "Failed to get ksm page in STABLE_MERGE"
  | DPU_ITEM_STATE_CHANGE => w = "Not a stable Item"
  | _ => False
  end.

(** A merge or a reset of items that the shadow tables list. *)
Definition names_listed (e : ksm_event_log) : Prop :=
  match log_type e with
  | DPU_STABLE_MERGE => is_Some (from_item_of shadow_pt_list e) ∧ sm_kpfn e ∈ dom (frames (h_mem h0))
  | DPU_UNSTABLE_MERGE => is_Some (um_from_item_of shadow_pt_list e) ∧ is_Some (um_to_item_of shadow_pt_list e)
  | DPU_ITEM_STATE_CHANGE => is_Some (from_item_of shadow_pt_list e)
  | _ => False
  end.

(** The second half of a stable merge, the page [q] being held. *)
Lemma returns_merge_onto es V r e i p q n h1 h2 :
  from h0 [q] [] h1 → from h1 [] [] h2 → track L0 es V r h2 → named q n h2 → ksm_held h1 q → page_held h2 p →
  is_Some (kitems (h_ksm h2) !! i) → unlisted i h2 →
  returns (ok ← try_to_merge_with_ksm_page i p (Some q);
    res ← (if (ok : bool) then
       lock_page q ;; kfr ← get_frame q; node ← deref (page_stable_node kfr) "stable_node";
       stable_tree_append i node ;; unlock_page q ;; mret StableMerged
     else upd_kitem i (set_head_ptr (Some n)) ;; report HOST_MERGE_ONE_FAILED e ;; mret FailedMerge);
    put_page q ;; mret res) h2.
Proof.
  intros Hk1 Hk2 Ht2 Hn2 Hq1 Hp2 Hi2 Hu2. pose proof (from_safe _ _ _ _ Hk2) as Hs2.
  pose proof (ksm_held_from _ _ _ _ _ Hk2 Hq1) as Hq2.
  assert (unlocked h2) as Hun by (eapply (unlocked_from h0); [done|exact (from_push _ _ _ _ _ _ _ Hk1 Hk2)]).
  assert (Hpage : ∀ δ Λ h', from h2 δ Λ h' → is_Some (frames (h_mem h') !! q)).
  { intros δ Λ h' Hk'. apply elem_of_dom. rewrite (fm_dom _ _ _ _ Hk'). destruct Hq2 as (fr & Hq & _). apply elem_of_dom. by exists fr. }
  unfold returns. eapply wp_call; [by apply (returns_try_to_merge_with_ksm_page L0 es V r i p (Some q) h2)|
    apply pwp_and; [by apply (pwp_try_to_merge L0 es V r i p (Some q))|
      exact (name_try_to_merge_with_ksm_page q n h2 Hq2 i p h2 Hp2 (safe_from h2 Hs2) Hn2)]|].
  intros ok h3 ((Hk3 & Hl3 & _ & Hok) & Hn3).
  eapply wp_call with (P := λ _ h', from h2 [] [] h').
  - destruct ok.
    + destruct Hok as [Ht3 Hu3].
      eapply wp_call; [|apply pwp_and; [exact (name_lock_page q n h2 Hq2 [] [] q h3 Hk3 Hn3)|exact (track_lock_page L0 es (delete i V) (r + 1) q h3 Ht3)]|].
      { apply returns_lock; [by eapply from_safe|by eapply unlocked_from|by eapply Hpage]. }
      intros [] h4 ([[Hk4 _] (kfr & Hkfr & Hm)] & Ht4 & _). wp_step. eapply wp_get_frame; [exact Hkfr|]. wp_step.
      apply (wp_deref _ n); [unfold page_stable_node; by rewrite Hm|].
      destruct (tk_frames _ _ _ _ _ Ht4 q kfr n Hkfr Hm) as (nd & Hnd & Hc & _).
      eapply wp_call; [eapply returns_stable_tree_append; [exact Ht4|by eapply from_item|by exists nd]|exact (keeps_stable_tree_append h2 [] [q] i n h4 Hk4)|].
      intros [] h5 Hk5. destruct (Hpage _ _ _ Hk5). unfold unlock_page. wp_step. eapply wp_upd_frame; [done|]. by wp_step.
    + destruct (from_item _ _ _ _ i Hk3 Hi2) as [it Hit].
      eapply wp_call; [by eapply wp_upd_kitem|by apply (track_set_head L0 es V r i n); [|eapply unlisted_later]|].
      intros [] h4 Ht4. by eapply returns_report_then.
  - destruct ok.
    + pwp_step. eapply pwp_mono; [exact (keeps_lock_page h2 [] [] q h3 Hk3)|]. intros [] h4 [Hk4 Hl4].
      pwp_step. apply pwp_get_frame. intros kfr _. pwp_step. apply pwp_deref. intros m _.
      pwp_step. eapply pwp_mono; [exact (keeps_stable_tree_append h2 [] [q] i m h4 Hk4)|]. intros [] h5 Hk5.
      pwp_step. eapply pwp_mono; [exact (keeps_unlock_page h2 [] [] q h5 Hl4 Hk5)|]. intros [] h6 Hk6. by pwp_step.
    + pwp_step. eapply pwp_mono; [by apply (keeps_upd_kitem h2 [] [])|]. intros [] h4 Hk4.
      pwp_step. eapply pwp_mono; [exact (keeps_report h2 [] [] _ _ h4 Hk4)|]. intros [] h5 Hk5. by pwp_step.
  - intros res h4 Hk4. destruct (Hpage _ _ _ Hk4). unfold put_page. wp_step. eapply wp_upd_frame; [done|]. by wp_step.
Qed.

Lemma ends_apply_stable_merge es V r e h :
  log_type e = DPU_STABLE_MERGE → names_listed e → kept h → track L0 es V r h → ends (stop_of e) (apply_stable_merge shadow_pt_list e) h.
Proof.
  intros Ety Hn Hk Ht. unfold names_listed in Hn. rewrite Ety in Hn. destruct Hn as [[i Ei] Hkp]. pose proof (from_safe _ _ _ _ Hk) as Hsf.
  assert (∃ fr, frames (h_mem h) !! sm_kpfn e = Some fr) as [fr Hfr] by (apply elem_of_dom; by rewrite (fm_dom _ _ _ _ Hk)).
  unfold apply_stable_merge. apply ends_bind. eapply wp_lookup_listed; [exact Ei|]. intros Hi.
  apply ends_bind. eapply wp_get_frame; [exact Hfr|]. destruct (page_stable_node fr) as [n|] eqn:Hpn; [|done].
  assert (fr_mapping fr = MapKsm (Some n)) as Hfm by (unfold page_stable_node in Hpn; destruct (fr_mapping fr); congruence).
  destruct (tk_frames _ _ _ _ _ Ht _ fr n Hfr Hfm) as (nd & Hnd & Hc & Hkpfn).
  apply ends_bind. eapply wp_get_knode; [exact Hnd|]. apply ends_bind. wp_step.
  apply ends_halt_if; [intros _; unfold stop_of; rewrite Ety; by left|]. intros _.
  apply ends_bind. apply wp_returns; [by eapply (returns_get_ksm_page L0 es V r)|].
  eapply pwp_mono; [exact (pwp_and _ _ _ _ (keeps_get_ksm_page h [] [] n _ h (safe_from h Hsf)) (track_get_ksm_page L0 es V r n _ h Hsf Ht))|].
  intros [q| |] h1 [Hg1 Hg]; [|apply ends_halt; unfold stop_of; rewrite Ety; by right..].
  destruct Hg1 as (Hk1 & _ & Hqm). destruct Hg as (Ht1 & E1 & nd1 & Hn1 & _ & Hq). rewrite Hnd in Hn1. injection Hn1 as <-.
  pose proof (got_ksm_held _ _ _ _ Hk1 Hqm) as Hq1. pose proof (from_push _ _ _ _ _ _ _ Hk Hk1) as Hk1'. pose proof (from_safe _ _ _ _ Hk1) as Hs1.
  apply ends_bind. apply (wp_deref _ i); [done|]. destruct (listed_now _ _ i h1 Hi Hk1') as (it1 & p1 & Hit1 & _).
  apply ends_returns. eapply wp_call; [eapply (returns_remove_rmap_item L0 es V r); [done|by eapply unlocked_from|done|by exists it1]|
    apply pwp_and; [exact (keeps_remove_rmap_item h1 [] [] i h1 (safe_from h1 Hs1))|
      apply pwp_and; [exact (track_remove_rmap_item L0 es V r i h1 Hs1 Ht1)|exact (name_remove_rmap_item q n h1 Hq1 i h1 (safe_from h1 Hs1) Hqm)]]|].
  intros [] h2 (Hk2 & (Ht2 & Hu2 & _) & Hn2). pose proof (from_push _ _ _ _ _ _ _ Hk1' Hk2) as Hk2'.
  destruct (listed_now _ _ i h2 Hi Hk2') as (it & p & Hit & Hip & Hp). wp_step. eapply wp_get_kitem; [exact Hit|].
  wp_step. apply (wp_deref _ p); [done|]. eapply returns_merge_onto; [exact Hk1'|exact Hk2|exact Ht2|done|done|by eapply page_held_from|by exists it|done].
Qed.

Lemma ends_apply_item_state_change es V r e h :
  log_type e = DPU_ITEM_STATE_CHANGE → names_listed e → kept h → track L0 es V r h →
  ends (stop_of e) (apply_item_state_change shadow_pt_list e) h.
Proof.
  intros Ety Hn Hk Ht. unfold names_listed in Hn. rewrite Ety in Hn. destruct Hn as [i Ei]. pose proof (from_safe _ _ _ _ Hk) as Hsf.
  unfold apply_item_state_change. apply ends_bind. eapply wp_lookup_listed; [exact Ei|]. intros Hi. apply ends_halt_if; [done|]. intros _.
  apply ends_bind. apply (wp_deref _ i); [done|]. destruct (listed_now _ _ i h Hi Hk) as (it & p & Hit & _).
  apply ends_bind. eapply wp_get_kitem; [exact Hit|]. apply ends_halt_if; [intros _; unfold stop_of; by rewrite Ety|]. intros _.
  apply ends_returns. unfold returns. wp_step. eapply wp_mono; [|intros; by wp_step].
  eapply (returns_remove_rmap_item L0 es V r); [done|by eapply unlocked_from|done|by exists it].
Qed.

Lemma ends_apply_event es V r e h :
  names_listed e → two_items shadow_pt_list e → kept h → track L0 es V r h → ends (stop_of e) (apply_event shadow_pt_list e) h.
Proof.
  intros Hn H2 Hk Ht. unfold apply_event. destruct (log_type e) eqn:Ety; try (unfold names_listed in Hn; by rewrite Ety in Hn).
  - by eapply ends_apply_stable_merge.
  - unfold names_listed in Hn. rewrite Ety in Hn. destruct Hn as [[i Ei] [j Ej]]. apply ends_returns.
    eapply (returns_apply_unstable_merge es V r e i j); try done. intros ->. by apply (H2 Ety j).
  - by eapply ends_apply_item_state_change.
Qed.

Lemma ends_apply_events es V r L h :
  Forall names_listed L → Forall (two_items shadow_pt_list) L → kept h → track L0 es V r h →
  ends (λ w, ∃ e, e ∈ L ∧ stop_of e w) (apply_events shadow_pt_list L) h.
Proof.
  revert es V h. induction L as [|e L IH]; intros es V h HN HL Hk Ht; cbn [apply_events]; [done|].
  apply Forall_cons in HN as [Hne HN]. apply Forall_cons in HL as [He HL].
  eapply ends_call; [|exact (pwp_and _ _ _ _ (keeps_apply_event shadow_pt_list h0 Hs e h Hk) (replayed_event L0 HL0 shadow_pt_list h0 Hs es V r e h He Hk Ht))|].
  { eapply ends_mono; [by eapply ends_apply_event|]. intros w Hw. exists e. split; [set_solver|done]. }
  intros a h1 (Hk1 & V1 & HV1 & Ht1). apply ends_bind. apply wp_returns; [case_bool_decide; [done|apply returns_interfere]|].
  eapply pwp_mono; [apply (pwp_and _ _ (λ _ h', kept h') (λ _ h', track L0 (es ++ failure_of e a) V1 r h'))|].
  { case_bool_decide; [by pwp_step|by apply keeps_interfere]. }
  { case_bool_decide; [by pwp_step|]. eapply pwp_mono; [by apply track_interfere|]. by intros [] h2 [? _]. }
  intros [] h2 [Hk2 Ht2]. eapply ends_call; [eapply ends_mono; [by eapply IH|]|apply pwp_true|done].
  intros w (e' & He' & Hw). exists e'. split; [set_solver|done].
Qed.

Lemma ends_apply_result es V r L h :
  Forall names_listed L → Forall (two_items shadow_pt_list) L → kept h → track L0 es V r h →
  ends (λ w, ∃ e, e ∈ L ∧ stop_of e w) (apply_result shadow_pt_list L) h.
Proof.
  intros HN HL Hk Ht. unfold apply_result. apply ends_bind. wp_step.
  eapply ends_call; [eapply ends_apply_events; [done|done|by apply from_hstats|by apply track_hstats]|apply pwp_true|done].
Qed.
End apply.
