(* ===== verification/LocalReturns.v ===== *)
(** * LocalReturns: the scan without a server comes to an end

    Under the invariants every call of HostLocal and every step of LocalScan
    returns: no pointer is dangling, no [BUG_ON] fires, no lock is taken twice,
    no search runs out of rounds, and no division of the advisor's is by 0.
    What holds then is in HostLocalSafe, HostLocalTrack and LocalScanPass. *)
From S2P Require Import Prelude Wire HashPair Growable Shadow Server Advisor AdvisorProps HostMem HostTree HostTreeInv HostMerge HostApply HostScan HostDaemon HostSafe HostMergeSafe HostApplySafe HostTrack HostTrackInsert HostTrackLink HostStays HostTrackMerge HostTrackApply HostItems HostScanInv HostScanWalk HostScanMm HostScanRound HostScanIter HostUnmerge HostReturns HostReturnsMerge HostNamed HostReturnsApply HostScanReturns HostLocal HostLocalSafe HostLocalTrack LocalScan LocalScanInv LocalScanPass.
Open Scope Z_scope.

(** ** The stable tree *)

(** A duplicate leaves its chain, wherever it is. *)
Lemma chain_left_drop r c ds d l h h' :
  chain_left c (ds ++ d :: l) h → ksm_ok r (h_ksm h) → dropped r d (h_ksm h) (h_ksm h') → chain_left c (ds ++ l) h'.
Proof.
  intros (cd & A & B & C) Hk (_ & _ & HN & _). destruct (ko_chain _ _ Hk c cd A B) as (_ & Hnd & Hall). rewrite C in Hnd, Hall.
  assert (c ≠ d) as Hcd. { intros ->. destruct (Hall d ltac:(set_solver)) as (dd & E & _ & F). congruence. }
  assert (∀ l' : list loc, d ∉ l' → filter (λ y, y ≠ d) l' = l') as Hid.
  { induction l' as [|y l' IH]; intros Hd; [done|]. rewrite filter_cons, decide_True by set_solver. f_equal. apply IH. set_solver. }
  rewrite <- Permutation_middle in Hnd. apply NoDup_cons in Hnd as [Hd _]. apply not_elem_of_app in Hd as [Hd1 Hd2].
  exists (drop_dup d cd). rewrite HN, lookup_delete_ne, lookup_fmap, A by done.
  destruct (drop_dup_same d cd) as (_ & _ & _ & E & _). split_and!; [done|congruence|].
  unfold drop_dup. rewrite B. simpl. rewrite C, filter_app, filter_cons, decide_False by tauto. by rewrite (Hid ds), (Hid l).
Qed.

Lemma chain_left_same c l h h' : chain_left c l h → h_ksm h' = h_ksm h → chain_left c l h'.
Proof. intros (cd & A) E. exists cd. by rewrite E. Qed.

Lemma returns_put_page p h : is_Some (frames (h_mem h) !! p) → returns (put_page p) h.
Proof. intros [fr Hp]. unfold put_page. by eapply returns_upd_frame. Qed.

Section search.
#[local] Set Default Proof Using "Type*".
Context `{RbTree} `{Memcmp} `{MmFault} (L0 : mode) (es : list ksm_event_log) (V : gmap loc (loc * Z)) (r : Z) (chains_prune : Z).
Abbreviation working := (working L0 es V r).

(** The tree but for [x] is still there. *)
Definition rest_there (x : loc) (k : ksm) (h' : host) : Prop :=
  ∀ y, y ≠ x → y ∈ inorder (root_stable_tree k) → y ∈ inorder (root_stable_tree (h_ksm h')).

Lemma rest_there_root x k h : root_stable_tree (h_ksm h) = root_stable_tree k → rest_there x k h.
Proof. intros E y _. by rewrite E. Qed.
Lemma rest_there_trans x k h h' : rest_there x k h → rest_there x (h_ksm h) h' → rest_there x k h'.
Proof. intros A B y Hy Hin. by apply B, A. Qed.

(** The duplicates walked are [ds]: [best_dup] counts them. *)
Lemma wp_best_dup h0 c ds l (f : option (loc * Z * Z)) nr k h :
  HostSafe.holding h0 [] [] ((λ x, x.1.2) <$> f) h → track L0 es V r h → chain_left c (ds ++ l) h → nr = Z.of_nat (length ds) →
  there ((λ x, x.1.2) <$> f) h → (∀ d p n, f = Some (d, p, n) → d ∈ ds) → root_stable_tree (h_ksm h) = root_stable_tree k →
  wp (best_dup l f nr) h (λ res h', ∃ ds', chain_left c ds' h' ∧ res.2 = Z.of_nat (length ds') ∧ there ((λ x, x.1.2) <$> res.1) h' ∧
    (∀ d p n, res.1 = Some (d, p, n) → d ∈ ds') ∧ root_stable_tree (h_ksm h') = root_stable_tree k).
Proof.
  revert ds f nr h. induction l as [|d l IH]; intros ds f nr h Hk Ht Hl -> Hp Hf HR; cbn [best_dup].
  { wp_step. exists ds. by rewrite app_nil_r in Hl. }
  set (δ' := match f with Some (_, q, _) => [q] | None => [] end).
  assert (from h0 δ' [] h) as Hk' by by destruct f as [[[? ?] ?]|].
  assert (Hhold : ∀ h', from h0 δ' [] h' → HostSafe.holding h0 [] [] ((λ x, x.1.2) <$> f) h') by by destruct f as [[[? ?] ?]|].
  pose proof Hl as (cd & A & B & C). destruct (ko_chain _ _ (tk_ksm _ _ _ _ _ Ht) c cd A B) as (_ & Hnd & Hall). rewrite C in Hnd, Hall.
  destruct (Hall d ltac:(set_solver)) as (nd & Hn & Hlk & Hc).
  assert (∀ h', from h0 δ' [] h' ∨ (∃ p, from h0 (p :: δ') [] h') → there ((λ x, x.1.2) <$> f) h') as Hthere.
  { intros h' Hk1. destruct f as [[[fd q] len]|]; [|done]. simpl in *. apply elem_of_dom.
    assert (q ∈ dom (frames (h_mem h0))) by (rewrite <- (fm_dom _ _ _ _ Hk); by apply elem_of_dom).
    destruct Hk1 as [Hk1|[p Hk1]]; by rewrite (fm_dom _ _ _ _ Hk1). }
  eapply wp_with; [apply (wp_get_nolock L0 es V r d nd h); [by eapply working_from|done|done]|exact (keeps_get_nolock h0 δ' [] d h Hk')|].
  intros [p| |] h1 (Hp1 & _ & Hg) Hr; simpl in Hr, Hg, Hp1.
  - destruct Hg as (Ht1 & E1 & _). wp_step. eapply wp_get_knode; [rewrite E1; exact Hn|]. do 2 wp_step.
    assert (Hl1 : chain_left c ((ds ++ [d]) ++ l) h1) by (rewrite <- app_assoc; by eapply chain_left_same).
    assert (Hlen : Z.of_nat (length ds) + 1 = Z.of_nat (length (ds ++ [d]))) by (rewrite length_app; simpl; lia).
    destruct (is_page_sharing_candidate_at _ _ _ && _).
    + eapply wp_call with (P := λ _ h2, HostSafe.holding h0 [] [] (Some p) h2 ∧ track L0 es V r h2 ∧ h_ksm h2 = h_ksm h1).
      * destruct f as [[[fd q] len]|]; [|by unfold returns; wp_step]. apply returns_put_page, (Hthere h1). right. by exists p.
      * destruct f as [[[fd q] len]|]; [|by pwp_step]. eapply pwp_mono.
        { exact (pwp_and _ _ _ _ (keeps_put_page h0 [p] [] q h1 (from_swap _ _ _ _ _ _ Hr)) (track_put_page L0 es V r q h1 Ht1)). }
        intros [] h2 (? & ? & ?). done.
      * intros [] h2 (Hk2 & Ht2 & E2). apply (IH (ds ++ [d])); [exact Hk2|done|by eapply chain_left_same|exact Hlen| | |congruence].
        -- simpl. apply elem_of_dom. simpl in Hk2. rewrite (fm_dom _ _ _ _ Hk2), <- (fm_dom _ _ _ _ Hr). by apply elem_of_dom.
        -- intros d' p' n' [= <- <- <-]. set_solver.
    + eapply wp_call; [by apply returns_put_page|
        exact (pwp_and _ _ _ _ (keeps_put_page h0 δ' [] p h1 Hr) (track_put_page L0 es V r p h1 Ht1))|].
      intros [] h2 (Hk2 & Ht2 & E2). apply (IH (ds ++ [d])); [by apply Hhold|done|by eapply chain_left_same|exact Hlen|by apply Hthere; left| |congruence].
      intros d' p' n' E. specialize (Hf _ _ _ E). set_solver.
  - destruct Hg as [Ht1 Hd]. apply (IH ds); [by apply Hhold|done|by eapply chain_left_drop, Hd; [|apply Ht]|done|by apply Hthere; left|done|].
    destruct Hd as (_ & _ & _ & _ & HR' & _). rewrite <- HR. by eapply HR'.
  - by destruct Hg as [? _].
Qed.

(** The last duplicate takes the place of its chain. *)
Lemma wp_collapse_chain c d h :
  track L0 es V r h → chain_left c [d] h →
  wp (collapse_chain c d) h (λ _ h', frames (h_mem h') = frames (h_mem h) ∧ rest_there c (h_ksm h) h' ∧ live_node d h').
Proof.
  intros Ht (cd & Hcd & Hcc & Hl). destruct (ko_chain _ _ (tk_ksm _ _ _ _ _ Ht) c cd Hcd Hcc) as (_ & _ & Hall).
  destruct (Hall d ltac:(rewrite Hl; set_solver)) as (dd & Hd & _ & Hdc). assert (c ≠ d) as Hne by congruence.
  unfold collapse_chain, free_stable_node, count_nodes. wp_step. eapply wp_get_knode; [exact Hcd|].
  wp_step. apply wp_halt_if; [by rewrite Hl|]. wp_steps. eapply wp_upd_knode; [exact Hd|]. wp_steps.
  eapply wp_get_knode; [simpl; look; exact Hcd|]. wp_steps. split_and!; [done| |].
  - intros y Hy Hin. simpl. rewrite inorder_replace. apply list_elem_of_fmap. exists y. by rewrite decide_False.
  - exists (set_link InTree dd). simpl. by rewrite lookup_delete_ne, lookup_insert_eq.
Qed.

Lemma wp_dup_to_head c ds d h :
  track L0 es V r h → chain_left c ds h → d ∈ ds →
  wp (dup_to_head c d) h (λ _ h', frames (h_mem h') = frames (h_mem h) ∧ root_stable_tree (h_ksm h') = root_stable_tree (h_ksm h) ∧ live_node d h').
Proof.
  intros Ht (cd & Hcd & Hcc & Hl) Hin. destruct (ko_chain _ _ (tk_ksm _ _ _ _ _ Ht) c cd Hcd Hcc) as (_ & _ & Hall).
  rewrite Hl in Hall. destruct (Hall d Hin) as (dd & Hd & _ & Hdc). unfold dup_to_head. wp_step. eapply wp_get_knode; [exact Hcd|].
  wp_step. eapply wp_get_knode; [exact Hd|]. do 2 wp_step. apply wp_whenM; intros _; [|split_and!; [done..|by exists dd]].
  eapply wp_upd_knode; [exact Hcd|]. split_and!; [done..|]. exists dd. simpl. by rewrite lookup_insert_ne by congruence.
Qed.
End search.

Section descend.
#[local] Set Default Proof Using "Type*".
Context `{RbTree} `{Memcmp} `{MmFault} (L0 : mode) (es : list ksm_event_log) (V : gmap loc (loc * Z)) (r : Z) (chains_prune : Z).
Abbreviation working := (working L0 es V r).

(** The duplicate found is a node; without one, the tree's node still is. *)
Definition pruned (x : loc) (k : ksm) (c : option loc * option Z * loc) (h' : host) : Prop :=
  there c.1.2 h' ∧ rest_there x k h' ∧ (c.1.1 = None → is_Some (knodes (h_ksm h') !! c.2)) ∧
  (∀ d, c.1.1 = Some d → is_Some c.1.2 → live_node d h').

Lemma wp_dup_prune c cd h :
  working h → knodes (h_ksm h) !! c = Some cd → is_stable_node_chain cd = true →
  wp (stable_node_dup_prune chains_prune c) h (λ res, pruned c (h_ksm h) (fst <$> res.1, snd <$> res.1, res.2)).
Proof.
  intros Hw Hcd Hcc. pose proof Hw as (Hs & Ht). destruct (ko_chain _ _ (tk_ksm _ _ _ _ _ Ht) c cd Hcd Hcc) as (Hlk & _).
  assert (c ∈ inorder (root_stable_tree (h_ksm h))) as Hin by (apply (ko_tree _ _ (tk_ksm _ _ _ _ _ Ht)); by exists cd).
  unfold stable_node_dup_prune. wp_step. eapply wp_get_knode; [exact Hcd|]. do 2 wp_step. destruct (time_before _ _).
  { eapply wp_with; [by eapply (wp_stable_node_dup L0 es V r)|by eapply (track_stable_node_dup L0 es V r)|].
    intros res h1 [Hp Hd] (Ht1 & HR & _). wp_step. split_and!; [done|by apply rest_there_root| |]; simpl.
    - intros _. eapply tree_node; [exact Ht1|]. by rewrite HR.
    - intros d E _. destruct res as [[d' p]|]; simplify_eq/=. by eapply Hd. }
  set (now := jiffies _ _). wp_step. eapply wp_upd_knode; [exact Hcd|]. match goal with |- wp _ ?h' _ => set (h1 := h') end.
  pose proof (track_reorder L0 es V r c cd (kn_hlist cd) now h Ht Hcd Hcc ltac:(done)) as Ht1.
  assert (h1 = with_ksm (on_nodes (<[c := set_kpfn now (set_hlist (kn_len cd) (kn_hlist cd) cd)]>)) h) as E by by destruct cd.
  rewrite <- E in Ht1. assert (from h [] [] h1) as Hk1 by (apply (from_ksm_same h [] [] h); [by apply safe_from|done]).
  assert (Hl1 : chain_left c ([] ++ kn_hlist cd) h1) by (exists (set_kpfn now cd); simpl; by rewrite lookup_insert_eq).
  assert (walked L0 es V r (h_ksm h1) h1) as Hw1 by by apply walked_refl.
  eapply wp_with.
  - apply (wp_best_dup L0 es V r h c [] (kn_hlist cd) None 0 (h_ksm h)); try done.
  - apply (track_best_dup L0 es V r h [] c (kn_hlist cd) None 0 (h_ksm h1) h1 Hk1 Hw1).
    destruct Hl1 as (cd1 & A & B & C). simpl in C. exists cd1. split_and!; [done..| |by rewrite C].
    simpl. rewrite <- C. by apply (ko_chain _ _ (tk_ksm _ _ _ _ _ Ht1) c cd1 A B).
  - intros [[[[f p] len]|] nr] h2 (ds & Hl2 & Hnr & Hp & Hf & HR) [(Ht2 & _) _]; simpl in Hnr, Hp, Hf; subst nr.
    + assert (f ∈ ds) as Hfd by by eapply Hf. destruct (Z.eqb_spec (Z.of_nat (length ds)) 1) as [Hone|_].
      * assert (ds = [f]) as -> by (destruct ds as [|y [|z ds]]; simpl in *; [lia|f_equal; set_solver|lia]).
        wp_step. eapply wp_mono; [by eapply (wp_collapse_chain L0 es V r)|]. intros [] h3 (Ef & Hr3 & Hlive). wp_step.
        split_and!; [by simpl; rewrite Ef| |done|by intros d' [= <-]]. eapply rest_there_trans; [by apply rest_there_root|exact Hr3].
      * wp_step. eapply wp_mono; [by eapply (wp_dup_to_head L0 es V r)|]. intros [] h3 (Ef & Hr3 & Hlive). wp_step.
        split_and!; [by simpl; rewrite Ef| |done|by intros d' [= <-]]. apply rest_there_root. congruence.
    + wp_step. split_and!; [done|by apply rest_there_root| |done]. intros _. destruct Hl2 as (cd2 & A & _). by exists cd2.
Qed.

Lemma drop_rest_there x nd k h' : knodes k !! x = Some nd → dropped r x k (h_ksm h') → ksm_ok r k → rest_there x k h'.
Proof.
  intros Hn (Hk' & _ & HN & _) Hk y Hy (yd & A & B)%(ko_tree _ _ Hk). apply (ko_tree _ _ Hk'). exists (drop_dup x yd).
  rewrite HN, lookup_delete_ne, lookup_fmap, A by done. split; [done|]. by destruct (drop_dup_same x yd) as (-> & _).
Qed.

(** A page fetched through [x]: what is left of the tree. *)
Lemma wp_get_there n nd h :
  working h → knodes (h_ksm h) !! n = Some nd → is_stable_node_chain nd = false →
  wp (get_ksm_page n GET_KSM_PAGE_NOLOCK) h (λ g h', there (if g is Got p then Some p else None) h' ∧ rest_there n (h_ksm h) h' ∧
    (is_Some (if g is Got p then Some p else None) → live_node n h')).
Proof.
  intros Hw Hn Hc. eapply wp_mono; [by apply (wp_get_nolock L0 es V r n nd)|]. intros g h' (Hp & _ & Hg). split; [done|].
  destruct Hw as (_ & Ht). destruct g as [p| |]; simpl in Hg.
  - destruct Hg as (_ & E & _). split; [apply rest_there_root; by rewrite E|]. intros _. exists nd. by rewrite E.
  - destruct Hg as [_ Hd]. split; [|by intros []]. eapply drop_rest_there; [exact Hn|exact Hd|apply Ht].
  - by destruct Hg as [? _].
Qed.

Lemma wp_chain_prune x h :
  working h → x ∈ inorder (root_stable_tree (h_ksm h)) → wp (chain_prune chains_prune x) h (pruned x (h_ksm h)).
Proof.
  intros Hw Hx. pose proof Hw as (Hs & Ht). destruct (tree_node _ _ _ _ _ _ Ht Hx) as [nd Hn]. unfold chain_prune.
  wp_step. eapply wp_get_knode; [exact Hn|]. destruct (is_stable_node_chain nd) eqn:Hc.
  - wp_step. eapply wp_mono; [by eapply wp_dup_prune|]. intros [[[d p]|] s] h1 Hp; wp_step; exact Hp.
  - do 2 wp_step. destruct (is_page_sharing_candidate_at _ _ _).
    + wp_step. eapply wp_mono; [by eapply wp_get_there|]. intros g h1 (Hp & Hr & Hl). wp_step. split_and!; [by destruct g|done|done|].
      intros d [= <-] Hg. apply Hl. by destruct g.
    + wp_step. split_and!; [done|by apply rest_there_root| |by intros]. intros _. by exists nd.
Qed.

Lemma wp_dup_any n h :
  track L0 es V r h → is_Some (knodes (h_ksm h) !! n) →
  wp (stable_node_dup_any n) h (λ any h', ∀ d, any = Some d → h' = h ∧ live_node d h).
Proof.
  intros Ht [nd Hn]. unfold stable_node_dup_any. wp_step. eapply wp_get_knode; [exact Hn|].
  destruct (is_stable_node_chain nd) eqn:Hc; simpl negb; cbv iota; [|wp_step; intros d [= <-]; split; [done|by exists nd]].
  destruct (kn_hlist nd) as [|d l] eqn:El.
  - unfold free_stable_node_chain, free_stable_node, count_nodes. wp_steps. eapply wp_get_knode; [exact Hn|]. by wp_steps.
  - wp_step. intros d' [= <-]. split; [done|]. destruct (ko_chain _ _ (tk_ksm _ _ _ _ _ Ht) n nd Hn Hc) as (_ & _ & Hall).
    destruct (Hall d ltac:(rewrite El; set_solver)) as (dd & Hd & _ & Hdc). by exists dd.
Qed.

(** With a page, the rest of the tree is there and the duplicate is a node. *)
Definition page_pruned (x : loc) (k : ksm) (c : option loc * option Z) (h' : host) : Prop :=
  there c.2 h' ∧ (is_Some c.2 → rest_there x k h' ∧ ∀ d, c.1 = Some d → live_node d h').

Lemma wp_pruned_page_of x h :
  working h → x ∈ inorder (root_stable_tree (h_ksm h)) → wp (pruned_page_of chains_prune x) h (page_pruned x (h_ksm h)).
Proof.
  intros Hw Hx. pose proof Hw as (Hs & Ht). unfold pruned_page_of.
  eapply wp_with; [by apply wp_chain_prune|by apply (track_chain_prune L0 es V r chains_prune (h_ksm h)); [|apply walked_refl]|].
  intros [[[d|] tp] s] h1 (Hp & Hr & Hn & Hd) [Hs1 Hc]; simpl in *.
  { wp_step. split; [done|]. intros Htp. split; [done|]. intros d' [= <-]. by apply Hd. }
  specialize (Hn eq_refl). pose proof (walked_track _ _ _ _ _ _ Hc) as Ht1.
  eapply wp_with; [by apply wp_dup_any|exact (keeps_dup_any h1 [] [] s h1 (safe_from h1 Hs1))|]. intros [any|] h2 Hany Hk2; [|wp_step; split; [done|by intros [? ?]]].
  destruct (Hany any eq_refl) as (-> & nd & Hnd & Hnc). wp_step. eapply wp_mono; [by apply (wp_get_nolock L0 es V r any nd)|].
  intros [p| |] h2 (Hp2 & _ & Hg); wp_step; (split; [done|]); [|by intros [? ?]..]. intros _. simpl in Hg.
  destruct Hg as (_ & E2 & _). split; [|done]. eapply rest_there_trans; [exact Hr|]. apply rest_there_root. by rewrite E2.
Qed.

Lemma returns_same_content d h : working h → (∀ n, d = Some n → live_node n h) → returns (same_content d) h.
Proof.
  intros [Hs Ht] Hd. unfold returns, same_content. destruct d as [n|]; [|by wp_step]. destruct (Hd n eq_refl) as (nd & Hn & Hc).
  eapply wp_call; [by apply (returns_get_ksm_page L0 es V r n nd)|by apply (track_get_ksm_page L0 es V r)|].
  intros [p| |] h1 Hg; simpl in Hg; [|by wp_step..]. destruct Hg as (Ht1 & E1 & nd' & Hn' & Hc' & <-). rewrite <- E1 in Hn'.
  destruct (tk_nodes _ _ _ _ _ Ht1 n nd' Hn' Hc') as [fr Hp]. unfold unlock_page. wp_step. eapply wp_upd_frame; [exact Hp|]. by wp_step.
Qed.

(** The subtrees still to walk are part of the tree. *)
Lemma returns_search_down page t h :
  working h → is_Some (frames (h_mem h) !! page) → NoDup (inorder t) → (∀ y, y ∈ inorder t → y ∈ inorder (root_stable_tree (h_ksm h))) →
  returns (search_down chains_prune page t) h.
Proof.
  unfold returns. revert h. induction t as [|l IHl x t IHt]; intros h Hw Hp Hnd Hin; cbn [search_down]; [by wp_step|].
  pose proof Hw as (Hs & Ht). simpl in Hnd, Hin. apply NoDup_app in Hnd as (Hndl & Hdis & [Hxt Hndt]%NoDup_cons).
  eapply wp_with; [apply wp_pruned_page_of; [done|apply Hin; set_solver]|
    exact (pwp_and _ _ _ _ (keeps_pruned_page_of h [] [] chains_prune x h (safe_from h Hs))
      (track_pruned_page_of L0 es V r chains_prune (h_ksm h) x h Hs (walked_refl _ _ _ _ _ Ht)))|].
  intros [d [tp|]] h1 [Htp Hpr] [Hk1 Hw1]; simpl in *; [|by wp_step]. destruct (Hpr ltac:(by eexists)) as [Hr Hd].
  destruct (there_from _ _ _ _ _ Hk1 Hp) as [fr Hfr]. pose proof Htp as [tfr Htfr].
  wp_step. eapply wp_get_frame; [exact Hfr|]. wp_step. eapply wp_get_frame; [exact Htfr|]. wp_step.
  eapply (wp_put_page L0 es V r h); [done|exact Hk1|by eapply walked_track|]. intros h2 Hw2 E2 Hk2.
  assert (is_Some (frames (h_mem h2) !! page)) as Hp2 by by eapply there_from.
  destruct (_ <? 0); [|destruct (0 <? _)].
  - apply IHl; [done..|]. intros y Hy. rewrite E2. apply Hr; [|set_solver]. intros ->. apply (Hdis x Hy). set_solver.
  - apply IHt; [done..|]. intros y Hy. rewrite E2. apply Hr; [|set_solver]. by intros ->.
  - apply returns_same_content; [done|]. intros n E. destruct (Hd n E) as (nd & A). exists nd. by rewrite E2.
Qed.

Lemma returns_search_stable fuel page h :
  working h → is_Some (frames (h_mem h) !! page) → returns (search_stable chains_prune fuel page) h.
Proof.
  unfold returns. revert h. induction fuel as [|fuel IH]; intros h Hw Hp; cbn [search_stable]; [by wp_step|]. do 2 wp_step.
  pose proof Hw as (Hs & Ht).
  eapply wp_call; [apply returns_search_down; [done|done|apply (ko_nodup _ _ (tk_ksm _ _ _ _ _ Ht))|done]|
    exact (pwp_and _ _ _ _ (keeps_search_down h [] [] chains_prune page _ h (safe_from h Hs))
      (track_search_down L0 es V r chains_prune (h_ksm h) page _ h Hs (walked_refl _ _ _ _ _ Ht)))|].
  intros [g|] h1 [Hk1 Hg]; [by wp_step|]. simpl in Hk1. apply IH; [|by eapply there_from].
  eapply working_from; [exact Hk1|]. exact (walked_track _ _ _ _ _ _ (fewer_walked _ _ _ _ _ _ Hg)).
Qed.

Lemma returns_stable_tree_search page h :
  working h → is_Some (frames (h_mem h) !! page) → returns (stable_tree_search chains_prune page) h.
Proof.
  intros Hw [fr Hp]. pose proof Hw as (Hs & Ht). unfold returns, stable_tree_search. wp_step. eapply wp_get_frame; [exact Hp|].
  destruct (page_stable_node fr) as [n|].
  - unfold HostMem.get_page. wp_step. eapply wp_upd_frame; [exact Hp|]. by wp_step.
  - do 2 wp_step. eapply wp_call; [apply returns_search_stable; [done|by exists fr]|
      apply (track_search_stable L0 es V r chains_prune _ page h Hs Ht); lia|].
    intros res h1 [[g ->] _]. by wp_step.
Qed.
End descend.

(** ** The unstable tree *)
Section unstable.
#[local] Set Default Proof Using "Type*".
Context `{RbTree} `{Memcmp} `{MmFault} (L0 : mode) (es : list ksm_event_log) (V : gmap loc (loc * Z)) (r : Z) (h0 : host).
Abbreviation kept := (from h0 [] []).

(** Every mapped page is a frame. *)
Lemma wp_follow_page mm a h : kept h → wp (follow_page mm a) h (λ p h', there p h').
Proof.
  intros Hk. unfold follow_page. do 2 wp_step. destruct (ptes _ !! _) as [e|] eqn:He; [|by wp_step].
  destruct (fm_coherent _ _ _ _ Hk _ _ He) as (fr & Hp & _). unfold HostMem.get_page. wp_step. eapply wp_upd_frame; [exact Hp|]. wp_step.
  simpl. rewrite lookup_insert_eq. by eexists.
Qed.

Lemma wp_get_mergeable i h : kept h → is_Some (kitems (h_ksm h) !! i) → wp (get_mergeable_page i) h (λ p h', there p h').
Proof.
  intros Hk [it Hi]. unfold get_mergeable_page. wp_step. eapply wp_get_kitem; [exact Hi|].
  eapply wp_call; [apply returns_interfere|by apply (keeps_interfere h0)|]. intros [] h1 Hk1. do 2 wp_step.
  destruct (find_mergeable_vma _ _ _); [|by wp_step]. wp_step. eapply wp_mono; [by apply wp_follow_page|].
  intros [p|] h2 Hp; [|by wp_step]. pose proof Hp as [fr Hfr]. wp_step. eapply wp_get_frame; [exact Hfr|].
  destruct (PageAnon fr); [by wp_step|]. unfold put_page. wp_step. eapply wp_upd_frame; [exact Hfr|]. by wp_step.
Qed.

Lemma returns_unstable_down k page t path h :
  kept h → quietly L0 es V r k h → is_Some (frames (h_mem h) !! page) → (∀ x, x ∈ inorder t → is_Some (kitems k !! x)) →
  returns (unstable_down page t path) h.
Proof.
  unfold returns. revert path h. induction t as [|l IHl x t IHt]; intros path h Hk Hq Hp Hin; cbn [unstable_down]; [by wp_step|].
  pose proof Hq as [_ E]. simpl in Hin. eapply wp_with; [apply wp_get_mergeable; [exact Hk|rewrite E; apply Hin; set_solver]|
    exact (pwp_and _ _ _ _ (keeps_get_mergeable_page h0 [] [] x h Hk) (quiet_get_mergeable L0 es V r k x h Hq))|].
  intros [tp|] h1 Htp [Hk1 Hq1]; simpl in Hk1, Htp; [|by wp_step].
  assert (is_Some (frames (h_mem h1) !! page)) as [fr Hfr].
  { apply elem_of_dom. rewrite (fm_dom _ _ _ _ Hk1), <- (fm_dom _ _ _ _ Hk). by apply elem_of_dom. }
  assert (Hput : ∀ (m : M host unstable_descent), (∀ h2, kept h2 → quietly L0 es V r k h2 → is_Some (frames (h_mem h2) !! page) → returns m h2) →
    wp (put_page tp ;; m) h1 (λ _ _, True)).
  { intros m Hm. eapply wp_call; [by apply returns_put_page|
      exact (pwp_and _ _ _ _ (keeps_put_page h0 [] [] tp h1 Hk1) (track_put_page L0 es V r tp h1 (proj1 Hq1)))|].
    intros [] h2 (Hk2 & Ht2 & E2). apply Hm; [done|split; [done|by rewrite E2; apply Hq1]|].
    apply elem_of_dom. rewrite (fm_dom _ _ _ _ Hk2), <- (fm_dom _ _ _ _ Hk). by apply elem_of_dom. }
  destruct (page =? tp); [apply Hput; intros; by unfold returns; wp_step|].
  destruct Htp as [tfr Htfr]. wp_step. eapply wp_get_frame; [exact Hfr|]. wp_step. eapply wp_get_frame; [exact Htfr|].
  destruct (_ <? 0); [|destruct (0 <? _)]; [apply Hput; intros; apply IHl|apply Hput; intros; apply IHt|by wp_step]; try done; set_solver.
Qed.

Lemma returns_link_unstable i path h : is_Some (kitems (h_ksm h) !! i) → returns (link_unstable i path) h.
Proof.
  intros [it Hi]. unfold returns, link_unstable, count. do 2 wp_step. wp_step. eapply wp_upd_kitem; [exact Hi|]. by wp_steps.
Qed.
End unstable.

(** The items of the tree are items. *)
Lemma unstable_tree_item h x : alone 0 h → x ∈ inorder (root_unstable_tree (h_ksm h)) → is_Some (kitems (h_ksm h) !! x).
Proof.
  intros Ht Hx. destruct (uo_tree _ _ (tk_unstable _ _ _ _ _ Ht)) as [_ Hall]. apply Hall in Hx as (a & Ha & _).
  rewrite lookup_unstables in Ha. destruct (kitems (h_ksm h) !! x); [by eexists|done].
Qed.

Lemma unstable_search_elem `{RbTree} `{Memcmp} `{MmFault} i page h :
  pwp (unstable_tree_search_insert i page) h (λ r _, match r with Some (j, _) => j ∈ inorder (root_unstable_tree (h_ksm h)) | None => True end).
Proof.
  unfold unstable_tree_search_insert. do 2 pwp_step. pwp_step. eapply pwp_mono; [apply unstable_down_place|].
  intros [path|j tp|] h1 Hd; [|by pwp_step..]. pwp_step. eapply pwp_mono; [apply pwp_true|]. intros [] h2 _. by pwp_step.
Qed.

Lemma returns_unstable_search `{RbTree} `{Memcmp} `{MmFault} i page h :
  safe h → alone 0 h → is_Some (frames (h_mem h) !! page) → is_Some (kitems (h_ksm h) !! i) →
  returns (unstable_tree_search_insert i page) h.
Proof.
  intros Hs Ht Hp Hi. unfold returns, unstable_tree_search_insert. do 2 wp_step.
  eapply wp_call; [apply (returns_unstable_down (Alone true) [] ∅ 0 h (h_ksm h)); [by apply safe_from|done|done|]|
    exact (quiet_unstable_down (Alone true) [] ∅ 0 (h_ksm h) page _ [] h (conj Ht eq_refl))|].
  - intros x. by apply unstable_tree_item.
  - intros [path|j tp|] h1 [_ E]; [|by wp_step..]. wp_step. eapply wp_mono; [apply returns_link_unstable; by rewrite E|]. intros. by wp_step.
Qed.

(** ** Merging *)
Section merge.
#[local] Set Default Proof Using "All".
Context `{RbTree} `{Memcmp} `{MmFault}.

(** An item joins the node its page names. *)
Lemma returns_append_locked L0 es V r i q n h :
  safe h → unlocked h → track L0 es V r h → is_Some (kitems (h_ksm h) !! i) → ksm_held h q → named q n h →
  returns (lock_page q ;; kfr ← get_frame q; node ← deref (page_stable_node kfr) "stable_node"; stable_tree_append i node ;; unlock_page q) h.
Proof.
  intros Hs Hu Ht Hi Hq Hn. pose proof (held_ksm_there _ _ Hq) as Hp. unfold returns.
  eapply wp_call; [by apply returns_lock|
    apply pwp_and; [exact (name_lock_page q n h Hq [] [] q h (safe_from h Hs) Hn)|exact (track_lock_page L0 es V r q h Ht)]|].
  intros [] h1 ([[Hk1 _] (kfr & Hkfr & Hm)] & Ht1 & _). wp_step. eapply wp_get_frame; [exact Hkfr|]. wp_step.
  apply (wp_deref _ n); [unfold page_stable_node; by rewrite Hm|].
  destruct (tk_frames _ _ _ _ _ Ht1 q kfr n Hkfr Hm) as (nd & Hnd & Hc & _).
  eapply wp_call; [eapply returns_stable_tree_append; [exact Ht1|by eapply from_item|by exists nd]|exact (keeps_stable_tree_append h [] [q] i n h1 Hk1)|].
  intros [] h2 Hk2. destruct (there_from _ _ _ _ q Hk2 Hp). unfold unlock_page. by eapply wp_upd_frame.
Qed.

Lemma returns_merge_with_kpage i page kp n h :
  safe h → unlocked h → ksm_held h kp → named kp n h → page_held h page → alone 0 h → is_Some (kitems (h_ksm h) !! i) →
  returns (merge_with_kpage i page kp) h.
Proof.
  intros Hs Hu Hkp Hn Hp Ht Hi. unfold returns, merge_with_kpage.
  eapply wp_call; [by apply (returns_try_to_merge_with_ksm_page (Alone true) [] ∅ 0)|
    exact (pwp_and _ _ _ _ (pwp_try_to_merge (Alone true) [] ∅ 0 i page (Some kp) h Hs Hp Hkp Ht)
      (name_try_to_merge_with_ksm_page kp n h Hkp i page h Hp (safe_from h Hs) Hn))|].
  intros ok h1 ((Hk1 & _ & _ & Hok) & Hn1). pose proof (from_safe _ _ _ _ Hk1) as Hs1.
  assert (Hq1 : ksm_held h1 kp) by by eapply ksm_held_from.
  eapply wp_call with (P := λ _ h', from h [] [] h').
  - destruct ok; [|by unfold returns; wp_step]. destruct Hok as [Ht1 _].
    eapply returns_append_locked; [done|by eapply unlocked_from|exact Ht1|by eapply from_item|done|exact Hn1].
  - destruct ok; [|by pwp_step]. pwp_step. eapply pwp_mono; [exact (keeps_lock_page h [] [] kp h1 Hk1)|]. intros [] h2 [Hk2 Hl2].
    pwp_step. apply pwp_get_frame. intros kfr _. pwp_step. apply pwp_deref. intros m _.
    pwp_step. eapply pwp_mono; [exact (keeps_stable_tree_append h [] [kp] i m h2 Hk2)|]. intros [] h3 Hk3.
    exact (keeps_unlock_page h [] [] kp h3 Hl2 Hk3).
  - intros [] h2 Hk2. apply returns_put_page. eapply there_from; [exact Hk2|by apply held_ksm_there].
Qed.

(** The merged page always gets its node. *)
Lemma returns_insert_merged i j kp h :
  safe h → unlocked h → ksm_held h kp → alone (0 + 2) h → unlisted i h → unlisted j h →
  is_Some (kitems (h_ksm h) !! i) → is_Some (kitems (h_ksm h) !! j) → returns (insert_merged i j kp) h.
Proof.
  intros Hs Hu Hkp Ht Hui Huj Hi Hj. unfold returns, insert_merged. pose proof (held_ksm_there _ _ Hkp) as Hp.
  eapply wp_call; [by apply returns_lock|
    apply pwp_and; [exact (keeps_lock_page h [] [] kp h (safe_from h Hs))|exact (track_lock_page (Alone true) [] ∅ (0 + 2) kp h Ht)]|].
  intros [] h1 ([Hk1 _] & Ht1 & E1). pose proof (from_safe _ _ _ _ Hk1) as Hs1.
  eapply wp_call; [apply (returns_stable_tree_insert (Alone true) [] ∅ (0 + 2)); [done|by eapply there_from]|
    apply pwp_and; [exact (keeps_stable_tree_insert h [] [kp] kp h1 Hkp Hk1)|exact (track_stable_tree_insert (Alone true) [] ∅ (0 + 2) kp h1 Hs1 Ht1)]|].
  intros res h2 (Hk2 & Ht2 & Hl2 & n & nd & -> & Hn & Hc & _).
  assert (Huj2 : unlisted j h2) by (eapply unlisted_later; [exact Hl2|]; intros it; rewrite E1; apply Huj).
  apply wp_bind_assoc. eapply wp_call; [eapply returns_stable_tree_append; [exact Ht2|by eapply from_item|by exists nd]|
    apply pwp_and; [exact (keeps_stable_tree_append h [] [kp] j n h2 Hk2)|by eapply (track_stable_tree_append (Alone true) [] ∅ (0 + 2) j n nd)]|].
  intros [] h3 (Hk3 & Ht3 & Hlive & _).
  eapply wp_call; [eapply returns_stable_tree_append; [exact Ht3|by eapply from_item|done]|exact (keeps_stable_tree_append h [] [kp] i n h3 Hk3)|].
  intros [] h4 Hk4. destruct (there_from _ _ _ _ kp Hk4 Hp). unfold unlock_page. wp_step. eapply wp_upd_frame; [done|]. by wp_step.
Qed.

Lemma returns_merge_with_item i page j tp h0 δ h :
  from h0 (tp :: δ) [] h → unlocked h0 → page ≠ tp → page_held h page → page_held h tp → alone 0 h → i ≠ j →
  is_Some (kitems (h_ksm h) !! i) → is_Some (kitems (h_ksm h) !! j) → returns (merge_with_item i page j tp) h.
Proof.
  intros Hk Hu0 Hne Hp Htp Ht Hij Hi Hj. unfold returns, merge_with_item. pose proof (from_safe _ _ _ _ Hk) as Hs.
  pose proof (unlocked_from _ _ _ Hu0 Hk) as Hu.
  eapply wp_call; [by apply (returns_try_to_merge_two_pages (Alone true) [] ∅ 0)|
    exact (pwp_and _ _ _ _ (keeps_try_to_merge_two_pages h [] [] i page j tp h Hp Htp (safe_from h Hs))
      (track_try_to_merge_two_pages (Alone true) [] ∅ 0 i page j tp h Hs Hp Htp ltac:(done) ltac:(done) Ht))|].
  intros kp h1 [[Hk1 Hkp] [Hl1 Hok]]. pose proof (from_push _ _ _ _ _ _ _ Hk Hk1) as Hk1'. simpl in Hk1'.
  assert (Hm1 : machine (dom (frames (h_mem h))) h1) by (split; [apply (fm_dom _ _ _ _ Hk1)|apply (fm_env _ _ _ _ Hk1)]).
  pose proof (held_in _ _ Hp) as Hpd. pose proof (held_in _ _ Htp) as Htd.
  eapply wp_call; [eapply settles_run; [by apply settles_same_compound|exact Hm1]|apply pwp_same_compound|]. intros split h1' ->.
  eapply wp_call; [apply returns_put_page; eapply there_from; [exact Hk1|by apply held_page_there]| |].
  { apply (pwp_and _ _ (λ _ h', ksm_held h1 page → ksm_held h' page)).
    { unfold put_page. apply pwp_upd_frame. intros fr _ (fr1 & Hf & ?). exists fr1. simpl. by rewrite lookup_insert_ne. }
    apply pwp_and; [exact (keeps_put_page h0 δ [] tp h1 Hk1')|].
    refine (track_put_page _ _ _ (match kp with Some _ => 0 + 2 | None => 0 end) _ _ _); destruct kp; [apply Hok|exact Hok]. }
  intros [] h2 (Hp2 & Hk2 & Ht2 & E2). pose proof (from_safe _ _ _ _ Hk2) as Hs2. pose proof (unlocked_from _ _ _ Hu0 Hk2) as Hu2.
  destruct kp as [kp|].
  - destruct Hkp as [-> Hks]. destruct Hok as (_ & Hui & Huj). apply returns_insert_merged; [done|done|by apply Hp2|exact Ht2|..].
    + intros it. rewrite E2. apply Hui.
    + intros it. rewrite E2. apply Huj.
    + rewrite E2. eapply from_item; [exact Hk1|done].
    + rewrite E2. eapply from_item; [exact Hk1|done].
  - apply wp_whenM; intros _; [|done]. eapply settles_run; [apply (settles_split_after_failure (dom (frames (h_mem h2))))|by apply machine_safe].
    rewrite (fm_dom _ _ _ _ Hk2), <- (fm_dom _ _ _ _ Hk). done.
Qed.

Context (chains_prune : Z) (page_struct : Z → Z) (calc_checksum : page → Z) (zero_checksum : Z).

Lemma returns_upd_kitem i f h : is_Some (kitems (h_ksm h) !! i) → returns (upd_kitem i f) h.
Proof using Type. intros [it Hi]. by eapply wp_upd_kitem. Qed.

(** Nothing of the page was found in the stable tree. *)
Lemma returns_merge_unstable i page h :
  safe h → unlocked h → page_held h page → ksm_use_zero_pages (config h) = false → alone 0 h → unlisted i h →
  is_Some (kitems (h_ksm h) !! i) → returns (merge_unstable page_struct calc_checksum zero_checksum i page) h.
Proof.
  intros Hs Hu Hp Hz Ht Hui Hi. destruct (held_page_there _ _ Hp) as [fr Hfr]. pose proof Hi as [it Hit]. unfold returns, merge_unstable.
  wp_step. eapply wp_get_frame; [exact Hfr|]. wp_step. eapply wp_get_kitem; [exact Hit|]. destruct (negb _); [by apply returns_upd_kitem|].
  unfold try_zero_page. wp_step. do 2 wp_step. rewrite Hz. simpl. wp_step.
  eapply wp_call; [by apply returns_unstable_search; [|done|exists fr|]|
    exact (pwp_and _ _ _ _ (keeps_unstable_search h [] [] i page h (safe_from h Hs))
      (pwp_and _ _ _ _ (unstable_search_other i page h) (pwp_and _ _ _ _ (unstable_search_elem i page h) (alone_unstable_search i page h Ht Hui))))|].
  intros [[j tp]|] h1 (Hk1 & Hne & Hin & Ht1 & Hr); simpl in Hk1; [|by wp_step]. destruct Hne as [Hne Htp]. destruct Hr as [E1 Hij].
  eapply (returns_merge_with_item i page j tp h []); [done|done|done|by eapply page_held_from| |done|by intros <-|by rewrite E1|].
  - eapply from_page_held; [|exact Hk1|done]. set_solver.
  - rewrite E1. by apply unstable_tree_item.
Qed.

(** The page found keeps its node while the item is removed. *)
Lemma name_removed i h (g : gotten) :
  safe h → (match g with Got p => ksm_held h p ∧ node_page p h | _ => True end) →
  pwp (remove_rmap_item_from_tree i) h (λ _ h', match g with Got p => ∃ n, named p n h' | _ => True end).
Proof.
  intros Hs Hg. destruct g as [p| |]; [|apply pwp_true..]. destruct Hg as (Hp & fr & n & Hfr & Hm).
  eapply pwp_mono; [apply (name_remove_rmap_item p n h); [done|by apply safe_from|by exists fr]|by intros [] h' Hn; exists n].
Qed.

(** The visit of an item with its page. *)
Lemma returns_cmp_and_merge_page page i h :
  safe h → unlocked h → page_held h page → ksm_use_zero_pages (config h) = false → alone 0 h → is_Some (kitems (h_ksm h) !! i) →
  returns (cmp_and_merge_page chains_prune page_struct calc_checksum zero_checksum page i) h.
Proof.
  intros Hs Hu Hp Hz Ht Hi. destruct (held_page_there _ _ Hp) as [fr Hfr]. pose proof Hi as [it Hit].
  unfold returns, cmp_and_merge_page. wp_step. eapply wp_get_kitem; [exact Hit|]. wp_step. eapply wp_get_frame; [exact Hfr|].
  case_bool_decide; [by wp_step|]. wp_step. apply (wp_mono _ _ (λ _ h', h' = h)).
  { destruct (page_stable_node fr) as [n|] eqn:Hn; [|by wp_step].
    assert (fr_mapping fr = MapKsm (Some n)) as Hm by (unfold page_stable_node in Hn; destruct (fr_mapping fr); congruence).
    destruct (tk_frames _ _ _ _ _ Ht page fr n Hfr Hm) as (nd & Hnd & _). wp_step. eapply wp_get_knode; [exact Hnd|]. by wp_step. }
  intros [] h' ->.
  eapply wp_call; [apply (returns_stable_tree_search (Alone true) [] ∅ 0); [done|by exists fr]|
    exact (pwp_and _ _ _ _ (keeps_stable_tree_search h [] [] chains_prune page h (safe_from h Hs))
      (track_stable_tree_search (Alone true) [] ∅ 0 chains_prune page fr h Hs Ht Hfr))|].
  intros g h1 [Hg ((Ht1 & _ & _) & _ & Hgp)].
  assert (from h (if g is Got q then [q] else []) [] h1) as Hk1 by (by destruct g; [destruct Hg|..]).
  assert (match g with Got q => ksm_held h1 q ∧ node_page q h1 | _ => True end) as Hg1 by (by destruct g; [destruct Hg|..]).
  destruct (from_item _ _ _ _ i Hk1 Hi) as [it1 Hit1]. wp_step. eapply wp_get_kitem; [exact Hit1|]. case_bool_decide.
  { apply returns_put_page. eapply there_from; [exact Hk1|by exists fr]. }
  pose proof (from_safe _ _ _ _ Hk1) as Hs1. pose proof (unlocked_from _ _ _ Hu Hk1) as Hu1.
  eapply wp_call; [by apply (returns_remove_rmap_item (Alone true) [] ∅ 0); [..|exists it1]|
    exact (pwp_and _ _ _ _ (keeps_remove_rmap_item h1 [] [] i h1 (safe_from h1 Hs1))
      (pwp_and _ _ _ _ (track_remove_rmap_item (Alone true) [] ∅ 0 i h1 Hs1 Ht1) (name_removed i h1 g Hs1 Hg1)))|].
  intros [] h2 (Hk2 & (Ht2 & Hu2 & _) & Hn2). apply alone_any in Ht2. pose proof (from_safe _ _ _ _ Hk2) as Hs2.
  pose proof (unlocked_from _ _ _ Hu1 Hk2) as Hul2. assert (is_Some (kitems (h_ksm h2) !! i)) as Hi2 by (eapply from_item; [exact Hk2|by exists it1]).
  assert (page_held h2 page) as Hp2 by (eapply page_held_from; [exact Hk2|]; by eapply page_held_from).
  destruct g as [q| |].
  - destruct Hn2 as [n Hn2]. destruct Hg as [_ Hq]. eapply returns_merge_with_kpage; [done|done|by eapply ksm_held_from|exact Hn2|done..].
  - apply returns_merge_unstable; try done. by rewrite (fm_config _ _ _ _ Hk2), (fm_config _ _ _ _ Hk1).
  - by wp_step.
Qed.
(** The smart scan. *)
Lemma returns_should_skip page i h :
  safe h → unlocked h → alone 0 h → is_Some (frames (h_mem h) !! page) → is_Some (kitems (h_ksm h) !! i) →
  returns (should_skip_rmap_item page_struct page i) h.
Proof.
  intros Hs Hu Ht [fr Hfr] Hi. unfold returns, should_skip_rmap_item. do 2 wp_step. destruct (negb _); [by wp_step|].
  wp_step. eapply wp_get_frame; [exact Hfr|]. destruct (PageKsm fr); [by wp_step|]. pose proof Hi as [it Hit].
  wp_step. eapply wp_get_kitem; [exact Hit|].
  set (ok := λ h1, safe h1 ∧ unlocked h1 ∧ alone 0 h1 ∧ is_Some (kitems (h_ksm h1) !! i)).
  assert (Hset : ∀ w h1, ok h1 → wp (upd_kitem i (λ it, set_word (w it) it)) h1 (λ _, ok)).
  { intros w h1 (Hs1 & Hu1 & Ht1 & Hi1). apply wp_returns; [by apply returns_upd_kitem|].
    eapply pwp_mono; [apply (pwp_and _ _ (λ _ h', safe h' ∧ unlocked h' ∧ is_Some (kitems (h_ksm h') !! i))); [|by apply alone_set_word]|].
    - apply pwp_upd_kitem. intros it1 _. split_and!; [by destruct Hs1|done|]. simpl. rewrite lookup_insert_eq. by eexists.
    - intros [] h2 ((A & B & C) & D & _). by split_and!. }
  wp_step. apply (wp_mono _ _ (λ _, ok)).
  { apply wp_whenM; intros _; [|done]. by apply (Hset (λ it1, ScanFields (oldchecksum page_struct it1) (age page_struct it + 1) (remaining_skips page_struct it1))). }
  intros [] h1 Hh1. destruct (_ <? 3); [by wp_step|]. pose proof Hh1 as (_ & _ & _ & it1 & Hit1). wp_step. eapply wp_get_kitem; [exact Hit1|]. destruct (_ =? 0).
  - wp_step. eapply wp_mono; [by apply (Hset (λ it2, ScanFields (oldchecksum page_struct it2) (age page_struct it2) (skip_age (age page_struct it))) h1)|].
    intros [] h2 _. by wp_step.
  - wp_step. eapply wp_mono; [by apply (Hset (λ it2, ScanFields (oldchecksum page_struct it2) (age page_struct it2) (remaining_skips page_struct it1 - 1)) h1)|].
    intros [] h2 (Hs2 & Hu2 & Ht2 & Hi2). wp_step. eapply wp_mono; [by apply (returns_remove_rmap_item (Alone true) [] ∅ 0)|]. intros. by wp_step.
Qed.
End merge.

(** ** One area *)
Lemma wp_on_scan {A} (m : M scan_st A) ls (Q : A → local_st → Prop) :
  wp m (lc_scan ls) (λ a s, Q a (with_local (λ _, s) ls)) → wp (on_scan m) ls Q.
Proof. unfold on_scan, wp. by destruct (m (lc_scan ls)) as [[a s]| |]. Qed.

Lemma returns_on_host {A} (m : M host A) s : returns m (sc_host s) → returns (on_host m) s.
Proof. intros Hm. apply wp_on_host. by eapply wp_mono. Qed.
Lemma returns_on_scan {A} (m : M scan_st A) ls : returns m (lc_scan ls) → returns (on_scan m) ls.
Proof. intros Hm. apply wp_on_scan. by eapply wp_mono. Qed.

(** A step of the scan that returns, in a specification by continuation. *)
Lemma wp_scan_step {A B} (m : M scan_st A) (f : A → M local_st B) ls (Q : B → local_st → Prop) :
  returns m (lc_scan ls) → pwp m (lc_scan ls) (λ a s, wp (f a) (with_local (λ _, s) ls) Q) → wp (on_scan m ≫= f) ls Q.
Proof.
  intros Hr Hm. eapply wp_call with (P := λ a ls', wp (f a) ls' Q); [by apply returns_on_scan|by apply pwp_on_scan|done].
Qed.

Section slot.
#[local] Set Default Proof Using "All".
Context `{RbTree} `{Memcmp} `{MmFault} (h0 : host) (Hul : unlocked h0) (q : Z) (page_struct : Z → Z).
Abbreviation in_slot := (in_slot h0 q).
Abbreviation slot_at := (slot_at h0 q).

Lemma in_slot_facts mm done rest b S δ o s :
  in_slot mm done rest b S δ o s → safe (sc_host s) ∧ unlocked (sc_host s) ∧ alone 0 (sc_host s) ∧
    ∀ p, p ∈ δ → is_Some (frames (h_mem (sc_host s)) !! p).
Proof.
  intros Hsl. destruct (sl_inv _ _ _ _ _ _ _ _ _ _ Hsl) as [_ I1 If I2 _ _ _].
  split_and!; [by eapply from_safe|exact (unlocked_from (no_items h0) _ _ Hul I1)|by eapply alone_any|].
  intros p Hp. rewrite Forall_forall in If. apply (there_from _ _ _ _ p I1). by apply elem_of_dom, If.
Qed.

Lemma in_slot_owns mm done rest b S δ o s :
  in_slot mm done rest b S δ o s → owns (items s) mm (passed (scan s) ++ ahead (scan s)).
Proof using Type. intros Hsl. pose proof (so_owns _ _ (sl_ok _ _ _ _ _ _ _ _ _ _ Hsl)) as [_ [Ho _]%Forall_cons]%Forall_app. exact Ho. Qed.

Lemma owned_item mm l s i : owns (items s) mm l → i ∈ l → is_Some (kitems (h_ksm (sc_host s)) !! i).
Proof using Type.
  intros Ho Hi. destruct (proj1 (ow_items _ _ _ Ho i) Hi) as (a & p & Hv). destruct (item_of_ident _ _ _ _ _ Hv) as (it & Hit & _). by exists it.
Qed.

(** The cursor has passed the item found. *)
Definition passed_item (r : option (loc * Z)) (ls : local_st) : Prop := ∀ i p, r = Some (i, p) → i ∈ passed (scan (lc_scan ls)).

Lemma wp_scan_area mm done rest e addrs S ls :
  slot_at mm done rest S [] None (lc_scan ls) → scan_address (scan (lc_scan ls)) ≤ e →
  StronglySorted Z.lt addrs → Forall (λ a, a mod 4096 = 0 ∧ 0 ≤ a ∧ scan_address (scan (lc_scan ls)) ≤ a ∧ a + 4096 ≤ e) addrs →
  wp (scan_area page_struct mm addrs) ls (λ r, passed_item (mjoin r)).
Proof.
  revert S ls. induction addrs as [|a addrs IH]; intros S ls Hsl He Hs Ha; cbn [scan_area]; [by wp_step|].
  do 2 wp_step. destruct (ksm_test_exit _ mm); [by wp_step|].
  apply StronglySorted_inv in Hs as [Hs Hmin]. apply Forall_cons in Ha as [(Ha & Hnn & Hb & Hae) Has].
  assert (Hnext : ∀ ls1 S' b, in_slot mm done rest b S' [] None (lc_scan ls1) → b ≤ a + 4096 →
    wp (on_scan (set_scan_address (a + PAGE_SIZE)) ;; on_scan (on_host interfere) ;; scan_area page_struct mm addrs) ls1 (λ r, passed_item (mjoin r))).
  { intros ls1 S' b Hsl1 Hb1. wp_step. apply wp_on_scan. unfold set_scan_address. wp_step. change PAGE_SIZE with 4096.
    pose proof (in_slot_address _ _ _ _ _ _ _ _ _ (a + 4096) _ Hsl1 Hb1 ltac:(Z.div_mod_to_equations; lia)) as [Hsl2 Hal].
    apply wp_scan_step; [apply returns_on_host, returns_interfere|]. eapply in_slot_interfere; [exact Hsl2|]. intros h' Hsl3.
    apply (IH S'); [exact (conj Hsl3 Hal)|simpl; lia|exact Hs|].
    simpl. rewrite Forall_forall in Has, Hmin |- *. intros x Hx. destruct (Has x Hx) as (? & ? & ? & ?). specialize (Hmin x Hx).
    split_and!; try done. Z.div_mod_to_equations. lia. }
  destruct Hsl as [Hsl Hal]. pose proof (sl_inv _ _ _ _ _ _ _ _ _ _ Hsl) as [_ I1 _ _ _ _ _].
  apply wp_scan_step; [by eapply returns_on_host, returns_wp, (wp_follow_page (no_items h0))|].
  eapply in_slot_follow_page; [exact Hsl|]. intros [p|] h1 Hsl1.
  2: { eapply Hnext; [exact Hsl1|lia]. }
  assert (Hput : ∀ ls1 S' b (B : Type) (m : M local_st B) (Q : B → local_st → Prop), in_slot mm done rest b S' [p] None (lc_scan ls1) →
    (∀ h', in_slot mm done rest b S' [] None (with_host (λ _, h') (lc_scan ls1)) → wp m (with_local (λ _, with_host (λ _, h') (lc_scan ls1)) ls1) Q) →
    wp (on_scan (on_host (put_page p)) ;; m) ls1 Q).
  { intros ls1 S' b B m Q Hsl1' HQ. destruct (in_slot_facts _ _ _ _ _ _ _ _ Hsl1') as (_ & _ & _ & Hp).
    apply wp_scan_step; [apply returns_on_host, returns_put_page, Hp; set_solver|]. by eapply in_slot_put_page. }
  destruct (in_slot_facts _ _ _ _ _ _ _ _ Hsl1) as (_ & _ & _ & Hp). destruct (Hp p ltac:(set_solver)) as [fr Hfr].
  wp_step. apply wp_on_scan. eapply wp_scan_frame; [exact Hfr|]. destruct (PageAnon fr).
  2: { eapply Hput; [exact Hsl1|]. intros h2 Hsl2. eapply Hnext; [exact Hsl2|simpl; lia]. }
  apply wp_scan_step.
  { eapply returns_get_next; [apply _|exact Hul|exact (sl_inv _ _ _ _ _ _ _ _ _ _ Hsl1)|by eapply in_slot_owns|done]. }
  eapply in_slot_get_next; [exact Hsl1|simpl; lia|done|done|]. intros [i|] s2 Es Hr.
  2: { eapply Hput; [exact Hr|]. intros h3 Hsl3. by wp_step. }
  apply wp_scan_step; [unfold returns, pass_item; by wp_step|].
  eapply pwp_mono; [apply (pwp_and _ _ _ (λ _ s3, i ∈ passed (scan s3)) Hr); unfold pass_item; pwp_step; simpl; set_solver|].
  intros [] s3 [[Es3 Hsl3] Hi3]. destruct (in_slot_facts _ _ _ _ _ _ _ _ Hsl3) as (Hs3 & Hu3 & Ht3 & Hp3).
  apply wp_scan_step.
  { apply returns_on_host, returns_should_skip; [done..|apply Hp3; set_solver|]. eapply owned_item; [by eapply in_slot_owns|set_solver]. }
  eapply in_slot_should_skip; [exact Hsl3| |]; intros h4 Hsl4.
  - wp_step. apply wp_on_scan. unfold set_scan_address. wp_step. wp_step. intros j p' [= <- <-]. exact Hi3.
  - do 4 wp_step. eapply Hput; [exact Hsl4|]. intros h5 Hsl5. eapply Hnext; [exact Hsl5|lia].
Qed.

Lemma wp_scan_areas mm done rest areas S ls :
  slot_at mm done rest S [] None (lc_scan ls) → areas_ok areas → Forall (λ v, scan_address (scan (lc_scan ls)) ≤ vm_end v) areas →
  wp (scan_areas page_struct mm areas) ls (λ r, passed_item (mjoin r)).
Proof.
  revert S ls. induction areas as [|v areas IH]; intros S ls Hsl Hok Hle; cbn [scan_areas]; [by wp_step|].
  destruct Hok as [[Hv Hok]%Forall_cons [Hs Hb]%StronglySorted_inv]. apply Forall_cons in Hle as [Hle Hles]. destruct (negb _).
  { by apply (IH S). }
  destruct Hsl as [Hsl Hal]. destruct (area_start_ok _ v Hv Hal Hle) as (Hst & Hsa & Hnn). do 2 wp_step.
  wp_step. apply wp_on_scan. unfold set_scan_address. wp_step. set (a := area_start _ v) in *.
  pose proof (in_slot_address _ _ _ _ _ _ _ _ _ a _ Hsl (proj1 Hst) Hsa) as Hsl1. destruct (addresses_from_ok a v Hnn Hsa) as [Has Haf]; [apply Hv|].
  eapply wp_with; [apply (wp_scan_area mm done rest (vm_end v) _ S); [exact Hsl1|simpl; lia|exact Has|exact Haf]|
    apply (pwp_scan_area h0 q page_struct mm done rest (vm_end v) _ S); [exact Hsl1|simpl; lia|exact Has|exact Haf]|].
  intros [res|] ls' Hp [_ Hr]; [by wp_step|]. destruct Hr as [(S' & Hsl2) He].
  apply (IH S'); [exact Hsl2|done|]. rewrite Forall_forall in Hb, Hok |- *. intros w Hw. specialize (Hb w Hw). destruct (Hok w Hw) as (? & _).
  unfold area_before in Hb. lia.
Qed.

(** ** One process *)
Lemma returns_leave_mm mm done rest S ls : slot_at mm done rest S [] None (lc_scan ls) → returns (leave_mm mm) ls.
Proof.
  intros [Hsl _]. unfold leave_mm. apply returns_on_scan. unfold returns. do 2 wp_step.
  eapply wp_call; [|apply pwp_true|].
  { eapply returns_remove_trailing; [apply _|exact Hul|exact (sl_inv _ _ _ _ _ _ _ _ _ _ Hsl)|by eapply in_slot_owns]. }
  intros [] s1 _. unfold set_ahead. do 4 wp_step. destruct (_ =? 0); by wp_steps.
Qed.

Lemma wp_scan_slot mm done rest S ls :
  slot_at mm done rest S [] None (lc_scan ls) → wp (scan_slot page_struct mm) ls (λ r, passed_item (mjoin r)).
Proof.
  intros [Hsl Hal]. unfold scan_slot. apply wp_scan_step; [apply returns_on_host, returns_interfere|].
  eapply in_slot_interfere; [exact Hsl|]. intros h1 Hsl1. do 2 wp_step. wp_step.
  apply (wp_mono _ _ (λ r ls', at_page h0 q mm done rest (mjoin r) (lc_scan ls') ∧ passed_item (mjoin r) ls')); cycle 1.
  { intros [res|] ls1 [Hr Hp]; [by wp_step|]. destruct Hr as (S' & Hr).
    eapply wp_call; [by eapply returns_leave_mm|apply pwp_true|]. intros [] ls2 _. by wp_step. }
  destruct (ksm_test_exit _ mm).
  { wp_step. apply wp_on_scan. unfold cursor_to_head. do 2 wp_step. split; [exists S; apply slot_at_head; by split|done]. }
  assert (areas_ok (filter (λ v, scan_address (scan (lc_scan ls)) < vm_end v) (default [] (vmas (h_mem h1) !! mm)))) as Hok.
  { apply areas_ok_filter. exact (fm_ok _ _ _ _ (iv_from _ _ _ _ _ _ (sl_inv _ _ _ _ _ _ _ _ _ _ Hsl1))). }
  assert (Forall (λ v, scan_address (scan (lc_scan ls)) ≤ vm_end v) (filter (λ v, scan_address (scan (lc_scan ls)) < vm_end v) (default [] (vmas (h_mem h1) !! mm)))) as Hle.
  { apply Forall_forall. intros v [Hv _]%list_elem_of_filter. simpl in *. lia. }
  eapply wp_with; [by apply (wp_scan_areas mm done rest _ S)|by apply (pwp_scan_areas h0 q page_struct mm done rest _ S)|].
  intros [res|] ls1 Hp [_ Hr]; [by wp_step|]. destruct Hr as (S' & Hr). do 2 wp_step. wp_step.
  apply (wp_mono _ _ (λ _ ls', slot_at mm done rest S' [] None (lc_scan ls'))).
  { apply wp_whenM; intros _; [|done]. apply wp_on_scan. unfold cursor_to_head. wp_step. by apply slot_at_head. }
  intros [] ls2 Hr2. wp_step. split; [by exists S'|done].
Qed.
End slot.

(** ** A pass *)

(** The advisor's variables are of their types. *)
Definition paced (ls : local_st) : Prop := pace_ok (lc_pace ls).

Section pass.
#[local] Set Default Proof Using "Type*".
Context `{RbTree} `{Memcmp} `{MmFault}.
Context (page_struct : Z → Z) (ktime runtime : nat → Z).

Lemma paced_on_scan {A} (m : M scan_st A) : stays paced (on_scan m).
Proof. intros ls Hp. apply pwp_on_scan. by eapply pwp_mono; [apply pwp_true|]. Qed.
#[local] Hint Resolve paced_on_scan : stays.

Lemma paced_scan_area mm addrs : stays paced (scan_area page_struct mm addrs).
Proof. induction addrs; cbn [scan_area]; by stays. Qed.
#[local] Hint Resolve paced_scan_area : stays.
Lemma paced_scan_areas mm areas : stays paced (scan_areas page_struct mm areas).
Proof. induction areas; cbn [scan_areas]; by stays. Qed.
#[local] Hint Resolve paced_scan_areas : stays.
Lemma paced_scan_slot mm : stays paced (scan_slot page_struct mm).
Proof. unfold scan_slot, leave_mm. by stays. Qed.

Lemma start_scan_ok now p : pace_ok p → pace_ok (advisor_start_scan now p).
Proof. intros []. unfold advisor_start_scan. destruct (ksm_advisor p); by split. Qed.

Lemma stop_scan_ok now rt p : pace_ok p → ∃ p', advisor_stop_scan now rt p = Some p' ∧ pace_ok p'.
Proof.
  intros Hp. unfold advisor_stop_scan. destruct (ksm_advisor p); [by exists p|].
  destruct (scan_time_advisor_bounds now rt p Hp) as (? & p' & ? & ? & _). by exists p'.
Qed.

Lemma wp_end_pass ls (Q : unit → local_st → Prop) : paced ls → (∀ ls', paced ls' → Q tt ls') → wp (end_pass ktime runtime) ls Q.
Proof.
  intros Hp HQ. unfold end_pass. do 2 wp_step. wp_step.
  destruct (stop_scan_ok (ktime (length (env (lc_host ls)))) (runtime (length (env (lc_host ls)))) _ Hp) as (p & E & Hp').
  eapply wp_deref; [exact E|]. do 2 wp_step. apply wp_on_scan, wp_on_host. wp_step. by apply HQ.
Qed.

Context (h0 : host) (Hul : unlocked h0).

Lemma wp_begin_pass ls (Q : unit → local_st → Prop) :
  rested h0 (lc_scan ls) → paced ls →
  (∀ ls', cursor ls' = cursor ls → mm_slots (lc_scan ls') = mm_slots (lc_scan ls) →
     (∃ q, between h0 q [] (mm_slots (lc_scan ls')) (lc_scan ls')) → paced ls' → Q tt ls') →
  wp (begin_pass ktime) ls Q.
Proof using H h0 ktime Hul.
  intros Hr Hp HQ. apply wp_returns.
  { unfold returns, begin_pass. do 3 wp_step. do 2 wp_step. apply wp_on_scan, wp_on_host. eapply wp_mono; [apply returns_interfere|].
    intros [] h1 _. apply wp_on_scan, wp_on_host. by wp_step. }
  eapply pwp_mono; [apply (pwp_and _ _ _ (λ _, paced) (pwp_begin_pass h0 ktime ls (λ _ ls', cursor ls' = cursor ls ∧
    mm_slots (lc_scan ls') = mm_slots (lc_scan ls) ∧ ∃ q, between h0 q [] (mm_slots (lc_scan ls')) (lc_scan ls')) Hr ltac:(by intros)))|].
  - unfold begin_pass. do 3 pwp_step. do 2 pwp_step. apply pwp_on_scan. eapply pwp_mono; [apply pwp_true|]. intros [] s1 _.
    apply pwp_on_scan. eapply pwp_mono; [apply pwp_true|]. intros [] s2 _. by apply start_scan_ok.
  - intros [] ls' [(? & ? & ?) ?]. by apply HQ.
Qed.

Lemma wp_begin_mm q done mm l rest ls (Q : unit → local_st → Prop) :
  between h0 q done (MmSlot mm l :: rest) (lc_scan ls) →
  (∀ S s, slot_at h0 q mm done rest S [] None s → Q tt (with_local (λ _, s) (with_cursor (Some mm) ls))) →
  wp (begin_mm (MmSlot mm l)) ls Q.
Proof using Type.
  intros Hb HQ. unfold begin_mm. do 2 wp_step. apply wp_on_scan. wp_step. destruct (between_enter _ _ _ _ _ _ _ Hb) as (S & Hs).
  by apply (HQ S).
Qed.

Lemma wp_scan_slots q mm l rest done S ls :
  slot_at h0 q mm done rest S [] None (lc_scan ls) → paced ls →
  wp (scan_slots page_struct ktime runtime (MmSlot mm l :: rest)) ls (λ r ls', passed_item r ls' ∧ paced ls').
Proof using All.
  revert mm l done S ls. induction rest as [|[mm' l'] rest IH]; intros mm l done S ls Hsl Hp; cbn [scan_slots slot_mm];
    (eapply wp_with; [by eapply wp_scan_slot|exact (pwp_and _ _ _ _ (pwp_scan_slot h0 page_struct q mm done _ S ls Hsl) (paced_scan_slot mm ls Hp))|]);
    intros [res|] ls1 Hi [[_ Hr] Hp1]; try (by wp_step); destruct Hr as (done' & Hb).
  - do 2 wp_step. wp_step. apply wp_on_scan. wp_step. wp_step. apply wp_end_pass; [done|]. intros ls2 Hp2. by wp_step.
  - wp_step. eapply wp_begin_mm; [exact Hb|]. intros S' s Hsl'. by eapply (IH mm' l').
Qed.

Lemma wp_scan_get_next ls :
  found h0 None ls → paced ls → wp (scan_get_next_rmap_item page_struct ktime runtime) ls (λ r ls', passed_item r ls' ∧ paced ls').
Proof using All.
  intros Hf Hp. unfold scan_get_next_rmap_item. do 2 wp_step. destruct (mm_slots (lc_scan ls)) as [|[mm0 l0] slots] eqn:Es; [by wp_step|].
  wp_step. destruct Hf as [(q & mm & done & rest & Hc & (S & Hsl))|(_ & Hc & Hr)]; rewrite Hc.
  - do 3 wp_step. rewrite Hc. simpl default. destruct (sl_slots _ _ _ _ _ _ _ _ _ _ (proj1 Hsl)) as [l El].
    rewrite El, slots_from_at; [by eapply wp_scan_slots|].
    pose proof (so_nodup _ _ (sl_ok _ _ _ _ _ _ _ _ _ _ (proj1 Hsl))) as Hnd. by rewrite fmap_app in *.
  - wp_step. apply wp_begin_pass; [done|done|]. intros ls1 Ec Es1 (q & Hb) Hp1. rewrite Es1, Es in Hb.
    eapply wp_begin_mm; [exact Hb|]. intros S s Hsl. do 2 wp_step. simpl default.
    destruct (sl_slots _ _ _ _ _ _ _ _ _ _ (proj1 Hsl)) as [l El]. simpl in *. rewrite El. simpl. rewrite Z.eqb_refl. by eapply wp_scan_slots.
Qed.

(** ** One batch *)
Context (chains_prune : Z) (calc_checksum : page → Z) (zero_checksum : Z) (Hz : ksm_use_zero_pages (config h0) = false).

Lemma wp_scan_pages n npages ls :
  found h0 None ls → paced ls →
  wp (scan_pages chains_prune page_struct calc_checksum zero_checksum ktime runtime n npages) ls (λ _, paced).
Proof using All.
  revert npages ls. induction n as [|n IH]; intros npages ls Hf Hp; cbn [scan_pages]; [by wp_step|].
  eapply wp_with; [by apply wp_scan_get_next|by apply (pwp_scan_get_next h0)|]. intros [[i p]|] ls1 [Hi Hp1] Hf1; [|by wp_step].
  destruct Hf1 as [(q & mm & pre & rest & Hc & (S & Hsl & Hal))|(? & _)]; [|done].
  specialize (Hi i p eq_refl). pose proof (in_slot_held _ _ _ _ _ _ _ _ _ _ Hsl) as Hh.
  destruct (in_slot_facts h0 Hul q page_struct _ _ _ _ _ _ _ _ Hsl) as (Hs & Hu & Ht & _).
  apply wp_scan_step.
  { apply returns_on_host, returns_cmp_and_merge_page; [done..| |done|].
    - pose proof (iv_from _ _ _ _ _ _ (sl_inv _ _ _ _ _ _ _ _ _ _ Hsl)) as Hf'. by rewrite (fm_config _ _ _ _ Hf').
    - eapply owned_item; [by eapply in_slot_owns|set_solver]. }
  eapply in_slot_cmp_and_merge; [done|exact Hsl|]. intros h2 Hsl2.
  apply wp_scan_step.
  { apply returns_on_host, returns_put_page. destruct (in_slot_facts h0 Hul q page_struct _ _ _ _ _ _ _ _ Hsl2) as (_ & _ & _ & Hpp). apply Hpp. set_solver. }
  eapply in_slot_put_page; [exact Hsl2|]. intros h3 Hsl3.
  wp_step. eapply wp_mono; [apply IH; [left; exists q, mm, pre, rest; split; [done|by eexists]|done]|]. intros r ls' Hp'. by wp_step.
Qed.
End pass.

(** A batch returns, wherever the scan was. *)
Lemma wp_local_do_scan `{RbTree} `{Memcmp} `{MmFault} chains_prune page_struct calc_checksum zero_checksum ktime runtime n ls :
  paused ls → paced ls → ksm_use_zero_pages (config (lc_host ls)) = false →
  wp (local_do_scan chains_prune page_struct calc_checksum zero_checksum ktime runtime n) ls (λ r ls', paused ls' ∧ paced ls' ∧ 0 ≤ r ≤ Z.max 0 n).
Proof.
  intros Hpa Hp Hz.
  assert (wp (local_do_scan chains_prune page_struct calc_checksum zero_checksum ktime runtime n) ls (λ _, paced)) as Hw.
  { unfold local_do_scan. destruct Hpa as [Hf Hul]. wp_step. eapply wp_mono; [by apply (wp_scan_pages page_struct ktime runtime (lc_host ls))|].
    intros r ls1 Hp1. by wp_steps. }
  apply wp_returns; [by eapply returns_wp|]. eapply pwp_mono; [exact (pwp_and _ _ _ _ (wp_pwp _ _ _ Hw) (paused_do_scan _ _ _ _ _ _ n ls Hpa Hz))|].
  intros r ls' (? & ? & _ & ?). by split; [|split].
Qed.
