(* ===== verification/HostRoundReturns.v ===== *)
(** * HostRoundReturns: an iteration of the daemon comes to an end

    The release of the tables reaches no freed item and no missing page, what
    was registered can be unregistered, and [ksm_do_scan] as a whole stops
    only where an item cannot be allocated or the log asks for the impossible. *)
From S2P Require Import Prelude Wire HashPair Growable Shadow Scatter Store Server HostMem HostTree HostTreeInv HostMerge HostApply HostScan HostSafe HostTrack HostTrackApply HostAgree HostScanInv HostScanWalk HostScanMm HostScanRound HostScanIter HostStays HostReturns HostScanReturns HostReturnsApply.
Open Scope Z_scope.

(** ** The release *)
Section release.
Context `{RbTree} `{Memcmp} `{MmFault} (h0 : host) (L0 : mode).

Lemma returns_free_entry d n va p i h :
  is_Some (frames (h_mem h) !! p) → kitems (h_ksm h) !! i ≫= ki_page = Some p → returns (free_entries d n [(va, i)]) h.
Proof.
  intros [fr Hfr] Hp. unfold returns. cbn [free_entries]. destruct (kitems (h_ksm h) !! i) as [it|] eqn:Hi; [|done]. simpl in Hp.
  wp_step. eapply wp_get_kitem; [exact Hi|]. rewrite Hp. wp_step. wp_step. eapply wp_get_frame; [exact Hfr|].
  wp_step. apply (wp_mono _ _ (λ _ h1, h_ksm h1 = h_ksm h)).
  { destruct (PageKsm fr); [by wp_step|]. unfold put_page. by eapply wp_upd_frame. }
  intros [] h1 E. destruct d; simpl; [|by wp_steps]. eapply wp_upd_kitem; [by rewrite E|]. by wp_steps.
Qed.

Lemma returns_free_entries_cons d n x l h :
  returns (free_entries d n [x] ;; free_entries d n l) h → returns (free_entries d n (x :: l)) h.
Proof.
  destruct x as [va i]. cbn [free_entries]. unfold returns, wp, mbind, M_bind. destruct (get_kitem i h) as [[it h1]| |]; [|done..].
  match goal with |- context [match ki_page it with _ => _ end ?h'] => destruct (match ki_page it with _ => _ end h') as [[[] h2]| |] end; done.
Qed.

Lemma held_frames δ h p : from (no_items h0) δ [] h → p ∈ dom (frames (h_mem h0)) → is_Some (frames (h_mem h) !! p).
Proof. intros Hf Hp. apply elem_of_dom. by rewrite (fm_dom _ _ _ _ Hf). Qed.

Lemma returns_free_entries d n es δ h :
  holds h0 L0 (pages es ++ δ) h → NoDup es.*2 → paged h es → Forall (λ p, p ∈ dom (frames (h_mem h0))) (pages es) →
  returns (free_entries d n (xa_entry <$> es)) h.
Proof.
  revert δ h. induction es as [|e es IH]; intros δ h Hh Hnd Hp Hd; [done|].
  apply NoDup_cons in Hnd as [Hni Hnd]. apply Forall_cons in Hp as [He Hp]. apply Forall_cons in Hd as [Hd1 Hd].
  rewrite fmap_cons. apply returns_free_entries_cons. unfold returns.
  eapply wp_call; [eapply returns_free_entry; [by eapply held_frames; [apply Hh|]|exact He]|by apply (pwp_free_entry h0 L0); [exact Hh|]|].
  intros [] h1 Hf. eapply (IH (ksm_pages h [pte_kpfn e.1] ++ δ)); [|done| |done].
  - destruct Hf as (Hh1 & _). eapply holds_perm; [|exact Hh1]. rewrite !app_assoc. f_equiv. apply Permutation_app_comm.
  - eapply paged_freed; [exact Hf| |exact Hp]. intros i ->%list_elem_of_singleton. exact Hni.
Qed.

Lemma returns_destroy_metadata d c l regs T δ h :
  holds h0 L0 (all_pages T ++ δ) h → Forall2 (λ t sm, shadow_built sm t.2 ∧ ascending t.2) T l →
  NoDup (all_items T) → Forall (λ t, paged h t.2) T → Forall (λ p, p ∈ dom (frames (h_mem h0))) (all_pages T) →
  Forall2 (λ sm r, ∃ n, free_shadow_sgls sm r.1.1 = Ok n) l regs →
  returns (destroy_metadata d c l regs) h.
Proof.
  intros Hh HT. revert regs δ h Hh. induction HT as [|t sm T l [Hb Ha] HT IH]; intros regs δ h Hh Hnd Hp Hd Hr; cbn [destroy_metadata]; [done|].
  apply Forall2_cons_inv_l in Hr as (r & regs' & [n Hn] & Hr & ->).
  rewrite all_items_cons in *. rewrite all_pages_cons in *. apply NoDup_app in Hnd as (Hnd1 & Hdj & Hnd2). apply Forall_app in Hd as [Hd1 Hd].
  apply Forall_cons in Hp as [Ht Hp]. rewrite <- app_assoc in Hh. unfold returns.
  eapply wp_call; [|by apply (pwp_free_shadow_mm h0 L0 d _ _ sm t.2)|].
  - unfold free_shadow_mm. rewrite (sb_xa _ _ Hb), xa_order_list by exact Ha. unfold returns.
    wp_step. eapply wp_mono; [by eapply returns_free_entries|]. intros [] h1 _. wp_step. eapply wp_liftO; [exact Hn|]. by wp_steps.
  - intros [] h1 Hf. eapply (IH _ (ksm_pages h (pages t.2) ++ δ)); [|done| |done|done].
    + destruct Hf as (Hh1 & _). eapply holds_perm; [|exact Hh1]. rewrite !app_assoc. f_equiv. apply Permutation_app_comm.
    + by eapply paged_others.
Qed.
End release.

(** ** Where an iteration can stop *)
Definition scan_stops (w : string) : Prop :=
  out_of_items w ∨ w = "Already saturated node" ∨ w = "Failed to get ksm page in STABLE_MERGE" ∨ w = "Not a stable Item".

Lemma stop_of_stops e w : stop_of e w → scan_stops w.
Proof. unfold stop_of, scan_stops. destruct (log_type e); tauto. Qed.

Lemma names_listed_dom l h h' e : dom (frames (h_mem h')) = dom (frames (h_mem h)) → names_listed l h e → names_listed l h' e.
Proof. intros E. unfold names_listed. by rewrite E. Qed.

Lemma inv_room (calm : host → Prop) room room' h0 L0 δ s : room ≤ room' → scan_inv calm room h0 L0 δ s → scan_inv calm room' h0 L0 δ s.
Proof. intros Hr [I0 I1 I2 I3 I4 I5 I6]. split; try done. lia. Qed.

Lemma ends_on_host {A} E (m : M host A) s : ends E m (sc_host s) → ends E (on_host m) s.
Proof. unfold ends, ewp, on_host. by destruct (m (sc_host s)) as [[a h]| |]. Qed.

(** ** The error table *)

(** The error table is registered, with its scatterlists. *)
Definition retirable (s : scan_st) : Prop := ∃ t f, ksm_error_table (sc_host s) = Some t ∧
  et_registered t = tb_cnt (et_table t) ∧ error_sgts s = register_chunks f (error_pages (et_registered t)).

Lemma returns_retire s : retirable s → returns retire_error_table s.
Proof.
  intros (t & f & Ht & Hr & Hs). unfold returns, retire_error_table. do 2 wp_step. wp_step. apply (wp_deref _ t); [exact Ht|].
  wp_step. eapply wp_liftO; [unfold rdma_unregister_error_table; rewrite Hs; apply unregister_register_chunks|].
  wp_step. eapply wp_liftO; [unfold clear_error_table; by rewrite (proj2 (Z.eqb_eq _ _) Hr)|]. apply wp_on_host. by wp_step.
Qed.

Lemma pwp_retire_registered s : pwp retire_error_table s (λ _ s', registered s' = registered s).
Proof.
  unfold retire_error_table. do 3 pwp_step. pwp_step. pwp_step. apply pwp_liftO. intros _ _. pwp_step. apply pwp_liftO. intros t' _.
  apply pwp_on_host. by pwp_step.
Qed.

Lemma pwp_interfere_errors s : pwp (on_host interfere) s (λ _ s', registered s' = registered s ∧ (retirable s → retirable s')).
Proof.
  apply pwp_on_host. unfold pwp, interfere. destruct (env (sc_host s)) as [|f fs]; [done|]. by destruct (f _).
Qed.

Section scan.
Context `{RbTree} `{Memcmp} `{MmFault}.
Context (owner : Z → option Z) (mr_of : list (list sg_entry) → desc_entry) (map_mr : list (Z * Z) → desc_entry).
Context (array_page : Z → Z) (et_mr_of : list (list sg_entry) → error_table_desc_entry).

Lemma pwp_prepare_retirable s :
  pwp (prepare_metadata owner mr_of map_mr array_page et_mr_of) s (λ any s', any = true → retirable s').
Proof.
  unfold prepare_metadata. do 2 pwp_step. pwp_step. eapply pwp_mono; [apply pwp_true|]. intros [slots any] s1 _. do 2 pwp_step. pwp_step.
  apply (pwp_mono _ _ (λ _ s2, any = true → retirable s2)); [|by intros; pwp_steps].
  destruct any; [|by pwp_step]. unfold register_tables. do 2 pwp_step. pwp_step. eapply pwp_mono; [apply pwp_true|]. intros regs s2 _.
  do 2 pwp_step. destruct (rdma_register_error_table _ _ _) as [[tbl' sgts] ds] eqn:E. unfold rdma_register_error_table in E. injection E as <- <- _.
  pwp_step. apply pwp_on_host. do 2 pwp_step. intros _. by eexists _, _.
Qed.

(** ** The iteration *)
Context (serve : list shadow_mm → option error_table → option (list ksm_event_log)).
Abbreviation ksm_do_scan := (ksm_do_scan owner mr_of map_mr array_page et_mr_of serve).

(** The log names pages of the tables it was made from. *)
Definition names_only (h : host) : Prop := ∀ l t L, serve l t = Some L → Forall (names_listed l h) L.

Lemma ends_apply_log h0 T δ s L :
  scan_inv (λ _, True) (2 ^ 31) h0 (Served []) (all_pages T ++ δ) s → tables_of owner (items s) T (shadow_pt_list s) → NoDup T.*1 →
  unlocked h0 → ksm_use_zero_pages (config h0) = false → Forall two_pages L → Forall (names_listed (shadow_pt_list s) h0) L →
  ends scan_stops (on_host (apply_result (shadow_pt_list s) L)) s.
Proof.
  intros [I0 I1 If I2 I3 I4 I5] HT Hnd Hu Hz HL HN. apply ends_on_host.
  assert (Forall (two_items (shadow_pt_list s)) L) as H2.
  { eapply Forall_impl; [exact HL|]. intros e. by eapply two_pages_items, scan_tables_injective. }
  apply (ends_mono (λ w, ∃ e, e ∈ L ∧ stop_of e w)); [|intros w (e & _ & Hw); by eapply stop_of_stops].
  eapply (ends_apply_result (Served []) ltac:(done) _ (sc_host s)); [by eapply scan_scanned|exact (unlocked_from (no_items h0) _ _ Hu I1)| | |exact H2|apply from_refl; by eapply from_safe|exact I2].
  - by rewrite (fm_config _ _ _ _ I1).
  - eapply Forall_impl; [exact HN|]. intros e. apply names_listed_dom. exact (fm_dom _ _ _ _ I1).
Qed.

Lemma registered_frees h s :
  Forall2 (λ sm r, register_shadow_mm (kernel_view h) mr_of map_mr sm = Ok r) (shadow_pt_list s) (registered s) →
  Forall2 (λ sm r, ∃ n, free_shadow_sgls sm r.1.1 = Ok n) (shadow_pt_list s) (registered s).
Proof.
  intros Hr. eapply Forall2_impl; [exact Hr|]. intros sm r. unfold register_shadow_mm. destruct (next_pages _ _ _ _ _); [|done..].
  do 2 (case_match; [done|]). intros [= <-]. simpl. eexists. apply unregister_register_chunks.
Qed.

Lemma ends_ksm_do_scan h0 L0 s :
  with_server L0 = true → scan_inv (λ _, True) (2 ^ 23) h0 L0 [] s → slots_ok s (mm_slots s) → shadow_pt_list s = [] → unlocked h0 →
  Z.of_nat (length (mm_slots s)) ≤ MAX_MM_DESCS → ksm_use_zero_pages (config h0) = false →
  (∀ l t L, serve l t = Some L → Forall two_pages L) → names_only h0 → ends scan_stops ksm_do_scan s.
Proof.
  intros HL0 Hi0 Hs Hl Hu Hn Hz Htwo Hnames. pose proof (inv_room _ (2 ^ 23) (2 ^ 31) _ _ _ _ ltac:(lia) Hi0) as Hi.
  unfold HostScan.ksm_do_scan. eapply ends_call.
  { eapply (ends_prepare_metadata (λ _, True) h0 L0 False h0); [done..|by left; left]. }
  { apply pwp_and; [|apply pwp_prepare_retirable].
    by apply (pwp_prepare_metadata (λ _, True) (2 ^ 31) h0 L0 False h0 ltac:(done) owner mr_of map_mr array_page et_mr_of []). }
  intros any s1 ((T & [M1 M2 M3 M4 M5 M6] & _) & Hret). destruct any; simpl negb; cbv iota; [|done].
  specialize (M6 eq_refl). specialize (Hret eq_refl). apply registered_frees in M6.
  assert (Hnd : NoDup T.*1) by (rewrite M4, reverse_Permutation; apply M2).
  apply ends_bind. wp_step.
  eapply ends_call with (P := λ _ s2, (scan_inv (λ _, True) (2 ^ 31) h0 L0 (all_pages T ++ []) s2 ∧ items s2 = items s1 ∧
    shadow_pt_list s2 = shadow_pt_list s1) ∧ registered s2 = registered s1 ∧ (retirable s1 → retirable s2)).
  { apply ends_returns, wp_on_host. eapply wp_mono; [apply returns_interfere|done]. }
  { apply pwp_and; [|apply pwp_interfere_errors]. eapply inv_interfere; [apply _|exact M1|]. intros h2 Hi2 E2. split_and!; [done| |done]. simpl. by rewrite E2. }
  intros [] s2 ((Hi2 & E2 & F2) & G2 & Hret2). set (res := serve _ _).
  eapply ends_call with (P := λ _ s3, (scan_inv (λ _, True) (2 ^ 31) h0 (Served []) (all_pages T ++ []) s3 ∧ items s3 = items s1 ∧
    shadow_pt_list s3 = shadow_pt_list s1) ∧ registered s3 = registered s1).
  { apply ends_returns, returns_retire; by apply Hret2. }
  { apply pwp_and; [|rewrite <- G2; apply pwp_retire_registered]. eapply pwp_retire; [exact HL0|exact Hi2|]. intros s3 Hi3 E3 _ F3 _.
    split_and!; [done|by rewrite E3|by rewrite F3]. }
  intros [] s3 ((Hi3 & E3 & F3) & G3). assert (HT3 : tables_of owner (items s3) T (shadow_pt_list s3)) by (rewrite E3, F3; exact M3).
  eapply ends_call with (P := λ _ s4, ∃ h4 L1, s4 = with_host (λ _, h4) s3 ∧ holds h0 L1 (all_pages T ++ []) h4 ∧ items_of_ksm (h_ksm h4) = items s3).
  { destruct res as [L|] eqn:Hres; [|done]. eapply ends_call; [|apply pwp_true|done]. rewrite <- F3.
    eapply ends_apply_log; [exact Hi3|exact HT3|exact Hnd|done|done|by eapply Htwo|]. rewrite F3. by eapply Hnames. }
  { destruct res as [L|] eqn:Hres; [pwp_step|].
    - rewrite <- F3. eapply pwp_apply_log; [exact Hi3|exact HT3|exact Hnd|by eapply Htwo|]. intros c h' (L1 & _ & Hh) E. pwp_step. by exists h', L1.
    - apply pwp_on_host. unfold disconnect. do 3 pwp_step. exists (with_ksm left_alone (sc_host s3)), (Alone false). split_and!; [done|split|done].
      + apply from_any_items, Hi3.
      + eexists. eapply track_alone, Hi3. done. }
  intros [] s4 (h4 & L1 & -> & Hh & E4). apply ends_returns. unfold returns. do 2 wp_step. wp_step. apply wp_on_host. simpl.
  apply (wp_mono _ _ (λ _ _, True)); [|intros; wp_steps; apply wp_on_host; unfold next_iteration; by wp_steps].
  assert (HT4 : tables_of owner (items_of_ksm (h_ksm h4)) T (shadow_pt_list s3)) by (by rewrite E4).
  eapply (returns_destroy_metadata h0 L1 _ _ _ _ T []); [exact Hh| |exact (tables_of_nodup _ _ _ _ HT4 Hnd)| | |].
  - eapply Forall2_impl; [exact HT4|]. intros t sm Ht. split; [apply Ht|exact (table_of_ascending _ _ _ _ _ Ht)].
  - apply Forall_forall. intros t Ht. apply Forall_forall. intros e He.
    destruct (item_page _ _ _ _ _ (tables_of_item _ _ _ _ _ _ HT4 Ht He)) as (it & -> & E & _). exact E.
  - pose proof (iv_frames _ _ _ _ _ _ Hi3) as Hd. by apply Forall_app in Hd as [Hd _].
  - by rewrite F3, G3.
Qed.
End scan.
