(* ===== verification/HostSteps.v ===== *)
(** * HostSteps: the daemon as a state machine

    The steps are the iterations of [ksm_scan_thread], with the server or
    without it, the calls with which processes advise, fork and exit, the writes
    to [run], and the machine in between.  Without a server a step is a number
    of whole passes, each a sequence of batches; processes enter and leave the
    list between two passes only.  The state is [ksm_run] and the state of the scan. *)
From S2P Require Import Prelude Wire HashPair Growable Shadow Scatter Server HostMem HostTree HostMerge HostApply HostScan HostDaemon HostSafe HostScanInv HostScanMm HostScanIter HostUnmerge Advisor LocalScan LocalScanPass.
Open Scope Z_scope.

Section steps.
Context `{RbTree} `{Memcmp} `{MmFault}.
Context (owner : Z → option Z) (mr_of : list (list sg_entry) → desc_entry) (map_mr : list (Z * Z) → desc_entry).
Context (array_page : Z → Z) (et_mr_of : list (list sg_entry) → error_table_desc_entry).
Context (chains_prune : Z) (page_struct : Z → Z) (calc_checksum : page → Z) (zero_checksum : Z) (ktime runtime : nat → Z).
Abbreviation local_step := (local_step chains_prune page_struct calc_checksum zero_checksum ktime runtime).

(** What the server sends back: a log whose unstable merges name two pages. *)
Definition honest (serve : list shadow_mm → option error_table → option (list ksm_event_log)) : Prop :=
  ∀ l t L, serve l t = Some L → Forall two_pages L.

Inductive daemon_step : Z * scan_st → Z * scan_st → Prop :=
| step_iteration serve ok run s s' :
    honest serve → ksmd_should_run run s = true → is_ksm_offload (h_ksm (sc_host s)) = true →
    ksm_do_scan owner mr_of map_mr array_page et_mr_of serve s = Ok (ok, s') → daemon_step (run, s) (run, s')
| step_local run ls ls' :
    ksmd_should_run run (lc_scan ls) = true →
    is_ksm_offload (h_ksm (lc_host ls)) = false → ksm_use_zero_pages (config (lc_host ls)) = false →
    cursor ls = None → cursor ls' = None → rtc local_step ls ls' → daemon_step (run, lc_scan ls) (run, lc_scan ls')
| step_madvise compatible allocated signals mm v a e ad flag r run s s' :
    ksm_madvise compatible allocated signals mm v a e ad flag s = Ok (r, s') → daemon_step (run, s) (run, s')
| step_fork allocated mm r run s s' :
    mm ∉ vm_mergeable_mms s → __ksm_enter allocated mm s = Ok (r, s') → daemon_step (run, s) (run, s')
| step_exit mm run s s' :
    __ksm_exit mm s = Ok (tt, s') → daemon_step (run, s) (run, s')
| step_run_store signals flags run run' err s s' :
    run_store signals run flags s = Ok ((run', err), s') → daemon_step (run, s) (run', s')
| step_machine run s s' :
    on_host interfere s = Ok (tt, s') → daemon_step (run, s) (run, s').

Lemma pwp_run {S A} (m : M S A) s a s' (Q : A → S → Prop) : pwp m s Q → m s = Ok (a, s') → Q a s'.
Proof. unfold pwp. intros HQ E. by rewrite E in HQ. Qed.

Lemma ready_step x y : daemon_step x y → ready x.2 → ready y.2.
Proof.
  destruct 1 as [serve ok run s s' Hh _ Hoff E|run ls ls' _ Hoff Hz Hc Hc' Hst|compatible allocated signals mm v a e ad flag r run s s' E|allocated mm r run s s' Hm E
                |mm run s s' E|signals flags run run' err s s' E|run s s' E]; simpl; intros Hr.
  - by apply (pwp_run _ _ _ _ _ (pwp_ksm_do_scan (sc_host s) owner mr_of map_mr array_page et_mr_of serve s Hr Hoff eq_refl Hh) E).
  - assert (paused ls) as Hp by (apply paused_at_head; [done..|exact Hoff]).
    apply rested_paused; [|done]. by eapply paused_steps.
  - exact (pwp_run _ _ _ _ _ (ready_madvise compatible allocated signals mm v a e ad flag s Hr) E).
  - exact (pwp_run _ _ _ _ _ (ready_enter allocated mm s Hr Hm) E).
  - exact (pwp_run _ _ _ _ _ (ready_exit mm s Hr) E).
  - by apply (pwp_run _ _ _ _ _ (ready_run_store signals run flags s Hr) E).
  - exact (pwp_run _ _ _ _ _ (ready_interfere s Hr) E).
Qed.

Lemma ready_steps x y : rtc daemon_step x y → ready x.2 → ready y.2.
Proof. induction 1 as [|x y z Hxy Hyz IH]; intros Hr; [done|]. by eapply IH, ready_step. Qed.
End steps.
