(* ===== verification/Examples.v ===== *)
(** * Examples: concrete inputs

    A toy hash, a host that serves two processes with one identical page
    each, and the server after one and two rounds with it: the theorems are
    instantiated here. *)
From S2P Require Import Prelude Wire HashPair Store LogTable Metadata Merge MetadataInv MetadataSpec MergeSpec PruneSpec Scan ScanSpec ErrorHandling Server.
Open Scope Z_scope.

#[export] Instance toy_hash : XXHash := {|
  XXH3_128bits_withSeed l seed := XXH128 (1 + foldr Z.add 0 l) seed;
  XXH64 l seed := foldr (λ b acc, b + 256 * acc) seed l |}.

(** Frames 10 and 11 have the same content. *)
Definition toy_page : page := [7].
Definition toy_hash_of (p : Z) : hash_pair := page_hash_pair toy_page.
Definition toy_pf (k : item_key) : Z := if k.1 =? 1 then 10 else 11.

Definition toy_pte (mm : Z) : shadow_pte := ShadowPte 4096 (toy_pf (mm, 4096)).

#[export] Instance toy_reads : RdmaReads := {|
  read_map d := Some [toy_pte (ptd_mm_id d)];
  read_pages _ n := Some (take (Z.to_nat n) [toy_page]) |}.
#[export] Instance toy_errors : ErrorReads := {| read_log_pages _ _ := None |}.

(** A [memcmp]: the difference of the first bytes that differ. *)
Fixpoint toy_memcmp (a b : list Z) : Z :=
  match a, b with
  | x :: a', y :: b' => match x ?= y with Lt => -1 | Gt => 1 | Eq => toy_memcmp a' b' end
  | _, _ => 0
  end.

#[export] Program Instance toy_Memcmp : Memcmp := {| memcmp := toy_memcmp |}.
Next Obligation.
  induction a as [|x a IH]; intros [|y b] Hl; simpl in *; try done.
  destruct (Z.compare_spec x y) as [->|Hxy|Hxy]; [rewrite IH by lia; split; congruence|split; [lia|intros [= ??]; lia]..].
Qed.
Next Obligation.
  induction a as [|x a IH]; intros [|y b]; simpl; try lia. destruct (x ?= y); [apply IH|lia..].
Qed.

Definition toy_desc (mm : Z) : shadow_pt_descriptor := ShadowPtDescriptor mm 0 0 [DescEntry 0 0] 1.
Definition toy_md : metadata_descriptor :=
  MetadataDescriptor 2 [toy_desc 1; toy_desc 2] (ErrorTableDescriptor 0 0 []).
Definition toy_work : list table_work :=
  (λ mm, TableWork (toy_desc mm) [toy_pte mm] [toy_page]) <$> [1; 2].

Definition no_pre (mm idx : Z) : option hash_pair := None.

Definition state_after {A} (o : outcome (A * server_st)) (s : server_st) : server_st :=
  match o with Ok (_, s') => s' | _ => s end.

Lemma state_after_wp {A} (m : M server_st A) s (P : server_st → Prop) :
  wp m s (λ _ s', P s') → P (state_after (m s) s).
Proof. unfold state_after, wp. by destruct (m s) as [[? ?]| |]. Qed.

Definition round (first : bool) (s : server_st) : server_st :=
  state_after (serve_round cmp_and_merge_one no_pre 0 0 verbs_ok first toy_md s) s.

Definition demo0 : server_st := server_init true.
Definition demo1 : server_st := Eval vm_compute in round true demo0.
Definition demo2 : server_st := Eval vm_compute in round false demo1.

(** The log of the second round: the two pages share frame 11. *)
Definition toy_merge : ksm_event_log := KsmEventLog DPU_UNSTABLE_MERGE 4096 4096 2 1.

Lemma toy_work_readable : Forall (λ w, readable (tw_desc w) (tw_map w) (tw_pages w)) toy_work.
Proof.
  repeat constructor; try done; simpl.
  all: first [by eexists | eexists; repeat split; done].
Qed.

Lemma toy_batch_ok : Forall (entry_ok toy_pf toy_hash_of) (batch_of no_pre toy_work).
Proof. repeat constructor; vm_compute; congruence. Qed.

Lemma toy_batch_NoDup : NoDup (se_key <$> batch_of no_pre toy_work).
Proof. apply (bool_decide_unpack _). by vm_compute. Qed.

Lemma toy_served : served toy_pf toy_hash_of no_pre toy_md toy_work.
Proof. split; [done|apply toy_work_readable|apply toy_batch_NoDup|apply toy_batch_ok|done]. Qed.

Lemma idle_demo0 : idle demo0 [] ∧ frames_ok toy_hash_of (metadata demo0).
Proof.
  split; [split; simpl|done].
  - apply metadata_ok_empty.
  - by split.
  - unfold no_oom. simpl. set_solver.
  - done.
Qed.

Lemma idle_round first s L :
  idle s L → frames_ok toy_hash_of (metadata s) → (first = true → L = []) →
  Z.of_nat (size (rmap_tree (metadata s))) < 100 →
  idle (round first s) (log_list (log_table (round first s))) ∧ frames_ok toy_hash_of (metadata (round first s)).
Proof.
  intros Hid Hf Hfirst Hsz.
  assert (wp (serve_round cmp_and_merge_one no_pre 0 0 verbs_ok first toy_md) s (λ _ s',
    idle s' (log_list (log_table s')) ∧ frames_ok toy_hash_of (metadata s'))) as H.
  { eapply (wp_serve_round toy_pf toy_hash_of no_pre 0 0 s L first toy_md toy_work);
      [done|done|done|done|done|apply toy_work_readable|apply toy_batch_NoDup|apply toy_batch_ok|done| |].
    - change (length (batch_of no_pre toy_work)) with 2%nat. lia.
    - intros s' n1 n2 H1 H2 _ _ _ _ _ _. split; [|done].
      pose proof (log_repr_list _ _ (id_log _ _ H1)) as ->. exact H1. }
  unfold round, state_after, wp in *. by destruct (serve_round _ _ _ _ _ _ _ s) as [[? ?]| |].
Qed.

Lemma idle_demo1 : idle demo1 [] ∧ frames_ok toy_hash_of (metadata demo1).
Proof.
  destruct (idle_round true demo0 [] (proj1 idle_demo0) (proj2 idle_demo0)) as [H1 H2]; [done|done|].
  replace demo1 with (round true demo0) by (by vm_compute). split; [|exact H2].
  replace ([] : list ksm_event_log) with (log_list (log_table (round true demo0))) by (by vm_compute). exact H1.
Qed.

Lemma idle_demo2 : idle demo2 [toy_merge] ∧ frames_ok toy_hash_of (metadata demo2).
Proof.
  destruct (idle_round false demo1 [] (proj1 idle_demo1) (proj2 idle_demo1)) as [H1 H2]; [done|done|].
  replace demo2 with (round false demo1) by (by vm_compute). split; [|exact H2].
  replace [toy_merge] with (log_list (log_table (round false demo1))) by (by vm_compute). exact H1.
Qed.

(** Four processes, two contents: frames 10, 11 and frames 20, 21. *)
Definition two_hash_of (p : Z) : hash_pair := page_hash_pair (if p <? 20 then [7] else [9]).
Definition two_pf (k : item_key) : Z := match k.1 with 1 => 10 | 2 => 11 | 3 => 20 | _ => 21 end.
Definition two_entry (mm : Z) : scan_entry :=
  ScanEntry mm (ShadowPte 4096 (two_pf (mm, 4096))) None (if two_pf (mm, 4096) <? 20 then [7] else [9]).
Definition two_batch : list scan_entry := two_entry <$> [1; 2; 3; 4].

Definition two_pass (s : server_st) : server_st :=
  state_after (for_each (scan_page cmp_and_merge_one) two_batch s) s.
Definition two1 : server_st := Eval vm_compute in two_pass demo0.
Definition two2 : server_st := Eval vm_compute in two_pass two1.

Lemma two_pass_inv s L :
  pass_inv two_pf two_hash_of s L [] s → Z.of_nat (length L) < 100 →
  pass_inv two_pf two_hash_of s L two_batch (two_pass s).
Proof.
  intros Hs HL. assert (wp (for_each (scan_page cmp_and_merge_one) two_batch) s
    (λ _ s', pass_inv two_pf two_hash_of s L two_batch s')) as H.
  { eapply (wp_scan_batch two_pf two_hash_of s L [] two_batch s); [done| | | |done].
    - apply (bool_decide_unpack _). by vm_compute.
    - repeat constructor; vm_compute; congruence.
    - change (length ([] ++ two_batch)) with 4%nat. lia. }
  unfold two_pass, state_after, wp in *. by destruct (for_each _ _ s) as [[? ?]| |].
Qed.

Lemma none_unstable (m : ksm_metadata) :
  bool_decide (map_Forall (λ _ it, state it ≠ Unstable) (items m)) = true →
  ∀ i it, items m !! i = Some it → state it ≠ Unstable.
Proof. intros H%bool_decide_eq_true. exact H. Qed.

Lemma two1_start : pass_inv two_pf two_hash_of two1 [] [] two1.
Proof.
  assert (pass_inv two_pf two_hash_of demo0 [] [] demo0) as H0.
  { destruct idle_demo0 as [[I1 I2 I3 I4] _]. apply pass_inv_start; done. }
  pose proof (two_pass_inv _ _ H0 eq_refl) as H1.
  replace two1 with (two_pass demo0) by (by vm_compute). destruct H1 as [P1 P2 (new & P3 & _) _ _ P6 _ _ _ _ _].
  apply pass_inv_start; [exact P1|exact P2| |exact P6|].
  - replace new with ([] : list ksm_event_log) in P3; [exact P3|].
    pose proof (log_repr_list _ _ P3) as E. vm_compute in E. exact E.
  - apply none_unstable. by vm_compute.
Qed.

Lemma two2_ok : metadata_ok (metadata two2) ∧ frames_ok two_hash_of (metadata two2) ∧ no_oom two2.
Proof.
  pose proof (two_pass_inv _ _ two1_start eq_refl) as H2.
  replace two2 with (two_pass two1) by (by vm_compute).
  destruct H2 as [P1 P2 _ _ _ P6 _ _ _ _ _]. exact (conj P1 (conj P6 P2)).
Qed.
