(* ===== verification/HostExact.v ===== *)
(** * HostExact: merging one page, step by step

    On a quiet machine ([env] empty) the outcome of a stable merge is decided
    by the page: merged, refused because somebody else holds a reference, or
    refused because the contents differ. *)
From S2P Require Import Prelude Wire HashPair Growable Shadow Server HostMem HostTree HostTreeInv HostMerge HostApply HostStays HostTrack HostTrackLink HostTrackApply.
Open Scope Z_scope.

(** ** Primitive steps *)
Section steps.
Context (h : host).

Lemma wp_shadow l mm va i (Q : option loc → host → Prop) :
  shadow_item l mm va = Some i → Q (Some i) h → wp (lookup_shadow l mm va) h Q.
Proof.
  unfold shadow_item, lookup_shadow, wp, mbind, M_bind, deref. destruct (get_shadow_mm l mm) as [sm|]; [|done].
  simpl. by intros ->.
Qed.

Lemma wp_report_ok tag e t L (Q : unit → host → Prop) :
  ksm_error_table h = Some t → log_tbl_repr (et_table t) L → false ∉ kallocs h →
  (∀ t' a, log_tbl_repr (et_table t') (L ++ [retag tag e]) → Q tt (with_errors (Some t') a h)) → wp (report tag e) h Q.
Proof.
  intros Ht HL Ha HQ. unfold report, wp. rewrite Ht.
  assert (wp (insert_error_log (Some t) tag e) (kallocs h) (λ r a, match r.2 with
    Some t' => log_tbl_repr (et_table t') (L ++ [retag tag e]) | None => False end)) as Hw.
  { by eapply wp_insert_error_log. }
  unfold wp in Hw. destruct (insert_error_log (Some t) tag e (kallocs h)) as [[[x t'] a]| |]; [|done..].
  simpl in Hw. destruct t' as [t'|]; [|done]. by apply HQ.
Qed.
End steps.

(** One step of a run on known data. *)
Ltac known := simpl; look; first [eassumption|reflexivity|done].
Ltac exact_step :=
  lazymatch goal with
  | |- wp (mbind _ _) _ _ => apply wp_bind
  | |- wp (mret _) _ _ => apply wp_ret
  | |- wp get _ _ => apply wp_get
  | |- wp (modify _) _ _ => apply wp_modify
  | |- wp (halt_if _ _) _ _ => apply wp_halt_if; [solve [known]|]
  | |- wp (deref _ _) _ _ => eapply wp_deref; [solve [known]|]
  | |- wp (get_frame _) _ _ => eapply wp_get_frame; [solve [known]|]
  | |- wp (upd_frame _ _) _ _ => eapply wp_upd_frame; [solve [known]|]
  | |- wp (get_kitem _) _ _ => eapply wp_get_kitem; [solve [known]|]
  | |- wp (upd_kitem _ _) _ _ => eapply wp_upd_kitem; [solve [known]|]
  | |- wp (get_knode _) _ _ => eapply wp_get_knode; [solve [known]|]
  | |- wp (upd_knode _ _) _ _ => eapply wp_upd_knode; [solve [known]|]
  | |- wp interfere _ _ => apply wp_interfere_quiet; [done|]
  end; cbv beta.
Ltac exact_steps := repeat exact_step.

Section merge.
Context `{RbTree} `{Memcmp} `{MmFault}.

Lemma wp_get_ksm_page_quiet n nd p fr h (Q : gotten → host → Prop) :
  env h = [] → knodes (h_ksm h) !! n = Some nd → kn_kpfn nd = p → frames (h_mem h) !! p = Some fr →
  fr_mapping fr = MapKsm (Some n) → page_count fr ≠ 0 →
  Q (Got p) (with_mem (on_frames (<[p := add_kref 1 fr]>)) h) → wp (get_ksm_page n GET_KSM_PAGE_NOLOCK) h Q.
Proof.
  intros He Hn <- Hp Hm Hc HQ. unfold get_ksm_page. do 4 exact_step. assert (is_expected n fr = true) as Hx by by apply bool_decide_eq_true.
  rewrite Hx. simpl. do 4 exact_step. apply Z.eqb_neq in Hc. rewrite Hc. unfold get_page. do 2 exact_step. rewrite Hx. simpl.
  exact_step. done.
Qed.

Lemma wp_remove_unlisted i it h (Q : unit → host → Prop) :
  kitems (h_ksm h) !! i = Some it → has_flag STABLE_FLAG (ki_address it) = false → has_flag UNSTABLE_FLAG (ki_address it) = false →
  Q tt h → wp (remove_rmap_item_from_tree i) h Q.
Proof.
  intros Hi Hs Hu HQ. unfold remove_rmap_item_from_tree. do 2 exact_step. rewrite Hs, Hu. by exact_step.
Qed.

Definition protected_frame (e : pte) (fr : frame) : frame := (if pte_dirty e then set_dirty true else id) (set_excl false fr).

(** Nobody but the page tables, the swap cache and the daemon's scan holds
    it. *)
Definition only_mapped (fr : frame) : bool :=
  fr_mapcount fr + 1 + (if fr_swapcache fr then 1 else 0) =? page_count fr.

Lemma wp_write_protect_quiet mm v p a fr e h (Q : option pte → host → Prop) :
  frames (h_mem h) !! p = Some fr → page_address_in_vma fr v = Some a → fr_head fr = None →
  ptes (h_mem h) !! (mm, a) = Some e → pte_pfn e = p → pte_write e || pte_dirty e = true → fr_excl fr && fr_pinned fr = false →
  (only_mapped fr = true → Q (Some (protect e))
     (with_mem (on_ptes (<[(mm, a) := protect e]>)) (with_mem (on_frames (<[p := protected_frame e fr]>)) h))) →
  (only_mapped fr = false → ∀ f, Q None (with_hstats f h)) → wp (write_protect_page mm v p) h Q.
Proof.
  intros Hp Ha Hh He Hep Hw Hx HQ1 HQ2. unfold write_protect_page. do 2 exact_step. rewrite Ha. exact_step.
  apply wp_halt_if; [unfold PageTransCompound; by rewrite Hh|]. do 2 exact_step. rewrite He. cbv iota beta.
  rewrite Hep, Z.eqb_refl, Hw. simpl negb. simpl orb. cbv iota. unfold only_mapped in HQ1, HQ2.
  destruct (_ + _ + _ =? page_count fr); simpl; [|unfold count_fail; exact_steps; by apply HQ2].
  rewrite Hx. unfold set_pte. exact_steps. by apply HQ1.
Qed.

Lemma wp_replace_quiet mm v p q a fr qfr e h (Q : bool → host → Prop) :
  frames (h_mem h) !! p = Some fr → frames (h_mem h) !! q = Some qfr → p ≠ q → q ≠ zero_pfn (h_mem h) →
  page_address_in_vma fr v = Some a → ptes (h_mem h) !! (mm, a) = Some e →
  (∀ fr', fr_mapcount fr' = fr_mapcount fr - 1 → fr_kref fr' = fr_kref fr →
     Q true (with_mem (on_frames (<[p := fr']>)) (with_mem (on_ptes (<[(mm, a) := Pte q false false 0]>))
       (with_mem (on_frames (<[q := add_mapcount 1 qfr]>)) h)))) →
  wp (replace_page mm v p q e) h Q.
Proof.
  intros Hp Hq Hpq Hz Ha He HQ. unfold replace_page. do 2 exact_step. rewrite Ha. do 2 exact_step. rewrite He.
  rewrite bool_decide_true by done. simpl. exact_step. apply Z.eqb_neq in Hz. rewrite Hz. simpl. unfold set_pte. exact_steps.
  apply HQ; by destruct (page_mapped _).
Qed.

(** All but frames and page tables. *)
Record same_daemon (h h' : host) : Prop := SameDaemon {
  sd_ksm : h_ksm h' = h_ksm h;
  sd_env : env h' = env h;
  sd_errors : ksm_error_table h' = ksm_error_table h;
  sd_alloc : kallocs h' = kallocs h;
  sd_config : config h' = config h }.

(** A page that can be merged: anonymous, a base page, unlocked, mapped at [a]
    by the entry [e], writable or dirty. *)
Record candidate (h : host) (mm : Z) (v : vma) (p a : Z) (fr : frame) (e : pte) : Prop := Candidate {
  cd_frame : frames (h_mem h) !! p = Some fr;
  cd_anon : fr_mapping fr = MapAnon;
  cd_unlocked : fr_lock fr = Unlocked;
  cd_base : fr_head fr = None;
  cd_addr : page_address_in_vma fr v = Some a;
  cd_pte : ptes (h_mem h) !! (mm, a) = Some e;
  cd_pfn : pte_pfn e = p;
  cd_write : pte_write e || pte_dirty e = true;
  cd_unpinned : fr_excl fr && fr_pinned fr = false }.

(** Whether and how the entry changes. *)
Definition same_bytes (fr qfr : frame) : bool := memcmp (fr_content fr) (fr_content qfr) =? 0.
Definition entry_after (fr qfr : frame) (q : Z) (e : pte) : pte :=
  if only_mapped fr then if same_bytes fr qfr then Pte q false false 0 else protect e else e.

(** The page merged onto frame [q], or left. *)
Record merged_page (h : host) (mm p a q : Z) (fr qfr : frame) (e : pte) (ok : bool) (h' : host) : Prop := MergedPage {
  mp_daemon : same_daemon h h';
  mp_ok : ok = only_mapped fr && same_bytes fr qfr;
  mp_ptes : ptes (h_mem h') = <[(mm, a) := entry_after fr qfr q e]> (ptes (h_mem h));
  mp_frame : ∃ fr', frames (h_mem h') !! p = Some fr' ∧ fr_kref fr' = fr_kref fr ∧ fr_lock fr' = Unlocked ∧
    fr_mapcount fr' = fr_mapcount fr - (if ok then 1 else 0);
  mp_target : frames (h_mem h') !! q = Some (if ok then add_mapcount 1 qfr else qfr) }.

Lemma protected_same e fr :
  fr_content (protected_frame e fr) = fr_content fr ∧ fr_mapping (protected_frame e fr) = fr_mapping fr ∧
  fr_index (protected_frame e fr) = fr_index fr ∧ fr_root (protected_frame e fr) = fr_root fr ∧
  fr_mapcount (protected_frame e fr) = fr_mapcount fr ∧ fr_kref (protected_frame e fr) = fr_kref fr.
Proof. unfold protected_frame. by destruct (pte_dirty e). Qed.

Lemma wp_try_one_quiet mm v p q a fr qfr e h :
  env h = [] → candidate h mm v p a fr e → frames (h_mem h) !! q = Some qfr → p ≠ q → q ≠ zero_pfn (h_mem h) →
  wp (try_to_merge_one_page mm v p (Some q)) h (λ ok h', merged_page h mm p a q fr qfr e ok h').
Proof.
  intros Henv [Hp Hanon Hlock Hbase Ha He Hep Hw Hx] Hq Hpq Hz. unfold try_to_merge_one_page.
  rewrite bool_decide_false by congruence. exact_steps. unfold PageAnon at 1. rewrite Hanon. simpl negb. cbv iota.
  exact_steps. unfold trylock_page. exact_steps. rewrite bool_decide_true by done. exact_steps.
  simpl negb. cbv iota. exact_steps. unfold merge_locked. exact_steps.
  unfold PageTransCompound at 1. simpl fr_head. rewrite Hbase. rewrite bool_decide_false by (by intros ?). exact_steps. simpl negb. cbv iota.
  exact_steps.
  destruct (protected_same e (set_lock LockedByKsmd fr)) as (Ec & Em & Ei & Er & Emc & Ek).
  assert (page_address_in_vma (protected_frame e (set_lock LockedByKsmd fr)) v = Some a) as Ha'.
  { unfold page_address_in_vma. rewrite Em, Ei, Er. exact Ha. }
  set (pfr := protected_frame e (set_lock LockedByKsmd fr)) in *.
  eapply (wp_write_protect_quiet mm v p a (set_lock LockedByKsmd fr) e); simpl; look; try done; intros Hom;
    change (only_mapped (set_lock LockedByKsmd fr)) with (only_mapped fr) in Hom.
  - fold pfr. exact_steps. unfold pages_identical. exact_steps. rewrite Ec. simpl fr_content. fold (same_bytes fr qfr).
    destruct (same_bytes fr qfr) eqn:Hsb.
    + exact_steps. eapply (wp_replace_quiet mm v p q a pfr qfr (protect e)); simpl; look; try done. intros fr' Hmc Hkr.
      exact_steps. unfold unlock_page. exact_steps. split; simpl; look.
      * done.
      * by rewrite Hom, Hsb.
      * unfold entry_after. by rewrite Hom, Hsb, insert_insert_eq.
      * eexists. split_and!; [done|simpl; by rewrite Hkr, Ek|done|simpl; rewrite Hmc, Emc; done].
      * done.
    + unfold count_fail. exact_steps. unfold unlock_page. exact_steps. split; simpl; look.
      * done.
      * by rewrite Hom, Hsb.
      * unfold entry_after. by rewrite Hom, Hsb.
      * eexists. split_and!; [done|simpl; by rewrite Ek|done|simpl; rewrite Emc; simpl; lia].
      * done.
  - intros f. exact_steps. unfold unlock_page. exact_steps. split; simpl; look.
    + done.
    + by rewrite Hom.
    + unfold entry_after. rewrite Hom. by rewrite insert_id.
    + eexists. split_and!; [done|done|done|simpl; lia].
    + done.
Qed.

(** An entry [e] of the log for item [i], whose page [p] is a [candidate], and
    frame [q], the KSM page of node [n] with room. *)
Record stable_ready (l : list shadow_mm) (e : ksm_event_log) (h : host) (L0 : list ksm_event_log) (i n : loc) (p a : Z) (v : vma)
    (it : kitem) (nd : knode) (fr qfr : frame) (en : pte) : Prop := StableReady {
  sr_env : env h = [];
  sr_item : from_item_of l e = Some i;
  sr_kitem : kitems (h_ksm h) !! i = Some it;
  sr_unlisted : has_flag STABLE_FLAG (ki_address it) = false ∧ has_flag UNSTABLE_FLAG (ki_address it) = false;
  sr_page : ki_page it = Some p;
  sr_vma : find_mergeable_vma (h_mem h) (ki_mm it) (ki_address it) = Some v;
  sr_candidate : candidate h (ki_mm it) v p a fr en;
  sr_target : frames (h_mem h) !! sm_kpfn e = Some qfr;
  sr_target_ksm : fr_mapping qfr = MapKsm (Some n) ∧ fr_lock qfr = Unlocked ∧ page_count qfr ≠ 0;
  sr_not_zero : sm_kpfn e ≠ zero_pfn (h_mem h);
  sr_node : knodes (h_ksm h) !! n = Some nd;
  sr_node_page : kn_kpfn nd = sm_kpfn e;
  sr_room : 0 ≤ kn_len nd ∧ kn_len nd ≠ ksm_max_page_sharing (config h);
  sr_errors : ∃ t, ksm_error_table h = Some t ∧ log_tbl_repr (et_table t) L0;
  sr_alloc : false ∉ kallocs h }.

(** What the handler leaves. *)
Record stable_done (h : host) (L0 : list ksm_event_log) (e : ksm_event_log) (i n : loc) (p a : Z) (it : kitem) (nd : knode)
    (fr qfr : frame) (en : pte) (o : applied) (h' : host) : Prop := StableDone {
  st_outcome : o = if only_mapped fr && same_bytes fr qfr then StableMerged else FailedMerge;
  st_ptes : ptes (h_mem h') = <[(ki_mm it, a) := entry_after fr qfr (sm_kpfn e) en]> (ptes (h_mem h));
  st_nodes : knodes (h_ksm h') =
    if only_mapped fr && same_bytes fr qfr
    then <[n := set_hlist (s32 (kn_len nd + 1)) (i :: kn_hlist nd) nd]> (knodes (h_ksm h)) else knodes (h_ksm h);
  st_item : ∃ it', kitems (h_ksm h') !! i = Some it' ∧ ki_head it' = Some n ∧ stable_item it' = only_mapped fr && same_bytes fr qfr;
  st_errors : ∃ t, ksm_error_table h' = Some t ∧ log_tbl_repr (et_table t)
    (L0 ++ if only_mapped fr && same_bytes fr qfr then [] else [retag HOST_MERGE_ONE_FAILED e]);
  st_page : ∃ fr', frames (h_mem h') !! p = Some fr' ∧ fr_kref fr' = fr_kref fr ∧ fr_lock fr' = Unlocked ∧
    fr_mapcount fr' = fr_mapcount fr - (if only_mapped fr && same_bytes fr qfr then 1 else 0);
  st_target : ∃ qfr', frames (h_mem h') !! sm_kpfn e = Some qfr' ∧ fr_kref qfr' = fr_kref qfr ∧ fr_lock qfr' = Unlocked ∧
    fr_mapcount qfr' = fr_mapcount qfr + (if only_mapped fr && same_bytes fr qfr then 1 else 0) }.

Lemma drop_ref_same fr :
  fr_kref (drop_ref fr) = fr_kref fr - 1 ∧ fr_lock (drop_ref fr) = fr_lock fr ∧ fr_mapcount (drop_ref fr) = fr_mapcount fr.
Proof. unfold drop_ref. by destruct (_ =? 0). Qed.

Lemma find_on_frames f m mm a : find_mergeable_vma (on_frames f m) mm a = find_mergeable_vma m mm a.
Proof. done. Qed.

Lemma wp_apply_stable_merge_quiet l e h L0 i n p a v it nd fr qfr en :
  stable_ready l e h L0 i n p a v it nd fr qfr en →
  wp (apply_stable_merge l e) h (stable_done h L0 e i n p a it nd fr qfr en).
Proof.
  intros [Henv Hit Hi [Hs Hu] Hpg Hv Hc Hq (Hqm & Hql & Hqc) Hqz Hn Hnp [Hl0 Hl1] (t & Ht & HL) Hal].
  assert (p ≠ sm_kpfn e) as Hpq.
  { intros ->. pose proof (cd_frame _ _ _ _ _ _ _ Hc) as E. rewrite Hq in E. injection E as ->. pose proof (cd_anon _ _ _ _ _ _ _ Hc). congruence. }
  unfold apply_stable_merge. exact_step. eapply wp_shadow; [exact Hit|]. exact_steps.
  unfold page_stable_node at 1. rewrite Hqm. exact_steps. apply wp_halt_if; [by apply Z.eqb_neq|]. exact_steps.
  eapply wp_get_ksm_page_quiet; try done. exact_steps. eapply wp_remove_unlisted; try done. exact_steps.
  unfold try_to_merge_with_ksm_page. exact_steps. simpl h_mem. rewrite find_on_frames, Hv. exact_steps.
  set (h1 := with_mem (on_frames _) h).
  eapply wp_mono; [apply (wp_try_one_quiet (ki_mm it) v p (sm_kpfn e) a fr (add_kref 1 qfr) en h1)|]; try done.
  { destruct Hc. split; try done. unfold h1. simpl. by look. }
  { unfold h1. simpl. by look. }
  intros ok h2 [[Sk Se Sr Sa Scf] Hok Hpt (fr' & Hfp & Hkr & Hlk & Hmc) Htg].
  assert (kitems (h_ksm h2) !! i = Some it) as Hi2 by by rewrite Sk.
  assert (knodes (h_ksm h2) !! n = Some nd) as Hn2 by by rewrite Sk.
  change (same_bytes fr (add_kref 1 qfr)) with (same_bytes fr qfr) in Hok.
  change (entry_after fr (add_kref 1 qfr) (sm_kpfn e) en) with (entry_after fr qfr (sm_kpfn e) en) in Hpt.
  assert (env h2 = []) as He2 by by rewrite Se.
  destruct ok; simpl negb; cbv iota.
  - exact_steps. eapply wp_remove_unlisted; try done. unfold count. exact_steps. unfold lock_page. exact_steps.
    apply wp_halt_if; [by rewrite bool_decide_false by (simpl; congruence)|]. exact_steps.
    unfold page_stable_node at 1. simpl fr_mapping. rewrite Hqm. exact_steps. unfold stable_tree_append. exact_steps.
    apply wp_halt_if; [by apply Z.ltb_ge|]. exact_steps.
    destruct (bool_decide (kn_hlist nd = [])); unfold count, count_merging; exact_steps; unfold unlock_page; exact_steps;
      unfold put_page; exact_steps.
    all: split; rewrite <- ?Hok; simpl; look; rewrite ?Sk, ?Hpt.
    all: first [done | by eexists; split_and!; [done|done|apply stable_flag_set]
      | by exists t; rewrite Sr, app_nil_r | by exists fr' | idtac].
    all: destruct (drop_ref_same (set_lock Unlocked (set_lock LockedByKsmd (add_mapcount 1 (add_kref 1 qfr))))) as (E1 & E2 & E3);
      eexists; split_and!; [done|rewrite E1; simpl; lia|by rewrite E2|by rewrite E3].
  - exact_steps. eapply (wp_report_ok _ _ _ t L0); [simpl; rewrite Sr; exact Ht|exact HL|simpl; by rewrite Sa|]. intros t' al' Ht'. exact_steps. unfold put_page. exact_steps.
    split; rewrite <- ?Hok; simpl; look; rewrite ?Sk, ?Hpt; try done.
    + by eexists.
    + by exists t'.
    + by exists fr'.
    + destruct (drop_ref_same (add_kref 1 qfr)) as (E1 & E2 & E3). eexists; split_and!; [done|rewrite E1; simpl; lia|by rewrite E2|rewrite E3; simpl; lia].
Qed.
End merge.
