(* ===== verification/HostExamples.v ===== *)
(** * HostExamples: a concrete host

    Processes 1 and 2 have one page each, of the same content, in frames 10
    and 11; process 3 keeps writing to its own page while the daemon works.
    The log applied is the one the server of Examples sends after two rounds
    with this host. *)
From S2P Require Import Prelude Wire HashPair Store Metadata MetadataInv MetadataSpec MergeSpec Growable Shadow Server Examples HostMem HostTree HostTreeInv HostMerge HostApply HostSafe HostMergeSafe HostApplySafe HostTrack HostTrackApply HostAgree.
Open Scope Z_scope.

(** ** Interfaces *)

(** A tree that is never balanced. *)
Definition spine (l : list loc) : rb_tree := foldr (λ y t', RbNode RbLeaf y t') RbLeaf l.

Lemma inorder_spine l : inorder (spine l) = l.
Proof. induction l as [|y l IH]; simpl; [done|by rewrite IH]. Qed.

#[export] Program Instance toy_RbTree : RbTree := {|
  rb_insert_color t := t;
  rb_erase x t := spine (filter (λ y, y ≠ x) (inorder t)) |}.
Next Obligation. done. Qed.
Next Obligation.
  intros x t. apply inorder_spine.
Qed.

(** A machine out of memory never unshares a page. *)
#[export] Program Instance toy_MmFault : MmFault := {| handle_mm_fault m k := (m, VM_FAULT_OOM); back_outs := 0%nat |}.
Next Obligation. intros m k. split; [done|]. intros p fr n Hp Hm. by exists fr. Qed.
Next Obligation.
  intros m u k Hok Hco. simpl. split_and!; [done|done|]. split; [done|]. split; [done|].
  intros p fr fr' H1 H2. rewrite H1 in H2. injection H2 as <-. by split.
Qed.
Next Obligation. intros m k. exists 0%nat. split; [lia|by right]. Qed.

(** ** A process that runs meanwhile *)
Definition set_content (c : page) (fr : frame) : frame :=
  Frame c (fr_mapping fr) (fr_excl fr) (fr_dirty fr) (fr_lock fr) (fr_mapcount fr) (fr_swapcache fr)
    (fr_kref fr) (fr_extra fr) (fr_pinned fr) (fr_writers fr) (fr_head fr) (fr_splittable fr) (fr_index fr) (fr_root fr).

Definition write_first (b : Z) (c : page) : page := match c with [] => [] | _ :: l => b :: l end.

(** It stores a byte through its entry, if that is writable. *)
Definition store_step (k : addr_key) (b : Z) : env_step := λ mu,
  match ptes mu.1 !! k with
  | Some e =>
    match frames mu.1 !! pte_pfn e with
    | Some fr =>
      if pte_write e then
        (on_frames (<[pte_pfn e := set_content (write_first b (fr_content fr)) fr]>) mu.1, <[k := write_first b (fr_content fr)]> mu.2)
      else mu
    | None => mu
    end
  | None => mu
  end.

Lemma length_write_first b c : length (write_first b c) = length c.
Proof. by destruct c. Qed.

Lemma mem_rely_refl m : mem_rely m m.
Proof. split; [done|]. split; [done|]. intros p fr fr' H1 H2. rewrite H1 in H2. injection H2 as <-. by split. Qed.

Lemma no_new_ksm_refl m : no_new_ksm m m.
Proof. split; [done|]. intros p fr n Hp Hm. by exists fr. Qed.

Lemma mem_ok_set_content m p fr c :
  mem_ok m → frames m !! p = Some fr → length c = length (fr_content fr) → mem_ok (on_frames (<[p := set_content c fr]>) m).
Proof.
  intros [W X D K R MC SZ Z0 AR] Hp Hl. assert (Hf : ∀ q fr', <[p := set_content c fr]> (frames m) !! q = Some fr' →
    ∃ fr0 c', frames m !! q = Some fr0 ∧ fr' = set_content c' fr0 ∧ length c' = length (fr_content fr0)).
  { intros q fr' Hq. destruct (decide (q = p)) as [->|Hne].
    - rewrite lookup_insert_eq in Hq. injection Hq as <-. by exists fr, c.
    - rewrite lookup_insert_ne in Hq by done. exists fr', (fr_content fr'). split_and!; [done|by destruct fr'|done]. }
  split; simpl.
  - intros k e fr' Hk (fr0 & c' & Hq & -> & _)%Hf Hw. exact (W _ _ _ Hk Hq Hw).
  - intros k1 k2 e1 e2 fr' H1 H2 Heq (fr0 & c' & Hq & -> & _)%Hf Hx. exact (X _ _ _ _ _ H1 H2 Heq Hq Hx).
  - intros q fr' (fr0 & c' & Hq & -> & _)%Hf Hw. exact (D _ _ Hq Hw).
  - intros q fr' (fr0 & c' & Hq & -> & _)%Hf Hw. exact (K _ _ Hq Hw).
  - intros q fr' (fr0 & c' & Hq & -> & _)%Hf. exact (R _ _ Hq).
  - intros q fr' (fr0 & c' & Hq & -> & _)%Hf Hz. exact (MC _ _ Hq Hz).
  - intros q1 q2 f1 f2 (g1 & c1 & H1 & -> & E1)%Hf (g2 & c2 & H2 & -> & E2)%Hf. simpl. rewrite E1, E2. exact (SZ _ _ _ _ H1 H2).
  - intros fr' (fr0 & c' & Hq & -> & _)%Hf. exact (Z0 _ Hq).
  - exact AR.
Qed.

(** A store is among what the machine may do. *)
Lemma store_rely k b : rely (store_step k b).
Proof.
  intros m u. unfold store_step. simpl. destruct (ptes m !! k) as [e|] eqn:Hk; simpl.
  2: { split; [by apply no_new_ksm_refl|]. intros. split_and!; [done..|apply mem_rely_refl]. }
  destruct (frames m !! pte_pfn e) as [fr|] eqn:Hp; simpl.
  2: { split; [by apply no_new_ksm_refl|]. intros. split_and!; [done..|apply mem_rely_refl]. }
  destruct (pte_write e) eqn:Hw; simpl.
  2: { split; [by apply no_new_ksm_refl|]. intros. split_and!; [done..|apply mem_rely_refl]. }
  split.
  - split; [simpl; by rewrite dom_insert_lookup_L by (by exists fr)|].
    intros p fr' n Hq Hm. simpl in Hq. destruct (decide (p = pte_pfn e)) as [->|Hne].
    + rewrite lookup_insert_eq in Hq. injection Hq as <-. by exists fr.
    + rewrite lookup_insert_ne in Hq by done. by exists fr'.
  - intros Hok Hco. pose proof (mo_write _ Hok k e fr Hk Hp Hw) as Hx. split_and!.
    + apply mem_ok_set_content; [done|done|apply length_write_first].
    + intros k' e' Hk'. simpl in Hk'. simpl. destruct (decide (pte_pfn e' = pte_pfn e)) as [E|E].
      * assert (k' = k) as -> by (apply (mo_excl _ Hok k' k e' e fr); [done|done|done|by rewrite E|done]).
        rewrite E. eexists. rewrite lookup_insert_eq. split; [done|]. by rewrite lookup_insert_eq.
      * destruct (Hco k' e' Hk') as (fr' & Hf & Hu). exists fr'. rewrite lookup_insert_ne by done. split; [done|].
        rewrite lookup_insert_ne; [done|]. intros ->. congruence.
    + split; [done|]. split; [simpl; by rewrite dom_insert_lookup_L by (by exists fr)|].
      intros p f f' H1 H2. simpl in H2. destruct (decide (p = pte_pfn e)) as [->|Hne].
      * rewrite lookup_insert_eq in H2. injection H2 as <-. rewrite Hp in H1. injection H1 as <-. split; [done|done|].
        intros (_ & Hx' & _). congruence.
      * rewrite lookup_insert_ne in H2 by done. rewrite H1 in H2. injection H2 as <-. by split.
Qed.

(** ** The host *)
Definition toy_frame (c : page) (mm : Z) : frame :=
  Frame c MapAnon true false Unlocked 1 false 1 0 false false None false 1 mm.
Definition toy_vma (mm : Z) : vma := Vma 4096 8192 1 true (Some (mm, mm)).
Definition toy_mem : mem :=
  Mem {[ 10 := toy_frame [7] 1; 11 := toy_frame [7] 2; 12 := toy_frame [5] 3 ]}
    {[ (1, 4096) := Pte 10 true false 0; (2, 4096) := Pte 11 true false 0; (3, 4096) := Pte 12 true false 0 ]}
    {[ 1 := [toy_vma 1]; 2 := [toy_vma 2]; 3 := [toy_vma 3] ]} ∅ ∅ 0.
Definition toy_user : gmap addr_key page := {[ (1, 4096) := [7]; (2, 4096) := [7]; (3, 4096) := [5] ]}.
Definition toy_ksm : ksm :=
  Ksm {[ 1%positive := KItem 1 4096 (PageField (Some 10)) 0 None; 2%positive := KItem 2 4096 (PageField (Some 11)) 0 None ]} ∅ RbLeaf RbLeaf 0 0 true false empty_counters.
Definition toy_errors_table : error_table := ErrorTable (Table (Some [fresh_array LOGS_PER_PAGE]) 1 0 LOGS_PER_PAGE) 0.
Definition toy_host : host :=
  Host toy_mem toy_user [store_step (3, 4096) 8; store_step (3, 4096) 9] toy_ksm (MergeStats (replicate 11 0) 0 ∅ ∅)
    (Some toy_errors_table) [] (KsmConfig 256 false zero_log (λ _, 0)).
Definition toy_shadow : list shadow_mm :=
  (λ mm, ShadowMm mm (Table None 0 0 0) {[ 1 := Z.to_pos mm ]}) <$> [1; 2].

(** [mem_ok] and [coherent] of a concrete memory are decided by evaluation. *)
Definition mem_check (m : mem) : Prop :=
  map_Forall (λ k1 e1, (pte_write e1 = true → default true (fr_excl <$> frames m !! pte_pfn e1) = true) ∧
    map_Forall (λ k2 e2, pte_pfn e1 = pte_pfn e2 → default false (fr_excl <$> frames m !! pte_pfn e1) = true → k1 = k2) (ptes m))
    (ptes m) ∧
  map_Forall (λ p fr, (fr_writers fr = true → fr_excl fr = true ∧ (fr_pinned fr = true ∨ 0 < fr_extra fr)) ∧
    (PageKsm fr = true → fr_excl fr = false ∧ 0 < page_count fr) ∧
    (0 ≤ fr_kref fr ∧ 0 ≤ fr_extra fr ∧ 0 ≤ fr_mapcount fr) ∧
    (p ≠ zero_pfn m → fr_mapcount fr = mappings (ptes m) p) ∧
    map_Forall (λ q fq, length (fr_content fr) = length (fr_content fq)) (frames m) ∧
    (p = zero_pfn m → fr_mapping fr = MapOther)) (frames m) ∧
  map_Forall (λ _ l, areas_ok l) (vmas m).

Lemma mem_check_ok m : bool_decide (mem_check m) = true → mem_ok m.
Proof.
  intros (HP & HF & HA)%bool_decide_eq_true. split.
  - intros k e fr Hk Hp Hw. destruct (HP k e Hk) as [A _]. specialize (A Hw). by rewrite Hp in A.
  - intros k1 k2 e1 e2 fr H1 H2 E Hp Hx. destruct (HP k1 e1 H1) as [_ A]. apply (A k2 e2 H2 E). by rewrite Hp.
  - intros p fr Hp. by apply (HF p fr Hp).
  - intros p fr Hp. by apply (HF p fr Hp).
  - intros p fr Hp. by apply (HF p fr Hp).
  - intros p fr Hp. by apply (HF p fr Hp).
  - intros p q fr fq Hp Hq. destruct (HF p fr Hp) as (_ & _ & _ & _ & A & _). by apply (A q fq).
  - intros fr Hp. by apply (HF _ fr Hp).
  - exact HA.
Qed.

Lemma coherent_check (m : mem) (u : user_mem) :
  bool_decide (map_Forall (λ (k : addr_key) e, is_Some (frames m !! pte_pfn e) ∧ u !! k = fr_content <$> frames m !! pte_pfn e) (ptes m)) = true →
  coherent m u.
Proof. intros Hall%bool_decide_eq_true k e Hk. destruct (Hall k e Hk) as [[fr Hfr] E]. exists fr. by rewrite Hfr in E. Qed.

Lemma toy_safe : safe toy_host.
Proof.
  split; [apply mem_check_ok; by vm_compute|apply coherent_check; by vm_compute|].
  simpl. apply Forall_cons. split; [apply store_rely|]. apply Forall_cons. split; [apply store_rely|constructor].
Qed.

Lemma toy_scanned : scanned toy_shadow toy_host.
Proof.
  intros sm n i Hsm Hi. assert (i = 1%positive ∨ i = 2%positive) as Hor.
  { simpl in Hsm. apply elem_of_cons in Hsm as [->|Hsm]; [|apply elem_of_cons in Hsm as [->|Hsm]; [|by apply elem_of_nil in Hsm]];
      simpl in Hi; apply lookup_singleton_Some in Hi as [_ <-]; auto. }
  destruct Hor as [-> | ->]; eexists _, _; (split; [by vm_compute|split; [done|]]); eexists; (split; [by vm_compute|done]).
Qed.

Lemma toy_ksm_ok : ksm_ok 0 (h_ksm toy_host).
Proof.
  apply ksm_ok_fresh; [|by vm_compute]. intros i it Hi. simpl in Hi.
  apply lookup_insert_Some in Hi as [[_ <-]|[_ Hi]]; [done|]. apply lookup_singleton_Some in Hi as [_ <-]. done.
Qed.

Lemma toy_track : track (Served []) [] (sharing (h_ksm toy_host)) 0 toy_host.
Proof.
  split.
  - apply toy_ksm_ok.
  - assert (map_Forall (λ _ fr, page_stable_node fr = None) (frames (h_mem toy_host))) as Hall.
    { apply (bool_decide_unpack _). by vm_compute. }
    intros p fr n Hp Hm. specialize (Hall p fr Hp). simpl in Hall. unfold page_stable_node in Hall. by rewrite Hm in Hall.
  - apply toy_safe.
  - eexists _, []. split; [done|]. split; [apply fresh_table_repr, log_dims|by right].
  - simpl. set_solver.
  - done.
  - apply unstable_ok_plain; [|done]. intros i it Hi.
    apply lookup_insert_Some in Hi as [[_ <-]|[_ Hi]]; [by vm_compute|]. apply lookup_singleton_Some in Hi as [_ <-]. by vm_compute.
  - done.
Qed.

(** The log of the server's second round; its pages are 11 and 10. *)
Definition toy_applied : outcome (merge_cnts * host) := apply_result toy_shadow [toy_merge] toy_host.
Definition toy_after : host := match toy_applied with Ok (_, h) => h | _ => toy_host end.

Example toy_merges : match toy_applied with Ok (c, _) => c = MergeCnts 0 1 0 | _ => False end.
Proof. vm_compute. reflexivity. Qed.

Example toy_shares : sharing (h_ksm toy_after) = {[ 1%positive := (1%positive, 11); 2%positive := (1%positive, 11) ]}.
Proof. vm_compute. reflexivity. Qed.

Example toy_maps : ptes (h_mem toy_after) !! (1, 4096) = Some (Pte 11 false false 0) ∧
  ptes (h_mem toy_after) !! (2, 4096) = Some (Pte 11 false false 0) ∧
  user toy_after !! (3, 4096) = Some [9].
Proof. vm_compute. done. Qed.

(** The shadow tables list one page of each process. *)
Lemma toy_item_at k i : item_at toy_shadow k = Some i → Z.shiftr k.2 PAGE_SHIFT = 1 ∧ (k.1 = 1 ∧ i = 1%positive ∨ k.1 = 2 ∧ i = 2%positive).
Proof.
  unfold item_at, shadow_item. cbn -[Z.eqb shadow_mm_lookup]. destruct (Z.eqb_spec 1 k.1) as [E|_]; [|destruct (Z.eqb_spec 2 k.1) as [E|_]; [|done]].
  all: cbn -[Z.shiftr]; unfold shadow_mm_lookup; cbn -[Z.shiftr]; intros [E' <-]%lookup_singleton_Some; auto.
Qed.

Lemma page_one va : va mod PAGE_SIZE = 0 → Z.shiftr va PAGE_SHIFT = 1 → va = 4096.
Proof.
  intros Hm Hs. rewrite Z.shiftr_div_pow2 in Hs by done. change (2 ^ PAGE_SHIFT) with 4096 in Hs. change PAGE_SIZE with 4096 in Hm.
  pose proof (Z.div_mod va 4096). lia.
Qed.

Lemma toy_tables_injective : tables_injective toy_shadow.
Proof.
  intros [mm1 va1] [mm2 va2] i K1 K2 [S1 H1]%toy_item_at [S2 H2]%toy_item_at. unfold page_key in *. simpl in *.
  rewrite (page_one va1), (page_one va2) by done. f_equal. destruct H1 as [[-> ->]|[-> ->]]; destruct H2 as [[-> ?]|[-> ?]]; done.
Qed.

Lemma toy_scanned_pages k i : page_key k → item_at toy_shadow k = Some i → kitems (h_ksm toy_host) !! i ≫= ki_page = Some (toy_pf k).
Proof.
  intros _ [_ H]%toy_item_at. destruct H as [[E ->]|[E ->]]; unfold toy_pf; rewrite E; by vm_compute.
Qed.

Lemma toy_agrees : agrees toy_shadow (sharing_view (metadata demo1)) (sharing (h_ksm toy_host)).
Proof.
  intros [mm va] i Hk [S H]%toy_item_at. unfold page_key in Hk. simpl in *. rewrite (page_one va) by done.
  destruct H as [[-> ->]|[-> ->]]; by vm_compute.
Qed.

(** What the server believes after its second round. *)
Lemma toy_prediction : replay toy_pf (sharing_view (metadata demo1)) [toy_merge] = sharing_view (metadata demo2).
Proof. by vm_compute. Qed.

(** Process 4 has found the page again: frame 13 equals the shared frame 11. *)
Definition toy_host4 : host :=
  Host (Mem (<[13 := toy_frame [7] 4]> (frames (h_mem toy_after))) (<[(4, 4096) := Pte 13 true false 0]> (ptes (h_mem toy_after)))
      (<[4 := [toy_vma 4]]> (vmas (h_mem toy_after))) ∅ ∅ 0)
    (<[(4, 4096) := [7]]> (user toy_after)) []
    (on_items (<[4%positive := KItem 4 4096 (PageField (Some 13)) 0 None]>) (h_ksm toy_after)) (h_stats toy_after)
    (Some toy_errors_table) [] (config toy_after).
Definition toy_shadow4 : list shadow_mm := [ShadowMm 4 (Table None 0 0 0) {[ 1 := 4%positive ]}].
Definition toy_stable : ksm_event_log := KsmEventLog DPU_STABLE_MERGE 4096 11 4 3.
Definition toy_target : frame := default (toy_frame [] 0) (frames (h_mem toy_after) !! 11).
Definition toy_node : knode := default (KNode 0 0 [] InTree) (knodes (h_ksm toy_after) !! 1%positive).

Lemma toy_mem4_ok : mem_ok (h_mem toy_host4).
Proof. apply mem_check_ok. by vm_compute. Qed.
