(* ===== verification/DaemonExamples.v ===== *)
(** * DaemonExamples: a daemon on a small machine

    Three processes with one mergeable page each; the pages of the first two
    are equal.  The daemon has not scanned them yet. *)
From S2P Require Import Prelude Wire HashPair Growable Shadow Scatter Store Metadata MergeSpec Server Examples HostMem HostTree HostTreeInv HostMerge HostApply HostScan HostDaemon HostSafe HostTrack HostAgree HostScanInv HostScanWalk HostScanMm HostScanIter Advisor LocalScan LocalScanPass HostSteps HostExamples.
Open Scope Z_scope.

Definition fresh_mem : mem := on_frames (fmap (add_kref (-1))) toy_mem.
Definition fresh_host (e : list env_step) : host :=
  Host fresh_mem toy_user e (Ksm ∅ ∅ RbLeaf RbLeaf 0 0 true false empty_counters) (MergeStats (replicate 11 0) 0 ∅ ∅)
    (Some toy_errors_table) [] (KsmConfig 256 false zero_log (λ _, 0)).

(** The processes with a slot, and what else runs. *)
Definition toy_daemon (mms : list Z) (e : list env_step) : scan_st :=
  ScanSt (fresh_host e) (KsmScan 0 [] []) ((λ mm, MmSlot mm []) <$> mms) 0 ∅ (replicate 6 true) (list_to_set mms) [] [] [].

Definition toy_owner (mm : Z) : option Z := Some mm.
Definition toy_mr (sgt : list (list sg_entry)) : desc_entry := DescEntry (default 0 (head (sg_pages sgt))) 0.
Definition toy_map_mr (_ : list (Z * Z)) : desc_entry := DescEntry 5 0.
Definition toy_et_mr (_ : list (list sg_entry)) : error_table_desc_entry := ErrorTableDescEntry 1 0.
Definition toy_serve (_ : list shadow_mm) (_ : option error_table) : option (list ksm_event_log) := Some [toy_merge].

Definition state_of {A} (o : outcome (A * scan_st)) (s : scan_st) : scan_st := match o with Ok (_, s') => s' | _ => s end.

Definition toy_start : scan_st := toy_daemon [1; 2] [store_step (3, 4096) 8].
Definition toy_entered : scan_st := state_of (__ksm_enter true 3 toy_start) toy_start.
Definition toy_scan : outcome (bool * scan_st) := ksm_do_scan toy_owner toy_mr toy_map_mr (λ k, k) toy_et_mr toy_serve toy_entered.
Definition toy_scanned_once : scan_st := state_of toy_scan toy_entered.

Lemma fresh_safe e : Forall rely e → safe (fresh_host e).
Proof. intros He. split; [apply mem_check_ok; by vm_compute|apply coherent_check; by vm_compute|done]. Qed.

Lemma fresh_track e : Forall rely e → track (Served []) [] (sharing (h_ksm (fresh_host e))) 0 (fresh_host e).
Proof.
  intros He. split.
  - apply ksm_ok_fresh; [done|by vm_compute].
  - assert (map_Forall (λ _ fr, page_stable_node fr = None) (frames fresh_mem)) as Hall.
    { apply (bool_decide_unpack _). by vm_compute. }
    intros p fr n Hp Hm. specialize (Hall p fr Hp). simpl in Hall. unfold page_stable_node in Hall. by rewrite Hm in Hall.
  - done.
  - eexists _, []. split; [done|]. split; [apply fresh_table_repr, log_dims|by right].
  - simpl. set_solver.
  - done.
  - by apply unstable_ok_plain.
  - done.
Qed.

Lemma toy_daemon_ready mms e : NoDup mms → Forall rely e → ready (toy_daemon mms e).
Proof.
  intros Hnd He. assert (Em : slot_mm <$> ((λ mm, MmSlot mm []) <$> mms) = mms).
  { rewrite <- list_fmap_compose. by apply list_fmap_id. }
  split.
  - by apply fresh_safe.
  - exists (Served []). split; [done|]. by apply fresh_track.
  - by vm_compute.
  - by vm_compute.
  - intros mm. by vm_compute.
  - split; simpl; rewrite ?Em; try done. apply Forall_fmap, Forall_forall. intros mm _. simpl. split; [|constructor].
    intros i. split; [by intros ?%elem_of_nil|]. by intros (a & p & ?).
  - done.
  - intros p fr Hp. assert (map_Forall (λ _ fr, fr_lock fr ≠ LockedByKsmd) (frames fresh_mem)) as Hall.
    { apply (bool_decide_unpack _). by vm_compute. }
    exact (Hall p fr Hp).
Qed.

Lemma toy_start_ready : ready toy_start.
Proof. apply toy_daemon_ready; [by apply (bool_decide_unpack _); vm_compute|]. apply Forall_singleton, store_rely. Qed.

Lemma toy_honest : honest toy_serve.
Proof.
  intros l t L [= <-]. apply Forall_singleton. intros _. split_and!; [by vm_compute..|]. by vm_compute.
Qed.

(** ** Without a server

    The server does not answer; then two batches of at most 10 pages, each a
    whole pass.  The checksum of a page is the sum of its bytes. *)
Definition toy_deserted : scan_st :=
  state_of (ksm_do_scan toy_owner toy_mr toy_map_mr (λ k, k) toy_et_mr (λ _ _, None) toy_entered) toy_entered.
Definition toy_checksum (c : page) : Z := foldr Z.add 0 c.
Definition toy_local_step : local_st → local_st → Prop := local_step 100 (λ p, p) toy_checksum 0 Z.of_nat (λ _, 0).
Definition toy_batch (ls : local_st) : outcome (Z * local_st) :=
  local_do_scan 100 (λ p, p) toy_checksum 0 Z.of_nat (λ _, 0) 10 ls.
Definition batched (ls : local_st) : local_st := match toy_batch ls with Ok (_, ls') => ls' | _ => ls end.
Definition at_head_of (s : scan_st) : local_st := LocalSt s None default_pace 0 0.
Definition toy_alone : local_st := batched (batched (at_head_of toy_deserted)).

Lemma toy_batches : rtc toy_local_step (at_head_of toy_deserted) toy_alone.
Proof.
  eapply rtc_l; [|apply rtc_once].
  - eapply (local_batch _ _ _ _ _ _ 10 3). vm_compute. reflexivity.
  - eapply (local_batch _ _ _ _ _ _ 10 3). vm_compute. reflexivity.
Qed.

(** The first pass remembers checksums, the second merges. *)
Example toy_alone_shares :
  sharing (h_ksm (sc_host (lc_scan (batched (at_head_of toy_deserted))))) = ∅ ∧ cursor toy_alone = None ∧
  sharing (h_ksm (lc_host toy_alone)) = {[ 1%positive := (1%positive, 11); 2%positive := (1%positive, 11) ]}.
Proof. split_and!; vm_compute; reflexivity. Qed.

Example toy_alone_pace : lc_pace toy_alone = default_pace.
Proof. vm_compute. reflexivity. Qed.

Lemma toy_deserts : daemon_step toy_owner toy_mr toy_map_mr (λ k, k) toy_et_mr 100 (λ p, p) toy_checksum 0 Z.of_nat (λ _, 0)
  (KSM_RUN_MERGE, toy_entered) (KSM_RUN_MERGE, toy_deserted).
Proof. eapply (step_iteration _ _ _ _ _ _ _ _ _ _ _ (λ _ _, None)); [by intros l t L|by vm_compute|by vm_compute|vm_compute; reflexivity]. Qed.

Lemma toy_enters : daemon_step toy_owner toy_mr toy_map_mr (λ k, k) toy_et_mr 100 (λ p, p) toy_checksum 0 Z.of_nat (λ _, 0)
  (KSM_RUN_MERGE, toy_start) (KSM_RUN_MERGE, toy_entered).
Proof. eapply (step_fork _ _ _ _ _ _ _ _ _ _ _ true 3); [apply (bool_decide_unpack _); by vm_compute|reflexivity]. Qed.

Lemma toy_deserted_ready : ready toy_deserted.
Proof. exact (ready_step _ _ _ _ _ _ _ _ _ _ _ _ _ toy_deserts (ready_step _ _ _ _ _ _ _ _ _ _ _ _ _ toy_enters toy_start_ready)). Qed.
