(* ===== verification/Client.v ===== *)
(** * Client: the host's side of the connection

    [codes/bask/client_stub.c] and [client_stub.h]: the connection state
    machine driven by the RDMA-CM and completion handlers, the waits on it,
    the set-up of a connection with its unwinding, the metadata send, the read
    of the result table into the reserved pool, memory registration and the
    two single-operation requests.

    Handlers run in interrupt context.  [irqs] is what the network does from
    now on, in order: an interrupt, [Later] (a point at which nothing more has
    arrived yet) or a signal to the waiting thread.  A wait consumes it until
    its condition holds; [run_now] is a point between two statements at which
    interrupts are taken.  [rets] are the results of the verbs and allocation
    calls to come (0 succeeds; none left: success). *)
From S2P Require Import Prelude Wire Growable Shadow.
Open Scope Z_scope.

(** ** The reserved buffers *)
Definition MAX_HUGE_ALLOC : Z := 128.

Record huge_alloc_reserve := HugeAllocReserve { used : Z; ptrs : list (option positive) }.

(** The first slot satisfying [P] is overwritten with [v]. *)
Fixpoint replace_first (P : option positive → bool) (v : option positive) (l : list (option positive))
  : option (option positive * list (option positive)) :=
  match l with
  | [] => None
  | x :: l' =>
    if P x then Some (x, v :: l')
    else match replace_first P v l' with Some (y, l'') => Some (y, x :: l'') | None => None end
  end.

(** [oks] answers the [kmalloc]s; the addresses are [1 ..]. *)
Definition huge_alloc_init (oks : list bool) : huge_alloc_reserve * Z :=
  let n := length (filter (λ i, Forall (λ b : bool, b = true) (take (S i) oks)) (seq 0 (Z.to_nat MAX_HUGE_ALLOC))) in
  let got := Nat.min n (Z.to_nat MAX_HUGE_ALLOC) in
  (HugeAllocReserve 0 (((λ i, Some (Pos.of_succ_nat i)) <$> seq 0 got) ++ replicate (Z.to_nat MAX_HUGE_ALLOC - got) None),
   if (got =? Z.to_nat MAX_HUGE_ALLOC)%nat then 0 else -1).

Definition huge_alloc (p : huge_alloc_reserve) : option positive * huge_alloc_reserve :=
  match replace_first (λ x, bool_decide (x ≠ None)) None (ptrs p) with
  | Some (ptr, l) => (ptr, HugeAllocReserve (used p + 1) l)
  | None => (None, p)
  end.

Definition huge_dealloc (ptr : positive) (p : huge_alloc_reserve) : huge_alloc_reserve :=
  match replace_first (λ x, bool_decide (x = None)) (Some ptr) (ptrs p) with
  | Some (_, l) => HugeAllocReserve (used p - 1) l
  | None => p
  end.

(** ** State *)
Inductive cm_event :=
| CM_ADDR_RESOLVED | CM_ROUTE_RESOLVED | CM_CONNECT_REQUEST | CM_ESTABLISHED
| CM_ADDR_ERROR | CM_ROUTE_ERROR | CM_CONNECT_ERROR | CM_UNREACHABLE | CM_REJECTED
| CM_DISCONNECTED | CM_DEVICE_REMOVAL | CM_OTHER.

Inductive wc_status := WC_SUCCESS | WC_WR_FLUSH_ERR | WC_FAILED.
Inductive wc_opcode := WC_SEND | WC_RDMA_WRITE | WC_RDMA_READ | WC_RECV | WC_REG_MR | WC_LOCAL_INV | WC_OTHER.

(** What a completed receive left in memory. *)
Inductive payload := NoData | ResultData (r : result_desc) | OpData (r : operation_result).

Record work_completion := WorkCompletion {
  wc_st : wc_status; wc_wr_id : ksm_wr_tag; wc_op : wc_opcode; wc_data : payload }.

Inductive irq := Cma (e : cm_event) | Completions (new : list work_completion).
Inductive moment := Irq (i : irq) | Later | Signal.

Inductive client_res := CCmId | CPd | CCq | CQp | CMdMap | CResultMap | COpDescMap | COpResultMap.

#[export] Instance client_res_eq_dec : EqDecision client_res.
Proof. solve_decision. Defined.
#[export] Instance client_res_countable : Countable client_res.
Proof.
  refine (inj_countable' (λ r, match r with CCmId => 0 | CPd => 1 | CCq => 2 | CQp => 3 | CMdMap => 4 | CResultMap => 5
    | COpDescMap => 6 | COpResultMap => 7 end%nat)
    (λ n, match n with 0 => CCmId | 1 => CPd | 2 => CCq | 3 => CQp | 4 => CMdMap | 5 => CResultMap
    | 6 => COpDescMap | _ => COpResultMap end%nat) _).
  by intros [].
Defined.

(** What was handed to the queue pair. *)
Inductive posted_wr :=
| PostRecv (tag : ksm_wr_tag) | PostSendMeta | PostSendOp (d : operation_descriptor)
| PostRegMr (rkey : Z) | PostInvalidate (rkey : Z) | PostRead (rkey remote_addr len : Z).

Record client := Client {
  cb_state : ksm_rdma_state;
  cb_mode : offload_mode;
  live : gset client_res;
  qp_ptr : bool;                       (* [cb->qp] is not NULL *)
  cq_entries : list work_completion;
  c_result_desc : result_desc;
  single_op_desc_tx : operation_descriptor;
  single_op_result_rx : operation_result;
  pool : huge_alloc_reserve;
  op_iteration : Z;
  posted : list posted_wr;
  rets : list Z;
  irqs : list moment }.

Abbreviation MC := (M client).

Definition set_state (st : ksm_rdma_state) : MC unit := modify (λ c,
  Client st (cb_mode c) (live c) (qp_ptr c) (cq_entries c) (c_result_desc c) (single_op_desc_tx c)
    (single_op_result_rx c) (pool c) (op_iteration c) (posted c) (rets c) (irqs c)).
Definition set_live (f : gset client_res → gset client_res) (q : bool → bool) : MC unit := modify (λ c,
  Client (cb_state c) (cb_mode c) (f (live c)) (q (qp_ptr c)) (cq_entries c) (c_result_desc c) (single_op_desc_tx c)
    (single_op_result_rx c) (pool c) (op_iteration c) (posted c) (rets c) (irqs c)).
Definition set_cq (l : list work_completion) : MC unit := modify (λ c,
  Client (cb_state c) (cb_mode c) (live c) (qp_ptr c) l (c_result_desc c) (single_op_desc_tx c)
    (single_op_result_rx c) (pool c) (op_iteration c) (posted c) (rets c) (irqs c)).
Definition set_result (r : result_desc) : MC unit := modify (λ c,
  Client (cb_state c) (cb_mode c) (live c) (qp_ptr c) (cq_entries c) r (single_op_desc_tx c)
    (single_op_result_rx c) (pool c) (op_iteration c) (posted c) (rets c) (irqs c)).
Definition set_op_tx (d : operation_descriptor) (it : Z) : MC unit := modify (λ c,
  Client (cb_state c) (cb_mode c) (live c) (qp_ptr c) (cq_entries c) (c_result_desc c) d
    (single_op_result_rx c) (pool c) it (posted c) (rets c) (irqs c)).
Definition set_op_rx (r : operation_result) : MC unit := modify (λ c,
  Client (cb_state c) (cb_mode c) (live c) (qp_ptr c) (cq_entries c) (c_result_desc c) (single_op_desc_tx c)
    r (pool c) (op_iteration c) (posted c) (rets c) (irqs c)).
Definition set_pool (p : huge_alloc_reserve) : MC unit := modify (λ c,
  Client (cb_state c) (cb_mode c) (live c) (qp_ptr c) (cq_entries c) (c_result_desc c) (single_op_desc_tx c)
    (single_op_result_rx c) p (op_iteration c) (posted c) (rets c) (irqs c)).
Definition add_posted (w : posted_wr) : MC unit := modify (λ c,
  Client (cb_state c) (cb_mode c) (live c) (qp_ptr c) (cq_entries c) (c_result_desc c) (single_op_desc_tx c)
    (single_op_result_rx c) (pool c) (op_iteration c) (posted c ++ [w]) (rets c) (irqs c)).
Definition set_irqs (l : list moment) : MC unit := modify (λ c,
  Client (cb_state c) (cb_mode c) (live c) (qp_ptr c) (cq_entries c) (c_result_desc c) (single_op_desc_tx c)
    (single_op_result_rx c) (pool c) (op_iteration c) (posted c) (rets c) l).

(** One verbs, RDMA-CM or allocation call. *)
Definition call : MC Z := λ c,
  match rets c with
  | [] => Ok (0, c)
  | r :: l => Ok (r, Client (cb_state c) (cb_mode c) (live c) (qp_ptr c) (cq_entries c) (c_result_desc c)
                       (single_op_desc_tx c) (single_op_result_rx c) (pool c) (op_iteration c) (posted c) l (irqs c))
  end.

(** ** Handlers *)

(** A failing [rdma_resolve_route] only wakes the waiting thread. *)
Definition cma_event_handler (e : cm_event) : MC unit :=
  match e with
  | CM_ADDR_RESOLVED => set_state KSM_ADDR_RESOLVED ;; ret ← call; (λ _ : Z, mret tt) ret
  | CM_ROUTE_RESOLVED => set_state KSM_ROUTE_RESOLVED
  | CM_ESTABLISHED => set_state KSM_CONNECTED
  | CM_CONNECT_REQUEST => set_state KSM_ERROR
  | CM_ADDR_ERROR | CM_ROUTE_ERROR | CM_CONNECT_ERROR | CM_UNREACHABLE | CM_REJECTED => set_state KSM_ERROR
  | CM_DISCONNECTED | CM_DEVICE_REMOVAL => set_state KSM_ERROR
  | CM_OTHER => mret tt
  end.

(** Only logs. *)
Definition client_recv : MC Z := mret 0.

(** The polling loop over the completions in the queue; the last poll finds
    it empty or fails.  A registration completion ends the handler at once. *)
Fixpoint poll_completions (wcs : list work_completion) : MC unit :=
  match wcs with
  | [] => set_cq [] ;; ret ← call; if negb (ret =? 0) then set_state KSM_ERROR else mret tt
  | wc :: wcs' =>
    match wc_st wc with
    | WC_WR_FLUSH_ERR => poll_completions wcs'
    | WC_FAILED => set_cq wcs' ;; set_state KSM_ERROR
    | WC_SUCCESS =>
      if decide (wc_wr_id wc = WR_REG_MR) then set_cq wcs' ;; set_state KSM_MEM_REG_COMPLETE else
      match wc_op wc with
      | WC_SEND => set_state KSM_RDMA_SEND_COMPLETE ;; poll_completions wcs'
      | WC_RDMA_WRITE => set_state KSM_RDMA_WRITE_COMPLETE ;; poll_completions wcs'
      | WC_RDMA_READ => set_state KSM_RDMA_READ_COMPLETE ;; poll_completions wcs'
      | WC_RECV =>
        ret ← client_recv;
        if negb (ret =? 0) then set_cq wcs' ;; set_state KSM_ERROR
        else set_state KSM_RDMA_RECV_COMPLETE ;; poll_completions wcs'
      | WC_REG_MR => set_state KSM_MEM_REG_COMPLETE ;; poll_completions wcs'
      | WC_LOCAL_INV => set_state KSM_MR_INVALIDATE_COMPLETE ;; poll_completions wcs'
      | WC_OTHER => set_cq wcs' ;; set_state KSM_ERROR
      end
    end
  end.

Definition cq_event_handler : MC unit :=
  c ← get;
  if decide (cb_state c = KSM_ERROR) then mret tt else
  _ ← call; poll_completions (cq_entries c).

(** The adapter's writes to memory, then the interrupt. *)
Definition deliver (p : payload) : MC unit :=
  match p with NoData => mret tt | ResultData r => set_result r | OpData r => set_op_rx r end.

Definition handle (i : irq) : MC unit :=
  match i with
  | Cma e => cma_event_handler e
  | Completions new =>
    for_each (λ wc, deliver (wc_data wc)) new ;;
    c ← get; set_cq (cq_entries c ++ new) ;; cq_event_handler
  end.

(** [wait_event_interruptible(cb->sem, cb->state >= st)] *)
Fixpoint wait_from (l : list moment) (st : ksm_rdma_state) : MC unit :=
  c ← get;
  if ksm_rdma_state_val st <=? ksm_rdma_state_val (cb_state c) then set_irqs l else
  match l with
  | [] => halt "waits forever"
  | Irq i :: l' => handle i ;; wait_from l' st
  | Later :: l' => wait_from l' st
  | Signal :: l' => set_irqs l'
  end.

Definition wait_event (st : ksm_rdma_state) : MC unit := l ← gets irqs; wait_from l st.

(** The interrupts that arrive between two statements. *)
Fixpoint run_from (l : list moment) : MC unit :=
  match l with
  | Irq i :: l' => handle i ;; run_from l'
  | Later :: l' => set_irqs l'
  | _ => set_irqs l
  end.

Definition run_now : MC unit := l ← gets irqs; run_from l.

(** ** Setting up a connection *)
Definition EINTR : Z := 4.

Definition acquire (r : client_res) : MC Z :=
  ret ← call; (if ret =? 0 then set_live (λ l, {[r]} ∪ l) id else mret tt) ;; mret ret.

Definition destroy (r : client_res) (why : string) : MC unit :=
  c ← get; if decide (r ∈ live c) then set_live (λ l, l ∖ {[r]}) id else fault why.

Definition cb_setup_client : MC Z := set_state KSM_IDLE ;; acquire CCmId.

Definition rdma_bind_client : MC Z :=
  ret ← call;
  if negb (ret =? 0) then mret ret else
  wait_event KSM_ROUTE_RESOLVED ;;
  c ← get;
  if decide (cb_state c = KSM_ROUTE_RESOLVED) then mret 0 else mret (- EINTR).

(** The queue pair is created under an inner [int ret]; the outer one is 0
    by then. *)
Definition cb_setup_qp : MC Z :=
  ret ← acquire CPd;
  if negb (ret =? 0) then mret ret else
  ret ← acquire CCq;
  if negb (ret =? 0) then destroy CPd "pd" ;; mret ret else
  ret ← call;
  if negb (ret =? 0) then destroy CCq "cq" ;; destroy CPd "pd" ;; mret ret else
  inner_ret ← call;
  (if inner_ret =? 0 then set_live (λ l, {[CQp]} ∪ l) (λ _, true) else mret tt) ;;
  mret ret.

(** The last mapping's result is not tested (the third's is, again). *)
Definition cb_setup_buffer : MC Z :=
  e1 ← acquire CMdMap;
  if negb (e1 =? 0) then mret (-1) else
  e2 ← acquire CResultMap;
  if negb (e2 =? 0) then destroy CMdMap "md_desc_dma_addr" ;; mret (-1) else
  e3 ← acquire COpDescMap;
  if negb (e3 =? 0) then mret (-1) else
  _ ← acquire COpResultMap;
  if negb (e3 =? 0) then mret (-1) else mret 0.

(** [ib_post_send], [ib_post_recv] *)
Definition post (w : posted_wr) : MC Z :=
  c ← get;
  if negb (qp_ptr c) then fault "cb->qp is NULL" else
  if decide (CQp ∈ live c) then ret ← call; (if ret =? 0 then add_posted w else mret tt) ;; mret ret
  else fault "cb->qp was destroyed".

(** [ESTABLISHED] may arrive before the state is set back to
    [KSM_CONNECT_REQUEST]. *)
Definition connect_client : MC Z :=
  ret ← call;
  if negb (ret =? 0) then mret ret else
  run_now ;;
  set_state KSM_CONNECT_REQUEST ;;
  wait_event KSM_CONNECTED ;;
  c ← get;
  if decide (cb_state c = KSM_ERROR) then mret (-1) else mret 0.

Definition err0 : MC bool := destroy CCmId "rdma_destroy_id of an error pointer" ;; mret false.
Definition err1 : MC bool :=
  c ← get;
  (if qp_ptr c then destroy CQp "cb->qp was destroyed" else fault "cb->qp is NULL") ;;
  destroy CCq "cq" ;; destroy CPd "pd" ;; err0.

(** One turn of the loop: [true] is [return]. *)
Definition connection_attempt : MC bool :=
  ret ← cb_setup_client;
  if negb (ret =? 0) then err0 else
  ret ← rdma_bind_client;
  if negb (ret =? 0) then err0 else
  ret ← cb_setup_qp;
  if negb (ret =? 0) then err0 else
  ret ← cb_setup_buffer;
  if negb (ret =? 0) then err1 else
  c ← get;
  match cb_mode c with
  | NO_OFFLOAD => err1
  | m =>
    ret ← post (PostRecv (match m with KSM_OFFLOAD => WR_RECV_RESULT | _ => WR_RECV_SINGLE_RESULT end));
    if negb (ret =? 0) then err1 else
    ret ← connect_client;
    if negb (ret =? 0) then err1 else mret true
  end.

(** The loop has no bound; [fuel] attempts, [false] if none succeeded. *)
Fixpoint connection_loop (fuel : nat) : MC bool :=
  match fuel with
  | O => mret false
  | S fuel' => done ← connection_attempt; if (done : bool) then mret true else connection_loop fuel'
  end.

(** [tag_ok]: [cb->tag] is the size of this module's [struct ksm_cb]. *)
Definition create_connection (tag_ok : bool) (fuel : nat) : MC bool :=
  if negb tag_ok then mret false else connection_loop fuel.

(** ** A round *)
Definition meta_send : MC Z :=
  ret ← post PostSendMeta;
  if negb (ret =? 0) then mret ret else
  wait_event KSM_RDMA_SEND_COMPLETE ;;
  c ← get;
  if decide (cb_state c = KSM_RDMA_SEND_COMPLETE) then mret 0 else
  if decide (cb_state c = KSM_RDMA_RECV_COMPLETE) then mret 0 else mret (-1).

Definition rdma_reg_mr (rkey : Z) : MC Z :=
  set_state KSM_MEM_REG_WAIT ;;
  err ← post (PostRegMr rkey);
  if negb (err =? 0) then mret err else
  run_now ;;
  c ← get;
  (fix poll (wcs : list work_completion) : MC Z :=
     match wcs with
     | [] => set_cq [] ;; mret err
     | wc :: wcs' =>
       match wc_st wc with
       | WC_WR_FLUSH_ERR => poll wcs'
       | WC_FAILED => halt "reg mr cq completion failed"
       | WC_SUCCESS =>
         if decide (wc_wr_id wc = WR_REG_MR) then set_cq wcs' ;; set_state KSM_MEM_REG_COMPLETE ;; mret err
         else halt "reg mr cq completion with unexpected wr_id"
       end
     end) (cq_entries c).

Definition rdma_invalidate_mr (rkey : Z) : MC Z :=
  set_state KSM_MR_INVALIDATE_WAIT ;; post (PostInvalidate rkey).

Record result_table := ResultTable {
  entry_tables : list (positive * list ksm_event_log);
  tables_cnt : Z;
  total_cnt : Z }.

Section remote.
(** What an RDMA read of [len] bytes at [rkey], [addr] brings. *)
Context (remote : Z → Z → Z → list ksm_event_log).

Definition this_size (log_cnt tables i : Z) : Z :=
  if i =? tables - 1 then log_cnt - i * MAX_RESULT_TABLE_ENTRIES else MAX_RESULT_TABLE_ENTRIES.

(** The reads from table [i] on; [None] is an early [return NULL], which
    leaves the buffers taken so far out of the pool. *)
Fixpoint read_tables (n : nat) (i tables : Z) : MC (option (list (positive * list ksm_event_log))) :=
  match n with
  | O => mret (Some [])
  | S n' =>
    c ← get;
    let dma_size := SIZEOF_KSM_EVENT_LOG * this_size (rd_log_cnt (c_result_desc c)) tables i in
    let (entries, p) := huge_alloc (pool c) in
    set_pool p ;;
    match entries with
    | None => mret None
    | Some entries =>
      e ← call;
      if negb (e =? 0) then mret None else
      set_state KSM_RDMA_READ_WAIT ;;
      let addr := rd_result_table_addr (c_result_desc c) + i * MAX_RESULT_TABLE_ENTRIES * SIZEOF_KSM_EVENT_LOG in
      ret ← post (PostRead (rd_rkey (c_result_desc c)) addr dma_size);
      if negb (ret =? 0) then mret None else
      wait_event KSM_RDMA_READ_COMPLETE ;;
      c' ← get;
      if decide (cb_state c' = KSM_RDMA_READ_COMPLETE) then
        rest ← read_tables n' (i + 1) tables;
        mret ((λ l, (entries, remote (rd_rkey (c_result_desc c)) addr dma_size) :: l) <$> rest)
      else mret None
    end
  end.

(** The result and the updated [*ksm_pages_scanned]. *)
Definition result_recv (ksm_pages_scanned : Z) : MC (option result_table * Z) :=
  wait_event KSM_RDMA_RECV_COMPLETE ;;
  c ← get;
  if negb (bool_decide (cb_state c = KSM_RDMA_RECV_COMPLETE)) then mret (None, ksm_pages_scanned) else
  m1 ← call;
  if negb (m1 =? 0) then mret (None, ksm_pages_scanned) else
  let scanned := u64 (ksm_pages_scanned + rd_total_scanned_cnt (c_result_desc c)) in
  let log_cnt := rd_log_cnt (c_result_desc c) in
  let tables := div_round_up log_cnt MAX_RESULT_TABLE_ENTRIES in
  m2 ← call;
  if negb (m2 =? 0) then mret (None, scanned) else
  m3 ← call;
  if negb (m3 =? 0) then mret (None, scanned) else
  r ← read_tables (Z.to_nat tables) 0 tables;
  match r with
  | None => mret (None, scanned)
  | Some l =>
    set_result (ResultDesc 0 0 0 0) ;;
    _ ← post (PostRecv WR_RECV_RESULT);
    mret (Some (ResultTable l tables log_cnt), scanned)
  end.
End remote.

(** [free_result_table] of codes/mm/ksm_rdma.c returns the buffers. *)
Definition free_result_table (t : result_table) : MC unit :=
  for_each (λ e, c ← get; set_pool (huge_dealloc e.1 (pool c))) (entry_tables t).

(** ** The single operations *)
Section single.
(** The memory region of the operation. *)
Context (mr_rkey mr_iova : Z).

(** From the registration to the answer; [strict]: a short mapping stops. *)
Definition styx_request (cmd : operation_cmd) (page_num : Z) (strict : bool) : MC Z :=
  err ← call;
  halt_if (strict && negb (err =? 0)) "ib_map_mr_sg failed" ;;
  _ ← rdma_reg_mr mr_rkey;
  c ← get;
  let d := OperationDescriptor cmd (s32 (op_iteration c)) mr_rkey mr_iova page_num in
  set_op_tx d (u64 (op_iteration c + 1)) ;;
  set_state KSM_CONNECTED ;;
  err ← post (PostSendOp d);
  halt_if (negb (err =? 0)) "ib_post_send failed" ;;
  wait_event KSM_RDMA_RECV_COMPLETE ;;
  c ← get;
  halt_if (negb (bool_decide (cb_state c = KSM_RDMA_RECV_COMPLETE))) "wait for RECV_COMPLETE" ;;
  let result := or_value (single_op_result_rx c) in
  set_op_rx (OperationResult PAGE_COMPARE 0 0) ;;
  _ ← post (PostRecv WR_RECV_SINGLE_RESULT);
  _ ← rdma_invalidate_mr mr_rkey;
  mret result.

(** The scatterlist and the region are allocated once; [sgt], [mr] say which
    of the two exist already.  -1 if an allocation fails. *)
Definition styx_alloc (sgt mr : bool) (k : MC Z) : MC Z :=
  e1 ← (if sgt then mret 0 else call);
  if negb (e1 =? 0) then mret (-1) else
  e2 ← (if mr then mret 0 else call);
  if negb (e2 =? 0) then mret (-1) else k.

Definition styx_memcmp (sgt mr : bool) : MC Z := styx_alloc sgt mr (styx_request PAGE_COMPARE 2 false).

(** [unsigned long long]: the [int] member of the union, sign extended. *)
Definition styx_hash (sgt mr : bool) : MC Z :=
  result ← styx_alloc sgt mr (styx_request PAGE_HASH 1 true); mret (u64 result).
End single.

(** ** Lemmas *)

(** *** The pool *)
Definition pool_free (p : huge_alloc_reserve) : list positive := omap id (ptrs p).

(** [used] counts the empty slots. *)
Definition pool_ok (p : huge_alloc_reserve) : Prop :=
  Z.of_nat (length (ptrs p)) = MAX_HUGE_ALLOC ∧ used p + Z.of_nat (length (pool_free p)) = MAX_HUGE_ALLOC.

Lemma replace_first_Some P v l x l' :
  replace_first P v l = Some (x, l') → ∃ l1 l2, l = l1 ++ x :: l2 ∧ l' = l1 ++ v :: l2 ∧ P x = true.
Proof.
  revert l'. induction l as [|y l IH]; intros l' H; simpl in H; [done|].
  destruct (P y) eqn:HP; [injection H as -> <-; by exists [], l|].
  destruct (replace_first P v l) as [[z l'']|]; [|done]. injection H as -> <-.
  destruct (IH l'' eq_refl) as (l1 & l2 & -> & -> & Hx). by exists (y :: l1), l2.
Qed.

Lemma replace_first_None P v l : replace_first P v l = None → Forall (λ x, P x = false) l.
Proof.
  induction l as [|y l IH]; simpl; [constructor|]. destruct (P y) eqn:HP; [done|].
  destruct (replace_first P v l) as [[z l']|]; [done|]. intros _. constructor; [done|by apply IH].
Qed.

Lemma omap_id_none (l : list (option positive)) : Forall (λ x, bool_decide (x ≠ None) = false) l → omap id l = [].
Proof.
  induction 1 as [|x l Hx _ IH]; [done|]. apply bool_decide_eq_false in Hx. destruct x; [by destruct Hx|done].
Qed.

Lemma omap_id_some (l : list (option positive)) :
  Forall (λ x, bool_decide (x = None) = false) l → length (omap id l) = length l.
Proof.
  induction 1 as [|x l Hx _ IH]; [done|]. apply bool_decide_eq_false in Hx. destruct x; [|done]. cbn. by f_equal.
Qed.

Lemma huge_alloc_some p :
  pool_ok p → pool_free p ≠ [] →
  ∃ ptr p', huge_alloc p = (Some ptr, p') ∧ pool_free p ≡ₚ ptr :: pool_free p' ∧ pool_ok p'.
Proof.
  intros [H1 H2] Hne. unfold huge_alloc, pool_ok, pool_free in *. destruct (replace_first _ _ _) as [[x l]|] eqn:E.
  - apply replace_first_Some in E as (l1 & l2 & E & -> & Hx). rewrite E in *. apply bool_decide_eq_true in Hx.
    destruct x as [ptr|]; [|done]. exists ptr. eexists. split; [done|]. simpl.
    rewrite length_app, !omap_app, length_app in *. simpl in *. split; [by rewrite Permutation_middle|lia].
  - by apply replace_first_None, omap_id_none in E.
Qed.

Lemma huge_dealloc_ok p ptr :
  pool_ok p → used p ≠ 0 → pool_free (huge_dealloc ptr p) ≡ₚ ptr :: pool_free p ∧ pool_ok (huge_dealloc ptr p) ∧
    used (huge_dealloc ptr p) = used p - 1.
Proof.
  intros [H1 H2] Hne. unfold huge_dealloc, pool_ok, pool_free in *. destruct (replace_first _ _ _) as [[x l]|] eqn:E.
  - apply replace_first_Some in E as (l1 & l2 & E & -> & Hx). rewrite E in *. apply bool_decide_eq_true in Hx. subst x.
    simpl. rewrite length_app, !omap_app, length_app in *. simpl in *. split_and!; [by rewrite Permutation_middle|lia..].
  - apply replace_first_None, omap_id_some in E. lia.
Qed.

(** *** What the handlers leave alone *)
Definition same_res (c c' : client) : Prop := live c' = live c ∧ qp_ptr c' = qp_ptr c ∧ cb_mode c' = cb_mode c.

#[export] Instance same_res_preorder : PreOrder same_res.
Proof. split; [done|]. intros c1 c2 c3 (?&?&?) (?&?&?). unfold same_res. intuition congruence. Qed.

(** If [m] returns from [c], [Q] holds: a stop or a wait without end is
    allowed. *)
Definition upon {A} (m : MC A) (c : client) (Q : A → client → Prop) : Prop := ∀ a c', m c = Ok (a, c') → Q a c'.

Lemma upon_ret {A} (a : A) c (Q : A → client → Prop) : Q a c → upon (mret a) c Q.
Proof. by intros H ? ? [= <- <-]. Qed.
Lemma upon_bind {A B} (m : MC A) (f : A → MC B) c (Q : B → client → Prop) :
  upon m c (λ a c', upon (f a) c' Q) → upon (m ≫= f) c Q.
Proof. intros H b c'. unfold mbind, M_bind. destruct (m c) as [[a c1]| |] eqn:E; try done. by apply H. Qed.
Lemma upon_mono {A} (m : MC A) c (P Q : A → client → Prop) : upon m c P → (∀ a c', P a c' → Q a c') → upon m c Q.
Proof. intros H1 H2 a c' E. by apply H2, H1. Qed.
Lemma upon_halt {A} why c (Q : A → client → Prop) : upon (halt why) c Q.
Proof. by intros ? ? ?. Qed.
Lemma upon_fault {A} why c (Q : A → client → Prop) : upon (fault why) c Q.
Proof. by intros ? ? ?. Qed.
Lemma upon_modify (f : client → client) c (Q : unit → client → Prop) : Q tt (f c) → upon (modify f) c Q.
Proof. by intros H ? ? [= <- <-]. Qed.
Lemma upon_get c (Q : client → client → Prop) : Q c c → upon get c Q.
Proof. by intros H ? ? [= <- <-]. Qed.
Lemma upon_call c (Q : Z → client → Prop) : (∀ r c', same_res c c' → Q r c') → upon call c Q.
Proof. intros H r c'. unfold call. destruct (rets c); intros [= <- <-]; by apply H. Qed.

(** A frame: [m] keeps the resources. *)
Definition keeps {A} (m : MC A) : Prop := ∀ c, upon m c (λ _ c', same_res c c').

Lemma keeps_bind {A B} (m : MC A) (f : A → MC B) : keeps m → (∀ a, keeps (f a)) → keeps (m ≫= f).
Proof.
  intros H1 H2 c. apply upon_bind. eapply upon_mono; [apply H1|]. intros a c1 Hc. eapply upon_mono; [apply H2|].
  intros b c2 Hc2. exact (transitivity Hc Hc2).
Qed.
Lemma keeps_modify f : (∀ c, same_res c (f c)) → keeps (modify f).
Proof. intros H c. by apply upon_modify. Qed.
Lemma keeps_ret {A} (a : A) : keeps (mret a).
Proof. intros c. by apply upon_ret. Qed.
Lemma keeps_get : keeps get.
Proof. intros c. by apply upon_get. Qed.
Lemma keeps_gets {A} (f : client → A) : keeps (gets f).
Proof. by intros c ? ? [= <- <-]. Qed.
Lemma keeps_halt {A} why : keeps (halt (A := A) why).
Proof. intros c. apply upon_halt. Qed.
Lemma keeps_call : keeps call.
Proof. intros c. by apply upon_call. Qed.

Create HintDb client.
#[export] Hint Resolve keeps_ret keeps_get keeps_gets keeps_halt keeps_call : client.

Ltac keeps :=
  repeat first
    [ progress auto with client
    | apply keeps_bind; [|intros ?]
    | apply keeps_modify; by intros []
    | case_match ].

Lemma keeps_poll l : keeps (poll_completions l).
Proof. induction l; simpl; unfold client_recv, set_state, set_cq; keeps. Qed.
#[export] Hint Resolve keeps_poll : client.

Lemma keeps_deliver l : keeps (for_each (λ wc, deliver (wc_data wc)) l).
Proof. induction l as [|[]]; simpl; unfold deliver, set_result, set_op_rx; keeps. Qed.
#[export] Hint Resolve keeps_deliver : client.

Lemma keeps_handle i : keeps (handle i).
Proof. destruct i as [e|l]; simpl; unfold cma_event_handler, cq_event_handler, set_state, set_cq; keeps. Qed.
#[export] Hint Resolve keeps_handle : client.

Lemma keeps_wait st : keeps (wait_event st).
Proof.
  unfold wait_event. keeps. generalize dependent a. intros l. induction l as [|[i| |] l IH]; simpl; unfold set_irqs; keeps.
Qed.
Lemma keeps_run_now : keeps run_now.
Proof.
  unfold run_now. keeps. generalize dependent a. intros l. induction l as [|[i| |] l IH]; simpl; unfold set_irqs; keeps.
Qed.
#[export] Hint Resolve keeps_wait keeps_run_now : client.

Lemma upon_keeps {A} (m : MC A) c (Q : A → client → Prop) :
  keeps m → (∀ a c', same_res c c' → Q a c') → upon m c Q.
Proof. intros Hm HQ. eapply upon_mono; [apply Hm|]. intros a c' H. by apply HQ. Qed.

Lemma keeps_post w : keeps (post w).
Proof. unfold post, add_posted. keeps. by intros c ? ?. by intros c ? ?. Qed.
#[export] Hint Resolve keeps_post : client.

Lemma upon_acquire r c (Q : Z → client → Prop) :
  (∀ ret c', live c' = (if ret =? 0 then {[r]} ∪ live c else live c) → qp_ptr c' = qp_ptr c → cb_mode c' = cb_mode c →
     Q ret c') → upon (acquire r) c Q.
Proof.
  intros HQ. unfold acquire, set_live. apply upon_bind, upon_call. intros ret c1 (H1 & H2 & H3). apply upon_bind.
  specialize (HQ ret). destruct (ret =? 0).
  - apply upon_modify, upon_ret, HQ; simpl; by rewrite ?H1, ?H2, ?H3.
  - by apply upon_ret, upon_ret, HQ.
Qed.

Lemma upon_destroy r why c (Q : unit → client → Prop) :
  (∀ c', r ∈ live c → live c' = live c ∖ {[r]} → qp_ptr c' = qp_ptr c → cb_mode c' = cb_mode c → Q tt c') →
  upon (destroy r why) c Q.
Proof.
  intros HQ. unfold destroy, set_live. apply upon_bind, upon_get. case_decide as Hr; [|apply upon_fault].
  by apply upon_modify, HQ.
Qed.

(** The four resources of a connection; the other four are DMA mappings. *)
Definition is_map (r : client_res) : bool :=
  match r with CMdMap | CResultMap | COpDescMap | COpResultMap => true | _ => false end.

(** Of the connection resources, [c] holds those of [S]. *)
Definition holds (S : list client_res) (c : client) : Prop := ∀ r, is_map r = false → (r ∈ live c ↔ r ∈ S).

Lemma holds_live S c c' : live c' = live c → holds S c → holds S c'.
Proof. by unfold holds; intros ->. Qed.

Lemma holds_add S r c c' : live c' = {[r]} ∪ live c → holds S c → holds (r :: S) c'.
Proof. intros Hl H x Hx. rewrite Hl, elem_of_union, elem_of_singleton, elem_of_cons, (H x Hx). done. Qed.

Lemma holds_map S r c c' : is_map r = true → live c' = {[r]} ∪ live c → holds S c → holds S c'.
Proof. intros Hr Hl H x Hx. rewrite Hl, elem_of_union, elem_of_singleton, (H x Hx). naive_solver congruence. Qed.

Lemma holds_drop_map S r c c' : is_map r = true → live c' = live c ∖ {[r]} → holds S c → holds S c'.
Proof. intros Hr Hl H x Hx. rewrite Hl, elem_of_difference, elem_of_singleton, (H x Hx). naive_solver congruence. Qed.

Lemma holds_drop S r c c' : live c' = live c ∖ {[r]} → holds S c → holds (filter (.≠ r) S) c'.
Proof. intros Hl H x Hx. rewrite Hl, elem_of_difference, elem_of_singleton, list_elem_of_filter, (H x Hx). naive_solver. Qed.

Definition connected : list client_res := [CQp; CCq; CPd; CCmId].

Lemma upon_setup_qp c (Q : Z → client → Prop) :
  holds [CCmId] c →
  (∀ ret c', (if ret =? 0 then holds connected c' ∧ qp_ptr c' = true ∨ holds [CCq; CPd; CCmId] c' ∧ qp_ptr c' = qp_ptr c
              else holds [CCmId] c') → Q ret c') →
  upon cb_setup_qp c Q.
Proof.
  intros H0 HQ. unfold cb_setup_qp. apply upon_bind, upon_acquire. intros r1 c1 L1 P1 _.
  destruct (r1 =? 0) eqn:E1; simpl; [|apply upon_ret, HQ; rewrite E1; by eapply holds_live].
  eapply holds_add in H0; [|exact L1]. apply upon_bind, upon_acquire. intros r2 c2 L2 P2 _. destruct (r2 =? 0) eqn:E2; simpl.
  2: { apply upon_bind, upon_destroy. intros c3 _ L3 _ _. apply upon_ret, HQ. rewrite E2.
       apply (holds_live _ _ _ L2) in H0. apply (holds_drop _ _ _ _ L3 H0). }
  eapply holds_add in H0; [|exact L2]. apply upon_bind, upon_call. intros r3 c3 (L3 & P3 & _).
  eapply holds_live in H0; [|exact L3]. destruct (r3 =? 0) eqn:E3; simpl.
  2: { apply upon_bind, upon_destroy. intros c4 _ L4 _ _. apply upon_bind, upon_destroy. intros c5 _ L5 _ _. apply upon_ret, HQ.
       rewrite E3. apply (holds_drop _ _ _ _ L4) in H0. apply (holds_drop _ _ _ _ L5) in H0. exact H0. }
  apply upon_bind, upon_call. intros r4 c4 (L4 & P4 & _). eapply holds_live in H0; [|exact L4].
  apply upon_bind. destruct (r4 =? 0).
  - apply upon_modify, upon_ret, HQ. rewrite E3. left. split; [|done]. by eapply holds_add.
  - apply upon_ret, upon_ret, HQ. rewrite E3. right. split; [done|congruence].
Qed.

Lemma upon_setup_buffer S c (Q : Z → client → Prop) :
  holds S c → (∀ ret c', holds S c' → qp_ptr c' = qp_ptr c → Q ret c') → upon cb_setup_buffer c Q.
Proof.
  intros H HQ. unfold cb_setup_buffer.
  assert (Hacq : ∀ r c1 c2 (ret : Z), is_map r = true → holds S c1 → live c2 = (if ret =? 0 then {[r]} ∪ live c1 else live c1) → holds S c2).
  { intros r c1 c2 ret Hr H1. destruct (ret =? 0); intros L; [by eapply holds_map|by eapply holds_live]. }
  apply upon_bind, upon_acquire. intros r1 c1 L1 P1 _. pose proof (Hacq CMdMap _ _ _ eq_refl H L1) as H1.
  destruct (r1 =? 0); simpl; [|by apply upon_ret, HQ].
  apply upon_bind, upon_acquire. intros r2 c2 L2 P2 _. pose proof (Hacq CResultMap _ _ _ eq_refl H1 L2) as H2.
  destruct (r2 =? 0); simpl.
  2: { apply upon_bind, upon_destroy. intros c3 _ L3 P3 _. apply upon_ret, HQ; [|congruence]. exact (holds_drop_map _ CMdMap _ _ eq_refl L3 H2). }
  apply upon_bind, upon_acquire. intros r3 c3 L3 P3 _. pose proof (Hacq COpDescMap _ _ _ eq_refl H2 L3) as H3.
  destruct (r3 =? 0); simpl; [|apply upon_ret, HQ; [done|congruence]].
  apply upon_bind, upon_acquire. intros r4 c4 L4 P4 _. pose proof (Hacq COpResultMap _ _ _ eq_refl H3 L4) as H4.
  apply upon_ret, HQ; [done|congruence].
Qed.

Lemma upon_err0 c (Q : bool → client → Prop) : holds [CCmId] c → (∀ c', holds [] c' → Q false c') → upon err0 c Q.
Proof.
  intros H HQ. unfold err0. apply upon_bind, upon_destroy. intros c1 _ L1 _ _. apply upon_ret, HQ.
  apply (holds_drop _ _ _ _ L1 H).
Qed.

(** From the label [err1] on nothing but mappings is held, or the pointer to
    the queue pair was NULL or stale. *)
Lemma upon_err1 c (Q : bool → client → Prop) :
  holds connected c ∨ holds [CCq; CPd; CCmId] c → (∀ c', holds [] c' → Q false c') → upon err1 c Q.
Proof.
  intros H HQ. unfold err1. apply upon_bind, upon_get, upon_bind. destruct (qp_ptr c) eqn:Hq; [|apply upon_fault].
  apply upon_destroy. intros c1 Hin L1 _ _. destruct H as [H|H].
  - apply (holds_drop _ _ _ _ L1) in H. apply upon_bind, upon_destroy. intros c2 _ L2 _ _.
    apply (holds_drop _ _ _ _ L2) in H. apply upon_bind, upon_destroy. intros c3 _ L3 _ _.
    apply (holds_drop _ _ _ _ L3) in H. by apply upon_err0.
  - apply (H CQp) in Hin; [|done]. set_solver.
Qed.

Lemma keeps_bind_client : keeps rdma_bind_client.
Proof. unfold rdma_bind_client. keeps. Qed.

Lemma keeps_connect : keeps connect_client.
Proof. unfold connect_client, set_state. keeps. Qed.

(** What one attempt that returns has done. *)
Lemma upon_attempt c (Q : bool → client → Prop) :
  holds [] c →
  (∀ (b : bool) c', (if b then holds connected c' else holds [] c') → Q b c') →
  upon connection_attempt c Q.
Proof.
  intros H HQ. unfold connection_attempt, cb_setup_client. apply upon_bind, upon_bind, upon_modify, upon_acquire.
  simpl. intros r1 c1 L1 _ _. destruct (r1 =? 0) eqn:E1; simpl.
  2: { unfold err0. apply upon_bind, upon_destroy. intros c2 Hin _ _ _. rewrite L1 in Hin. apply (H CCmId) in Hin; [|done]. set_solver. }
  eapply holds_add in H; [|exact L1]. apply upon_bind, upon_keeps; [apply keeps_bind_client|]. intros r2 c2 (L2 & _).
  eapply holds_live in H; [|exact L2].
  assert (Hno : ∀ c', holds [] c' → Q false c') by (intros; by apply HQ).
  destruct (r2 =? 0); simpl; [|by apply upon_err0].
  apply upon_bind, upon_setup_qp; [done|]. intros r3 c3 H3. destruct (r3 =? 0); simpl; [|by apply upon_err0].
  apply upon_bind. apply (upon_setup_buffer (if decide (CQp ∈ live c3) then connected else [CCq; CPd; CCmId])).
  { destruct H3 as [[H3 _]|[H3 _]]; case_decide as Hq; try done; [by contradict Hq; apply (H3 CQp); [|set_solver]|].
    apply (H3 CQp) in Hq; [|done]. set_solver. }
  intros r4 c4 H4 _. assert (H4' : holds connected c4 ∨ holds [CCq; CPd; CCmId] c4) by (case_decide; auto). clear H4.
  destruct (r4 =? 0); simpl; [|by apply upon_err1]. apply upon_bind, upon_get.
  assert (Hpost : ∀ t, upon (ret ← post (PostRecv t); if negb (ret =? 0) then err1 else
     ret ← connect_client; if negb (ret =? 0) then err1 else mret true) c4 Q).
  { intros t. apply upon_bind. unfold post. apply upon_bind, upon_get. destruct (qp_ptr c4); simpl; [|apply upon_fault].
    case_decide as Hq; [|apply upon_fault]. assert (H5 : holds connected c4).
    { destruct H4' as [?|H5]; [done|]. apply (H5 CQp) in Hq; [|done]. set_solver. }
    assert (keeps (ret ← call; (if ret =? 0 then add_posted (PostRecv t) else mret tt) ;; mret ret)) as Hk
      by (unfold add_posted; keeps).
    apply (upon_keeps _ _ _ Hk). intros r5 c5 (L5 & _). eapply holds_live in H5; [|exact L5].
    destruct (r5 =? 0); simpl; [|apply upon_err1; auto].
    apply upon_bind, upon_keeps; [apply keeps_connect|]. intros r6 c6 (L6 & _). eapply holds_live in H5; [|exact L6].
    destruct (r6 =? 0); simpl; [by apply upon_ret, HQ|apply upon_err1; auto]. }
  destruct (cb_mode c4); [by apply upon_err1|apply Hpost..].
Qed.

(** *** Reading the result table *)
Definition read_done : moment := Irq (Completions [WorkCompletion WC_SUCCESS WR_READ_RESULT WC_RDMA_READ NoData]).

Lemma wp_wait_read m lv rd tx rx pl it po l (Q : unit → client → Prop) :
  Q tt (Client KSM_RDMA_READ_COMPLETE m lv true [] rd tx rx pl it po [] l) →
  wp (wait_event KSM_RDMA_READ_COMPLETE) (Client KSM_RDMA_READ_WAIT m lv true [] rd tx rx pl it po [] (read_done :: l)) Q.
Proof. destruct l as [|[i| |] l]; intros H; exact H. Qed.

Lemma wp_call_nil c (Q : Z → client → Prop) : rets c = [] → Q 0 c → wp call c Q.
Proof. intros H HQ. unfold wp, call. by rewrite H. Qed.

Lemma wp_post st m lv rd tx rx pl it po l w (Q : Z → client → Prop) :
  CQp ∈ lv → Q 0 (Client st m lv true [] rd tx rx pl it (po ++ [w]) [] l) →
  wp (post w) (Client st m lv true [] rd tx rx pl it po [] l) Q.
Proof.
  intros Hq H. unfold post. wp_steps. simpl. rewrite decide_True by done. wp_steps. unfold call. exact H.
Qed.

Section remote_spec.
Context (remote : Z → Z → Z → list ksm_event_log).

(** The part of the remote table that read [i] of [tables] brings. *)
Definition remote_part (rd : result_desc) (tables i : Z) : list ksm_event_log :=
  remote (rd_rkey rd) (rd_result_table_addr rd + i * MAX_RESULT_TABLE_ENTRIES * SIZEOF_KSM_EVENT_LOG)
    (SIZEOF_KSM_EVENT_LOG * this_size (rd_log_cnt rd) tables i).

Lemma wp_read_tables n i tables st m lv rd tx rx pl it po l (Q : option (list (positive * list ksm_event_log)) → client → Prop) :
  CQp ∈ lv → pool_ok pl → (n ≤ length (pool_free pl))%nat →
  (∀ bufs st' pl' po', length bufs = n → pool_ok pl' → pool_free pl ≡ₚ bufs ++ pool_free pl' → used pl' = used pl + Z.of_nat n →
     Q (Some (zip bufs (remote_part rd tables <$> ((λ k, i + Z.of_nat k) <$> seq 0 n))))
       (Client st' m lv true [] rd tx rx pl' it po' [] l)) →
  wp (read_tables remote n i tables) (Client st m lv true [] rd tx rx pl it po [] (replicate n read_done ++ l)) Q.
Proof.
  intros Hq. revert i st pl po Q. induction n as [|n IH]; intros i st pl po Q Hp Hn HQ; simpl.
  - apply wp_ret. apply (HQ [] st pl po); [done|done|done|lia].
  - wp_step. wp_step. simpl. destruct (huge_alloc_some pl Hp) as (ptr & pl1 & -> & Hperm & Hp1); [by destruct (pool_free pl); simpl in *; [lia|]|].
    assert (used pl1 = used pl + 1) as Hu.
    { destruct Hp as [_ Hp], Hp1 as [_ Hp1]. rewrite Hperm in Hp. simpl in Hp. lia. }
    wp_step. unfold set_pool. apply wp_modify. simpl. wp_step. apply wp_call_nil; [done|]. simpl.
    wp_step. unfold set_state. apply wp_modify. simpl. wp_step. apply wp_post; [done|]. simpl.
    wp_step. apply wp_wait_read. wp_step. apply wp_get. cbn [cb_state]. rewrite decide_True by done.
    wp_step. apply IH; [done|rewrite Hperm in Hn; simpl in Hn; lia|].
    intros bufs st' pl' po' Hl Hp' Hperm' Hu'. wp_step. cbn [fmap option_fmap option_map].
    specialize (HQ (ptr :: bufs) st' pl' po'). simpl in HQ. rewrite Z.add_0_r in HQ.
    rewrite <- (fmap_S_seq 0 n) in HQ. rewrite <- !list_fmap_compose in HQ.
    assert ((λ k : nat, i + 1 + Z.of_nat k) <$> seq 0 n = ((λ k : nat, i + Z.of_nat k) ∘ S) <$> seq 0 n) as ->.
    { apply list_fmap_ext. intros k x _. unfold compose. lia. }
    rewrite <- list_fmap_compose. apply HQ; [by rewrite Hl|done|by rewrite Hperm, Hperm'|lia].
Qed.

(** The parts are the whole table: contiguous, of [log_cnt] entries. *)
Lemma remote_parts rd (L : list ksm_event_log) :
  (∀ a n, 0 ≤ a → 0 ≤ n → a + n ≤ Z.of_nat (length L) →
     remote (rd_rkey rd) (rd_result_table_addr rd + a * SIZEOF_KSM_EVENT_LOG) (SIZEOF_KSM_EVENT_LOG * n)
     = take (Z.to_nat n) (drop (Z.to_nat a) L)) →
  rd_log_cnt rd = Z.of_nat (length L) →
  let tables := div_round_up (rd_log_cnt rd) MAX_RESULT_TABLE_ENTRIES in
  mjoin (remote_part rd tables <$> ((λ k, 0 + Z.of_nat k) <$> seq 0 (Z.to_nat tables))) = L.
Proof.
  intros Hr Hcnt. cbv zeta. rewrite Hcnt. set (MX := MAX_RESULT_TABLE_ENTRIES). set (tables := div_round_up _ _).
  assert (0 < MX) as HMX by done.
  assert (Hdiv : MX * tables - MX < Z.of_nat (length L) ≤ MX * tables).
  { unfold tables, div_round_up. pose proof (Z.div_mod (Z.of_nat (length L) + MX - 1) MX ltac:(lia)).
    pose proof (Z.mod_pos_bound (Z.of_nat (length L) + MX - 1) MX ltac:(lia)). lia. }
  assert (Hpart : ∀ n, (Z.of_nat n ≤ tables) →
     mjoin (remote_part rd tables <$> ((λ k, 0 + Z.of_nat k) <$> seq 0 n)) = take (n * Z.to_nat MX) L).
  { induction n as [|n IH]; intros Hn; [done|]. rewrite seq_S, !fmap_app, join_app, IH by lia.
    simpl fmap. simpl mjoin. rewrite app_nil_r. unfold remote_part, this_size. rewrite Hcnt, !Z.add_0_l. fold MX.
    replace (S n * Z.to_nat MX)%nat with (n * Z.to_nat MX + Z.to_nat MX)%nat by lia. rewrite <- take_take_drop.
    assert (0 ≤ Z.of_nat n * MX) by (apply Z.mul_nonneg_nonneg; lia).
    f_equal. destruct (Z.eqb_spec (Z.of_nat n) (tables - 1)) as [He|He].
    - assert (Z.of_nat n * MX = MX * tables - MX) as En by (rewrite He; ring).
      assert (n * Z.to_nat MX = Z.to_nat (MX * tables - MX))%nat as En' by (rewrite <- En; lia).
      rewrite Hr by lia. rewrite En, En'. rewrite !take_ge; [done|rewrite length_drop; lia..].
    - rewrite Hr by nia. by replace (Z.to_nat (Z.of_nat n * MX)) with (n * Z.to_nat MX)%nat by lia. }
  rewrite Hpart by lia. apply take_ge. nia.
Qed.
End remote_spec.

Lemma wp_result_recv remote pages st m lv rd tx rx pl it po l (Q : option result_table * Z → client → Prop) :
  let tables := div_round_up (rd_log_cnt rd) MAX_RESULT_TABLE_ENTRIES in
  st = KSM_RDMA_RECV_COMPLETE → CQp ∈ lv → pool_ok pl → (Z.to_nat tables ≤ length (pool_free pl))%nat →
  (∀ bufs st' pl' po', length bufs = Z.to_nat tables → pool_ok pl' → pool_free pl ≡ₚ bufs ++ pool_free pl' →
     used pl' = used pl + Z.of_nat (Z.to_nat tables) →
     Q (Some (ResultTable (zip bufs (remote_part remote rd tables <$> ((λ k, 0 + Z.of_nat k) <$> seq 0 (Z.to_nat tables))))
                tables (rd_log_cnt rd)),
        u64 (pages + rd_total_scanned_cnt rd))
       (Client st' m lv true [] (ResultDesc 0 0 0 0) tx rx pl' it (po' ++ [PostRecv WR_RECV_RESULT]) [] l)) →
  wp (result_recv remote pages)
     (Client st m lv true [] rd tx rx pl it po [] (replicate (Z.to_nat tables) read_done ++ l)) Q.
Proof.
  intros tables -> Hq Hp Hn HQ. unfold result_recv. wp_step. unfold wait_event. wp_step. wp_step. simpl irqs.
  assert (∀ l' (R : unit → client → Prop) c, cb_state c = KSM_RDMA_RECV_COMPLETE → R tt (Client (cb_state c) (cb_mode c) (live c) (qp_ptr c)
    (cq_entries c) (c_result_desc c) (single_op_desc_tx c) (single_op_result_rx c) (pool c) (op_iteration c) (posted c) (rets c) l') →
    wp (wait_from l' KSM_RDMA_RECV_COMPLETE) c R) as Hwait.
  { intros l' R c Hc HR. destruct l'; simpl; wp_step; wp_step; rewrite Hc; simpl; unfold set_irqs; by wp_step. }
  apply Hwait; [done|]. simpl. wp_steps. simpl.
  do 3 (apply wp_bind, wp_call_nil; [done|]; simpl). wp_step. fold tables. apply wp_read_tables; [done..|].
  intros bufs st' pl' po' H1 H2 H3 H4. wp_step. unfold set_result. wp_step. simpl. wp_step. apply wp_post; [done|].
  wp_step. by apply HQ.
Qed.

(** Returning the buffers undoes the allocations. *)
Lemma wp_free_result_table t c (Q : unit → client → Prop) :
  pool_ok (pool c) → used (pool c) = Z.of_nat (length (entry_tables t)) →
  (∀ p, pool_ok p → used p = 0 → pool_free p ≡ₚ (entry_tables t).*1 ++ pool_free (pool c) →
     Q tt (Client (cb_state c) (cb_mode c) (live c) (qp_ptr c) (cq_entries c) (c_result_desc c) (single_op_desc_tx c)
            (single_op_result_rx c) p (op_iteration c) (posted c) (rets c) (irqs c))) →
  wp (free_result_table t) c Q.
Proof.
  unfold free_result_table. destruct t as [es ? ?]. simpl. revert c. induction es as [|[b l] es IH]; intros c Hp Hu HQ; simpl.
  - apply wp_ret. destruct c. apply HQ; done.
  - simpl in Hu. destruct (huge_dealloc_ok (pool c) b Hp ltac:(lia)) as (H1 & H2 & H3).
    wp_step. wp_step. wp_step. unfold set_pool. wp_step. apply IH; simpl; [done|lia|].
    intros p Hp' Hu' Hperm. apply HQ; [done|done|]. rewrite Hperm, H1. by rewrite <- Permutation_middle.
Qed.

(** *** The single operations *)
Definition reg_done : moment := Irq (Completions [WorkCompletion WC_SUCCESS WR_REG_MR WC_REG_MR NoData]).
Definition op_answer (r : operation_result) : moment :=
  Irq (Completions [WorkCompletion WC_SUCCESS WR_RECV_SINGLE_RESULT WC_RECV (OpData r)]).

(** What the server is asked. *)
Definition request (cmd : operation_cmd) (it rkey iova pages : Z) : operation_descriptor :=
  OperationDescriptor cmd (s32 it) rkey iova pages.

Lemma wp_reg_mr rkey st m lv rd tx rx pl it po l (Q : Z → client → Prop) :
  CQp ∈ lv → Q 0 (Client KSM_MEM_REG_COMPLETE m lv true [] rd tx rx pl it (po ++ [PostRegMr rkey]) [] l) →
  wp (rdma_reg_mr rkey) (Client st m lv true [] rd tx rx pl it po [] (reg_done :: Later :: l)) Q.
Proof.
  intros Hq HQ. unfold rdma_reg_mr, set_state. wp_step. wp_step. simpl. wp_step. apply wp_post; [done|]. exact HQ.
Qed.

Lemma wp_wait_answer r m lv rd tx rx pl it po l (Q : unit → client → Prop) :
  Q tt (Client KSM_RDMA_RECV_COMPLETE m lv true [] rd tx r pl it po [] l) →
  wp (wait_event KSM_RDMA_RECV_COMPLETE) (Client KSM_CONNECTED m lv true [] rd tx rx pl it po [] (op_answer r :: l)) Q.
Proof. destruct l as [|[i| |] l]; intros H; exact H. Qed.

Lemma wp_styx_request rkey iova cmd pages strict st m lv rd tx rx pl it po l r (Q : Z → client → Prop) :
  CQp ∈ lv →
  Q (or_value r)
    (Client KSM_MR_INVALIDATE_WAIT m lv true [] rd (request cmd it rkey iova pages) (OperationResult PAGE_COMPARE 0 0) pl (u64 (it + 1))
       ((((po ++ [PostRegMr rkey]) ++ [PostSendOp (request cmd it rkey iova pages)]) ++ [PostRecv WR_RECV_SINGLE_RESULT]) ++ [PostInvalidate rkey]) [] l) →
  wp (styx_request rkey iova cmd pages strict)
    (Client st m lv true [] rd tx rx pl it po [] (reg_done :: Later :: op_answer r :: l)) Q.
Proof.
  intros Hq HQ. unfold styx_request. wp_step. apply wp_call_nil; [done|]. wp_step. apply wp_halt_if; [by destruct strict|].
  wp_step. apply wp_reg_mr; [done|]. wp_step. wp_step. unfold set_op_tx, set_state. wp_step. wp_step. simpl. wp_step. wp_step. simpl.
  wp_step. apply wp_post; [done|]. wp_step. apply wp_halt_if; [done|]. wp_step. apply wp_wait_answer.
  wp_step. wp_step. wp_step. apply wp_halt_if; [done|]. unfold set_op_rx. wp_step. wp_step. simpl. wp_step. apply wp_post; [done|].
  wp_step. unfold rdma_invalidate_mr, set_state. wp_step. wp_step. simpl. apply wp_post; [done|]. wp_step. exact HQ.
Qed.
