(* ===== verification/RoundProps.v ===== *)
(** * RoundProps: what a round of the service achieves

    The properties of one scanned page, of a pass over the host's pages and of
    a whole round, and of undoing the merges the host reports as failed. *)
From S2P Require Import Prelude Wire HashPair Store LogTable Metadata Merge MetadataInv ChainInv MetadataSpec RehashInv MergeSpec PruneSpec LookupSpec Scan ScanSpec ErrorHandling Server Examples.
Open Scope Z_scope.

(** ** Shared lemmas *)


(** The nodes of a well-formed state. *)
Definition bounded_sharing (m : ksm_metadata) : Prop :=
  ∀ n nd, nodes m !! n = Some nd →
    shared_cnt nd = Z.of_nat (size (sharing_item_tree nd)) ∧ 1 ≤ shared_cnt nd ≤ MAX_PAGE_SHARING ∧
    ∀ k, is_Some (sharing_item_tree nd !! k) → sharing_view m !! k = Some (node_pfn nd).

Lemma metadata_ok_bounded m : metadata_ok m → bounded_sharing m.
Proof.
  intros [C [Hr [_ H2 H3] _ _]] n nd Hn. destruct (H3 n nd Hn) as (E1 & E2 & E3). specialize (E3 ltac:(done)).
  split_and!; [done|lia|done|]. intros k [l Hk]. destruct (H2 n nd Hn k l Hk) as (_ & it & Hl & <- & Hst & Hsn).
  rewrite sharing_view_lookup. rewrite (proj2 (Hr _ l)) by eauto. simpl. rewrite Hl. simpl.
  unfold node_pfn_of. rewrite Hst, Hsn. simpl. by rewrite Hn.
Qed.

Lemma demo_item : at_item demo2 [toy_merge] 2%positive (default (init_item 0 0 (RmapItem 0 0 0 0 0 0 null_hash INone 0 0 None)) (items (metadata demo2) !! 2%positive)).
Proof. destruct idle_demo2 as [[H1 H2 H3 H4] _]. by split. Qed.

(** ** One page *)

(** C1: [cmp_and_merge_one] implements its specification: from a well-formed
    server it returns 0, sends the host at most one event, and the change to
    who shares which frame is exactly what the host gets by replaying that
    event; the invariant, the log and every other item's identity are kept,
    and a page that is merged or parked carries the hash of its present
    content. *)
Theorem cmp_and_merge_one_refines `{XXHash} pf fh pre pg s L l it :
  at_item s L l it → Z.of_nat (length L) + 1 < 2 ^ 30 → state it = Volatile ∨ state it = Stable →
  calculate_hash_pair pre pg ≠ null_hash → pf (key_of it) = pfn it → fh (pfn it) = calculate_hash_pair pre pg →
  rehash_free s it (calculate_hash_pair pre pg) →
  wp (cmp_and_merge_one pre pg l) s (λ r s', r = 0 ∧ ∃ new it',
    (length new ≤ 1)%nat ∧ progress pf fh l s L s' new ∧
    sharing_view (metadata s') = replay pf (sharing_view (metadata s)) new ∧
    items (metadata s') !! l = Some it' ∧ item_outcome (calculate_hash_pair pre pg) it it').
Proof.
  intros Hat Hlen Hst Hnn Hpf Hfh Hfree. eapply wp_mono; [by eapply wp_cmp_and_merge_one|].
  intros r s' (-> & new & it' & Hp & Hl & Hi & Ho). split; [done|]. exists new, it'. split_and!; [done|done|by destruct Hp|done|done].
Qed.

Lemma cmp_and_merge_one_refines_witness :
  ∃ it, wp (cmp_and_merge_one None toy_page 2%positive) demo2 (λ r s', r = 0 ∧ ∃ new it',
    (length new ≤ 1)%nat ∧ progress toy_pf toy_hash_of 2%positive demo2 [toy_merge] s' new ∧
    sharing_view (metadata s') = replay toy_pf (sharing_view (metadata demo2)) new ∧
    items (metadata s') !! 2%positive = Some it' ∧ item_outcome (calculate_hash_pair None toy_page) it it').
Proof.
  eexists. apply (cmp_and_merge_one_refines toy_pf toy_hash_of None toy_page demo2 [toy_merge] 2%positive _ demo_item);
    [done|by right|done|by vm_compute|by vm_compute|]. intros n nd _ _ _ _ Hne. exfalso. apply Hne. by vm_compute.
Defined.



(** C3: a round of the service is correct.  From a server at rest, with no
    failed merges to undo, [serve_round] answers with the number of pages
    scanned; the entries the host reads back from the registered table are
    the merges and separations of this round, whose replay is exactly the
    change to the sharing of the pages still known, followed by the stale
    nodes dropped; the server is at rest again, one iteration later, with its
    counters reset. *)
Theorem serve_round_correct `{XXHash} `{RdmaReads} `{ErrorReads} pf fh pre rkey addr s L (first : bool) md ws :
  idle s L → (first = true → L = []) → frames_ok fh (metadata s) → no_errors md → served pf fh pre md ws →
  Z.of_nat (size (rmap_tree (metadata s))) + 2 * Z.of_nat (length (batch_of pre ws)) < 2 ^ 30 →
  wp (serve_round cmp_and_merge_one pre rkey addr verbs_ok first md) s (λ r s', ∃ res n1 n2,
    r = Again res ∧ rd_total_scanned_cnt res = pages_of ws ∧ rd_rkey res = rkey ∧ rd_result_table_addr res = addr ∧
    reported_log s' res = n1 ++ n2 ∧ Forall (λ e, log_type e = DPU_STALE_STABLE_NODE) n2 ∧
    sharing_view (metadata s') =
      filter (λ kp, kp.1 ∈ dom (rmap_tree (metadata s'))) (replay pf (sharing_view (metadata s)) n1) ∧
    idle s' (n1 ++ n2) ∧ frames_ok fh (metadata s') ∧ bounded_sharing (metadata s') ∧
    iteration s' = s32 (iteration s + 1) ∧ stats s' = zero_stats ∧ total_accessed_cnt s' = 0).
Proof.
  intros Hid Hfirst Hf Hne [S1 S2 S3 S4 S5] Hlen.
  eapply (wp_serve_round pf fh pre rkey addr s L first md ws); [done..|].
  intros s' n1 n2 E1 E2 E3 _ E4 E5 E6 E7. eexists _, n1, n2. split; [reflexivity|].
  assert (reported_log s' (ResultDesc (pages_of ws) (Z.of_nat (length (n1 ++ n2))) rkey addr) = n1 ++ n2) as Hrep.
  { unfold reported_log. simpl. rewrite <- (lr_cnt _ _ (id_log _ _ E1)). exact (log_repr_list _ _ (id_log _ _ E1)). }
  split_and!; try done; [|apply metadata_ok_bounded, E1]. eapply Forall_impl; [exact E3|]. by intros e [? _].
Qed.

Lemma serve_round_correct_witness :
  wp (serve_round cmp_and_merge_one no_pre 5 6 verbs_ok false toy_md) demo1 (λ r s', ∃ res n1 n2,
    r = Again res ∧ rd_total_scanned_cnt res = 2 ∧ rd_rkey res = 5 ∧ rd_result_table_addr res = 6 ∧
    reported_log s' res = n1 ++ n2 ∧ Forall (λ e, log_type e = DPU_STALE_STABLE_NODE) n2 ∧
    sharing_view (metadata s') =
      filter (λ kp, kp.1 ∈ dom (rmap_tree (metadata s'))) (replay toy_pf (sharing_view (metadata demo1)) n1) ∧
    idle s' (n1 ++ n2) ∧ frames_ok toy_hash_of (metadata s') ∧ bounded_sharing (metadata s') ∧
    iteration s' = s32 (iteration demo1 + 1) ∧ stats s' = zero_stats ∧ total_accessed_cnt s' = 0).
Proof.
  destruct idle_demo1 as [H1 H2].
  apply (serve_round_correct toy_pf toy_hash_of no_pre 5 6 demo1 [] false toy_md toy_work); [done|done|done|done|apply toy_served|by vm_compute].
Defined.

(** ** Undoing failed merges *)

(** C15: [do_handle_error] undoes exactly what the host could not apply.  When
    every reported event is a stable merge of an item still sharing that
    frame, each item reported once, the server returns 0 having taken each of
    them, and nothing else, out of its node: the rmap tree is unchanged, the
    invariant and the log are kept, at most one event per report is queued
    (the nodes that lost their last item). *)
Theorem do_handle_error_undoes `{ErrorReads} et_desc s L es :
  undoable s L es → 
  logs_readable et_desc 0 (take (Z.to_nat (et_desc_cnt et_desc)) (et_entries et_desc)) (et_total_cnt et_desc) es →
  wp (do_handle_error et_desc) s (λ r s', r = 0 ∧ metadata_ok (metadata s') ∧
    rmap_tree (metadata s') = rmap_tree (metadata s) ∧
    (∃ new, log_repr (log_table s') (L ++ new) ∧ (length new ≤ length es)%nat) ∧
    ∀ k, sharing_view (metadata s') !! k =
      if decide (k ∈ failed_key <$> es) then None else sharing_view (metadata s) !! k).
Proof.
  intros Hu Hr. eapply wp_mono; [by eapply wp_handle_chunks|]. intros r s' [-> [U1 U2 U3 U4 U5]].
  split_and!; [done|done|done|done|]. intros k. rewrite U5. case_decide as Hk; [|by apply lookup_foldl_delete].
  clear -Hk. generalize (sharing_view (metadata s)). induction es as [|e es IH]; intros V; [set_solver|].
  rewrite fmap_cons, elem_of_cons in Hk. simpl. destruct (decide (k ∈ failed_key <$> es)) as [Hin|Hni]; [by apply IH|].
  rewrite lookup_foldl_delete by done. destruct Hk as [->|Hk]; [apply lookup_delete_eq|done].
Qed.

Definition toy_failed : ksm_event_log := KsmEventLog HOST_MERGE_ONE_FAILED 4096 11 2 2.
Definition toy_report : ErrorReads := {| read_log_pages _ _ := Some [toy_failed] |}.
Definition toy_report_desc : error_table_descriptor := ErrorTableDescriptor 1 1 [ErrorTableDescEntry 0 0].

Lemma do_handle_error_undoes_witness :
  wp (do_handle_error (H := toy_report) toy_report_desc) demo2 (λ r s', r = 0 ∧ metadata_ok (metadata s') ∧
    rmap_tree (metadata s') = rmap_tree (metadata demo2) ∧
    (∃ new, log_repr (log_table s') ([toy_merge] ++ new) ∧ (length new ≤ 1)%nat) ∧
    ∀ k, sharing_view (metadata s') !! k =
      if decide (k ∈ failed_key <$> [toy_failed]) then None else sharing_view (metadata demo2) !! k).
Proof.
  destruct idle_demo2 as [[H1 H2 H3 H4] _]. apply (do_handle_error_undoes (H := toy_report) toy_report_desc demo2 [toy_merge] [toy_failed]).
  - split; [done|done|done|by vm_compute| |apply NoDup_singleton]. constructor; [|constructor]. by vm_compute.
  - split; [|by vm_compute]. eexists. by split.
Defined.

(** C16: a failed promotion is undone as a whole: [HOST_MERGE_TWO_FAILED]
    dissolves the node the pair was given; every item of that node, and no
    other, stops sharing, the node is gone from its chain and from the hash
    table, and no event is queued. *)
Theorem merge_two_failed_dissolves s e p :
  metadata_ok (metadata s) → no_oom s →
  sharing_view (metadata s) !! (um_from_mm_id e, um_from_va e) = Some p →
  log_type e = HOST_MERGE_TWO_FAILED →
  wp (handle_event e) s (λ _ s', ∃ n nd, nodes (metadata s) !! n = Some nd ∧ node_pfn nd = p ∧
    metadata_ok (metadata s') ∧ log_table s' = log_table s ∧ nodes (metadata s') !! n = None ∧
    rmap_tree (metadata s') = rmap_tree (metadata s) ∧
    sharing_view (metadata s') !! (um_from_mm_id e, um_from_va e) = None ∧
    (∀ k, sharing_item_tree nd !! k = None → sharing_view (metadata s') !! k = sharing_view (metadata s) !! k) ∧
    (∀ k, is_Some (sharing_item_tree nd !! k) → sharing_view (metadata s') !! k = None)).
Proof.
  intros Hok Ho Hv Ht. unfold handle_event. rewrite Ht. eapply wp_merge_two_failed; [done|done|exact Hv|].
  intros s' n nd Hn Hp Hk [U1 U2 U3 U4 U5 U6]. exists n, nd.
  assert (Hnone : ∀ k, is_Some (sharing_item_tree nd !! k) → sharing_view (metadata s') !! k = None).
  { intros k [l Hl]. rewrite U6. apply map_lookup_filter_None. right. intros q _. simpl. by rewrite Hl. }
  split_and!; try done; [by apply Hnone|]. intros k Hkn. rewrite U6.
  apply option_eq. intros q. rewrite map_lookup_filter_Some. simpl. tauto.
Qed.

Definition toy_failed_two : ksm_event_log := retag HOST_MERGE_TWO_FAILED toy_merge.

Lemma merge_two_failed_dissolves_witness :
  wp (handle_event toy_failed_two) demo2 (λ _ s', ∃ n nd, nodes (metadata demo2) !! n = Some nd ∧ node_pfn nd = 11 ∧
    metadata_ok (metadata s') ∧ log_table s' = log_table demo2 ∧ nodes (metadata s') !! n = None ∧
    rmap_tree (metadata s') = rmap_tree (metadata demo2) ∧
    sharing_view (metadata s') !! (um_from_mm_id toy_failed_two, um_from_va toy_failed_two) = None ∧
    (∀ k, sharing_item_tree nd !! k = None → sharing_view (metadata s') !! k = sharing_view (metadata demo2) !! k) ∧
    (∀ k, is_Some (sharing_item_tree nd !! k) → sharing_view (metadata s') !! k = None)).
Proof.
  destruct idle_demo2 as [[H1 H2 H3 H4] _]. apply (merge_two_failed_dissolves demo2 toy_failed_two 11); [done|done|by vm_compute|done].
Defined.
