(* ===== verification/MetadataProps.v ===== *)
(** * MetadataProps: properties of the server's containers

    Chains of stable nodes, the event log, pruning, lookup and teardown, and
    the backoff of volatile pages. *)
From S2P Require Import Prelude Wire HashPair Store LogTable Metadata Merge MetadataInv ChainInv MetadataSpec RehashInv MergeSpec PruneSpec Teardown LookupSpec Scan ScanSpec ErrorHandling Server Examples.
Open Scope Z_scope.

(** ** Pruning and lookup *)



(** C21: [lookup_rmap_item] finds the item of a page or makes exactly one
    volatile item for it; the item is stamped with the scan number and the
    frame the host gave; no other item, no node and no sharing changes. *)
Theorem lookup_rmap_item_spec s mm pte :
  metadata_ok (metadata s) → no_oom s →
  wp (lookup_rmap_item mm pte) s (λ r s', ∃ l it, r = Some l ∧ metadata_ok (metadata s') ∧
    items (metadata s') !! l = Some it ∧ key_of it = (mm, pte_va pte) ∧
    last_access it = s16 (iteration s) ∧ pfn it = pte_kpfn pte ∧
    rmap_tree (metadata s') = <[(mm, pte_va pte) := l]> (rmap_tree (metadata s)) ∧
    (∀ l0, rmap_tree (metadata s) !! (mm, pte_va pte) = Some l0 → l = l0) ∧
    (rmap_tree (metadata s) !! (mm, pte_va pte) = None → state it = Volatile ∧ old_hash it = null_hash) ∧
    (∀ i, i ≠ l → items (metadata s') !! i = items (metadata s) !! i) ∧
    nodes (metadata s') = nodes (metadata s) ∧ sharing_view (metadata s') = sharing_view (metadata s) ∧
    total_accessed_cnt s' = u64 (total_accessed_cnt s + 1) ∧ log_table s' = log_table s).
Proof.
  intros Hok Ho. eapply (wp_lookup_rmap_item s mm pte []); [done|done|]. intros l it s' []. exists l, it.
  destruct lu_ctl as (U1 & U2 & U3), lu_stamp as [U4 U5], lu_nodes as [U6 U7]. destruct Hok as [C [Hr _ _ _]].
  split_and!; try done.
  - intros l0 Hl0. pose proof Hl0 as Hl0'. apply Hr in Hl0' as (it0 & Hi0 & Hk0).
    destruct (decide (l = l0)) as [|Hne]; [done|]. exfalso.
    destruct lu_ok as [C' [Hr' _ _ _]]. apply Hne. eapply (inv_rmap_inj _ _ _ _ it it0 Hr'); [done| |congruence].
    by rewrite lu_others.
  - intros Hn. apply lu_new. destruct (items (metadata s) !! l) as [it0|] eqn:E; [|done].
    destruct (lu_old it0 eq_refl). congruence.
Qed.

Lemma lookup_rmap_item_spec_witness : metadata_ok (metadata demo2) ∧ no_oom demo2 ∧
  wp (lookup_rmap_item 3 (ShadowPte 8192 40)) demo2 (λ r s', ∃ l it, r = Some l ∧ metadata_ok (metadata s') ∧
    items (metadata s') !! l = Some it ∧ key_of it = (3, 8192) ∧
    last_access it = s16 (iteration demo2) ∧ pfn it = 40 ∧
    rmap_tree (metadata s') = <[(3, 8192) := l]> (rmap_tree (metadata demo2)) ∧
    (∀ l0, rmap_tree (metadata demo2) !! (3, 8192) = Some l0 → l = l0) ∧
    (rmap_tree (metadata demo2) !! (3, 8192) = None → state it = Volatile ∧ old_hash it = null_hash) ∧
    (∀ i, i ≠ l → items (metadata s') !! i = items (metadata demo2) !! i) ∧
    nodes (metadata s') = nodes (metadata demo2) ∧ sharing_view (metadata s') = sharing_view (metadata demo2) ∧
    total_accessed_cnt s' = u64 (total_accessed_cnt demo2 + 1) ∧ log_table s' = log_table demo2).
Proof.
  destruct idle_demo2 as [[H1 H2 H3 H4] _]. split_and!; [done|done|]. exact (lookup_rmap_item_spec demo2 3 (ShadowPte 8192 40) H1 H3).
Defined.

(** C22: the teardown leaks nothing and frees nothing twice: from a
    well-formed state [cleanup_rdma_cb]'s destruction of the containers frees
    every item and every node, each while still live. *)
Theorem cleanup_metadata_frees_all s :
  metadata_ok (metadata s) →
  wp cleanup_metadata s (λ _ s', metadata s' = empty_metadata ∧ log_table s' = log_table s).
Proof. intros Hok. by apply wp_cleanup_metadata. Qed.

Lemma cleanup_metadata_frees_all_witness :
  size (items (metadata demo2)) = 2%nat ∧ wp cleanup_metadata demo2 (λ _ s', metadata s' = empty_metadata ∧ log_table s' = log_table demo2).
Proof. split; [done|]. destruct idle_demo2 as [[H1 _ _ _] _]. exact (cleanup_metadata_frees_all demo2 H1). Defined.

(** ** Chains of stable nodes *)

(** [insert_stable_node] appends the node to the chain of its hash,
    heading a new one if there was none; every other chain, and the content
    of every node, is as before. *)
Theorem insert_stable_node_appends C s new nd :
  inv_chain C (delete new (nodes (metadata s))) (stable_hash_table (metadata s)) →
  nodes (metadata s) !! new = Some nd →
  wp (insert_stable_node new) s (λ _ s', ∃ nd',
    inv_chain (<[page_hash nd := default [] (C !! page_hash nd) ++ [new]]> C) (nodes (metadata s')) (stable_hash_table (metadata s')) ∧
    relinked (nodes (metadata s)) (nodes (metadata s')) new ∧
    nodes (metadata s') !! new = Some nd' ∧ content nd' = content nd ∧ items (metadata s') = items (metadata s)).
Proof.
  intros Hc Hn. eapply (wp_insert_stable_node C None s new nd); [exact Hc|exact Hn|reflexivity|].
  intros N' T' nd' Hc' Hrel Hn' Hcont _. exists nd'. split_and!; try done.
  unfold put_chain in Hc'. simpl. by destruct (default [] (C !! page_hash nd)).
Qed.

Definition toy_node : stable_node := new_stable_node (toy_hash_of 0) 12.
Definition demo_alloc : server_st := with_metadata (upd_nodes (<[2%positive := toy_node]>)) demo2.

Lemma demo_alloc_chain : ∃ C, inv_chain C (delete 2%positive (nodes (metadata demo_alloc))) (stable_hash_table (metadata demo_alloc)).
Proof.
  destruct idle_demo2 as [[[C [_ _ Hc _]] _ _ _] _]. exists C.
  change (nodes (metadata demo_alloc)) with (<[2%positive := toy_node]> (nodes (metadata demo2))).
  rewrite delete_insert_id; [exact Hc|by vm_compute].
Qed.

Lemma insert_stable_node_appends_witness : ∃ C,
  wp (insert_stable_node 2%positive) demo_alloc (λ _ s', ∃ nd',
    inv_chain (<[page_hash toy_node := default [] (C !! page_hash toy_node) ++ [2%positive]]> C) (nodes (metadata s')) (stable_hash_table (metadata s')) ∧
    relinked (nodes (metadata demo_alloc)) (nodes (metadata s')) 2%positive ∧
    nodes (metadata s') !! 2%positive = Some nd' ∧ content nd' = content toy_node ∧ items (metadata s') = items (metadata demo_alloc)).
Proof.
  destruct demo_alloc_chain as [C Hc]. exists C. by apply (insert_stable_node_appends C demo_alloc 2%positive toy_node).
Defined.

(** C23: [remove_stable_node_no_item] takes exactly its node out of its chain,
    wherever it is on it: what came before and after is linked together, the
    head of the chain stays the entry of the hash table, the chain disappears
    with its last node, and the node is freed. *)
Theorem remove_stable_node_unlinks C s n nd l1 l2 :
  inv_chain C (nodes (metadata s)) (stable_hash_table (metadata s)) → nodes (metadata s) !! n = Some nd →
  C !! page_hash nd = Some (l1 ++ n :: l2) →
  wp (remove_stable_node_no_item n) s (λ _ s',
    inv_chain (put_chain (page_hash nd) (l1 ++ l2) C) (nodes (metadata s')) (stable_hash_table (metadata s')) ∧
    relinked (nodes (metadata s)) (nodes (metadata s')) n ∧ nodes (metadata s') !! n = None ∧
    items (metadata s') = items (metadata s) ∧
    stable_hash_table (metadata s') !! page_hash nd = head (l1 ++ l2)).
Proof.
  intros Hc Hn HC.
  assert (Hhead : ∀ N' T', inv_chain (put_chain (page_hash nd) (l1 ++ l2) C) N' T' → T' !! page_hash nd = head (l1 ++ l2)).
  { intros N' T' Hc'. rewrite (ic_table _ _ _ Hc'). unfold put_chain.
    destruct (l1 ++ l2); simpl; [by rewrite lookup_delete_eq|by rewrite lookup_insert_eq]. }
  destruct l1 as [|p l1 _] using rev_ind.
  - eapply wp_unlink_head; [exact Hc|exact Hn|exact HC|]. intros N' T' Hc' Hrel Hdel. split_and!; try done. by eapply Hhead.
  - eapply wp_unlink_chain; [exact Hc|exact Hn|exact HC|]. intros N' Hc' Hrel Hdel. split_and!; try done. by eapply Hhead.
Qed.

Lemma remove_stable_node_unlinks_witness : ∃ C nd l1 l2,
  wp (remove_stable_node_no_item 1%positive) demo2 (λ _ s',
    inv_chain (put_chain (page_hash nd) (l1 ++ l2) C) (nodes (metadata s')) (stable_hash_table (metadata s')) ∧
    relinked (nodes (metadata demo2)) (nodes (metadata s')) 1%positive ∧ nodes (metadata s') !! 1%positive = None ∧
    items (metadata s') = items (metadata demo2) ∧
    stable_hash_table (metadata s') !! page_hash nd = head (l1 ++ l2)).
Proof.
  destruct idle_demo2 as [[[C [_ _ Hc _]] _ _ _] _].
  destruct (nodes (metadata demo2) !! 1%positive) as [nd|] eqn:Hn; [|by vm_compute in Hn].
  destruct (chain_split _ _ _ _ _ Hc Hn) as (l1 & l2 & HC). exists C, nd, l1, l2.
  exact (remove_stable_node_unlinks C demo2 1%positive nd l1 l2 Hc Hn HC).
Defined.

(** [cmp_with_stable] is right on both answers: the node it returns has
    the page's hash and room for one more page; it returns none only if every
    node of that hash is full.  It changes nothing and always terminates. *)
Theorem cmp_with_stable_spec s hash :
  metadata_ok (metadata s) →
  wp (cmp_with_stable hash) s (λ r s', s' = s ∧
    match r with
    | Some n => ∃ nd, nodes (metadata s) !! n = Some nd ∧ page_hash nd = hash ∧ shared_cnt nd < MAX_PAGE_SHARING
    | None => ∀ n nd, nodes (metadata s) !! n = Some nd → page_hash nd = hash → shared_cnt nd = MAX_PAGE_SHARING
    end).
Proof.
  intros [C Hwf]. eapply wp_cmp_with_stable; [exact Hwf|]. intros r Hr1 Hr2. split; [done|].
  destruct r as [n|]; [by apply Hr1|]. intros n nd Hn Hh. specialize (Hr2 eq_refl n nd Hn Hh).
  destruct (is_count _ _ _ _ (wf_share _ _ _ _ Hwf) n nd Hn) as (_ & ? & _). lia.
Qed.

Lemma cmp_with_stable_spec_witness : metadata_ok (metadata demo2) ∧
  wp (cmp_with_stable (toy_hash_of 0)) demo2 (λ r s', s' = demo2 ∧
    match r with
    | Some n => ∃ nd, nodes (metadata demo2) !! n = Some nd ∧ page_hash nd = toy_hash_of 0 ∧ shared_cnt nd < MAX_PAGE_SHARING
    | None => ∀ n nd, nodes (metadata demo2) !! n = Some nd → page_hash nd = toy_hash_of 0 → shared_cnt nd = MAX_PAGE_SHARING
    end).
Proof. destruct idle_demo2 as [[H1 _ _ _] _]. split; [done|]. exact (cmp_with_stable_spec demo2 (toy_hash_of 0) H1). Defined.

(** C24: the rehash of a chain moves it as a whole: every node of the chain
    and every item sharing one of them gets the new hash, the table's entry
    moves with its head, nothing else changes, and provided no chain of the
    new hash exists the state is well formed and shares what it shared. *)
Theorem rehash_chain_moves C s n nd h t hash :
  wf C None None (metadata s) → nodes (metadata s) !! n = Some nd → C !! page_hash nd = Some (h :: t) → C !! hash = None →
  wp (rehash_chain n (page_hash nd) hash) s (λ _ s',
    wf (<[hash := h :: t]> (delete (page_hash nd) C)) None None (metadata s') ∧
    sharing_view (metadata s') = sharing_view (metadata s) ∧
    (∀ k kd, nodes (metadata s) !! k = Some kd → nodes (metadata s') !! k =
       Some (if decide (page_hash kd = page_hash nd) then set_page_hash hash kd else kd)) ∧
    (∀ i it, items (metadata s) !! i = Some it → items (metadata s') !! i =
       Some (if decide (state it = Stable ∧ old_hash it = page_hash nd) then set_old_hash hash it else it))).
Proof.
  intros Hwf Hn HC Hfree. eapply wp_rehash_chain; [exact Hwf|exact Hn|exact Hfree|].
  intros h' t' l HC' Hin _. replace h' with h in * by congruence. replace t' with t in * by congruence.
  split_and!; [by apply wf_rehash|apply rehash_view| |].
  - intros k kd Hk. simpl. rewrite lookup_rehash_nodes, Hk. simpl. f_equal.
    apply decide_ext. by eapply in_chain_iff.
  - intros i it Hi. simpl. rewrite lookup_rehash_items, Hi. simpl. f_equal.
    apply decide_ext. rewrite (in_items_iff C s (page_hash nd) h t Hwf HC i it Hi).
    split; intros [Hst Hx]; (split; [done|]);
      destruct (stable_item_node C _ i it Hwf Hi Hst) as (k' & kd & E1 & E2 & _ & E4).
    + destruct Hx as (k & Hk & Hk'). replace k with k' in * by congruence. rewrite E4.
      by apply (in_chain_iff C s (page_hash nd) h t Hwf HC k' kd E2).
    + exists k'. split; [done|]. apply (in_chain_iff C s (page_hash nd) h t Hwf HC k' kd E2). congruence.
Qed.

Lemma rehash_chain_moves_witness : ∃ C nd h t,
  wp (rehash_chain 1%positive (page_hash nd) null_hash) demo2 (λ _ s',
    wf (<[null_hash := h :: t]> (delete (page_hash nd) C)) None None (metadata s') ∧
    sharing_view (metadata s') = sharing_view (metadata demo2) ∧
    (∀ k kd, nodes (metadata demo2) !! k = Some kd → nodes (metadata s') !! k =
       Some (if decide (page_hash kd = page_hash nd) then set_page_hash null_hash kd else kd)) ∧
    (∀ i it, items (metadata demo2) !! i = Some it → items (metadata s') !! i =
       Some (if decide (state it = Stable ∧ old_hash it = page_hash nd) then set_old_hash null_hash it else it))).
Proof.
  destruct idle_demo2 as [[[C Hwf] _ _ _] _]. pose proof (wf_chain _ _ _ _ Hwf) as Hc.
  destruct (nodes (metadata demo2) !! 1%positive) as [nd|] eqn:Hn; [|by vm_compute in Hn].
  destruct (ic_member _ _ _ Hc _ _ Hn) as (l & HC & Hin). destruct (ic_seg _ _ _ Hc _ _ HC) as (Hne & _).
  destruct l as [|h t]; [done|]. exists C, nd, h, t.
  apply (rehash_chain_moves C demo2 1%positive nd h t null_hash Hwf Hn HC).
  destruct (C !! null_hash) as [l|] eqn:E; [|done]. exfalso. destruct (ic_seg _ _ _ Hc _ _ E) as (Hne' & _).
  pose proof (ic_table _ _ _ Hc null_hash) as HT. rewrite E in HT. destruct l; [done|]. by vm_compute in HT.
Defined.

(** Without that proviso the rehash loses a chain.  There is a
    well-formed server and a page, shared with its frame unchanged, whose new
    content has the hash of another chain: the call succeeds, the table's
    entry of that hash is overwritten, and a live node is left that no chain
    holds. *)
Theorem rehash_onto_existing_chain_orphans :
  ∃ s l, metadata_ok (metadata s) ∧
    match cmp_and_merge_one None [9] l s with
    | Ok (r, s') => r = 0 ∧ ¬ metadata_ok (metadata s') ∧
        ∃ n nd, nodes (metadata s') !! n = Some nd ∧ stable_hash_table (metadata s') !! page_hash nd ≠ Some n ∧
          chain_prev nd = None
    | _ => False
    end.
Proof.
  exists two2, 2%positive. destruct two2_ok as (H1 & _ & _). split; [done|].
  destruct (cmp_and_merge_one None [9] 2%positive two2) as [[r s']| |] eqn:E; [|by vm_compute in E..].
  vm_compute in E. injection E as <- <-. split; [done|].
  set (m := metadata _). set (h := page_hash_pair [9]).
  assert (∃ nd, nodes m !! 2%positive = Some nd ∧ page_hash nd = h ∧ chain_prev nd = None) as (nd2 & N2 & P2 & Q2) by (eexists; by vm_compute).
  assert (∃ nd, nodes m !! 1%positive = Some nd ∧ chain_next nd = None) as (nd1 & N1 & Q1) by (eexists; by vm_compute).
  assert (stable_hash_table m !! h = Some 1%positive) as HT by (by vm_compute).
  split; [|exists 2%positive, nd2; split_and!; [done|rewrite P2, HT; done|done]].
  intros [C [_ _ Hc _]]. destruct (ic_member _ _ _ Hc _ _ N2) as (l & HC & Hin). rewrite P2 in HC.
  pose proof (ic_table _ _ _ Hc h) as HT'. rewrite HT, HC in HT'. simpl in HT'.
  destruct (ic_seg _ _ _ Hc _ _ HC) as (_ & _ & Hseg). destruct l as [|n l]; [done|]. injection HT' as <-.
  destruct Hseg as [(nd & Hn & _ & _ & _ & Hnx) _]. replace nd with nd1 in * by congruence. rewrite Q1 in Hnx.
  destruct l; [|discriminate Hnx]. apply list_elem_of_singleton in Hin. discriminate Hin.
Qed.

(** ** The event log *)

(** The table as a buffer: what is inserted after clearing is what is read. *)
Lemma wp_insert_all es : ∀ s L (Q : unit → server_st → Prop),
  log_repr (log_table s) L → no_oom s → Z.of_nat (length L) + Z.of_nat (length es) < 2 ^ 30 →
  Forall (λ e, dpu_tag (log_type e) = true) es →
  (∀ t a, log_repr t (L ++ es) → Q tt (replace_log t a s)) → wp (for_each insert_ksm_log es) s Q.
Proof.
  induction es as [|e es IH]; intros s L Q HL Ho Hlen Ht HQ.
  - simpl. wp_step. specialize (HQ (log_table s) (answers s)). rewrite app_nil_r in HQ. specialize (HQ HL). by destruct s.
  - apply Forall_cons in Ht as [Ht Hts]. cbn [length] in Hlen. cbn [for_each]. wp_step.
    eapply wp_insert_ksm_log; [exact HL|done|lia|done|]. intros t a Htr Ha.
    apply (IH _ (L ++ [e])); [exact Htr|done|rewrite length_app; simpl; lia|done|].
    intros t' a'. rewrite <- app_assoc. apply HQ.
Qed.

(** C25: the log is a faithful queue: after [clear_log_table], whatever the
    table held, the events inserted are read back by the host, all of them
    and in order, however often the table had to grow; nothing else of the
    server's state changes. *)
Theorem log_round_trip s L es :
  log_repr (log_table s) L → no_oom s → Z.of_nat (length es) < 2 ^ 30 →
  Forall (λ e, dpu_tag (log_type e) = true) es →
  wp (clear_log_table ;; for_each insert_ksm_log es) s (λ _ s',
    log_list (log_table s') = es ∧ cnt (log_table s') = Z.of_nat (length es) ∧
    metadata s' = metadata s ∧ stats s' = stats s ∧ iteration s' = iteration s).
Proof.
  intros HL Ho Hlen Ht. unfold clear_log_table. wp_step. wp_step.
  eapply (wp_insert_all es _ []); [by eapply log_repr_clear|done|done|done|]. intros t a Hr.
  split_and!; [exact (log_repr_list _ _ Hr)|apply Hr|done|done|done].
Qed.

Lemma log_round_trip_witness :
  wp (clear_log_table ;; for_each insert_ksm_log [toy_merge; retag DPU_STALE_STABLE_NODE toy_merge]) demo2 (λ _ s',
    log_list (log_table s') = [toy_merge; retag DPU_STALE_STABLE_NODE toy_merge] ∧ cnt (log_table s') = 2 ∧
    metadata s' = metadata demo2 ∧ stats s' = stats demo2 ∧ iteration s' = iteration demo2).
Proof.
  destruct idle_demo2 as [[H1 H2 H3 H4] _].
  apply (log_round_trip demo2 [toy_merge] [toy_merge; retag DPU_STALE_STABLE_NODE toy_merge]); [done|done|done|].
  repeat constructor.
Defined.

(** A full table whose growth fails drops the event silently: the call
    returns normally with the log as it was, so the host never learns of the
    merge the server has already made. *)
Theorem insert_ksm_log_drops s L e rest :
  log_repr (log_table s) L → cnt (log_table s) = capacity (log_table s) → answers s = NoMem :: rest →
  insert_ksm_log e s = Ok (tt, with_answers (λ _, rest) s).
Proof.
  intros _ Hfull Ha. unfold insert_ksm_log, grow_log_table, mbind, M_bind, get, next_answer.
  rewrite Hfull, Z.leb_refl, Ha. done.
Qed.

Definition full_table : ksm_log_table := KsmLogTable [Some toy_merge] 1 1.
Definition full_st : server_st :=
  with_answers (λ _, [NoMem]) (with_log (λ _, full_table) demo2).

Lemma insert_ksm_log_drops_witness : insert_ksm_log toy_merge full_st = Ok (tt, with_answers (λ _, []) full_st).
Proof. by apply (insert_ksm_log_drops full_st [toy_merge]). Defined.

(** ** Backoff of volatile pages *)

(** C26: the smart scan skips boundedly.  A page with counter [n] is skipped
    [n] times and then scanned, and the counter it is given then is at most 8,
    so from there on it is scanned at least every ninth time; without the
    option no page is ever skipped. *)
Theorem should_skip_item_bounded item (n : nat) :
  state item = Volatile → skip_cnt item = Z.of_nat n →
  (skip_run (S n) true item).1 = replicate n true ++ [false] ∧
  skip_cnt (skip_run (S n) true item).2 = skip_volatile (volatility_score item) (age item) ∧
  0 ≤ skip_cnt (skip_run (S n) true item).2 ≤ 8 ∧
  (∀ m, (skip_run m false item).1 = replicate m false).
Proof.
  intros Hst Hn. replace (S n) with (n + 1)%nat by lia. rewrite skip_run_app.
  pose proof (skip_run_drain item n Hst Hn) as Hd. rewrite Hd. simpl. unfold should_skip_item. simpl. rewrite Hst. simpl.
  pose proof (skip_volatile_bound (volatility_score item) (age item)).
  rewrite wrap_u_small by lia. split_and!; [done|done|lia|lia|].
  intros m. induction m as [|m IH]; [done|]. simpl. destruct (skip_run m false item). simpl in *. by rewrite IH.
Qed.

Definition toy_item (skip : Z) : rmap_item := RmapItem 1 0 0 4096 10 0 null_hash Volatile 3 skip None.

Lemma should_skip_item_bounded_witness :
  (skip_run 3 true (toy_item 2)).1 = replicate 2 true ++ [false] ∧
  skip_cnt (skip_run 3 true (toy_item 2)).2 = skip_volatile 3 0 ∧
  0 ≤ skip_cnt (skip_run 3 true (toy_item 2)).2 ≤ 8 ∧
  (∀ m, (skip_run m false (toy_item 2)).1 = replicate m false).
Proof. exact (should_skip_item_bounded (toy_item 2) 2 eq_refl eq_refl). Defined.

Lemma wp_next_answer_fresh s j l (Q : option rmap_item → server_st → Prop) :
  answers s = Fresh j :: l → Q (Some j) (with_answers (λ _, l) s) → wp next_answer s Q.
Proof. intros E HQ. unfold wp, next_answer. by rewrite E. Qed.

(** [lookup_rmap_item] does not initialise the counter of a new item: it
    keeps whatever the memory held, and that many scans of the new page are
    skipped, up to 65535. *)
Theorem lookup_rmap_item_junk s mm pte junk rest :
  rmap_tree (metadata s) !! (mm, pte_va pte) = None → answers s = Fresh junk :: rest → 0 ≤ skip_cnt junk →
  wp (lookup_rmap_item mm pte) s (λ r s', ∃ l it, r = Some l ∧ items (metadata s') !! l = Some it ∧
    state it = Volatile ∧ skip_cnt it = skip_cnt junk ∧ volatility_score it = volatility_score junk ∧
    stable_node_of it = stable_node_of junk ∧
    (skip_run (Z.to_nat (skip_cnt junk)) true it).1 = replicate (Z.to_nat (skip_cnt junk)) true).
Proof.
  intros Hn Ha Hj. unfold lookup_rmap_item. do 2 wp_step. wp_step. rewrite Hn. wp_step.
  unfold malloc_item. wp_step. eapply wp_next_answer_fresh; [exact Ha|]. wp_steps.
  eapply wp_upd_item; [apply lookup_insert_eq|]. wp_steps.
  eapply wp_upd_item; [apply lookup_insert_eq|]. wp_step. eexists _, _. split; [done|]. split; [apply lookup_insert_eq|].
  split_and!; try done. rewrite (skip_run_drain _ (Z.to_nat (skip_cnt junk))); [done|done|simpl; lia].
Qed.

Definition junk_st : server_st :=
  with_answers (λ _, [Fresh (RmapItem 0 0 0 0 0 0 null_hash INone 9 65535 None)]) demo0.

Lemma lookup_rmap_item_junk_witness :
  wp (lookup_rmap_item 1 (ShadowPte 4096 10)) junk_st (λ r s', ∃ l it, r = Some l ∧ items (metadata s') !! l = Some it ∧
    state it = Volatile ∧ skip_cnt it = 65535 ∧ volatility_score it = 9 ∧ stable_node_of it = None ∧
    (skip_run (Z.to_nat 65535) true it).1 = replicate (Z.to_nat 65535) true).
Proof.
  exact (lookup_rmap_item_junk junk_st 1 (ShadowPte 4096 10) (RmapItem 0 0 0 0 0 0 null_hash INone 9 65535 None) [] eq_refl eq_refl ltac:(done)).
Defined.
