(* ===== verification/FaultProps.v ===== *)
(** * FaultProps: the server when an assumption fails

    What the code does when memory runs out in the middle of a merge, when the
    host lists a page twice, and when the scan number leaves the range of the
    stamp it is stored in. *)
From S2P Require Import Prelude Wire HashPair Store LogTable Metadata Merge MetadataInv ChainInv MetadataSpec RehashInv MergeSpec PruneSpec LookupSpec Scan ScanSpec ErrorHandling Server Examples.
Open Scope Z_scope.

(** ** The stamp of an item *)
Lemma s16_stale i : 0 ≤ i < 2 ^ 31 → (s16 i < i - 1 ↔ 2 ^ 15 ≤ i).
Proof.
  intros Hi. destruct (Z.lt_ge_cases i (2 ^ 15)) as [Hlt|Hge].
  - rewrite wrap_s_small by lia. lia.
  - split; [done|]. intros _. pose proof (wrap_s_range 16 i ltac:(lia)) as Hr. simpl in Hr.
    destruct (decide (i = 2 ^ 15)) as [->|Hne]; [done|lia].
Qed.

(** [last_access] is a [short], the scan number an [int]: from iteration
    32768 on an item that was looked up in this very scan counts as stale (and
    is pruned above the margin), and before that it never does. *)
Theorem lookup_stamp_wraps s mm pte :
  metadata_ok (metadata s) → no_oom s → 0 ≤ iteration s < 2 ^ 31 →
  wp (lookup_rmap_item mm pte) s (λ r s', ∃ l it, r = Some l ∧ items (metadata s') !! l = Some it ∧
    (stale s' it ↔ 2 ^ 15 ≤ iteration s)).
Proof.
  intros Hok Ho Hi. eapply (wp_lookup_rmap_item s mm pte []); [done|done|]. intros l it s' Hlu. exists l, it.
  split_and!; [done|apply Hlu|]. unfold stale. destruct (lu_ctl _ _ _ _ _ _ _ Hlu) as (-> & _).
  rewrite (proj1 (lu_stamp _ _ _ _ _ _ _ Hlu)). by apply s16_stale.
Qed.

Definition late : server_st := with_iteration (λ _, 32768) demo2.

Lemma lookup_stamp_wraps_witness :
  wp (lookup_rmap_item 1 (toy_pte 1)) late (λ r s', ∃ l it, r = Some l ∧ items (metadata s') !! l = Some it ∧
    (stale s' it ↔ 2 ^ 15 ≤ 32768)).
Proof. destruct idle_demo2 as [[H1 _ H3 _] _]. exact (lookup_stamp_wraps late 1 (toy_pte 1) H1 H3 ltac:(done)). Defined.

(** ** A page listed twice *)

(** A page the host lists a second time after the server has parked it
    stops the server: the item is neither volatile nor stable. *)
Theorem duplicate_page_halts `{XXHash} s e l it :
  rmap_tree (metadata s) !! se_key e = Some l → items (metadata s) !! l = Some it → state it = Unstable →
  scan_page cmp_and_merge_one e s = Halt "Invalid state for item".
Proof.
  intros Hr Hl Hst. unfold scan_page, lookup_rmap_item, mbind, M_bind, get. unfold se_key in Hr. rewrite Hr.
  unfold mret, M_ret, modify, upd_item, get_item, mbind, M_bind, get, deref. simpl. rewrite Hl. simpl.
  unfold cmp_and_merge_one, merge_again, get_item, mbind, M_bind, get, deref. simpl. rewrite lookup_insert_eq. simpl. rewrite Hst. done.
Qed.

(** Two pages, the second parked after the second scan of the first. *)
Definition parked_st : server_st :=
  Eval vm_compute in state_after (scan_page cmp_and_merge_one (two_entry 1) two1) two1.

Lemma duplicate_page_halts_witness : scan_page cmp_and_merge_one (two_entry 1) parked_st = Halt "Invalid state for item".
Proof.
  apply (duplicate_page_halts parked_st (two_entry 1) 1%positive (default (RmapItem 0 0 0 0 0 0 null_hash INone 0 0 None) (items (metadata parked_st) !! 1%positive)));
    by vm_compute.
Defined.

(** ** Memory runs out in a promotion *)

(** If no stable node can be allocated for a page and its unstable
    partner, the call fails with -1 after the partner was taken out of the
    unstable table: it stays [Unstable] but is in no table, so the state is no
    longer well formed, and [scan_page] stops the server. *)
Theorem merge_out_of_memory_loses_partner s l it un ui rest :
  metadata_ok (metadata s) → items (metadata s) !! l = Some it → state it = Volatile → un ≠ l →
  items (metadata s) !! un = Some ui → state ui = Unstable → answers s = NoMem :: rest →
  ∃ s', try_unstable (old_hash ui) l s = Ok (-1, s') ∧ items (metadata s') !! un = Some ui ∧
    unstable_hash_table (metadata s') !! old_hash ui = None ∧ log_table s' = log_table s ∧ ¬ metadata_ok (metadata s').
Proof.
  intros [C Hwf] Hl Hst Hne Hun Hus Ha.
  assert (unstable_hash_table (metadata s) !! old_hash ui = Some un) as Hu by (apply (wf_unst _ _ _ _ Hwf); eauto).
  eexists. split.
  - unfold try_unstable, upd_item, get_item, mbind, M_bind, get, modify, deref. rewrite Hl. simpl.
    unfold cmp_with_unstable, get_item, mbind, M_bind, get, modify, deref. simpl. rewrite lookup_insert_eq. simpl. rewrite Hu. simpl.
    rewrite lookup_insert_ne, Hun by done. simpl.
    unfold merge_with_unstable, get_item, malloc_node, next_answer, mbind, M_bind, get, modify, deref. simpl.
    rewrite lookup_insert_eq. simpl. rewrite Ha. reflexivity.
  - simpl. rewrite lookup_insert_ne, lookup_delete_eq by done. split_and!; [done|done|done|].
    intros [C' [_ _ _ Hu']]. simpl in Hu'.
    assert (delete (old_hash ui) (unstable_hash_table (metadata s)) !! old_hash ui = Some un) as E.
    { apply Hu'. split; [done|]. exists ui. by rewrite lookup_insert_ne. }
    by rewrite lookup_delete_eq in E.
Qed.

Definition oom_st : server_st := with_answers (λ _, [NoMem]) parked_st.

Lemma parked_ok : metadata_ok (metadata parked_st).
Proof.
  replace parked_st with (state_after (scan_page cmp_and_merge_one (two_entry 1) two1) two1) by (by vm_compute).
  apply (state_after_wp _ _ (λ s', metadata_ok (metadata s'))).
  eapply wp_mono; [apply (wp_scan_page two_pf two_hash_of two1 [] [] two1 (two_entry 1))|].
  - exact two1_start.
  - set_solver.
  - split_and!; vm_compute; congruence.
  - done.
  - intros [] s' Hp. exact (pi_ok _ _ _ _ _ _ Hp).
Qed.

Lemma merge_out_of_memory_loses_partner_witness :
  ∃ ui s', try_unstable (old_hash ui) 2%positive oom_st = Ok (-1, s') ∧ items (metadata s') !! 1%positive = Some ui ∧
    unstable_hash_table (metadata s') !! old_hash ui = None ∧ log_table s' = log_table oom_st ∧ ¬ metadata_ok (metadata s').
Proof.
  destruct (items (metadata parked_st) !! 1%positive) as [ui|] eqn:E1; [|by vm_compute in E1].
  destruct (items (metadata parked_st) !! 2%positive) as [it|] eqn:E2; [|by vm_compute in E2].
  exists ui. apply (merge_out_of_memory_loses_partner oom_st 2%positive it 1%positive ui []);
    [exact parked_ok|exact E2| |done|exact E1| |done].
  - vm_compute in E2. by injection E2 as <-.
  - vm_compute in E1. by injection E1 as <-.
Defined.
