(* ===== verification/ThreadProps.v ===== *)
(** * ThreadProps: the server's two helper threads

    The pre-hash thread never misleads the KSM worker and can be stopped, but
    may read a page buffer that was freed; the hand-off of page buffers loses
    none, frees all and ends, except for a table without pages. *)
From S2P Require Import Prelude Wire HashPair PreHash Handoff Examples.
Open Scope Z_scope.

(** ** The pre-hash thread *)

(** C28: in every interleaving, a page hash the KSM worker takes from the
    pre-hash table while it scans the announced pages is the hash of the page:
    [lookup_pre_hash_pair] never stops on an announced page, and whether it
    has an entry or not [calculate_hash_pair] gives what hashing the page
    would. *)
Theorem pre_hash_lookup_correct `{XXHash} mem junk st on page_buf i :
  ph_reachable mem junk st → cpc st = CInJob → in_range st page_buf i →
  ∃ r, lookup_pre_hash_pair on page_buf st = Ok r ∧
    calculate_hash_pair r (memory st page_buf) = page_hash_pair (memory st page_buf).
Proof.
  intros Hr Hc Hin. pose proof (ph_inv_reachable mem junk st Hr) as Hinv.
  destruct (page_idx_in_range st page_buf i Hinv Hin) as [Hidx Hlt]. destruct Hin as [-> Hi].
  unfold lookup_pre_hash_pair. destruct on; [|by eexists]. simpl. cbv zeta. rewrite Hidx.
  destruct (Z.leb_spec PRE_HASH_NUM i); [lia|]. destruct (Z.ltb_spec i (pre_hash_pair_curr_idx st)); [|by eexists].
  eexists. split; [done|]. simpl. apply (ph_chunk _ Hinv Hc). left. lia.
Qed.

Section runs.
Context `{XXHash} (mem : Z → page) (junk : Z → hash_pair).

(** The client starts a job of one page at address 0. *)
Definition job_started : pre_hash_st :=
  start_pre_hash_pair_table 0 1 (with_client CStarting mem false (init_pre_hash_pair_table mem junk)).

Lemma job_started_reachable : ph_reachable mem junk job_started.
Proof.
  eapply ph_next; [eapply ph_next; [apply ph_init|by apply ph_begin]|]. by apply ph_start.
Qed.

Lemma run_worker_reachable n st : ph_reachable mem junk st → ph_reachable mem junk (run_worker n st).
Proof.
  revert st. induction n as [|n IH]; intros st Hst; simpl; [done|].
  destruct (pre_hash_worker st) as [st'|] eqn:E; [|done]. apply IH. eapply ph_next; [exact Hst|]. by apply ph_worker.
Qed.
End runs.

Lemma pre_hash_lookup_correct_witness : ∃ r,
  lookup_pre_hash_pair true 0 (run_worker 5 (job_started (λ _, toy_page) (λ _, null_hash))) = Ok r ∧
  calculate_hash_pair r toy_page = page_hash_pair toy_page.
Proof.
  apply (pre_hash_lookup_correct (λ _, toy_page) (λ _, null_hash) (run_worker 5 (job_started (λ _, toy_page) (λ _, null_hash))) true 0 0);
    [apply run_worker_reachable, job_started_reachable|done|done].
Defined.

(** A stopped worker at its loop test needs two steps. *)
Lemma stop_from_loop `{XXHash} st i :
  pre_hash_worker_status st = STOP → wpc st = WLoop i →
  run_worker 2 st = with_status WORK_DONE WIdle (with_status STOP WFinish st).
Proof.
  intros Hs Hp. assert (pre_hash_worker st = Some (with_status STOP WFinish st)) as E.
  { unfold pre_hash_worker. rewrite Hp, Hs, decide_True by done. by destruct (_ <? _). }
  change (run_worker 2 st) with (match pre_hash_worker st with Some st' => run_worker 1 st' | None => st end).
  rewrite E. done.
Qed.

(** C29: a stop request is answered: whenever the client has asked a running
    pre-hash worker to stop, at most four of the worker's steps later it is
    idle and its status is [WORK_DONE], having hashed at most one more page,
    so the client's spin in [start_pre_hash_pair_table] ends. *)
Theorem pre_hash_stop_answered `{XXHash} mem junk st base max :
  ph_reachable mem junk st → pre_hash_worker_status st = STOP →
  ∃ n, (n ≤ 4)%nat ∧ pre_hash_worker_status (run_worker n st) = WORK_DONE ∧ wpc (run_worker n st) = WIdle ∧
    pre_hash_pair_curr_idx (run_worker n st) ≤ pre_hash_pair_curr_idx st + 1 ∧
    pre_hash_worker_status (start_pre_hash_pair_table base max (run_worker n st)) = DATA_READY.
Proof.
  intros Hr Hs. pose proof (ph_status _ (ph_inv_reachable mem junk st Hr)) as Hp. rewrite Hs in Hp.
  assert (Hfin : ∀ n st', (n ≤ 2)%nat → run_worker (n + 2) st = run_worker 2 st' → pre_hash_worker_status st' = STOP →
    (∃ i, wpc st' = WLoop i) → pre_hash_pair_curr_idx st' ≤ pre_hash_pair_curr_idx st + 1 →
    ∃ n, (n ≤ 4)%nat ∧ pre_hash_worker_status (run_worker n st) = WORK_DONE ∧ wpc (run_worker n st) = WIdle ∧
      pre_hash_pair_curr_idx (run_worker n st) ≤ pre_hash_pair_curr_idx st + 1 ∧
      pre_hash_worker_status (start_pre_hash_pair_table base max (run_worker n st)) = DATA_READY).
  { intros n st' Hn E Hs' [i Hi] Hc. exists (n + 2)%nat. rewrite E, (stop_from_loop st' i Hs' Hi). by split_and!; [lia|..]. }
  destruct st as [status bp mx ch cu pc cp mm fr]. simpl in Hs, Hp. subst status.
  destruct pc as [| |i|i|i|]; [done|..].
  - eapply (Hfin 1%nat); [lia|reflexivity|done|by eexists|simpl; lia].
  - eapply (Hfin 0%nat); [lia|reflexivity|done|by eexists|simpl; lia].
  - eapply (Hfin 2%nat); [lia|reflexivity|done|by eexists|simpl; lia].
  - eapply (Hfin 1%nat); [lia|reflexivity|done|by eexists|simpl; lia].
  - exists 1%nat. simpl. split_and!; try done; lia.
Qed.

Lemma pre_hash_stop_answered_witness : ∃ n, (n ≤ 4)%nat ∧
  let st := start_pre_hash_pair_table 0 1 (with_client CStarting (λ _, toy_page) false
    (run_worker 3 (job_started (λ _, toy_page) (λ _, null_hash)))) in
  pre_hash_worker_status (run_worker n st) = WORK_DONE ∧ wpc (run_worker n st) = WIdle ∧
    pre_hash_pair_curr_idx (run_worker n st) ≤ pre_hash_pair_curr_idx st + 1 ∧
    pre_hash_worker_status (start_pre_hash_pair_table 8192 2 (run_worker n st)) = DATA_READY.
Proof.
  apply (pre_hash_stop_answered (λ _, toy_page) (λ _, null_hash) _ 8192 2); [|done].
  eapply ph_next; [eapply ph_next; [apply (run_worker_reachable _ _ 3), job_started_reachable|by apply ph_begin]|].
  by apply ph_start.
Defined.

(** Nothing makes the pre-hash worker stop before the buffer it hashes is
    freed: an interleaving exists in which the client has left its job and
    freed the page buffer while the worker is about to hash a page of it. *)
Theorem pre_hash_reads_freed_buffer `{XXHash} mem junk :
  ∃ st, ph_reachable mem junk st ∧ freed st = true ∧ cpc st = COut ∧ wpc st = WHash 0 ∧
    pre_hash_worker_status st = IN_PROGRESS ∧ pre_hash_worker st ≠ None.
Proof.
  exists (with_client COut mem true (with_client COut mem false (run_worker 3 (job_started mem junk)))).
  split; [|done]. eapply ph_next; [|by apply ph_free]. eapply ph_next; [|by apply ph_end].
  exact (run_worker_reachable mem junk 3 _ (job_started_reachable mem junk)).
Qed.

(** ** The hand-off of page buffers *)

(** C30: in every interleaving of [do_ksm_v3] and [ksm_page_worker] the buffer
    the worker is given has not been freed, at most two buffers exist, and
    the chunks are scanned in order, each once. *)
Theorem handoff_safe sizes st :
  handoff_reachable sizes st →
  (worker_status st = DATA_READY → ∃ b, todo_buf st = Some b ∧ b ∈ live_bufs st) ∧
  (size (live_bufs st) ≤ 2)%nat ∧
  scanned st = seq 0 (length (scanned st)) ∧ (length (scanned st) ≤ length sizes)%nat.
Proof.
  intros Hr. destruct (handoff_inv_reachable sizes st Hr) as [H1 H2 H3 H4 H5 H6].
  assert (Hsize : ∀ k, (size (match k with O => ∅ | S j => {[j]} end : gset nat) ≤ 1)%nat).
  { intros [|k]; [rewrite size_empty; lia|by rewrite size_singleton]. }
  assert (Hsize2 : ∀ k, (size ({[k]} ∪ (match k with O => ∅ | S j => {[j]} end : gset nat)) ≤ 2)%nat).
  { intros k. specialize (Hsize k). set (X := match k with O => ∅ | S j => {[j]} end : gset nat) in *.
    rewrite size_union_alt, size_singleton. pose proof (subseteq_size (X ∖ {[k]}) X ltac:(set_solver)). lia. }
  assert (Hlen : mpc st ≠ MDone → scanned st = seq 0 (length (scanned st)) ∧ (length (scanned st) ≤ posted sizes (mpc st))%nat).
  { intros Hd. destruct (posted sizes (mpc st)) as [|k] eqn:Ek.
    - destruct (H2 Hd eq_refl) as (_ & -> & _). done.
    - destruct (H3 Hd k eq_refl) as (_ & [[_ ->]|[_ ->]]); rewrite length_seq; split; (done || lia). }
  destruct (mpc st) as [k|k|k| |] eqn:Em; simpl in *; try destruct (Hlen ltac:(done)) as [L1 L2].
  - destruct H6 as [Hp ->]. split_and!; [|by etrans; [apply Hsize|lia]|done|lia].
    intros Hs. destruct k as [|k]; [destruct (H2 ltac:(done) eq_refl); congruence|].
    destruct (H3 ltac:(done) k eq_refl) as (-> & _). exists k. set_solver.
  - destruct H6 as (Hk & Hp & ->). split_and!; [|apply Hsize2|done|lia].
    intros Hs. destruct k as [|k]; [destruct (H2 ltac:(done) eq_refl); congruence|].
    destruct (H3 ltac:(done) k eq_refl) as (-> & _). exists k. set_solver.
  - destruct H6 as (Hk & Hp & ->). split_and!; [|apply Hsize2|done|lia].
    intros Hs. destruct (H3 ltac:(done) k eq_refl) as (-> & _). exists k. set_solver.
  - destruct H6 as [Hp ->]. split_and!; [|by etrans; [apply Hsize|lia]|done|lia].
    intros Hs. destruct (length sizes) as [|k] eqn:El; [destruct (H2 ltac:(done) eq_refl); congruence|].
    destruct (H3 ltac:(done) k eq_refl) as (-> & _). exists k. set_solver.
  - destruct (H5 eq_refl) as (-> & _ & -> & Hw). rewrite length_seq, size_empty. split_and!; [congruence|lia|done|lia].
Qed.

(** A schedule: [true] lets the main thread act, [false] the worker. *)
Fixpoint handoff_run (sizes : list Z) (sched : list bool) (st : handoff_st) : handoff_st :=
  match sched with
  | [] => st
  | b :: sched' => handoff_run sizes sched' (default st (if b then main_step sizes st else worker_step st))
  end.

Lemma handoff_run_reachable sizes sched st :
  handoff_reachable sizes st → handoff_reachable sizes (handoff_run sizes sched st).
Proof.
  revert st. induction sched as [|b sched IH]; intros st Hst; simpl; [done|]. apply IH. destruct b.
  - destruct (main_step sizes st) as [st'|] eqn:E; simpl; [|done]. eapply hr_step; [exact Hst|by apply hs_main].
  - destruct (worker_step st) as [st'|] eqn:E; simpl; [|done]. eapply hr_step; [exact Hst|by apply hs_worker].
Qed.

Lemma handoff_safe_witness :
  let st := handoff_run [3; 2] [true; true; true; true; false; true] initial_handoff in
  (worker_status st = DATA_READY → ∃ b, todo_buf st = Some b ∧ b ∈ live_bufs st) ∧
  (size (live_bufs st) ≤ 2)%nat ∧
  scanned st = seq 0 (length (scanned st)) ∧ (length (scanned st) ≤ 2)%nat.
Proof. apply (handoff_safe [3; 2]), handoff_run_reachable, hr_init. Defined.

(** C31: when [do_ksm_v3] has left the loop of a table, in whatever order the
    threads ran, every chunk was scanned, in order and once, every buffer was
    freed, the number of pages it counted is the sum of the chunks', and the
    worker is ready for the next table. *)
Theorem handoff_complete sizes st :
  handoff_reachable sizes st → mpc st = MDone →
  scanned st = seq 0 (length sizes) ∧ live_bufs st = ∅ ∧ scanned_cnt st = foldr Z.add 0 sizes ∧
  worker_status st = WORKER_READY.
Proof.
  intros Hr Hd. destruct (handoff_inv_reachable sizes st Hr) as [H1 H2 H3 H4 H5 H6].
  destruct (H5 Hd) as (E1 & E2 & E3 & E4). split_and!; [done|done| |done].
  rewrite Hd in H4. simpl in H4. unfold sum_sizes in H4. rewrite firstn_all in H4. lia.
Qed.

Lemma handoff_complete_witness :
  let st := handoff_run [3; 2] [true; true; true; true; false; true; true; true; false; true] initial_handoff in
  scanned st = [0; 1]%nat ∧ live_bufs st = ∅ ∧ scanned_cnt st = 5 ∧ worker_status st = WORKER_READY.
Proof. apply (handoff_complete [3; 2]); [apply handoff_run_reachable, hr_init|by vm_compute]. Defined.

(** What is left to do for a table. *)
Definition handoff_measure (sizes : list Z) (st : handoff_st) : nat :=
  (match mpc st with
   | MRead k => 4 * (length sizes - k) + 2
   | MPost k => 4 * (length sizes - k) + 1
   | MFree k => 4 * (length sizes - k) - 1
   | MWait => 1
   | MDone => 0
   end + if decide (worker_status st = DATA_READY) then 1 else 0)%nat.

Lemma handoff_measure_step sizes st st' :
  handoff_inv sizes st → handoff_step sizes st st' → (handoff_measure sizes st' < handoff_measure sizes st)%nat.
Proof.
  intros Hinv Hs. pose proof (hi_bufs _ _ Hinv) as H6. destruct Hs as [st0 st1 Hm|st0 st1 Hw].
  - revert H6 Hm. unfold main_step, handoff_measure. destruct (mpc st0) as [k|k|k| |]; intros H6 Hm; simpl in *.
    + destruct (decide (k < length sizes)%nat); injection Hm as <-; simpl; lia.
    + destruct H6 as (Hk & _). destruct (worker_status st0); try done; injection Hm as <-; simpl; lia.
    + destruct H6 as (Hk & _). injection Hm as <-. simpl. lia.
    + destruct (decide (worker_status st0 = WORK_DONE)) as [E|]; [|done]. injection Hm as <-. rewrite E. simpl. lia.
    + done.
  - unfold worker_step in Hw. unfold handoff_measure. destruct (decide (worker_status st0 = DATA_READY)) as [E|]; [|done].
    destruct (todo_buf st0); [|done]. injection Hw as <-. simpl. lia.
Qed.

(** C32: the hand-off is live: every step reduces the work left, so no
    schedule runs forever, and as long as the table has a page and the main
    thread is not done some thread can act; so every table with a page is
    finished. *)
Theorem handoff_terminates sizes st :
  handoff_reachable sizes st → sizes ≠ [] →
  (mpc st = MDone ∨ ∃ st', handoff_step sizes st st') ∧
  (∀ st', handoff_step sizes st st' → (handoff_measure sizes st' < handoff_measure sizes st)%nat).
Proof.
  intros Hr Hne. pose proof (handoff_inv_reachable sizes st Hr) as Hinv.
  split; [|intros st' Hs; by apply handoff_measure_step].
  destruct Hinv as [H1 H2 H3 H4 H5 H6].
  assert (Hwork : worker_status st = DATA_READY → (∃ b, todo_buf st = Some b) → ∃ st', handoff_step sizes st st').
  { intros E [b Hb]. eexists. apply hs_worker. unfold worker_step. rewrite decide_True by done. by rewrite Hb. }
  destruct (mpc st) as [k|k|k| |] eqn:Em; [right|right|right|right|by left]; simpl in *.
  - assert (∃ st', main_step sizes st = Some st') as [st' E]; [|exists st'; by apply hs_main].
    unfold main_step. rewrite Em. destruct (decide _); by eexists.
  - destruct k as [|k].
    + destruct (H2 ltac:(done) eq_refl) as (E & _). eexists. apply hs_main. unfold main_step. by rewrite Em, E.
    + destruct (H3 ltac:(done) k eq_refl) as (Hb & [[E _]|[E _]]); [by apply Hwork; [|eexists]|].
      eexists. apply hs_main. unfold main_step. by rewrite Em, E.
  - eexists. apply hs_main. unfold main_step. by rewrite Em.
  - destruct (length sizes) as [|k] eqn:El; [by destruct sizes|].
    destruct (H3 ltac:(done) k eq_refl) as (Hb & [[E _]|[E _]]); [by apply Hwork; [|eexists]|].
    eexists. apply hs_main. unfold main_step. rewrite Em. by rewrite decide_True.
Qed.

Lemma handoff_terminates_witness :
  let st := handoff_run [3; 2] [true; true; true; true] initial_handoff in
  (mpc st = MDone ∨ ∃ st', handoff_step [3; 2] st st') ∧
  (∀ st', handoff_step [3; 2] st st' → (handoff_measure [3%Z; 2%Z] st' < handoff_measure [3%Z; 2%Z] st)%nat).
Proof. apply (handoff_terminates [3; 2]); [apply handoff_run_reachable, hr_init|done]. Defined.

(** A table without pages hangs the server: the main thread reaches the
    wait for [WORK_DONE] with nothing posted, and no thread can ever act
    again. *)
Theorem handoff_empty_table_hangs :
  ∃ st, handoff_reachable [] st ∧ mpc st = MWait ∧ (∀ st', ¬ handoff_step [] st st') ∧
    (∀ st', handoff_reachable [] st' → mpc st' ≠ MDone).
Proof.
  exists (handoff_run [] [true] initial_handoff). split_and!; [apply handoff_run_reachable, hr_init|done| |].
  - intros st' Hs. by inversion Hs as [? ? Hm|? ? Hm]; subst; simpl in Hm.
  - intros st' Hr. assert (H : mpc st' ≠ MDone ∧ worker_status st' = WORKER_READY ∧ (∀ k, mpc st' ≠ MPost k)); [|by destruct H].
    induction Hr as [|st st' Hr (I1 & I2 & I3) Hs]; [done|]. destruct Hs as [st st' Hm|st st' Hm].
    + unfold main_step in Hm. destruct (mpc st) as [k|k|k| |] eqn:Em; simpl in Hm.
      * injection Hm as <-. done.
      * by destruct (I3 k).
      * by injection Hm as <-.
      * by rewrite I2 in Hm.
      * done.
    + unfold worker_step in Hm. by rewrite I2 in Hm.
Qed.
