(* ===== verification/ConnProps.v ===== *)
(** * ConnProps: connections, options and the single-operation service

    What the server holds after accepting or refusing a connection, what the
    clean-up releases and in which order, what the command line means, and
    what a single-operation request is answered. *)
From Stdlib Require Import Btauto.
From S2P Require Import Prelude Wire HashPair Conn Scan Server Examples.
Open Scope Z_scope.







Lemma single_op_not_cleaned r : r ∈ [SingleOpDescMr; SingleOpResultMr] → r ∉ cleanup_order.
Proof.
  intros Hr Hin. apply elem_of_cons in Hr as [->|[->|Hr]%elem_of_cons]; [| |by apply elem_of_nil in Hr];
    unfold cleanup_order in Hin; repeat (apply elem_of_cons in Hin as [Hin|Hin]; [discriminate|]); by apply elem_of_nil in Hin.
Qed.

(** The single-operation regions escape both checks.  A failed
    registration of the result region goes unnoticed, because another region
    is tested in its place: the connection is accepted without it; and the
    clean-up never releases either region, so each accepted connection leaks
    them. *)
Theorem single_op_regions_unchecked :
  (∃ answers, wp (on_connect_request SINGLE_OPERATION_OFFLOAD) (ConnSt {[Ec; ListenId]} [] answers [] false)
     (λ _ s', accepted s' = true ∧ SingleOpResultMr ∉ held s')) ∧
  (∀ s, paired s → wp cleanup_rdma_cb s (λ _ s', ∀ r, r ∈ [SingleOpDescMr; SingleOpResultMr] →
     (r ∈ held s' ↔ r ∈ held s) ∧ (r ∈ released s' ↔ r ∈ released s))).
Proof.
  split.
  - exists [true; true; true; true; true; true; true; false]. unfold wp.
    assert (match on_connect_request SINGLE_OPERATION_OFFLOAD
             (ConnSt {[Ec; ListenId]} [] [true; true; true; true; true; true; true; false] [] false)
           with Ok (_, s0) => accepted s0 && negb (bool_decide (SingleOpResultMr ∈ held s0)) | _ => false end = true) as H
      by (vm_compute; reflexivity).
    destruct (on_connect_request _ _) as [[u s']|why|why]; [|discriminate H..].
    apply andb_prop in H as [Ha Hn]. split; [done|]. by apply negb_true_iff, bool_decide_eq_false in Hn.
  - intros s Hp. apply wp_cleanup; [done|]. intros r Hr. unfold released_all; cbn [held released].
    rewrite elem_of_difference, elem_of_app, list_elem_of_filter.
    pose proof (single_op_not_cleaned r Hr). rewrite elem_of_list_to_set. split; [by intuition|]. split; [|by intuition].
    intros [Hrel|[_ ?]]; [done|contradiction].
Qed.

(** ** Options *)
Lemma prefix_app p a : String.prefix p a = true → ∃ t, a = (p +:+ t)%string.
Proof.
  revert a. induction p as [|c p IH]; intros a H; [by exists a|].
  destruct a as [|d a]; simpl in H; [done|]. destruct (Ascii.ascii_dec c d) as [->|]; [|done].
  destruct (IH a H) as [t ->]. by exists t.
Qed.

(** The five options are told apart by their first characters. *)
Lemma parse_arg_cases c a :
  parse_arg c a = ServerConfig
    (cfg_debug c || String.prefix "debug=1" a)
    (cfg_smart_scan c && negb (String.prefix "no_skip_opt" a || String.prefix "old" a))
    (cfg_pre_hash c && negb (String.prefix "no_pre_hash_opt" a || String.prefix "old" a))
    (if String.prefix "dataplane" a then SINGLE_OPERATION_OFFLOAD else cfg_mode c)
    (cfg_old_ops c || String.prefix "old" a).
Proof.
  destruct c as [d s p m o]. unfold parse_arg. simpl.
  destruct (String.prefix "debug=1" a) eqn:E1; [apply prefix_app in E1 as [t ->]; simpl; by rewrite !orb_true_r, !andb_true_r, !orb_false_r|].
  destruct (String.prefix "no_skip_opt" a) eqn:E2; [apply prefix_app in E2 as [t ->]; simpl; by rewrite !andb_false_r, !andb_true_r, !orb_false_r|].
  destruct (String.prefix "no_pre_hash_opt" a) eqn:E3; [apply prefix_app in E3 as [t ->]; simpl; by rewrite !andb_false_r, !andb_true_r, !orb_false_r|].
  destruct (String.prefix "dataplane" a) eqn:E4; [apply prefix_app in E4 as [t ->]; simpl; by rewrite !andb_true_r, !orb_false_r|].
  destruct (String.prefix "old" a) eqn:E5; simpl; by rewrite ?andb_true_r, ?andb_false_r, ?orb_true_r, ?orb_false_r.
Qed.

Definition given (opt : string) (args : list string) : bool := existsb (String.prefix opt) args.

(** The options are independent of their order: each acts if it is given
    anywhere, and [old] switches both optimisations off whatever else is
    given. *)
Theorem parse_args_order_free args :
  parse_args args = ServerConfig (given "debug=1" args)
    (negb (given "no_skip_opt" args || given "old" args))
    (negb (given "no_pre_hash_opt" args || given "old" args))
    (if given "dataplane" args then SINGLE_OPERATION_OFFLOAD else KSM_OFFLOAD)
    (given "old" args) ∧
  (∀ args', args ≡ₚ args' → parse_args args' = parse_args args).
Proof.
  assert (Hform : ∀ l, parse_args l = ServerConfig (given "debug=1" l) (negb (given "no_skip_opt" l || given "old" l))
    (negb (given "no_pre_hash_opt" l || given "old" l)) (if given "dataplane" l then SINGLE_OPERATION_OFFLOAD else KSM_OFFLOAD)
    (given "old" l)).
  { intros l. unfold parse_args. induction l as [|a l IH] using rev_ind; [done|].
    rewrite foldl_app, IH. simpl. rewrite parse_arg_cases. simpl. unfold given. rewrite !existsb_app. simpl.
    rewrite !orb_false_r, !negb_orb. f_equal; [btauto..|].
    by destruct (String.prefix "dataplane" a), (existsb (String.prefix "dataplane") l). }
  split; [apply Hform|]. intros args' Hp. rewrite !Hform.
  assert (∀ opt, given opt args' = given opt args) as Hg.
  { intros opt. unfold given. induction Hp as [|x l l' _ IH|x y l|l1 l2 l3 _ IH1 _ IH2]; simpl; [done|by rewrite IH| |congruence].
    rewrite !orb_assoc. f_equal. apply orb_comm. }
  by rewrite !Hg.
Qed.

(** ** Single operations *)
Section single.
Context `{XXHash} `{Memcmp} (read : Z → Z → Z → option (list Z)).

(** The number of pages each command takes. *)
Definition pages_for (cmd : operation_cmd) : option Z :=
  match cmd with PAGE_COMPARE => Some 2 | PAGE_HASH => Some 1 | OTHER_CMD _ => None end.

(** C35: a request is answered with its own command and identifier, a
    comparison by a value that is zero exactly when the two pages are equal, a
    hash by the hash of the page; the server stops on an unknown command, on a
    page count that is not the command's and on a failed read, and on nothing
    else. *)
Theorem serve_single_spec d buf :
  (∀ n, pages_for (od_cmd d) = Some n → od_page_num d = n →
     read (od_rkey d) (od_iova d) (n * PAGE_SIZE) = Some buf ∧ Z.of_nat (length buf) = n * PAGE_SIZE) →
  match serve_single read d with
  | Ok r => pages_for (od_cmd d) = Some (od_page_num d) ∧ or_cmd r = od_cmd d ∧ or_id r = od_id d ∧
      (od_cmd d = PAGE_COMPARE → or_value r = 0 ↔ take 4096 buf = drop 4096 buf) ∧
      (od_cmd d = PAGE_HASH → or_xxhash r = u64 (XXH64 buf 0))
  | Halt _ => pages_for (od_cmd d) ≠ Some (od_page_num d)
  | Fault _ => False
  end.
Proof.
  intros Hread. unfold serve_single. destruct (od_cmd d) eqn:Ec; [| |done].
  - destruct (Z.eqb_spec (od_page_num d) 2) as [E|E]; simpl; [|congruence].
    destruct (Hread 2 eq_refl E) as [Hr Hlen]. unfold PAGE_SIZE in Hlen.
    change (PAGE_SIZE * 2) with (2 * PAGE_SIZE). rewrite Hr. simpl.
    rewrite (take_ge (drop 4096 buf)) by (rewrite length_drop; lia).
    split_and!; [by rewrite E|done|done| |done]. intros _. unfold or_value. simpl.
    rewrite s32_u32 by apply memcmp_int. apply memcmp_zero. rewrite length_take, length_drop. lia.
  - destruct (Z.eqb_spec (od_page_num d) 1) as [E|E]; simpl; [|congruence].
    destruct (Hread 1 eq_refl E) as [Hr Hlen]. unfold PAGE_SIZE in Hlen.
    change PAGE_SIZE with (1 * PAGE_SIZE). rewrite Hr. simpl.
    split_and!; [by rewrite E|done|done|done|]. intros _. rewrite take_ge by lia. done.
Qed.
End single.

(** Memory whose every page holds the low byte of its page number. *)
Definition toy_memory (_ iova len : Z) : option (list Z) :=
  Some ((λ i, ((iova + Z.of_nat i) / 4096) mod 256) <$> seq 0 (Z.to_nat len)).

Lemma serve_single_spec_witness :
  let d := OperationDescriptor PAGE_COMPARE 9 1 (7 * 4096) 2 in
  let buf := (λ i, ((7 * 4096 + Z.of_nat i) / 4096) mod 256) <$> seq 0 8192 in
  match serve_single toy_memory d with
  | Ok r => pages_for (od_cmd d) = Some (od_page_num d) ∧ or_cmd r = od_cmd d ∧ or_id r = od_id d ∧
      (od_cmd d = PAGE_COMPARE → or_value r = 0 ↔ take 4096 buf = drop 4096 buf) ∧
      (od_cmd d = PAGE_HASH → or_xxhash r = u64 (XXH64 buf 0))
  | Halt _ => pages_for (od_cmd d) ≠ Some (od_page_num d)
  | Fault _ => False
  end.
Proof.
  intros d buf. apply (serve_single_spec toy_memory d buf).
  intros n [= <-] _. split; [done|]. unfold buf. rewrite length_fmap, length_seq. done.
Defined.
