(* ===== verification/HostProps.v ===== *)
(** * HostProps: what the host offers and what the server finds

    The shadow page tables built by the page walk, the error table, and their
    registration: the scatterlists and descriptors of the host are shown to
    serve exactly the reads the server's scan makes. *)
From S2P Require Import Prelude Wire HashPair Growable Shadow Scatter Store LogTable Metadata Merge Scan.
Open Scope Z_scope.

(** ** Building a table *)

(** The insertions of a page walk; the first failure ends it. *)
Fixpoint insert_all (sm : shadow_mm) (es : list (shadow_pte * positive)) : M kalloc (option shadow_mm) :=
  match es with
  | [] => mret (Some sm)
  | (e, item) :: es' =>
    r ← insert_entry_to_shadow_mm sm (pte_va e) (pte_kpfn e) item;
    if fst r =? 0 then insert_all (snd r) es' else mret None
  end.

Definition build_shadow (mm : Z) (es : list (shadow_pte * positive)) : M kalloc (option shadow_mm) :=
  r ← create_empty mm;
  match r with None => mret None | Some sm => insert_all sm es end.

Lemma wp_insert_walk sm es0 es s (Q : option shadow_mm → kalloc → Prop) :
  shadow_built sm es0 → ascending (es0 ++ es) → false ∉ s →
  (∀ sm' s', shadow_built sm' (es0 ++ es) → sm_mm_id sm' = sm_mm_id sm → false ∉ s' → Q (Some sm') s') →
  wp (insert_all sm es) s Q.
Proof.
  revert sm es0 s. induction es as [|[[va kpfn] item] es IH]; intros sm es0 s [H1 H2 H3] Hs Hf HQ; simpl.
  - apply wp_ret, HQ; rewrite ?app_nil_r; done.
  - rewrite (cons_middle _ es0 es), app_assoc in Hs. wp_step. eapply wp_insert_built; [by split| |done|].
    + unfold ascending in *. rewrite !fmap_app in *. by eapply StronglySorted_app_1_l.
    + intros sm' s1 Hb Hm Hs1. simpl. eapply (IH _ (es0 ++ [(ShadowPte va kpfn, item)])); [exact Hb|exact Hs|done|].
      intros sm'' s' Hb' Hm' Hs'. apply HQ; [by rewrite <- app_assoc in Hb'|congruence|done].
Qed.

Lemma wp_build_shadow mm es s (Q : option shadow_mm → kalloc → Prop) :
  ascending es → false ∉ s →
  (∀ sm s', shadow_built sm es → sm_mm_id sm = mm → Q (Some sm) s') →
  wp (build_shadow mm es) s Q.
Proof.
  intros Ha Hs HQ. unfold build_shadow. wp_step. apply wp_create_empty; [done|]. intros sm s1 Hb Hm Hs1.
  eapply (wp_insert_walk _ []); [done..|]. intros sm' s' Hb' Hm' _. apply HQ; [done|congruence].
Qed.

(** C36: the shadow page table of a process holds what the page walk inserted:
    whatever its length, and however often the arrays had to grow, entry [i]
    is the i-th insertion, its address leads back to its rmap item, no other
    address leads anywhere, and an index past the end stops. *)
Theorem shadow_table_round_trip mm es s :
  ascending es → false ∉ s →
  wp (build_shadow mm es) s (λ r _, ∃ sm, r = Some sm ∧
    (∀ i e, es !! i = Some e →
       read_at MAX_CAPACITY_PER_TABLE (Z.of_nat i) (pt_map sm) = Some e.1 ∧
       get_va_at sm (Z.of_nat i) = Ok (pte_va e.1) ∧ shadow_mm_lookup sm (pte_va e.1) = Some e.2) ∧
    (∀ va, shadow_mm_lookup sm va ≠ None → ∃ e, e ∈ es ∧ Z.shiftr (pte_va e.1) PAGE_SHIFT = Z.shiftr va PAGE_SHIFT) ∧
    (∀ i, Z.of_nat (length es) ≤ i → get_va_at sm i = Halt "BUG_ON")).
Proof.
  intros Ha Hs. apply wp_build_shadow; [done..|]. intros sm s' [H1 H2 _] _. exists sm. split; [done|]. split_and!.
  - intros i e He. assert (es.*1 !! i = Some e.1) as He1 by (by rewrite list_lookup_fmap, He).
    split; [rewrite (tr_read _ _ _ _ _ H1); [done|by eapply lookup_lt_Some]|].
    split; [rewrite (get_va_at_repr _ _ _ H1) by lia; by rewrite Nat2Z.id, He1|].
    unfold shadow_mm_lookup. rewrite H2. apply elem_of_list_to_map_1; [by apply StronglySorted_lt_NoDup|].
    apply list_elem_of_fmap. exists e. split; [done|]. by eapply list_elem_of_lookup_2.
  - intros va Hva. unfold shadow_mm_lookup in Hva. rewrite H2 in Hva.
    destruct (decide (Z.shiftr va PAGE_SHIFT ∈ (xa_entry <$> es).*1)) as [Hin|Hout];
      [|by destruct Hva; apply not_elem_of_list_to_map_1].
    apply list_elem_of_fmap in Hin as (x & Hx & Hin). apply list_elem_of_fmap in Hin as (e & -> & Hin). by exists e.
  - intros i Hi. rewrite (get_va_at_repr _ _ _ H1) by lia. by rewrite lookup_ge_None_2 by (rewrite length_fmap; lia).
Qed.

(** Three pages of a process, two of them neighbours. *)
Definition walk : list (shadow_pte * positive) :=
  [(ShadowPte 4096 100, 1%positive); (ShadowPte 8192 101, 2%positive); (ShadowPte 40960 7, 3%positive)].

Lemma walk_ascending : ascending walk.
Proof. unfold ascending, walk, xa_entry. simpl. repeat constructor. Qed.

Lemma shadow_table_round_trip_witness :
  wp (build_shadow 12 walk) [] (λ r _, ∃ sm, r = Some sm ∧
    (∀ i e, walk !! i = Some e →
       read_at MAX_CAPACITY_PER_TABLE (Z.of_nat i) (pt_map sm) = Some e.1 ∧
       get_va_at sm (Z.of_nat i) = Ok (pte_va e.1) ∧ shadow_mm_lookup sm (pte_va e.1) = Some e.2) ∧
    (∀ va, shadow_mm_lookup sm va ≠ None → ∃ e, e ∈ walk ∧ Z.shiftr (pte_va e.1) PAGE_SHIFT = Z.shiftr va PAGE_SHIFT) ∧
    (∀ i, Z.of_nat (length walk) ≤ i → get_va_at sm i = Halt "BUG_ON")).
Proof. apply (shadow_table_round_trip 12 walk []); [exact walk_ascending|by apply not_elem_of_nil]. Defined.

(** ** The error table *)

(** The events of a round that could not be applied. *)
Fixpoint insert_errors (tbl : option error_table) (failed : list (event_tag * ksm_event_log)) : M kalloc (Z * option error_table) :=
  match failed with
  | [] => mret (0, tbl)
  | (tag, log) :: rest =>
    r ← insert_error_log tbl tag log;
    if fst r =? 0 then insert_errors (snd r) rest else mret r
  end.

Lemma wp_insert_errors tbl L failed s (Q : Z * option error_table → kalloc → Prop) :
  log_tbl_repr (et_table tbl) L → false ∉ s →
  (∀ t s', log_tbl_repr t (L ++ ((λ p, retag p.1 p.2) <$> failed)) → Q (0, Some (ErrorTable t (et_registered tbl))) s') →
  wp (insert_errors (Some tbl) failed) s Q.
Proof.
  revert tbl L s. induction failed as [|[tag log] failed IH]; intros tbl L s Ht Hs HQ; cbn [insert_errors].
  - apply wp_ret. destruct tbl as [t n]. apply HQ. simpl in *. by rewrite app_nil_r.
  - wp_step. eapply wp_insert_error_log; [exact Ht|done|]. intros t s1 Ht1 Hs1. simpl.
    eapply IH; [exact Ht1|done|]. simpl. intros t' s' Ht'. apply HQ. by rewrite <- app_assoc in Ht'.
Qed.

(** C37: a round of the error table.  Whatever events fail, in whatever
    number, they are recorded in order, the payload untouched and the tag
    replaced; clearing stops as long as the count of registered events (not
    initialised in a new table: [junk]) is not the number of events; and once
    registered and unregistered it is cleared to an empty table that keeps its
    capacity, every scatterlist having been freed. *)
Theorem error_table_round array_page mr_of junk failed s :
  false ∉ s →
  wp (t ← create_error_table junk; insert_errors t failed) s (λ r _, ∃ tbl, r = (0, Some tbl) ∧
    (∀ i p, failed !! i = Some p → read_at MAX_RESULT_TABLE_ENTRIES (Z.of_nat i) (et_table tbl) = Some (retag p.1 p.2)) ∧
    (junk ≠ Z.of_nat (length failed) → clear_error_table tbl = Halt "Error table not fully registered") ∧
    let '(tbl', sgts, desc) := rdma_register_error_table array_page mr_of tbl in
    et_total_cnt desc = Z.of_nat (length failed) ∧ length (et_entries desc) = Z.to_nat (et_desc_cnt desc) ∧
    rdma_unregister_error_table tbl' sgts = Ok (length <$> sgts) ∧
    ∃ empty, clear_error_table tbl' = Ok empty ∧ log_tbl_repr (et_table empty) [] ∧
      tb_capacity (et_table empty) = tb_capacity (et_table tbl)).
Proof.
  intros Hs. destruct log_dims as [Hpp Hmx]. unfold create_error_table. wp_step. wp_step.
  apply wp_kmalloc. intros b1 s1 [-> Hs1]; [done|]. simpl. wp_step. apply wp_kmalloc. intros b2 s2 [-> Hs2]; [done|].
  simpl. wp_step. apply wp_kmalloc. intros b3 s3 [-> Hs3]; [done|]. simpl. wp_step.
  apply (wp_insert_errors _ []); [simpl; apply fresh_table_repr, Hpp|done|]. simpl. intros t s' Ht.
  pose proof (tr_cnt _ _ _ _ _ Ht) as Hcnt. rewrite length_fmap in Hcnt.
  exists (ErrorTable t junk). split; [done|]. split_and!; simpl; try done.
  - intros i p Hp. rewrite (tr_read _ _ _ _ _ Ht) by (rewrite length_fmap; by eapply lookup_lt_Some).
    by rewrite list_lookup_fmap, Hp.
  - intros Hne. unfold clear_error_table. simpl. rewrite Hcnt. by destruct (Z.eqb_spec junk (Z.of_nat (length failed))).
  - rewrite length_fmap. unfold register_chunks, chunks. by rewrite !length_fmap, length_seq.
  - apply unregister_register_chunks.
  - unfold clear_error_table. simpl. rewrite Z.eqb_refl. eexists. split; [done|]. split; [|done]. simpl.
    destruct Ht as [Ha _ Hf _]. split; simpl; [exact Ha|done|lia|intros i Hi; simpl in Hi; lia].
Qed.

Lemma error_table_round_witness :
  let failed := [(HOST_MERGE_ONE_FAILED, KsmEventLog DPU_STABLE_MERGE 4096 7 12 1);
                 (HOST_MERGE_TWO_FAILED, KsmEventLog DPU_UNSTABLE_MERGE 8192 40960 12 13)] in
  wp (t ← create_error_table 0; insert_errors t failed) [true; true] (λ r _, ∃ tbl, r = (0, Some tbl) ∧
    (∀ i p, failed !! i = Some p → read_at MAX_RESULT_TABLE_ENTRIES (Z.of_nat i) (et_table tbl) = Some (retag p.1 p.2)) ∧
    (0 ≠ Z.of_nat (length failed) → clear_error_table tbl = Halt "Error table not fully registered") ∧
    let '(tbl', sgts, desc) := rdma_register_error_table (λ k, 1000 * k) (λ _, ErrorTableDescEntry 1 4096) tbl in
    et_total_cnt desc = Z.of_nat (length failed) ∧ length (et_entries desc) = Z.to_nat (et_desc_cnt desc) ∧
    rdma_unregister_error_table tbl' sgts = Ok (length <$> sgts) ∧
    ∃ empty, clear_error_table tbl' = Ok empty ∧ log_tbl_repr (et_table empty) [] ∧
      tb_capacity (et_table empty) = tb_capacity (et_table tbl)).
Proof. apply error_table_round. set_solver. Defined.

(** The page of entry [n] of the table and the place of its array in memory. *)
Lemma error_page_at array_page n :
  0 ≤ n → error_page_of array_page (n * SIZEOF_KSM_EVENT_LOG / PAGE_SIZE) =
    array_page (n / MAX_RESULT_TABLE_ENTRIES) + (n mod MAX_RESULT_TABLE_ENTRIES) * SIZEOF_KSM_EVENT_LOG / PAGE_SIZE.
Proof.
  intros Hn. unfold error_page_of.
  change LOGS_PER_PAGE with 128. change MAX_RESULT_TABLE_ENTRIES with 131072. change PAGE_SIZE with 4096. change SIZEOF_KSM_EVENT_LOG with 32.
  assert (128 * (n * 32 / 4096) / 131072 = n / 131072) as ->.
  { pose proof (Z.div_mod n 131072 ltac:(lia)). pose proof (Z.mod_pos_bound n 131072 ltac:(lia)).
    pose proof (Z.div_mod (n * 32) 4096 ltac:(lia)). pose proof (Z.mod_pos_bound (n * 32) 4096 ltac:(lia)).
    symmetry. apply (Z.div_unique _ _ _ (128 * (n * 32 / 4096) - 131072 * (n / 131072))); lia. }
  f_equal. Z.div_mod_to_equations. lia.
Qed.

(** The memory regions of the error table present it as one array of
    entries: the registered pages, in order, are as many as the entries need,
    no scatterlist allocation exceeds the kernel's limit, and entry [n] lies at
    byte [n * 32] of the regions, on the page of the array it is stored in. *)
Theorem error_table_registered_contiguously array_page mr_of tbl L :
  log_tbl_repr (et_table tbl) L →
  let '(_, sgts, _) := rdma_register_error_table array_page mr_of tbl in
  Z.of_nat (length L) * SIZEOF_KSM_EVENT_LOG ≤ Z.of_nat (length (mjoin (sg_pages <$> sgts))) * PAGE_SIZE ∧
  Forall (λ sgt, Forall (λ c, Z.of_nat (length c) ≤ SG_CHUNK_SIZE) sgt) sgts ∧
  (∀ n, 0 ≤ n < Z.of_nat (length L) →
     mjoin (sg_pages <$> sgts) !! Z.to_nat (n * SIZEOF_KSM_EVENT_LOG / PAGE_SIZE) =
       Some (array_page (n / MAX_RESULT_TABLE_ENTRIES) + (n mod MAX_RESULT_TABLE_ENTRIES) * SIZEOF_KSM_EVENT_LOG / PAGE_SIZE)).
Proof.
  intros Ht. unfold rdma_register_error_table. rewrite (tr_cnt _ _ _ _ _ Ht).
  set (pages := error_pages (Z.of_nat (length L))).
  assert (Hp : Z.of_nat (length L) * 32 ≤ pages * 4096 ∧ 0 ≤ pages).
  { unfold pages, error_pages, div_round_up. change PAGE_SIZE with 4096. change SIZEOF_KSM_EVENT_LOG with 32.
    Z.div_mod_to_equations. lia. }
  rewrite register_chunks_pages by lia. split_and!.
  - rewrite length_fmap, length_seq. change PAGE_SIZE with 4096. change SIZEOF_KSM_EVENT_LOG with 32. lia.
  - unfold register_chunks. apply Forall_fmap, Forall_forall. intros i Hi. unfold chunks in Hi.
    apply list_elem_of_fmap in Hi as (k & -> & Hk%elem_of_seq). simpl. unfold register_sgl.
    apply build_sgl_length, sg_iters_enough, chunk_size_pos. lia.
  - intros n Hn. rewrite list_lookup_fmap, lookup_seq_lt; simpl.
    + rewrite Z2Nat.id; [by rewrite error_page_at by lia|]. apply Z.div_pos; unfold PAGE_SIZE, SIZEOF_KSM_EVENT_LOG; lia.
    + change PAGE_SIZE with 4096. change SIZEOF_KSM_EVENT_LOG with 32. Z.div_mod_to_equations. lia.
Qed.

(** A table of two events. *)
Definition two_failures : list (event_tag * ksm_event_log) :=
  [(HOST_MERGE_ONE_FAILED, KsmEventLog DPU_STABLE_MERGE 4096 7 12 1);
   (HOST_MERGE_TWO_FAILED, KsmEventLog DPU_UNSTABLE_MERGE 8192 40960 12 13)].

Definition fresh_error_table : error_table := ErrorTable (Table (Some [fresh_array LOGS_PER_PAGE]) 1 0 LOGS_PER_PAGE) 0.

Definition two_failures_table : error_table :=
  match insert_errors (Some fresh_error_table) two_failures [] with
  | Ok ((_, Some tbl), _) => tbl
  | _ => fresh_error_table
  end.

Lemma two_failures_repr : log_tbl_repr (et_table two_failures_table) ((λ p, retag p.1 p.2) <$> two_failures).
Proof.
  assert (wp (insert_errors (Some fresh_error_table) two_failures) [] (λ r _,
    ∃ tbl, r = (0, Some tbl) ∧ log_tbl_repr (et_table tbl) ((λ p, retag p.1 p.2) <$> two_failures))) as H.
  { apply (wp_insert_errors _ []); [apply fresh_table_repr, log_dims|by apply not_elem_of_nil|].
    intros t s' Ht. by exists (ErrorTable t 0). }
  unfold two_failures_table. unfold wp in H. destruct (insert_errors _ _ _) as [[r s']| |]; [|done..].
  by destruct H as (tbl & -> & Ht).
Qed.

Lemma error_table_registered_contiguously_witness :
  let '(_, sgts, _) := rdma_register_error_table (λ k, 1000 * k) (λ _, ErrorTableDescEntry 1 4096) two_failures_table in
  2 * SIZEOF_KSM_EVENT_LOG ≤ Z.of_nat (length (mjoin (sg_pages <$> sgts))) * PAGE_SIZE ∧
  Forall (λ sgt, Forall (λ c, Z.of_nat (length c) ≤ SG_CHUNK_SIZE) sgt) sgts ∧
  (∀ n, 0 ≤ n < 2 →
     mjoin (sg_pages <$> sgts) !! Z.to_nat (n * SIZEOF_KSM_EVENT_LOG / PAGE_SIZE) =
       Some (1000 * (n / MAX_RESULT_TABLE_ENTRIES) + (n mod MAX_RESULT_TABLE_ENTRIES) * SIZEOF_KSM_EVENT_LOG / PAGE_SIZE)).
Proof. exact (error_table_registered_contiguously (λ k, 1000 * k) (λ _, ErrorTableDescEntry 1 4096) two_failures_table _ two_failures_repr). Defined.

(** ** What the server reads from a registered table *)
Section served.
Context (items : positive → option kernel_item) (mr_of : list (list sg_entry) → desc_entry) (map_mr : list (Z * Z) → desc_entry).
(** The bytes of a page frame. *)
Context (contents : Z → page).

(** An RDMA read of [n] entries through the map's scatterlist: entry [i] is on
    the page of its place [i / 256]. *)
Definition dma_map (t : table shadow_pte) (n : Z) : option (list shadow_pte) :=
  mapM (λ i, '(a, first) ← map_sg t !! Z.to_nat (Z.of_nat i / PTES_PER_PAGE);
             read_at MAX_CAPACITY_PER_TABLE (a * MAX_CAPACITY_PER_TABLE + first + Z.of_nat i mod PTES_PER_PAGE) t)
       (seq 0 (Z.to_nat n)).

(** A read of [n] pages through a chunk's scatterlists. *)
Definition dma_pages (sgt : list (list sg_entry)) (n : Z) : option (list page) :=
  if bool_decide (n ≤ Z.of_nat (length (sg_pages sgt))) then Some (contents <$> take (Z.to_nat n) (sg_pages sgt)) else None.

(** The host's adapter resolves a descriptor entry to the chunk registered
    under it. *)
Definition host_serves (sm : shadow_mm) (sgts : list (list (list sg_entry))) : RdmaReads := {|
  read_map d := dma_map (pt_map sm) (ptd_entry_cnt d);
  read_pages ent n :=
    '(_, sgt) ← list_find (λ sgt, pages_rkey (mr_of sgt) = pages_rkey ent) sgts; dma_pages sgt n |}.
End served.

(** Blocks of [b] elements one after the other, the last perhaps shorter. *)
Lemma lookup_blocks {A} (f : Z → list A) (b n k r : nat) :
  (k < n)%nat → (∀ i, (i < k)%nat → length (f (Z.of_nat i)) = b) → (r < length (f (Z.of_nat k)))%nat →
  (i ← Z.of_nat <$> seq 0 n; f i) !! (k * b + r)%nat = f (Z.of_nat k) !! r.
Proof.
  intros Hk Hb Hr. replace n with (k + S (n - k - 1))%nat by lia. rewrite seq_app, fmap_app, bind_app. simpl.
  assert (length (i ← Z.of_nat <$> seq 0 k; f i) = k * b)%nat as Hl.
  { clear Hk Hr. induction k as [|k IH]; [done|]. rewrite seq_S, fmap_app, bind_app, length_app, IH by (intros; apply Hb; lia).
    simpl. rewrite app_nil_r, Hb by lia. lia. }
  rewrite lookup_app_r by lia. rewrite Hl. replace (k * b + r - k * b)%nat with r by lia. by rewrite lookup_app_l.
Qed.

(** Each page of the map is registered at its place. *)
Lemma map_sg_lookup t L n :
  pte_repr t L → 0 ≤ n < Z.of_nat (length L) →
  map_sg t !! Z.to_nat (n / PTES_PER_PAGE) =
    Some (n / MAX_CAPACITY_PER_TABLE, n mod MAX_CAPACITY_PER_TABLE / PTES_PER_PAGE * PTES_PER_PAGE).
Proof.
  intros [(front & a & j & Ha & Hf & Hj & Hlen & Hac & Hcap) Hcnt Hfit _] Hn. unfold map_sg. rewrite Hac.
  change MAX_CAPACITY_PER_TABLE with 131072 in *. change PTES_PER_PAGE with 256 in *.
  assert (0 < 2 ^ Z.of_nat j ≤ 512) as Hpow.
  { split; [apply Z.pow_pos_nonneg; lia|]. change 512 with (2 ^ Z.of_nat 9). apply Z.pow_le_mono_r; lia. }
  assert (Hq : 0 ≤ n / 131072 ≤ Z.of_nat (length front) ∧ n / 256 = n / 131072 * 512 + n mod 131072 / 256 ∧
    0 ≤ n mod 131072 / 256 < 512 ∧ (n / 131072 = Z.of_nat (length front) → n mod 131072 / 256 < 2 ^ Z.of_nat j)).
  { rewrite Hcap, Hlen in *. clear -Hfit Hcnt Hn Hpow. Z.div_mod_to_equations. lia. }
  destruct Hq as (Hq1 & Hq2 & Hq3 & Hq4).
  replace (Z.to_nat (n / 256)) with (Z.to_nat (n / 131072) * 512 + Z.to_nat (n mod 131072 / 256))%nat by lia.
  assert (Hsize : ∀ i, 0 ≤ i ≤ Z.of_nat (length front) →
    div_round_up (array_size t i) 256 = if decide (i = Z.of_nat (length front)) then 2 ^ Z.of_nat j else 512).
  { intros i Hi. unfold array_size. rewrite Hac, Hcap, Hlen. change MAX_CAPACITY_PER_TABLE with 131072.
    destruct (decide (i = Z.of_nat (length front))) as [->|Hne].
    - rewrite (proj2 (Z.eqb_eq _ _)) by lia. unfold div_round_up. Z.div_mod_to_equations. lia.
    - rewrite (proj2 (Z.eqb_neq _ _)) by lia. done. }
  assert (Hr : Z.of_nat (Z.to_nat (n mod 131072 / 256)) < div_round_up (array_size t (n / 131072)) 256).
  { rewrite Hsize by done. case_decide; lia. }
  rewrite lookup_blocks.
  - rewrite !Z2Nat.id by lia. rewrite list_lookup_fmap, lookup_seq_lt by lia. simpl. by rewrite Z2Nat.id by lia.
  - lia.
  - intros i Hi. rewrite length_fmap, length_seq, Hsize by lia. rewrite decide_False by lia. done.
  - rewrite Z2Nat.id, length_fmap, length_seq by lia. lia.
Qed.

(** The map the server reads is the list of the entries. *)
Lemma dma_map_read t L : pte_repr t L → dma_map t (Z.of_nat (length L)) = Some L.
Proof.
  intros Ht. unfold dma_map. rewrite Nat2Z.id. apply mapM_Some_2. apply Forall2_lookup. intros i.
  destruct (decide (i < length L)%nat) as [Hi|Hi].
  - rewrite lookup_seq_lt by done. destruct (lookup_lt_is_Some_2 L i Hi) as [e He]. rewrite He. constructor.
    rewrite (map_sg_lookup _ _ _ Ht) by lia. simpl.
    assert (∀ n, n / 131072 * 131072 + n mod 131072 / 256 * 256 + n mod 256 = n) as Hn.
    { intros n. Z.div_mod_to_equations. lia. }
    change MAX_CAPACITY_PER_TABLE with 131072. change PTES_PER_PAGE with 256. rewrite Hn.
    rewrite <- He. by apply (tr_read _ _ _ _ _ Ht).
  - rewrite lookup_seq_ge, lookup_ge_None_2 by lia. constructor.
Qed.

(** The pages of the entries, in order. *)
Definition frames (items : positive → option kernel_item) (es : list (shadow_pte * positive)) : list Z :=
  omap (λ e, ki_page <$> items e.2) es.

(** One chunk presents its part of the pages. *)
Lemma chunk_pages (pages : list Z) sgl_idx :
  0 ≤ sgl_idx < sgl_num (Z.of_nat (length pages)) →
  let size := chunk_size (Z.of_nat (length pages)) sgl_idx in
  sg_pages (register_sgl (λ i, default 0 (pages !! Z.to_nat (sgl_idx * MAX_PAGES_IN_SGL + i))) size)
    = take (Z.to_nat size) (drop (Z.to_nat (sgl_idx * MAX_PAGES_IN_SGL)) pages) ∧
  sgl_idx * MAX_PAGES_IN_SGL + size ≤ Z.of_nat (length pages).
Proof.
  intros Hi size. pose proof (chunk_size_pos _ _ Hi) as Hs. fold size in Hs.
  assert (sgl_idx * MAX_PAGES_IN_SGL + size ≤ Z.of_nat (length pages)) as Hle.
  { unfold size, chunk_size, sgl_num, div_round_up in *. change MAX_PAGES_IN_SGL with 65536 in *.
    destruct (Z.eqb_spec sgl_idx ((Z.of_nat (length pages) + 65536 - 1) / 65536 - 1)); Z.div_mod_to_equations; lia. }
  split; [|done]. rewrite register_sgl_pages by lia. unfold MAX_PAGES_IN_SGL in *.
  apply list_eq. intros i. rewrite list_lookup_fmap. destruct (decide (i < Z.to_nat size)%nat) as [Hlt|Hge].
  - rewrite lookup_seq_lt, lookup_take_lt, lookup_drop by done. simpl.
    replace (Z.to_nat (sgl_idx * 65536 + Z.of_nat i)) with (Z.to_nat (sgl_idx * 65536) + i)%nat by lia.
    destruct (lookup_lt_is_Some_2 pages (Z.to_nat (sgl_idx * 65536) + i) ltac:(lia)) as [x ->]. done.
  - rewrite lookup_seq_ge, lookup_take_ge by lia. done.
Qed.

(** The reads of a table's pages, chunk by chunk. *)
Lemma host_chunks_readable mr_of contents sm pages desc :
  let sgts := register_chunks (λ i, default 0 (pages !! Z.to_nat i)) (Z.of_nat (length pages)) in
  (∀ x y, x ∈ sgts → y ∈ sgts → pages_rkey (mr_of x) = pages_rkey (mr_of y) → x = y) →
  ptd_entry_cnt desc = Z.of_nat (length pages) → ptd_desc_entries desc = mr_of <$> sgts →
  ∀ n, (n ≤ Z.to_nat (sgl_num (Z.of_nat (length pages))))%nat →
  let idx := sgl_num (Z.of_nat (length pages)) - Z.of_nat n in
  @chunks_readable (host_serves mr_of contents sm sgts) desc n idx (contents <$> drop (Z.to_nat (idx * MAX_PAGES_IN_SGL)) pages).
Proof.
  intros sgts Hkeys Hcnt Hent. remember (Z.of_nat (length pages)) as total eqn:Htot.
  induction n as [|n IH]; intros Hn idx; cbn [chunks_readable].
  - rewrite drop_ge; [done|]. unfold idx, sgl_num, div_round_up, MAX_PAGES_IN_SGL. Z.div_mod_to_equations. lia.
  - assert (0 ≤ idx < sgl_num total) as Hidx by lia.
    pose proof Hidx as Hidx'. rewrite Htot in Hidx'. destruct (chunk_pages pages idx Hidx') as [Hpg Hle]. rewrite <- Htot in Hpg, Hle. pose proof (chunk_size_pos _ _ Hidx) as Hsz.
    assert (0 ≤ idx * MAX_PAGES_IN_SGL) as Hnn by (unfold MAX_PAGES_IN_SGL; lia).
    change (this_sgl_size (ptd_entry_cnt desc) idx) with (chunk_size (ptd_entry_cnt desc) idx). rewrite Hcnt.
    set (sgt := register_sgl (λ i, default 0 (pages !! Z.to_nat (idx * MAX_PAGES_IN_SGL + i))) (chunk_size total idx)) in *.
    assert (Hs : sgts !! Z.to_nat idx = Some sgt).
    { unfold sgts, register_chunks, chunks. rewrite !list_lookup_fmap, lookup_seq_lt by lia. simpl. by rewrite Z2Nat.id by lia. }
    exists (mr_of sgt). rewrite Hent, list_lookup_fmap, Hs. split_and!; [done|lia| |rewrite length_fmap, length_drop; lia|].
    + cbn [read_pages host_serves]. destruct (list_find _ sgts) as [[k x]|] eqn:Ef.
      * apply list_find_Some in Ef as (Hx & Hkey & _). simpl in Hkey.
        assert (x = sgt) as -> by (apply Hkeys; [by eapply list_elem_of_lookup_2..|done]).
        cbn. unfold dma_pages. rewrite Hpg, length_take, length_drop. rewrite bool_decide_eq_true_2 by lia.
        by rewrite take_idemp, fmap_take.
      * apply list_find_None in Ef. rewrite Forall_forall in Ef. destruct (Ef sgt); [by eapply list_elem_of_lookup_2|done].
    + rewrite <- fmap_drop, drop_drop. specialize (IH ltac:(lia)). cbv zeta in IH.
      replace (idx + 1) with (sgl_num total - Z.of_nat n) by lia. destruct n as [|n]; [|].
      { cbn [chunks_readable]. rewrite drop_ge; [done|]. simpl in IH. apply (f_equal length) in IH.
        rewrite length_fmap, length_drop in IH. simpl in IH.
        assert (sgl_num total - 0 = idx + 1) as Hi1 by lia. unfold chunk_size.
        rewrite (proj2 (Z.eqb_eq _ _)) by lia. lia. }
      replace (Z.to_nat (idx * MAX_PAGES_IN_SGL) + Z.to_nat (chunk_size total idx))%nat
        with (Z.to_nat ((sgl_num total - Z.of_nat (S n)) * MAX_PAGES_IN_SGL)); [exact IH|].
      unfold chunk_size. rewrite (proj2 (Z.eqb_neq _ _)) by lia. unfold idx, MAX_PAGES_IN_SGL. lia.
Qed.

(** What the host registers is what the server's scan reads.  For a table
    built from a page walk, registration succeeds; reading the descriptor's
    map and, chunk by chunk, its pages through the registered scatterlists
    serves every read the scan makes of it, the map being the walk and the
    pages those of the walk's rmap items, in the same order; and freeing the
    scatterlists afterwards frees each of them once. *)
Lemma host_tables_readable items mr_of map_mr contents sm es e0 :
  shadow_built sm es → ascending es →
  Forall (λ e, ∃ it, items e.2 = Some it ∧ page_mask (ki_address it) = pte_va e.1) es →
  map_pages_cnt (pt_map sm) < MAX_PAGES_IN_SGL → es !! 0%nat = Some e0 → pte_va e0.1 ≠ 0 →
  ∃ sgts map desc, register_shadow_mm items mr_of map_mr sm = Ok (sgts, map, desc) ∧
    ((∀ x y, x ∈ sgts → y ∈ sgts → pages_rkey (mr_of x) = pages_rkey (mr_of y) → x = y) →
     @readable (host_serves mr_of contents sm sgts) desc es.*1 (contents <$> frames items es)) ∧
    ptd_mm_id desc = sm_mm_id sm ∧ free_shadow_sgls sm sgts = Ok (length <$> sgts).
Proof.
  intros Hb Ha Hi Hmax H0 Hva. pose proof (built_wf _ _ _ Hb Ha Hi) as Hwf.
  destruct (register_shadow_mm_ok items mr_of map_mr sm es Hwf Hmax) as (sgts & Hreg & Hpg & Hfree).
  do 3 eexists. split; [exact Hreg|]. split; [|by split].
  pose proof (omap_items_length _ _ _ Hwf) as Hlen. fold (frames items es) in Hlen, Hpg.
  intros Hkeys. split; simpl.
  - rewrite <- (length_fmap fst). by apply dma_map_read, Hb.
  - by rewrite length_fmap.
  - by rewrite !length_fmap, Hlen.
  - exists e0.1. by rewrite list_lookup_fmap, H0.
  - assert (sgts = register_chunks (λ i, default 0 (frames items es !! Z.to_nat i)) (Z.of_nat (length (frames items es)))) as ->.
    { unfold register_shadow_mm in Hreg. destruct (next_pages _ _ _ _ _) as [pages| |] eqn:En; [|done..].
      rewrite (tr_cnt _ _ _ _ _ (sb_table _ _ Hb)), length_fmap, Nat2Z.id, (sb_xa _ _ Hb), xa_order_list in En by exact Ha.
      pose proof (next_pages_ok _ _ _ (length es) Hwf ltac:(lia)) as Hn. rewrite Nat.sub_diag, drop_0 in Hn.
      change (Z.of_nat 0) with 0 in Hn. rewrite Hn in En. injection En as <-. fold (frames items es) in Hreg.
      rewrite (tr_cnt _ _ _ _ _ (sb_table _ _ Hb)), length_fmap, <- Hlen in Hreg.
      revert Hreg. case_match; [done|]. case_match; [done|]. by intros [= <- _]. }
    rewrite <- Hlen in *. change (sgl_nums ?x) with (sgl_num x).
    pose proof (host_chunks_readable mr_of contents sm (frames items es) (ShadowPtDescriptor (sm_mm_id sm) (pages_rkey (map_mr (map_sg (pt_map sm))))
                  (pages_base_addr (map_mr (map_sg (pt_map sm)))) (mr_of <$> register_chunks (λ i, default 0 (frames items es !! Z.to_nat i)) (Z.of_nat (length (frames items es)))) (Z.of_nat (length (frames items es))))
                  Hkeys eq_refl eq_refl _ (Nat.le_refl _)) as Hch.
    cbv zeta in Hch. revert Hch. 
    assert (0 ≤ sgl_num (Z.of_nat (length (frames items es)))) by (apply Z.div_pos; unfold MAX_PAGES_IN_SGL; lia).
    rewrite Z2Nat.id, Z.sub_diag by lia. simpl. by rewrite drop_0.
Qed.
