(* ===== verification/ClientProps.v ===== *)
(** * ClientProps: the host's connection, its rounds and its single operations

    What a connection attempt leaves behind, how the result table of a round
    reaches the host and gives its buffers back, and what the two
    single-operation requests return, served by the server of the
    repository. *)
From S2P Require Import Prelude Wire HashPair Growable Shadow Client Scan Server Examples ConnProps.
Open Scope Z_scope.

(** [c] when every call succeeds and [l] is what the network does. *)
Definition arriving (l : list moment) (c : client) : client :=
  Client (cb_state c) (cb_mode c) (live c) (qp_ptr c) (cq_entries c) (c_result_desc c) (single_op_desc_tx c)
    (single_op_result_rx c) (pool c) (op_iteration c) (posted c) [] l.







(** Before the first connection. *)
Definition unconnected (m : offload_mode) (rets : list Z) (irqs : list moment) : client :=
  Client KSM_IDLE m ∅ false [] (ResultDesc 0 0 0 0) (OperationDescriptor PAGE_COMPARE 0 0 0 0) (OperationResult PAGE_COMPARE 0 0)
    (fst (huge_alloc_init (replicate 128 true))) 0 [] rets irqs.


(** ** The results of a round *)

(** The server's message arrived on a working connection, and no buffer of an
    earlier round is still out. *)
Record result_arrived (c : client) : Prop := ResultArrived {
  ra_state : cb_state c = KSM_RDMA_RECV_COMPLETE;
  ra_qp : qp_ptr c = true;
  ra_live : CQp ∈ live c;
  ra_cq : cq_entries c = [];
  ra_pool : pool_ok (pool c);
  ra_used : used (pool c) = 0 }.

(** [remote] serves the [L] entries of the server's table. *)
Definition serves_log (remote : Z → Z → Z → list ksm_event_log) (rd : result_desc) (L : list ksm_event_log) : Prop :=
  rd_log_cnt rd = Z.of_nat (length L) ∧
  ∀ a n, 0 ≤ a → 0 ≤ n → a + n ≤ Z.of_nat (length L) →
    remote (rd_rkey rd) (rd_result_table_addr rd + a * SIZEOF_KSM_EVENT_LOG) (SIZEOF_KSM_EVENT_LOG * n)
    = take (Z.to_nat n) (drop (Z.to_nat a) L).

(** [result_recv], then [free_result_table] when its events were applied. *)
Definition receive_and_free (remote : Z → Z → Z → list ksm_event_log) (pages : Z) : M client (option result_table * Z) :=
  r ← result_recv remote pages;
  match fst r with None => mret r | Some t => free_result_table t ;; mret r end.

Definition result_tables (rd : result_desc) : Z := div_round_up (rd_log_cnt rd) MAX_RESULT_TABLE_ENTRIES.

(** C39: the host receives the server's log whole.  However many reads the
    log takes, up to the 128 reserved buffers, the tables read are the entries
    of the server's log, in order and complete; the scanned pages are added to
    the host's count; the receive for the next round is posted; and once the
    events were applied, every buffer is back in the pool. *)
Theorem result_log_received remote pages c L l :
  result_arrived c → serves_log remote (c_result_desc c) L →
  result_tables (c_result_desc c) ≤ MAX_HUGE_ALLOC →
  wp (receive_and_free remote pages)
    (arriving (replicate (Z.to_nat (result_tables (c_result_desc c))) read_done ++ l) c)
    (λ r c', ∃ t, r = (Some t, u64 (pages + rd_total_scanned_cnt (c_result_desc c))) ∧
       mjoin (entry_tables t).*2 = L ∧ total_cnt t = Z.of_nat (length L) ∧
       tables_cnt t = Z.of_nat (length (entry_tables t)) ∧
       pool_free (pool c') ≡ₚ pool_free (pool c) ∧ used (pool c') = 0 ∧
       last (posted c') = Some (PostRecv WR_RECV_RESULT) ∧ irqs c' = l).
Proof.
  destruct c as [st m lv qp cq rd tx rx pl it po re ir]. intros [Hst Hqp Hlv Hcq Hp Hu] [Hcnt Hrem] Hmax. simpl in *. subst.
  unfold arriving, receive_and_free. simpl. unfold result_tables in *.
  set (tables := div_round_up (rd_log_cnt rd) MAX_RESULT_TABLE_ENTRIES) in *.
  assert (0 ≤ tables) as H0 by (apply Z.div_pos; unfold MAX_RESULT_TABLE_ENTRIES; [rewrite Hcnt|]; change (KMALLOC_MAX_SIZE / SIZEOF_KSM_EVENT_LOG) with 131072; lia).
  wp_step. apply wp_result_recv; [done|done|done|fold tables; destruct Hp; lia|]. fold tables.
  intros bufs st' pl' po' Hl Hp' Hperm Hu'. simpl. pose proof (remote_parts remote rd L Hrem Hcnt) as HL. cbv zeta in HL. fold tables in HL.
  set (parts := remote_part remote rd tables <$> _) in *.
  assert (length bufs = length parts) as Hlen by (unfold parts; by rewrite !length_fmap, length_seq).
  wp_step. apply wp_free_result_table; simpl; [done|rewrite length_zip_with; lia|].
  intros p Hpp Hup Hpf. wp_step. eexists. split; [reflexivity|]. simpl.
  rewrite snd_zip, HL by lia. rewrite fst_zip in Hpf by lia. split_and!; [done|done| |by rewrite Hpf, Hperm|done| |done].
  - rewrite length_zip_with. lia.
  - by rewrite last_snoc.
Qed.

(** A result of two events on a connection. *)
Definition two_events : list ksm_event_log :=
  [KsmEventLog DPU_STABLE_MERGE 4096 7 12 1; KsmEventLog DPU_UNSTABLE_MERGE 8192 40960 12 13].

Definition receiving : client :=
  Client KSM_RDMA_RECV_COMPLETE KSM_OFFLOAD {[CQp; CCq; CPd; CCmId]} true [] (ResultDesc 30 2 9 65536)
    (OperationDescriptor PAGE_COMPARE 0 0 0 0) (OperationResult PAGE_COMPARE 0 0)
    (fst (huge_alloc_init (replicate 128 true))) 0 [] [] [].

Definition serving_two (_ addr len : Z) : list ksm_event_log :=
  take (Z.to_nat (len / 32)) (drop (Z.to_nat ((addr - 65536) / 32)) two_events).

Lemma result_log_received_witness :
  wp (receive_and_free serving_two 100)
    (arriving (replicate (Z.to_nat (result_tables (ResultDesc 30 2 9 65536))) read_done ++ []) receiving)
    (λ r c', ∃ t, r = (Some t, u64 (100 + 30)) ∧
       mjoin (entry_tables t).*2 = two_events ∧ total_cnt t = 2 ∧
       tables_cnt t = Z.of_nat (length (entry_tables t)) ∧
       pool_free (pool c') ≡ₚ pool_free (pool receiving) ∧ used (pool c') = 0 ∧
       last (posted c') = Some (PostRecv WR_RECV_RESULT) ∧ irqs c' = []).
Proof.
  apply (result_log_received serving_two 100 receiving two_events []).
  - split; [done|done|unfold receiving; simpl; set_solver|done|split; by vm_compute|done].
  - split; [done|]. intros a n Ha Hn Hle. unfold serving_two. simpl.
    change SIZEOF_KSM_EVENT_LOG with 32. replace (32 * n / 32) with n by (rewrite Z.mul_comm, Z.div_mul; lia).
    by replace ((65536 + a * 32 - 65536) / 32) with a by (replace (65536 + a * 32 - 65536) with (a * 32) by lia; rewrite Z.div_mul; lia).
  - by vm_compute.
Defined.

(** ** The single operations, end to end *)
Lemma s32_range z : - 2 ^ 31 ≤ s32 z < 2 ^ 31.
Proof.
  unfold wrap_s, wrap_u. change (2 ^ (32 - 1)) with 2147483648. change (2 ^ 31) with 2147483648. change (2 ^ 32) with 4294967296.
  pose proof (Z.mod_pos_bound (z + 2147483648) 4294967296 ltac:(lia)). lia.
Qed.

(** The low half of the result's word. *)
Lemma or_value_u64 cmd id z : or_value (OperationResult cmd id (u64 z)) = s32 z.
Proof.
  unfold or_value. simpl. unfold wrap_s, wrap_u. change (2 ^ (32 - 1)) with 2147483648. change (2 ^ 32) with 4294967296.
  change (2 ^ 64) with 18446744073709551616. Z.div_mod_to_equations. lia.
Qed.

(** A connection on which a request may be made. *)
Record request_ready (c : client) : Prop := RequestReady {
  rr_qp : qp_ptr c = true; rr_live : CQp ∈ live c; rr_cq : cq_entries c = [] }.

(** The registration, the server's answer and whatever follows. *)
Definition answered (r : operation_result) (l : list moment) : list moment := reg_done :: Later :: op_answer r :: l.

Lemma wp_styx_answered rkey iova cmd pages strict c r l :
  request_ready c →
  wp (styx_alloc true true (styx_request rkey iova cmd pages strict)) (arriving (answered r l) c) (λ v c',
    v = or_value r ∧ PostSendOp (request cmd (op_iteration c) rkey iova pages) ∈ posted c' ∧
    last (posted c') = Some (PostInvalidate rkey) ∧ irqs c' = l).
Proof.
  destruct c as [st m lv qp cq rd tx rx pl it po re ir]. intros [Hq Hl Hc]. simpl in *. subst.
  unfold arriving, answered, styx_alloc. repeat (wp_step; cbn [Z.eqb negb]). apply wp_styx_request; [done|].
  split_and!; [done| |simpl; by rewrite last_snoc|done]. simpl. rewrite !elem_of_app. set_solver.
Qed.

Section end_to_end.
Context `{XXHash} `{Memcmp} (read : Z → Z → Z → option (list Z)).

(** C40: the single operations, end to end.  The request the host posts makes
    the server answer; from that answer [styx_memcmp] returns zero exactly
    when the two registered pages are equal, and [styx_hash] the low 32 bits of
    the page's hash sign-extended to 64, which is the hash itself only if it
    fits a signed [int]; in both cases the memory region is invalidated
    afterwards. *)
Theorem styx_end_to_end c l rkey iova p1 p2 rkey' iova' p :
  request_ready c →
  read rkey iova (PAGE_SIZE * 2) = Some (p1 ++ p2) → length p1 = 4096%nat → length p2 = 4096%nat →
  read rkey' iova' PAGE_SIZE = Some p → length p = 4096%nat →
  (∃ r, serve_single read (request PAGE_COMPARE (op_iteration c) rkey iova 2) = Ok r ∧
     wp (styx_memcmp rkey iova true true) (arriving (answered r l) c) (λ v c',
       (v = 0 ↔ p1 = p2) ∧ PostSendOp (request PAGE_COMPARE (op_iteration c) rkey iova 2) ∈ posted c' ∧
       last (posted c') = Some (PostInvalidate rkey) ∧ irqs c' = l)) ∧
  (∃ r, serve_single read (request PAGE_HASH (op_iteration c) rkey' iova' 1) = Ok r ∧
     wp (styx_hash rkey' iova' true true) (arriving (answered r l) c) (λ v c',
       v = u64 (s32 (XXH64 p 0)) ∧
       (- 2 ^ 31 ≤ XXH64 p 0 < 2 ^ 64 → v = u64 (XXH64 p 0) ↔ XXH64 p 0 < 2 ^ 31 ∨ 2 ^ 64 - 2 ^ 31 ≤ XXH64 p 0) ∧
       last (posted c') = Some (PostInvalidate rkey') ∧ irqs c' = l)).
Proof.
  intros Hc Hr Hl1 Hl2 Hr' Hl. split.
  - eexists. split; [unfold serve_single, request; simpl od_cmd; simpl od_page_num; simpl od_rkey; simpl od_iova; cbn iota; simpl (negb _); cbn iota; rewrite Hr; reflexivity|].
    eapply wp_mono; [apply wp_styx_answered, Hc|]. intros v c' (-> & Hp & Hi & Hirq). split_and!; [|done..].
    unfold or_value. simpl. rewrite s32_u32 by apply memcmp_int.
    rewrite take_app_length', drop_app_length', (take_ge p2) by lia. apply memcmp_zero. lia.
  - eexists. split; [unfold serve_single, request; simpl od_cmd; simpl od_page_num; simpl od_rkey; simpl od_iova; cbn iota; simpl (negb _); cbn iota; rewrite Hr'; reflexivity|].
    unfold styx_hash. wp_step. eapply wp_mono; [apply wp_styx_answered, Hc|]. intros v c' (-> & Hp & Hi & Hirq). wp_step.
    rewrite take_ge, or_value_u64 by lia.
    split_and!; [done| |done|done]. intros Hb. unfold wrap_s, wrap_u.
    change (2 ^ (32 - 1)) with 2147483648. change (2 ^ 31) with 2147483648 in *. change (2 ^ 32) with 4294967296. change (2 ^ 64) with 18446744073709551616 in *.
    Z.div_mod_to_equations. lia.
Qed.
End end_to_end.

(** The two pages at 28672 differ; the one at 4096 is hashed. *)
Definition pages_at (_ iova len : Z) : option (list Z) :=
  Some ((λ i, ((iova + Z.of_nat i) / 4096) mod 256) <$> seq 0 (Z.to_nat len)).

Definition requesting : client :=
  Client KSM_CONNECTED SINGLE_OPERATION_OFFLOAD {[CQp; CCq; CPd; CCmId]} true [] (ResultDesc 0 0 0 0)
    (OperationDescriptor PAGE_COMPARE 0 0 0 0) (OperationResult PAGE_COMPARE 0 0)
    (fst (huge_alloc_init (replicate 128 true))) 7 [] [] [].

Definition buf (n len : Z) : list Z := (λ i, ((n * 4096 + Z.of_nat i) / 4096) mod 256) <$> seq 0 (Z.to_nat len).

Lemma styx_end_to_end_witness :
  (∃ r, serve_single pages_at (request PAGE_COMPARE 7 1 28672 2) = Ok r ∧
     wp (styx_memcmp 1 28672 true true) (arriving (answered r []) requesting) (λ v c',
       (v = 0 ↔ take 4096 (buf 7 8192) = drop 4096 (buf 7 8192)) ∧ PostSendOp (request PAGE_COMPARE 7 1 28672 2) ∈ posted c' ∧
       last (posted c') = Some (PostInvalidate 1) ∧ irqs c' = [])) ∧
  (∃ r, serve_single pages_at (request PAGE_HASH 7 2 4096 1) = Ok r ∧
     wp (styx_hash 2 4096 true true) (arriving (answered r []) requesting) (λ v c',
       v = u64 (s32 (XXH64 (buf 1 4096) 0)) ∧
       (- 2 ^ 31 ≤ XXH64 (buf 1 4096) 0 < 2 ^ 64 →
          v = u64 (XXH64 (buf 1 4096) 0) ↔ XXH64 (buf 1 4096) 0 < 2 ^ 31 ∨ 2 ^ 64 - 2 ^ 31 ≤ XXH64 (buf 1 4096) 0) ∧
       last (posted c') = Some (PostInvalidate 2) ∧ irqs c' = [])).
Proof.
  apply (styx_end_to_end pages_at requesting [] 1 28672 (take 4096 (buf 7 8192)) (drop 4096 (buf 7 8192)) 2 4096 (buf 1 4096)).
  - split; [done|unfold requesting; simpl; set_solver|done].
  - by rewrite take_drop.
  - unfold buf. rewrite length_take, length_fmap, length_seq. done.
  - unfold buf. rewrite length_drop, length_fmap, length_seq. done.
  - done.
  - unfold buf. by rewrite length_fmap, length_seq.
Defined.

(** ** Failures the connection loop does not survive *)

(** Four events end the retry loop instead of being retried.  An
    [ESTABLISHED] that is handled before the thread has set the state back to
    [KSM_CONNECT_REQUEST] is lost and the thread waits for ever; so it does
    when [rdma_resolve_route] fails; a failed [rdma_create_qp] is reported as
    success and its NULL queue pair is used; and a failed [rdma_create_id] is
    followed by [rdma_destroy_id] of the error pointer. *)
Theorem connect_failures_not_survived m fuel :
  m ≠ NO_OFFLOAD →
  create_connection true (S fuel)
    (unconnected m [] [Irq (Cma CM_ADDR_RESOLVED); Irq (Cma CM_ROUTE_RESOLVED); Irq (Cma CM_ESTABLISHED)]) = Halt "waits forever" ∧
  create_connection true (S fuel) (unconnected m [0; 0; -22] [Irq (Cma CM_ADDR_RESOLVED)]) = Halt "waits forever" ∧
  create_connection true (S fuel)
    (unconnected m [0; 0; 0; 0; 0; 0; -12] [Irq (Cma CM_ADDR_RESOLVED); Irq (Cma CM_ROUTE_RESOLVED)]) = Fault "cb->qp is NULL" ∧
  create_connection true (S fuel) (unconnected m [-12] []) = Fault "rdma_destroy_id of an error pointer".
Proof. intros Hm. destruct m; [done|by split_and!; vm_compute..]. Qed.

Lemma connect_failures_not_survived_witness :
  create_connection true 4
    (unconnected KSM_OFFLOAD [] [Irq (Cma CM_ADDR_RESOLVED); Irq (Cma CM_ROUTE_RESOLVED); Irq (Cma CM_ESTABLISHED)]) = Halt "waits forever" ∧
  create_connection true 4 (unconnected KSM_OFFLOAD [0; 0; -22] [Irq (Cma CM_ADDR_RESOLVED)]) = Halt "waits forever" ∧
  create_connection true 4
    (unconnected KSM_OFFLOAD [0; 0; 0; 0; 0; 0; -12] [Irq (Cma CM_ADDR_RESOLVED); Irq (Cma CM_ROUTE_RESOLVED)]) = Fault "cb->qp is NULL" ∧
  create_connection true 4 (unconnected KSM_OFFLOAD [-12] []) = Fault "rdma_destroy_id of an error pointer".
Proof. exact (connect_failures_not_survived KSM_OFFLOAD 3 ltac:(done)). Defined.
