(* ===== verification/KsmProps.v ===== *)
(** * KsmProps: applying the server's log

    The host's daemon between the scan and the next round: whatever the log
    says, what processes see and what the daemon's tree records stay right,
    and what was not done is reported. *)
From S2P Require Import Prelude Wire HashPair Growable Shadow Store LogTable Metadata Merge MetadataInv MetadataSpec MergeSpec PruneSpec Scan ScanSpec ErrorHandling Server Examples HostMem HostTree HostTreeInv HostMerge HostApply HostSafe HostMergeSafe HostApplySafe HostTrack HostTrackInsert HostTrackLink HostTrackMerge HostTrackApply HostReturns HostReturnsMerge HostReturnsApply HostExact HostAgree HostExamples.
Open Scope Z_scope.

(** ** Shared lemmas *)

(** Nothing taken is kept: references and locks are as before. *)
Definition balanced (h h' : host) : Prop :=
  ∀ p fr, frames (h_mem h) !! p = Some fr → ∃ fr', frames (h_mem h') !! p = Some fr' ∧
    fr_kref fr' = fr_kref fr ∧ (fr_lock fr' = LockedByKsmd ↔ fr_lock fr = LockedByKsmd).

Lemma from_balanced h h' : from h [] [] h' → balanced h h'.
Proof.
  intros Hk p fr Hp. destruct (from_frame _ _ _ _ _ _ Hk Hp) as (fr' & Hp' & [F1 F2 _]). exists fr'. rewrite occ_nil in F1.
  split_and!; [done|lia|]. set_solver.
Qed.

(** The daemon between two rounds: its error table holds [L0], nothing is half
    done, no allocation will fail. *)
Definition at_rest (L0 : list ksm_event_log) (h : host) : Prop := track (Served L0) [] (sharing (h_ksm h)) 0 h.

(** A page's node is alive and is the node of that page. *)
Definition pages_named (h : host) : Prop :=
  ∀ p fr n, frames (h_mem h) !! p = Some fr → fr_mapping fr = MapKsm (Some n) →
    ∃ nd, knodes (h_ksm h) !! n = Some nd ∧ is_stable_node_chain nd = false ∧ kn_kpfn nd = p.

Lemma toy_two_items : Forall (two_items toy_shadow) [toy_merge].
Proof. apply Forall_singleton. intros _ i Hi. vm_compute in Hi. injection Hi as <-. by vm_compute. Qed.



(** ** The theorems *)

(** C5: merging is invisible.  Whatever the log names, in whatever order, and
    whatever the processes do meanwhile, after [apply_result] every mapped
    address still reads what its process last stored there, only exclusive
    pages are writable and KSM pages are neither, and every page reference and
    page lock taken on the way was given back. *)
Theorem apply_result_keeps_memory `{RbTree} `{Memcmp} `{MmFault} shadow_pt_list result h :
  safe h → scanned shadow_pt_list h →
  pwp (apply_result shadow_pt_list result) h (λ _ h',
    coherent (h_mem h') (user h') ∧ mem_ok (h_mem h') ∧ balanced h h').
Proof.
  intros Hs Hsc. eapply pwp_mono; [by apply (keeps_apply_result shadow_pt_list h Hsc), safe_from|].
  intros ? h' Hk. split_and!; [apply Hk|apply Hk|by apply from_balanced].
Qed.

Lemma apply_result_keeps_memory_witness :
  pwp (apply_result toy_shadow [toy_merge]) toy_host (λ _ h',
    coherent (h_mem h') (user h') ∧ mem_ok (h_mem h') ∧ balanced toy_host h').
Proof. apply (apply_result_keeps_memory toy_shadow [toy_merge] toy_host); [apply toy_safe|apply toy_scanned]. Defined.

(** C13: the stable tree stays sound.  If no unstable merge names one item
    twice, [apply_result] keeps the invariant of KSM's structures (items and
    nodes, chains and duplicates point to each other, the tree holds exactly
    the nodes linked in it, lengths, counters and [anon_vma] references are
    those of the lists), and every KSM page still names a live node that
    records its frame. *)
Theorem apply_result_keeps_ksm `{RbTree} `{Memcmp} `{MmFault} shadow_pt_list result L0 h :
  safe h → scanned shadow_pt_list h → Forall (two_items shadow_pt_list) result → at_rest L0 h →
  pwp (apply_result shadow_pt_list result) h (λ _ h', ksm_ok 0 (h_ksm h') ∧ pages_named h').
Proof.
  intros Hs Hsc HL Ht. eapply pwp_mono; [by apply (replayed_result (Served L0) ltac:(done) shadow_pt_list h Hsc [] (sharing (h_ksm h)) 0); [|apply safe_from|]|].
  intros ? h' (outcomes & V' & _ & Ht' & _). split; [apply Ht'|exact (tk_frames _ _ _ _ _ Ht')].
Qed.

Lemma apply_result_keeps_ksm_witness :
  pwp (apply_result toy_shadow [toy_merge]) toy_host (λ _ h', ksm_ok 0 (h_ksm h') ∧ pages_named h').
Proof.
  apply (apply_result_keeps_ksm toy_shadow [toy_merge] [] toy_host);
    [apply toy_safe|apply toy_scanned|apply toy_two_items|apply toy_track].
Defined.







(** C14: a stable merge happens exactly when it may.  On a quiet machine, for
    a log entry that names an unlisted item whose page is an anonymous base
    page mapped writable or dirty, and a KSM page whose node has room,
    [apply_stable_merge] returns; it merges if and only if the page tables,
    the swap cache and the one scan are the only holders of the page and the
    contents are equal.  Then the address maps the KSM page read-only and the
    item heads the node's list; otherwise the entry keeps its page, the tree
    is unchanged and the server is told. *)
Theorem apply_stable_merge_exact `{RbTree} `{Memcmp} `{MmFault} l e h L0 i n p a v it nd fr qfr en :
  stable_ready l e h L0 i n p a v it nd fr qfr en → mem_ok (h_mem h) →
  wp (apply_stable_merge l e) h (λ o h', stable_done h L0 e i n p a it nd fr qfr en o h' ∧
    (o = StableMerged ↔ only_mapped fr = true ∧ fr_content fr = fr_content qfr) ∧
    (o = StableMerged → ptes (h_mem h') !! (ki_mm it, a) = Some (Pte (sm_kpfn e) false false 0)) ∧
    (o ≠ StableMerged → ∃ en', ptes (h_mem h') !! (ki_mm it, a) = Some en' ∧ pte_pfn en' = p)).
Proof.
  intros Hr Hok. eapply wp_mono; [by eapply wp_apply_stable_merge_quiet|]. intros o h' Hd. split; [done|].
  destruct Hd as [-> Hpt _ _ _ _ _]. rewrite Hpt, lookup_insert_eq. unfold entry_after.
  assert (same_bytes fr qfr = true ↔ fr_content fr = fr_content qfr) as Hsb.
  { unfold same_bytes. rewrite Z.eqb_eq. apply memcmp_zero. eapply (mo_size _ Hok); [apply (sr_candidate _ _ _ _ _ _ _ _ _ _ _ _ _ _ Hr)|apply Hr]. }
  pose proof (cd_pfn _ _ _ _ _ _ _ (sr_candidate _ _ _ _ _ _ _ _ _ _ _ _ _ _ Hr)).
  destruct (only_mapped fr); simpl; [destruct (same_bytes fr qfr)|]; split_and!; try done; try tauto.
  all: try (split; [done|]; intros [? E]; first [by apply Hsb in E|done]).
  all: intros _; first [by exists (protect en)|by exists en].
Qed.

Lemma toy_stable_ready :
  stable_ready toy_shadow4 toy_stable toy_host4 [] 4%positive 1%positive 13 4096 (toy_vma 4) (KItem 4 4096 (PageField (Some 13)) 0 None)
    toy_node (toy_frame [7] 4) toy_target (Pte 13 true false 0).
Proof.
  split; try by vm_compute.
  - eexists. split; [done|apply fresh_table_repr, log_dims].
  - simpl. set_solver.
Qed.

Lemma apply_stable_merge_exact_witness :
  wp (apply_stable_merge toy_shadow4 toy_stable) toy_host4 (λ o h',
    stable_done toy_host4 [] toy_stable 4%positive 1%positive 13 4096 (KItem 4 4096 (PageField (Some 13)) 0 None) toy_node
      (toy_frame [7] 4) toy_target (Pte 13 true false 0) o h' ∧
    (o = StableMerged ↔ only_mapped (toy_frame [7] 4) = true ∧ fr_content (toy_frame [7] 4) = fr_content toy_target) ∧
    (o = StableMerged → ptes (h_mem h') !! (4, 4096) = Some (Pte 11 false false 0)) ∧
    (o ≠ StableMerged → ∃ en', ptes (h_mem h') !! (4, 4096) = Some en' ∧ pte_pfn en' = 13)).
Proof.
  exact (apply_stable_merge_exact toy_shadow4 toy_stable toy_host4 [] _ _ _ _ _ _ _ _ _ _ toy_stable_ready toy_mem4_ok).
Defined.


