(* ===== verification/DaemonProps.v ===== *)
(** * DaemonProps: the daemon on the host

    What holds of the daemon over all its iterations, whatever the processes
    and the server do: the state it keeps, the references it takes, what it
    lists and what the server reads of it, and how everything is undone. *)
From S2P Require Import Prelude Wire HashPair Growable Shadow Scatter Store Metadata MergeSpec Scan Server Examples HostMem HostTree HostTreeInv HostMerge HostApply HostScan HostDaemon HostSafe HostTrack HostAgree HostScanInv HostScanWalk HostScanMm HostScanRound HostScanIter HostScanQuiet HostUnmerge HostReturns HostTrackApply HostScanReturns HostReturnsApply HostRoundReturns Advisor AdvisorProps LocalScan LocalScanPass LocalReturns HostSteps HostExamples DaemonExamples HostProps KsmProps.
Open Scope Z_scope.

(** ** The state of the daemon *)



(** C12: the scan without a server is invisible too.  Once the server is gone
    the daemon compares and merges by itself, in batches that leave the cursor
    anywhere in the list.  Whatever the processes do meanwhile and however the
    advisor's files are written between two batches, every mapped address reads
    what its process last stored there, only exclusive pages are writable, all
    page references and locks taken were given back.  As long as the advisor's
    variables are within their types, every batch comes to an end: no pointer
    is dangling, no [BUG_ON] fires, no lock is taken twice, no search runs out of
    rounds, no division is by 0; and it processes at most the pages asked for.
    When the cursor is back at the head of the list, the daemon is at rest: list,
    items, stable tree, unstable tree and counters fit together, and no item is
    left that carries the number of the pass to come.  Pages are not merged with
    the zero page. *)
Theorem local_scan_keeps_memory `{RbTree} `{Memcmp} `{MmFault} chains_prune page_struct calc_checksum zero_checksum ktime runtime ls ls' n :
  ready (lc_scan ls) → cursor ls = None → is_ksm_offload (h_ksm (lc_host ls)) = false → ksm_use_zero_pages (config (lc_host ls)) = false →
  rtc (local_step chains_prune page_struct calc_checksum zero_checksum ktime runtime) ls ls' →
  coherent (h_mem (lc_host ls')) (user (lc_host ls')) ∧ mem_ok (h_mem (lc_host ls')) ∧ balanced (lc_host ls) (lc_host ls') ∧
  (cursor ls' = None → ready (lc_scan ls') ∧ unstable_ok false (h_ksm (lc_host ls'))) ∧
  (pace_ok (lc_pace ls') →
   wp (local_do_scan chains_prune page_struct calc_checksum zero_checksum ktime runtime n) ls' (λ r ls2, pace_ok (lc_pace ls2) ∧ 0 ≤ r ≤ Z.max 0 n)).
Proof.
  intros Hr Hc Hoff Hz Hs. destruct (paused_steps _ _ _ _ _ _ _ _ Hs (paused_at_head _ Hr Hc Hoff) Hz) as [Hp Hf].
  split_and!; [apply Hf|apply Hf|exact (from_balanced _ _ Hf)| |].
  - intros Hc'. by apply paused_alone.
  - intros Hpo. eapply wp_mono; [apply (wp_local_do_scan _ _ _ _ _ _ n ls' Hp Hpo)|]; [by rewrite (fm_config _ _ _ _ Hf)|]. by intros r ls2 (_ & ? & ?).
Qed.

Lemma local_scan_keeps_memory_witness :
  ready toy_deserted ∧ balanced (sc_host toy_deserted) (lc_host toy_alone) ∧ ready (lc_scan toy_alone) ∧
  returns (local_do_scan 100 (λ p, p) toy_checksum 0 Z.of_nat (λ _, 0) 10) toy_alone.
Proof.
  destruct (local_scan_keeps_memory 100 (λ p, p) toy_checksum 0 Z.of_nat (λ _, 0) (at_head_of toy_deserted) toy_alone 10)
    as (_ & _ & Hb & Hr & Hd); [apply toy_deserted_ready|by vm_compute..|exact toy_batches|].
  split_and!; [apply toy_deserted_ready|exact Hb| |].
  - apply Hr. by vm_compute.
  - eapply returns_wp, Hd. rewrite toy_alone_pace. exact default_pace_ok.
Defined.

(** ** References *)







(** ** The lists *)




(** ** What the server reads *)






(** ** Unmerging *)

(** With no items there is nothing on the lists of nodes. *)
Lemma no_items_no_sharing k : ksm_ok 0 k → kitems k = ∅ → ksm_pages_shared (counters k) = 0 ∧ ksm_pages_sharing (counters k) = 0.
Proof.
  intros Hk E. assert (Hnil : ∀ n nd, knodes k !! n = Some nd → is_stable_node_chain nd = false → kn_hlist nd = []).
  { intros n nd Hn Hc. destruct (ko_node _ _ Hk n nd Hn Hc) as (_ & _ & Hall). destruct (kn_hlist nd) as [|i l]; [done|].
    destruct (Hall i ltac:(set_solver)) as (it & Hi & _). by rewrite E in Hi. }
  assert (Hz : ∀ f, (∀ nd, is_stable_node_chain nd = true ∨ kn_hlist nd = [] → f nd = 0) → msum f (knodes k) = 0).
  { intros f Hf. assert (∀ n nd, knodes k !! n = Some nd → f nd = 0) as Hall.
    { intros n nd Hn. apply Hf. destruct (is_stable_node_chain nd) eqn:Hc; [by left|right; by eapply Hnil]. }
    clear -Hall. induction (knodes k) as [|n nd N Hn _ IH] using map_first_key_ind; [apply msum_empty|].
    rewrite msum_insert by done. rewrite (Hall n nd) by apply lookup_insert_eq. rewrite IH; [done|].
    intros m md Hm. apply (Hall m). rewrite lookup_insert_ne; congruence. }
  destruct (ko_counted _ _ Hk) as [-> -> _ _ _]. unfold nshared, nsharing.
  rewrite !Hz; [done|..].
  all: intros nd [Hc|Hc]; rewrite Hc; [done|by destruct (is_stable_node_chain nd)].
Qed.

(** C10: writing 2 to [run] returns and undoes everything.  The daemon is at rest
    after it; when the write succeeds, no process has an item left, the counters of
    items, of shared pages and of pages sharing them are 0; when it fails, the
    daemon is stopped. *)
Theorem run_store_unmerges `{RbTree} `{Memcmp} `{MmFault} signals run s :
  ready s → run ≠ KSM_RUN_UNMERGE →
  wp (run_store signals run KSM_RUN_UNMERGE) s (λ r s', ready s' ∧
    (if r.2 =? 0 then r.1 = KSM_RUN_UNMERGE ∧ all_unmerged s' ∧
       ksm_pages_shared (counters (h_ksm (sc_host s'))) = 0 ∧ ksm_pages_sharing (counters (h_ksm (sc_host s'))) = 0
     else r.1 = KSM_RUN_STOP)).
Proof.
  intros Hr Hrun. apply wp_returns; [by apply returns_run_store|].
  eapply pwp_mono; [exact (pwp_and _ _ _ _ (ready_run_store signals run KSM_RUN_UNMERGE s Hr) (run_store_run signals run s Hrun))|].
  intros r s' ([Hr' Hu] & Hrr). split; [done|]. destruct (Z.eqb_spec r.2 0) as [E|]; [|done].
  specialize (Hu Hrun ltac:(done) ltac:(done) E). split_and!; [done|done|..].
  all: destruct (rd_track _ Hr') as (L & _ & Ht); destruct Hu as (_ & Hi & _); apply fmap_empty_inv in Hi;
    by apply (no_items_no_sharing _ (tk_ksm _ _ _ _ _ Ht) Hi).
Qed.

(** The server was gone, nothing was merged. *)
Definition toy_alone : scan_st :=
  state_of (ksm_do_scan toy_owner toy_mr toy_map_mr (λ k, k) toy_et_mr (λ _ _, None) toy_start) toy_start.

Lemma toy_alone_ready : ready toy_alone.
Proof.
  unfold toy_alone. assert (Hn : honest (λ _ _, None)) by done.
  pose proof (pwp_ksm_do_scan (sc_host toy_start) toy_owner toy_mr toy_map_mr (λ k, k) toy_et_mr (λ _ _, None) toy_start toy_start_ready eq_refl eq_refl Hn) as Hp.
  unfold state_of. unfold pwp in Hp. destruct (ksm_do_scan _ _ _ _ _ _ _) as [[ok s']| |]; [apply Hp|apply toy_start_ready..].
Qed.

Lemma run_store_unmerges_witness :
  wp (run_store [] KSM_RUN_MERGE KSM_RUN_UNMERGE) toy_alone (λ r s', ready s' ∧
    (if r.2 =? 0 then r.1 = KSM_RUN_UNMERGE ∧ all_unmerged s' ∧
       ksm_pages_shared (counters (h_ksm (sc_host s'))) = 0 ∧ ksm_pages_sharing (counters (h_ksm (sc_host s'))) = 0
     else r.1 = KSM_RUN_STOP)).
Proof. apply run_store_unmerges; [apply toy_alone_ready|done]. Defined.

(** C20: [remove_all_stable_nodes] returns.  As many rounds as there are nodes
    suffice, no pointer is dangling and no [BUG_ON] fires on the way: it empties
    the tree or ends at a node whose page is in use. *)
Theorem remove_all_stable_nodes_terminates `{RbTree} `{Memcmp} `{MmFault} L0 V h :
  safe h → unlocked h → track L0 [] V 0 h →
  wp (remove_all_stable_nodes (size (knodes (h_ksm h)))) h (λ r h', safe h' ∧
    ((r = Some 0 ∧ root_stable_tree (h_ksm h') = RbLeaf) ∨ r = Some (- EBUSY))).
Proof.
  intros Hs Hu Ht. apply wp_returns; [apply (returns_remove_all h L0 Hu); split; [by apply from_refl|by exists V]|].
  eapply pwp_mono; [apply (rest_remove_all h L0); [split; [by apply from_refl|by exists V]|done]|].
  intros r h' [[Hf _] Hr]. split; [by eapply from_safe|done].
Qed.

Lemma remove_all_stable_nodes_terminates_witness :
  wp (remove_all_stable_nodes (size (knodes (h_ksm (sc_host toy_alone))))) (sc_host toy_alone) (λ r h', safe h' ∧
    ((r = Some 0 ∧ root_stable_tree (h_ksm h') = RbLeaf) ∨ r = Some (- EBUSY))).
Proof.
  destruct (rd_track _ toy_alone_ready) as (L & _ & Ht).
  exact (remove_all_stable_nodes_terminates L _ (sc_host toy_alone) (rd_safe _ toy_alone_ready) (rd_unlocked _ toy_alone_ready) Ht).
Defined.
